(* ===== verification/_CoqProject ===== *)
-Q . S2P
Prelude.v
LuaJson.v
GoStrings.v
GoUrl.v
Net.v
Base64.v
Manifest.v
Blur.v
SoftMask.v
ImageMeta.v
GoList.v
Http.v
GoIO.v
Middleware.v
LuaAuth.v
ManifestCache.v
ManifestSharing.v
FileCache.v
FileCacheContent.v
Grant.v
Cid.v
GrantState.v
Playlist.v
Player.v
UnpinStore.v
Worker.v
MediaAccess.v
Cluster.v
ClusterStorage.v
Config.v
ImageProc.v
Delivery.v
Crop.v
Stream.v
FaceMasks.v
Transcode.v
Upload.v
Lifecycle.v
Caches.v
EndToEnd.v
Startup.v
Uploader.v
VideoUpload.v
TranscodeSlots.v
EndToEndVideo.v
PublicConfig.v
Server.v
Main.v
