(* ===== verification/Prelude.v ===== *)
(** * A verification of the media storage service

    The service stores pictures, videos and other files as bundles in a cluster
    of IPFS nodes and serves renditions of them to viewers a platform
    authorises.  This development models the service from the chain of middlewares
    to the cluster: who is let in and shown what, what an upload is turned into,
    what is kept and what is deleted, and what the caches and the cluster do about
    it.  Everything is a shallow embedding of the Go sources
    under [src/]: a function per function, a constructor per constant, the
    guards and early returns in their order.

    ** The program and its parts

    A request passes the chain of middlewares - CORS, security headers, the rate
    limit, authentication by key or by a sandboxed script - and is routed by its
    method and path.  An upload is read within its limits, checked, stripped of its
    metadata, and turned into a bundle with its renditions and its two masks, one
    blurred whole and one blurred over the faces; a video is transcoded, its posters
    are masked, and its playlists are rewritten so that they name content by
    identifier.

    A request for [/file/<cid>], [/file/link/<id>], [/stream/<cid>] or
    [/stream/link/<id>] reaches a handler.  The handler resolves a _delivery
    decision_ (which source, original or blurred or blurred faces, which crop)
    from the platform's policy service or from a sealed grant, checks that the
    decision is about the resource asked for, reads the bundle's manifest through
    a cache, chooses the rendition, reads it through a disk cache from any node of
    the cluster and answers with headers that keep an upload inert.  Grants are
    encrypted claims whose revocation state is kept in Redis.  Deleting marks
    files in a soft-delete list that a collector empties later.

    The files, each after those it needs:

    - [Prelude]: fallible computations ([result]), Go's integers at their width
      ([int64], [uint64]), prefixes of executions ([steps]), and the lemmas and
      tactics the components share ([by_vm] evaluates a closed equation, [by_dec]
      decides a closed proposition).
    - [GoStrings], [GoUrl], [Base64], [GoList]: what the service uses of Go's
      [strings], [strconv], [path], [net/url], [encoding/base64], [encoding/hex]
      and [container/list], as executable functions on byte strings and lists,
      with the round trips and lengths the components need.
    - [Manifest] ([internal/bundle/manifest.go]): the bundle's record.
    - [Net]: the host of a parsed URL, and ranges of IP addresses, of [net/url] and
      [net].
    - [ImageMeta], [Blur], [ImageProc] ([internal/imageproc]): removing EXIF and its
      like from JPEG, PNG and WebP originals, with parsers of the three container
      formats as its specification; the box blur and the soft face masks on pixels;
      and the renditions drawn of a picture.
    - [SoftMask]: the face masks against the exact geometry of an ellipse, under laws
      of rounding.
    - [ManifestCache], [FileCache] ([internal/handler/manifest_cache.go],
      [file_cache.go]): the two caches.  The shared state is a record, each
      critical section a function on it, and a run is any sequence of them with
      any outcome of the file-system calls.
    - [FileCacheContent]: the transitions of [FileCache] with what the files hold
      beside their lengths, byte for byte, and what a reader is sent of them.
    - [ManifestSharing]: the maps inside manifests on a heap, since the cache, its
      flights and the callers share them.
    - [Grant], [GrantState] ([internal/mediagrant/grant.go], [state.go]): the
      sealed capability and its revocation state.
    - [Cid], [Playlist], [MediaAccess] ([internal/handler/media_resource.go],
      [media_access.go], [media_grants.go], the playlist functions of
      [video_handler.go]): from a request to a decision.
    - [Player]: what a player reads of the rewritten playlists.
    - [UnpinStore], [Worker] ([internal/store], [internal/unpin/worker.go]): the
      soft-delete list and the map of replaced renditions; the collector's round
      undisturbed, as goroutines whose steps the handlers come between, and beside the
      goroutines in which a deletion unpins at once.
    - [Cluster], [ClusterStorage] ([internal/ipfs]): one node's client and the cluster
      manager; the manager as the storage the handlers read, and what the other
      operations do to it.
    - [Config] ([internal/config/config.go]): the configuration.
    - [Http], [GoIO]: requests, responses, the storage as the handlers see it; and
      readers as they are read in pieces, which [Http.ReadAll] summarises.
    - [Middleware], [LuaAuth] ([internal/middleware], [internal/auth]):
      authentication, CORS, headers and the rate limit; what an authorisation script
      is given and what it can reach.
    - [LuaJson] ([internal/auth/lua/json.go]): JSON values carried to Lua and back.
    - [Delivery] ([internal/handler/handler.go], [fit_preview.go]): the file handlers
      and the soft delete.
    - [Crop] ([internal/handler/delivery_crop.go]): the frame of an avatar; it
      discharges [Crops], and the drawing part of [Content] with [ImageProc].
    - [Stream], [FaceMasks] ([internal/handler/video_handler.go], [face_masks.go]):
      the streaming handlers and the refresh of face masks.
    - [Upload] ([internal/handler/handler.go], [upload_request.go],
      [upload_budget.go], [upload_errors.go], [helpers.go]): single and multiple
      uploads, the daily budget and the localised errors.
    - [Lifecycle]: theorems about a file from upload to collection, across [Upload],
      [Delivery] and [Worker].
    - [Caches] ([readManifest] and [readFile] of [internal/handler/handler.go]): both
      caches in front of a cluster that goes on, as one transition system whose
      invariant is that what they hold is what the cluster answers.
    - [EndToEnd]: a picture from the form through the cluster to its readers, across
      [Upload], [ClusterStorage], [Caches] and [Delivery].
    - [Startup] ([NewHandler] of [internal/handler/handler.go], [media_access.go],
      [media_grants.go]): what the service starts with, given its configuration and
      the machine.
    - [Transcode], [Uploader] ([internal/video]): validation and the arguments of
      [ffmpeg]; storing the files it made and writing the playlists.
    - [VideoUpload] ([internal/handler/video_handler.go], [video_privacy.go]): a video
      from the form to the cluster, and its masked posters.
    - [TranscodeSlots] ([upload_budget.go], [video_handler.go]): the handlers of many
      uploads as goroutines over the channel of transcoding slots, with their deferred
      release.
    - [EndToEndVideo]: a video from the form through the cluster to its players, across
      [VideoUpload], [ClusterStorage] and [Stream].
    - [PublicConfig] ([internal/handler/config_handler.go]): the public configuration.
    - [Server], [Main] ([cmd/server/main.go]): the routes and the chain in front of them;
      from the environment to the service.

    ** Interfaces

    Code outside the repository is a type class whose instances the theorems are
    parametric in, with a concrete instance in the [Toy] module of the file for
    the witnesses.  [Crypto] is AES-GCM, SHA-256, JSON and the system's random
    source, and [CryptoLaws] says that opening undoes sealing and that what opens
    was sealed; [CidLib] is [go-cid], and [CidLaws] that a decoded identifier has
    one string per version; [Kubo] is the RPC client, and [KuboLaws] what adding,
    pinning and removing do to a node, [KuboReads] and [KuboKeeps] that a path names
    content for good and only removing a pin takes it away; [Storage] is the cluster as the handlers
    read it; [Crops] reads frames ([Crop] has the code's reader, over [CropFloats]);
    [Numbers] parses floats and durations, [Floats] and [Float64] compute with them
    ([Float64Laws] says how [Float64] rounds);
    [Authority] is the host syntax of URLs ([Net] has the one of [net/url]);
    [Content] and [Ingest] are sniffing and JSON of manifests, and the drawing of
    previews, which [Crop] does with [ImageProc]; [Codecs] is decoding,
    scaling, encoding and the face detector; [System] and [Disk] are [ffmpeg],
    [ffprobe] and the temporary directory, a map from paths to contents whose
    operations may fail ([DiskLaws]: a walk lists each file once); [IPFSAdder] adds
    a file, depending on what was added before; [Ranges] is the order a Go map is
    ranged in, any permutation; [Limiter] is a token bucket; [LuaVM] is the
    interpreter, a script being the tree of its library calls, and [Outside] the
    network and the environment it runs in ([LuaJson] has its [json] library, over
    [Numbers] and [Tables], the entries of a table under assignment in any order).
    The policy service is a function [policy] from requests to replies.  A random
    value, the clock, a lost connection and a failed write are arguments of the
    operations they affect, so a theorem covers every outcome.

    ** What is shown

    The numbered comments [C1], [C2], ... are the properties of the development, in the
    order of their importance; in groups:

    - privacy of delivery: what a hidden video's upload stores under a mask's name
      is that mask, and is what its viewers get ([hidden_poster_is_its_mask]); a
      masked picture's answer does not depend on the original
      ([masked_hides_original]), nor does a framed one's on what lies outside the
      frame ([frame_hides_the_rest]); a hidden video shows only its masked poster
      ([hidden_video_shows_only_its_mask]); a decision authorises its own resource
      only ([decision_bound_to_resource]); answers are inert and uncached;
    - access: nothing is reached without a credential ([credentials_needed],
      [authentication_sound]) and what counts as one is what the environment says
      ([environment_lets_in]), a script stays in its sandbox ([script_sandboxed]),
      addresses do not spend each other's allowance;
    - the whole way: a picture that was accepted is answered, as itself or as its mask
      ([uploaded_picture_is_served]), and a player is led to every file ffmpeg made of a
      video ([uploaded_video_plays]), by a cluster that is the handlers' storage
      ([cluster_is_storage]);
    - uploads: what is kept of one ([upload_stores]), that every bundle is
      well-formed for good ([store_well_formed]), that metadata goes and nothing
      else ([metadata_stripped]) on every input in bounded time ([stripping_ends]),
      that what is read and counted does not depend on the pieces it comes in
      ([counted_read]), the exact budget, independence of files sent together, limits of videos;
    - pictures: the blur is a windowed mean ([blur_is_windowed_mean]) and hides the
      faces and nothing else ([face_masks]), and masks drawn again are served
      ([refresh_redraws_faces]);
    - videos: the written playlists read back ([uploaded_video_reads_back]), the
      addition of every file is accounted for ([upload_accounts]), the addresses below
      a link resolve ([linked_addresses_resolve]), the ladder;
    - grants: validity, round trip, and the permanence of revocation under any
      interleaving of services ([revoke_is_permanent], [mutation_exclusive]);
    - deletion: authority, refusal of grants, groups ([delete_cuts_off]), and the
      retention time under any interleaving ([collector_respects_retention]);
    - start-up: wrong configuration closes the service ([startup_fails_closed]);
    - caches: refinement to a recency list, byte and entry budgets, integrity of
      what is served ([hit_is_whole]), and of manifests whose maps are shared
      ([sharing_is_invisible]); that neither is ever stale is a lemma of the whole way,
      which supposes that SHA-256 tells the names of the files asked for apart;
    - cluster: what success on all nodes means ([cluster_add_everywhere]), and what a
      failure leaves behind ([failed_add_lingers]);
    - videos at once: two, each with a slot it gives back ([transcodes_bounded]);
    - configuration: what is clamped, chosen or parsed is inside its bounds ([load_safe]);
    - what the code does against its own comments or its purpose ([denied_link_plays],
      [torn_write_forgets], [reupload_stays_deleted] and, below the numbered ones,
      [redirect_unchecked], [deleted_by_spelling], [webp_masks_lost],
      [second_header_unmetered], [local_url_unused], [interval_panics],
      [repeated_deletion_lost], [restart_is_dead], [access_token_unmetered],
      [fill_loses_orientation], [private_ranges_exact], [frame_dropped]).

    ** Bounds and fuel

    Loops of the source that are bounded by construction take that bound as
    fuel: the caches' eviction by the length of their list, the loading rounds by
    the number of environments, the byte loops of [ImageMeta] by the length of the
    file since every round consumes a byte, the recursion of a masked preview by
    the depth of the redirection.  Where fuel could run out the theorems are
    stated of the function with the fuel the code's entry point passes, and their
    conclusions are false of a function that ran out.  Integers are [Z]; where
    the source can overflow the wrap-around is written.

    ** What is not modelled

    Decoding, scaling and encoding of pictures, the face detector and [ffmpeg] are
    third-party or processes of their own, and parameters.  So are the HTTP server
    below its router, the connection to Redis, the token bucket and the Lua
    interpreter; a Lua table that contains itself, on which the conversion to JSON
    does not end, is no value of [LuaJson].  A panic is modelled where a handler can reach one (a nil map
    in the mask refresh, an empty list in the caches) and where it matters that deferred
    calls still run ([TranscodeSlots]); its recovery, an answer 500, is not.  The memory layout of shared Go values is only modelled where
    goroutines share it: the caches, the manifests they give out, the budget, the
    visitors, the soft-delete list.  Logging, metrics, the diagnostic listener and listening are I/O.
    *)

From Stdlib Require Export ZArith Lia Ascii.
From stdpp Require Export base tactics numbers option pretty strings gmap fin_maps list.

(** * Fallible computations

    The Go functions modelled here return [(value, error)].  [result E A] keeps
    the two outcomes apart; the bind runs the continuation on success only,
    which is the [if err != nil { return }] idiom of the source. *)

Inductive result (E A : Type) : Type :=
| Ok (a : A)
| Err (e : E).
Arguments Ok {E A} a.
Arguments Err {E A} e.

#[export] Instance result_ret {E} : MRet (result E) := fun A a => Ok a.
#[export] Instance result_bind {E} : MBind (result E) := fun A B f m =>
  match m with Ok a => f a | Err e => Err e end.
#[export] Instance result_fmap {E} : FMap (result E) := fun A B f m =>
  match m with Ok a => Ok (f a) | Err e => Err e end.

Definition is_ok {E A} (r : result E A) : bool :=
  match r with Ok _ => true | Err _ => false end.

Definition of_option {E A} (e : E) (o : option A) : result E A :=
  match o with Some a => Ok a | None => Err e end.

(** * Machine integers *)

(** [int64 z] is the value a Go [int64] holds after an operation whose exact
    result is [z] (two's complement wrap-around; [int] has this width on the
    64-bit targets the service is built for). *)
Definition int64 (z : Z) : Z := ((z + 2 ^ 63) mod 2 ^ 64 - 2 ^ 63)%Z.

(** [uint64 z] is the same for Go's [uint64]. *)
Definition uint64 (z : Z) : Z := (z mod 2 ^ 64)%Z.

Definition in_int64 (z : Z) : Prop := (- 2 ^ 63 <= z < 2 ^ 63)%Z.

(** Sum of an integer measure over a list. *)
Fixpoint zsum {A} (f : A -> Z) (l : list A) : Z :=
  match l with
  | [] => 0
  | a :: l' => f a + zsum f l'
  end%Z.

(** The same over the values of a map. *)
Definition map_sum {K A} `{Countable K} (f : A -> Z) (m : gmap K A) : Z :=
  map_fold (fun _ a n => f a + n)%Z 0%Z m.

(** Reflexive-transitive execution of labelled steps: [steps R s ls s'] runs the
    labels [ls] in order.  Components with interleaved callers are step
    relations whose labels are the atomic (mutex-protected) operations. *)
Inductive steps {S L : Type} (R : S -> L -> S -> Prop) : S -> list L -> S -> Prop :=
| steps_nil s : steps R s [] s
| steps_cons s l s1 ls s2 : R s l s1 -> steps R s1 ls s2 -> steps R s (l :: ls) s2.

(** * Automation *)

Create HintDb storage.
Create Rewrite HintDb storage.

(** Case analysis on every [match] and [decide] in sight, closing the
    contradictory branches. *)
Ltac go_cases :=
  repeat (case_match || case_decide); simplify_eq/=.

(** Case on the outermost test of the left-hand side of [_ = _ -> _], closing the
    branches that contradict the equation. *)
Ltac go_if H :=
  lazymatch goal with
  | |- (if ?b then _ else _) = _ -> _ => destruct b eqn:H; try done
  | |- match ?o with _ => _ end = _ -> _ => destruct o eqn:H; try done
  end.

(** Turn boolean tests of the source into propositions. *)
Ltac go_bools :=
  repeat match goal with
  | H : _ && _ = true |- _ => apply andb_true_iff in H as [? ?]
  | H : _ || _ = false |- _ => apply orb_false_iff in H as [? ?]
  | H : negb _ = true |- _ => apply negb_true_iff in H
  | H : negb _ = false |- _ => apply negb_false_iff in H
  | H : bool_decide _ = true |- _ => apply bool_decide_eq_true in H
  | H : bool_decide _ = false |- _ => apply bool_decide_eq_false in H
  | H : (_ <=? _)%Z = true |- _ => apply Z.leb_le in H
  | H : (_ <=? _)%Z = false |- _ => apply Z.leb_gt in H
  | H : (_ <? _)%Z = true |- _ => apply Z.ltb_lt in H
  | H : (_ <? _)%Z = false |- _ => apply Z.ltb_ge in H
  | H : (_ =? _)%Z = true |- _ => apply Z.eqb_eq in H
  | H : (_ =? _)%Z = false |- _ => apply Z.eqb_neq in H
  | H : (_ <=? _)%nat = true |- _ => apply Nat.leb_le in H
  | H : (_ <=? _)%nat = false |- _ => apply Nat.leb_gt in H
  | H : (_ <? _)%nat = true |- _ => apply Nat.ltb_lt in H
  | H : (_ <? _)%nat = false |- _ => apply Nat.ltb_ge in H
  | H : (_ =? _)%nat = true |- _ => apply Nat.eqb_eq in H
  | H : (_ =? _)%nat = false |- _ => apply Nat.eqb_neq in H
  end.

(** Closed equations by evaluation. *)
Ltac by_vm :=
  lazymatch goal with
  | |- @eq ?T ?a ?b => vm_cast_no_check (@eq_refl T b)
  end.

(** Decidable closed propositions by evaluation. *)
Ltac by_dec := refine (bool_decide_unpack _ _); vm_compute; exact I.

(** Run the bind of a successful computation backwards. *)
Ltac go_inv H :=
  match type of H with
  | (_ ≫= _) = Ok _ => unfold mbind, result_bind in H; case_match; [go_inv H | discriminate H]
  | Ok _ = Ok _ => inversion H; subst; clear H
  | _ => idtac
  end.

(** * Generic lemmas *)

Lemma int64_id z : in_int64 z -> int64 z = z.
Proof. unfold in_int64, int64. intros H. rewrite Z.mod_small; lia. Qed.

Lemma int64_range z : in_int64 (int64 z).
Proof. unfold in_int64, int64. pose proof (Z.mod_pos_bound (z + 2 ^ 63) (2 ^ 64)). lia. Qed.

Lemma uint64_id z : (0 <= z < 2 ^ 64)%Z -> uint64 z = z.
Proof. intros. by apply Z.mod_small. Qed.

Lemma uint64_range z : (0 <= uint64 z < 2 ^ 64)%Z.
Proof. apply Z.mod_pos_bound. lia. Qed.

Lemma zsum_app {A} (f : A -> Z) l1 l2 : zsum f (l1 ++ l2) = (zsum f l1 + zsum f l2)%Z.
Proof. induction l1; simpl; lia. Qed.

Lemma zsum_nonneg {A} (f : A -> Z) l : (forall a, a ∈ l -> 0 <= f a)%Z -> (0 <= zsum f l)%Z.
Proof.
  induction l as [|a l IH]; simpl; intros H; [lia|].
  pose proof (H a (list_elem_of_here _ _)).
  assert (forall b, b ∈ l -> (0 <= f b)%Z) by (intros; apply H; by apply list_elem_of_further).
  specialize (IH ltac:(done)). lia.
Qed.

Lemma zsum_perm {A} (f : A -> Z) l1 l2 : l1 ≡ₚ l2 -> zsum f l1 = zsum f l2.
Proof. induction 1; simpl; lia. Qed.

Lemma zsum_bound {A} (f : A -> Z) l B :
  (forall a, a ∈ l -> f a <= B)%Z -> (zsum f l <= Z.of_nat (length l) * B)%Z.
Proof.
  induction l as [|a l IH]; simpl; intros H; [lia|].
  pose proof (H a (list_elem_of_here _ _)).
  assert (forall b, b ∈ l -> (f b <= B)%Z) by (intros; apply H; by apply list_elem_of_further).
  specialize (IH ltac:(done)). lia.
Qed.

Lemma map_sum_empty {K A} `{Countable K} (f : A -> Z) : map_sum f (∅ : gmap K A) = 0%Z.
Proof. apply map_fold_empty. Qed.

Lemma map_sum_insert {K A} `{Countable K} (f : A -> Z) k a (m : gmap K A) :
  m !! k = None -> map_sum f (<[k := a]> m) = (f a + map_sum f m)%Z.
Proof.
  intros Hk. unfold map_sum. apply (map_fold_insert_L (fun _ a n => f a + n)%Z); [|done].
  intros. lia.
Qed.

Lemma map_sum_delete {K A} `{Countable K} (f : A -> Z) k a (m : gmap K A) :
  m !! k = Some a -> map_sum f m = (f a + map_sum f (delete k m))%Z.
Proof.
  intros Hk. rewrite <- (insert_delete_id m k a Hk) at 1.
  apply map_sum_insert, lookup_delete_eq.
Qed.

(** A map indexed by the keys of a list weighs no more than the list. *)
Lemma map_sum_le {K A B} `{Countable K} (f : A -> Z) (g : B -> Z) (key : B -> K) l
  (m : gmap K A) :
  (forall b, b ∈ l -> 0 <= g b)%Z ->
  (forall k a, m !! k = Some a -> exists b, b ∈ l /\ key b = k /\ g b = f a) ->
  (map_sum f m <= zsum g l)%Z.
Proof.
  revert m. induction l as [|b l IH]; intros m Hg Hm.
  - destruct (decide (m = ∅)) as [->|Hne]; [by rewrite map_sum_empty|].
    apply map_choose in Hne as (k & a & Hk). destruct (Hm k a Hk) as (b & Hb & _).
    by apply not_elem_of_nil in Hb.
  - assert (Hg' : forall b', b' ∈ l -> (0 <= g b')%Z)
      by (intros; apply Hg; by apply list_elem_of_further).
    pose proof (Hg b (list_elem_of_here _ _)). simpl.
    assert (Hskip : (forall a, m !! key b = Some a -> f a <> g b) ->
                    (map_sum f m <= g b + zsum g l)%Z).
    { intros Hno. enough (map_sum f m <= zsum g l)%Z by lia. apply IH; [done|].
      intros k a Hk. destruct (Hm k a Hk) as (b' & Hb & Hkb & Hgb).
      apply elem_of_cons in Hb as [->|Hb]; [|eauto]. subst k. by destruct (Hno a Hk). }
    destruct (m !! key b) as [a|] eqn:Ha; [|by apply Hskip].
    destruct (decide (f a = g b)) as [Hf|Hf]; [|apply Hskip; congruence].
    rewrite (map_sum_delete f (key b) a) by done.
    enough (map_sum f (delete (key b) m) <= zsum g l)%Z by lia. apply IH; [done|].
    intros k a' [Hne Hk]%lookup_delete_Some. destruct (Hm k a' Hk) as (b' & Hb & Hkb & Hgb).
    apply elem_of_cons in Hb as [->|Hb]; [done|eauto].
Qed.

Lemma map_sum_bound {K A} `{Countable K} (f : A -> Z) (m : gmap K A) B :
  (forall k a, m !! k = Some a -> f a <= B)%Z -> (map_sum f m <= Z.of_nat (size m) * B)%Z.
Proof.
  induction m as [|k a m Hk IH] using map_ind; intros Hm.
  - rewrite map_sum_empty, map_size_empty. lia.
  - rewrite map_sum_insert, map_size_insert_None by done.
    assert (f a <= B)%Z by (eapply Hm, lookup_insert_eq).
    enough (map_sum f m <= Z.of_nat (size m) * B)%Z by lia. apply IH.
    intros k' a' Hk'. apply (Hm k'). rewrite lookup_insert_ne; [done|]. congruence.
Qed.

Lemma fmap_sublist {A B} (f : A -> B) (l1 l2 : list A) :
  l1 `sublist_of` l2 -> (f <$> l1) `sublist_of` (f <$> l2).
Proof. induction 1; simpl; by constructor. Qed.

Lemma filter_all {A} (P : A -> Prop) `{!forall x, Decision (P x)} (l : list A) :
  Forall P l -> filter P l = l.
Proof.
  induction 1 as [|x l Hx Hl IH]; [done|]. by rewrite filter_cons_True, IH.
Qed.

Lemma steps_app {S L} (R : S -> L -> S -> Prop) s ls s1 ls' s2 :
  steps R s ls s1 -> steps R s1 ls' s2 -> steps R s (ls ++ ls') s2.
Proof. induction 1; simpl; eauto using @steps. Qed.

(** Runs extend at their end. *)
Lemma steps_snoc {S L} (R : S -> L -> S -> Prop) s ls s1 l s2 :
  steps R s ls s1 -> R s1 l s2 -> steps R s (ls ++ [l]) s2.
Proof. induction 1; intros; repeat econstructor; eauto. Qed.

Lemma steps_ind_r {S L} (R : S -> L -> S -> Prop) s (P : list L -> S -> Prop) :
  P [] s -> (forall ls s1 l s2, steps R s ls s1 -> P ls s1 -> R s1 l s2 -> P (ls ++ [l]) s2) ->
  forall ls s', steps R s ls s' -> P ls s'.
Proof.
  intros HB HS ls s' Hs.
  assert (HG : forall pre s1, steps R s pre s1 -> P pre s1 -> forall ls s2, steps R s1 ls s2 -> P (pre ++ ls) s2).
  { intros pre s1 Hpre HP ls' s2 Hls. revert pre Hpre HP.
    induction Hls as [s1|s1 l sm ls' s2 Hl Hls IH]; intros pre Hpre HP; [by rewrite app_nil_r|].
    change (l :: ls') with ([l] ++ ls'). rewrite app_assoc. apply IH; [by eapply steps_snoc|by eapply HS]. }
  apply (HG [] s); [constructor|done|done].
Qed.

(** Invariants hold on every reachable state. *)
Lemma steps_invariant {S L} (R : S -> L -> S -> Prop) (I : S -> Prop) s ls s' :
  (forall a l b, I a -> R a l b -> I b) -> I s -> steps R s ls s' -> I s'.
Proof. intros Hpres HI H. induction H; eauto. Qed.

#[export] Hint Resolve int64_range uint64_range : storage.
