(* ===== verification/LuaJson.v ===== *)
(** [internal/auth/lua/json.go]: the [json] library of an authorisation script, which
    carries values between Go and Lua.  Tables and numbers of the interpreter are the
    interfaces [Numbers] and [Tables]; a table is the list of its entries in the order
    [ForEach] visits them. *)

From S2P Require Export Prelude.

Local Open Scope Z_scope.

Module LuaJson.

(** [float64] and the conversions between it and [int], and [LVAsString] of a number. *)
Class Numbers := {
  number : Type;
  float64 : Z -> number;
  int : number -> Z;
  feq : number -> number -> bool;
  number_string : number -> string
}.

(** Every integer up to 2^53 is a [float64]. *)
Class NumbersLaws `{Numbers} := {
  int_float64 n : 0 <= n <= 2 ^ 53 -> int (float64 n) = n;
  float64_eq n : 0 <= n <= 2 ^ 53 -> feq (float64 n) (float64 n) = true
}.

Section values.
Context `{HNum : Numbers}.

(** What [encoding/json] decodes into an [interface{}]. *)
Inductive value :=
| GNil
| GBool (b : bool)
| GNumber (n : number)
| GString (s : string)
| GArray (l : list value)
| GObject (m : gmap string value).

(** A value of the interpreter; functions and user data are [LOther]. *)
Inductive LValue :=
| LNil
| LBool (b : bool)
| LNumber (n : number)
| LString (s : string)
| LTable (entries : list (LValue * LValue))
| LOther.

Definition LVAsString (v : LValue) : string :=
  match v with LString s => s | LNumber n => number_string n | _ => "" end.

(** ** [tableToGo], [luaToGo] *)

(** An index of an array, counted from one. *)
Definition index_of (k : LValue) : option Z :=
  match k with
  | LNumber n => if feq n (float64 (int n)) && (1 <=? int n) then Some (int n) else None
  | _ => None
  end.

(** The first [ForEach]: [maxIdx] and [isArray]. *)
Definition scan (keys : list LValue) : Z * bool :=
  foldl (fun s k =>
    match index_of k with
    | Some n => (if s.1 <? n then n else s.1, s.2)
    | None => (s.1, false)
    end) (0, true) keys.

(** The table, its values converted: a slice with the entries at their indices, or a
    map under the keys' strings. *)
Definition assemble (entries : list (LValue * value)) : value :=
  let '(maxIdx, isArray) := scan entries.*1 in
  if isArray && (0 <? maxIdx)
  then GArray (foldl (fun res kv =>
         match kv.1 with LNumber n => <[Z.to_nat (int n - 1) := kv.2]> res | _ => res end)
         (replicate (Z.to_nat maxIdx) GNil) entries)
  else GObject (foldl (fun m kv => <[LVAsString kv.1 := kv.2]> m) ∅ entries).

Fixpoint luaToGo (v : LValue) : value :=
  match v with
  | LNil => GNil
  | LBool b => GBool b
  | LNumber n => GNumber n
  | LString s => GString s
  | LTable entries => assemble ((fix go l := match l with
      | [] => []
      | (k, x) :: l' => (k, luaToGo x) :: go l'
      end) entries)
  | LOther => GNil
  end.

Definition tableToGo (entries : list (LValue * LValue)) : value := luaToGo (LTable entries).

(** Assigning to a field of a table, and the order a Go map is ranged in. *)
Class Tables := {
  raw_set : list (LValue * LValue) -> LValue -> LValue -> list (LValue * LValue);
  range : gmap string LValue -> list (string * LValue)
}.

(** A new key is an entry of the table, unless its value is nil. *)
Class TablesLaws `{Tables} := {
  raw_set_new t k v : k ∉ t.*1 -> v <> LNil -> raw_set t k v ≡ₚ (k, v) :: t;
  raw_set_nil t k : k ∉ t.*1 -> raw_set t k LNil = t;
  range_perm m : range m ≡ₚ map_to_list m
}.

(** ** [goToLua] *)

Section tables.
Context `{HT : !Tables}.

(** [RawSetInt] of the items, in order, from index [i] on. *)
Definition set_items (i : Z) (items : list LValue) (t : list (LValue * LValue)) : list (LValue * LValue) :=
  (foldl (fun s item => (s.1 + 1, raw_set s.2 (LNumber (float64 s.1)) item)) (i, t) items).2.

(** [SetField] of the fields, in the order of the range. *)
Definition set_fields (fields : list (string * LValue)) (t : list (LValue * LValue)) : list (LValue * LValue) :=
  foldl (fun t kv => raw_set t (LString kv.1) kv.2) t fields.

Fixpoint goToLua (v : value) : LValue :=
  match v with
  | GNil => LNil
  | GBool b => LBool b
  | GNumber n => LNumber n
  | GString s => LString s
  | GArray l => LTable (set_items 1 ((fix go l := match l with [] => [] | x :: l' => goToLua x :: go l' end) l) [])
  | GObject m => LTable (set_fields (range (goToLua <$> m)) [])
  end.

(** ** [registerJSONLib] *)

(** [json.Marshal] and [json.Unmarshal] of the standard library. *)
Class JSON := {
  Marshal : value -> result string string;
  Unmarshal : string -> result string value
}.

(** What a call gives the script: a raised argument error, or its results. *)
Inductive call := Raised | Pushed (results : list LValue).

Definition json_encode `{JSON} (v : LValue) : call :=
  match v with
  | LTable entries =>
      match Marshal (tableToGo entries) with
      | Err err => Pushed [LNil; LString err]
      | Ok data => Pushed [LString data]
      end
  | _ => Raised
  end.

(** [CheckString] takes a number for its string. *)
Definition json_decode `{JSON} (v : LValue) : call :=
  match v with
  | LString _ | LNumber _ =>
      match Unmarshal (LVAsString v) with
      | Err err => Pushed [LNil; LString err]
      | Ok goValue => Pushed [goToLua goValue]
      end
  | _ => Raised
  end.

(** * Specification *)

Definition is_nil (v : value) : bool := match v with GNil => true | _ => false end.

(** A list without the nils at its end. *)
Fixpoint strip (l : list value) : list value :=
  match l with
  | [] => []
  | x :: l' => match strip l' with [] => if is_nil x then [] else [x] | r => x :: r end
  end.

Definition array (l : list value) : value :=
  match strip l with [] => GObject ∅ | l' => GArray l' end.

(** What is left of a value that went through Lua: no null at the end of an array, no
    null field, and an object for an array without items. *)
Fixpoint canon (v : value) : value :=
  match v with
  | GArray l => array (canon <$> l)
  | GObject m => GObject (omap (fun x => if is_nil x then None else Some x) (canon <$> m))
  | v => v
  end.

(** No array of more items than a [float64] counts. *)
Fixpoint fits (v : value) : bool :=
  match v with
  | GArray l => (Z.of_nat (length l) <? 2 ^ 53) && forallb fits l
  | GObject m => map_fold (fun _ x b => fits x && b) true m
  | _ => true
  end.

(** * Lemmas *)

Fixpoint size (v : value) : nat :=
  match v with
  | GArray l => S (foldr (fun x n => size x + n)%nat O l)
  | GObject m => S (map_fold (fun _ x n => size x + n)%nat O m)
  | _ => O
  end.

Lemma size_item l x : x ∈ l -> (size x < size (GArray l))%nat.
Proof.
  cbn. induction l as [|y l IH]; [by intros ?%not_elem_of_nil|].
  intros [->|Hin]%elem_of_cons; cbn; [lia|]. apply IH in Hin. lia.
Qed.

Lemma size_field m k x : m !! k = Some x -> (size x < size (GObject m))%nat.
Proof.
  intros Hk. cbn. rewrite (map_fold_delete_L _ _ k x); [lia|intros; lia|done].
Qed.

Lemma value_induction (P : value -> Prop) :
  P GNil -> (forall b, P (GBool b)) -> (forall n, P (GNumber n)) -> (forall s, P (GString s)) ->
  (forall l, (forall x, x ∈ l -> P x) -> P (GArray l)) ->
  (forall m : gmap string value, (forall k x, m !! k = Some x -> P x) -> P (GObject m)) -> forall v, P v.
Proof.
  intros P1 P2 P3 P4 P5 P6 v. remember (size v) as n eqn:Hn. revert v Hn.
  induction (lt_wf n) as [n _ IH]. intros v ->. destruct v as [| | | |l|m]; [done..| |].
  - apply P5. intros x Hx. by eapply IH; [apply size_item|].
  - apply P6. intros k x Hx. by eapply IH; [eapply size_field|].
Qed.

Lemma fits_item l x : fits (GArray l) = true -> x ∈ l -> fits x = true.
Proof. cbn [fits]. intros [_ HF]%andb_true_iff Hin. rewrite forallb_forall in HF. by apply HF, list_elem_of_In. Qed.

Lemma fits_field (m : gmap string value) k x : fits (GObject m) = true -> m !! k = Some x -> fits x = true.
Proof.
  intros HF Hk. cbn in HF. rewrite (map_fold_delete_L _ _ k x) in HF; [by apply andb_true_iff in HF as [? _]| |done].
  intros. by destruct (fits z1), (fits z2).
Qed.

Definition convert (entries : list (LValue * LValue)) : list (LValue * value) :=
  (fun kv => (kv.1, luaToGo kv.2)) <$> entries.

Lemma luaToGo_table entries : luaToGo (LTable entries) = assemble (convert entries).
Proof. cbn. f_equal. induction entries as [|[k x] l IH]; [done|]. cbn. by rewrite IH. Qed.

Lemma goToLua_array l : goToLua (GArray l) = LTable (set_items 1 (goToLua <$> l) []).
Proof. reflexivity. Qed.

Lemma goToLua_nil v : goToLua v = LNil <-> v = GNil.
Proof. by destruct v. Qed.

Lemma strip_nil l i x : strip l !! i = Some x -> l !! i = Some x.
Proof.
  revert i. induction l as [|y l IH]; intros i; [done|]. cbn.
  destruct (strip l) as [|z r] eqn:E.
  - destruct (is_nil y); [done|]. by destruct i.
  - destruct i; [done|]. apply IH.
Qed.

(** What is stripped is nil, and what is last is not. *)
Lemma strip_rest l i x : l !! i = Some x -> is_nil x = false -> (i < length (strip l))%nat.
Proof.
  revert i. induction l as [|y l IH]; intros i; [done|]. cbn.
  destruct i as [|i]; cbn.
  - intros [= ->] HN. rewrite HN. destruct (strip l); cbn; lia.
  - intros Hi HN. specialize (IH i Hi HN). destruct (strip l); cbn in *; lia.
Qed.

Lemma strip_last l : strip l <> [] -> exists x, l !! (length (strip l) - 1)%nat = Some x /\ is_nil x = false.
Proof.
  induction l as [|y l IH]; [done|]. cbn. destruct (strip l) as [|z r] eqn:E.
  - destruct (is_nil y) eqn:HN; [done|]. intros _. by exists y.
  - intros _. destruct IH as (x & Hx & HN); [done|]. exists x. split; [|done].
    cbn in *. by rewrite !Nat.sub_0_r in *.
Qed.

(** ** Tables that are arrays *)

Section arrays.
Context `{HNL : !NumbersLaws}.

(** An entry of an array, its value at position [i]. *)
Definition key (i : nat) : LValue := LNumber (float64 (Z.of_nat i + 1)).

Definition bound (n : nat) : Prop := Z.of_nat n < 2 ^ 53.

Lemma key_index i : bound i -> index_of (key i) = Some (Z.of_nat i + 1).
Proof.
  unfold bound, index_of, key. intros Hi. rewrite int_float64, float64_eq by lia.
  by rewrite (proj2 (Z.leb_le _ _)) by lia.
Qed.

Lemma key_inj i j : bound i -> bound j -> key i = key j -> i = j.
Proof.
  intros Hi Hj Hk. assert (HE : index_of (key i) = index_of (key j)) by by rewrite Hk.
  rewrite !key_index in HE by done. injection HE. lia.
Qed.

(** The entries of an array are those of the positions whose value is not nil. *)
Definition is_array (e : list (LValue * value)) (l : list value) : Prop :=
  NoDup e.*1 /\ forall k x, (k, x) ∈ e <-> exists i, k = key i /\ l !! i = Some x /\ is_nil x = false.

Lemma scan_snoc keys k : scan (keys ++ [k]) =
  match index_of k with
  | Some n => (if (scan keys).1 <? n then n else (scan keys).1, (scan keys).2)
  | None => ((scan keys).1, false)
  end.
Proof. unfold scan. by rewrite foldl_app. Qed.

(** The scan of indices finds the greatest. *)
Lemma scan_indices keys : (forall k, k ∈ keys -> exists n, index_of k = Some n /\ 1 <= n) ->
  (scan keys).2 = true /\
  (keys = [] /\ (scan keys).1 = 0 \/ exists k, k ∈ keys /\ index_of k = Some (scan keys).1) /\
  (forall k n, k ∈ keys -> index_of k = Some n -> n <= (scan keys).1) /\ 0 <= (scan keys).1.
Proof.
  induction keys as [|k keys IH] using rev_ind; intros HK.
  { split_and!; [done|by left| |done]. intros k n Hk. by apply not_elem_of_nil in Hk. }
  destruct IH as (H1 & H2 & H3 & H4).
  { intros k' Hk'. apply HK, elem_of_app. by left. }
  destruct (HK k) as (n & Hn & Hpos); [apply elem_of_app; right; by apply list_elem_of_singleton|].
  rewrite scan_snoc, Hn. cbn [fst snd]. split; [done|]. destruct (_ <? n) eqn:E.
  - apply Z.ltb_lt in E. split_and!; [| |lia].
    + right. exists k. split; [|done]. apply elem_of_app. right. by apply list_elem_of_singleton.
    + intros k' m [Hk'|Hk']%elem_of_app Hm; [specialize (H3 _ _ Hk' Hm); lia|].
      apply list_elem_of_singleton in Hk' as ->. rewrite Hn in Hm. injection Hm. lia.
  - apply Z.ltb_ge in E. split_and!; [| |lia].
    + right. destruct H2 as [[-> H2]|(k' & Hk' & HE)]; [rewrite H2 in E; lia|].
      exists k'. split; [|done]. apply elem_of_app. by left.
    + intros k' m [Hk'|Hk']%elem_of_app Hm; [by eapply H3|].
      apply list_elem_of_singleton in Hk' as ->. rewrite Hn in Hm. injection Hm as <-. lia.
Qed.

(** Storing at distinct indices: every entry is found, and nothing else changed. *)
Definition store (res : list value) (kv : LValue * value) : list value :=
  match kv.1 with LNumber n => <[Z.to_nat (int n - 1) := kv.2]> res | _ => res end.

Lemma store_length e res : length (foldl store res e) = length res.
Proof.
  revert res. induction e as [|[k x] e IH]; intros res; [done|]. cbn. rewrite IH.
  unfold store. destruct k; cbn; try done. by rewrite length_insert.
Qed.

Lemma store_key res i x : bound i -> store res (key i, x) = <[i := x]> res.
Proof. intros Hi. unfold store, key. cbn. rewrite int_float64 by (unfold bound in Hi; lia). f_equal. lia. Qed.

Lemma store_lookup e l res i : bound (length l) -> bound i -> (i < length res)%nat -> NoDup e.*1 ->
  (forall k x, (k, x) ∈ e -> exists j, k = key j /\ l !! j = Some x) ->
  (forall x, (key i, x) ∈ e -> foldl store res e !! i = Some x) /\
  (key i ∉ e.*1 -> foldl store res e !! i = res !! i).
Proof.
  intros Hl Hbi. revert res. induction e as [|[k x] e IH]; intros res Hi HND HE.
  { split; [intros x Hx; by apply not_elem_of_nil in Hx|done]. }
  apply NoDup_cons in HND as [Hk HND]. cbn [foldl].
  destruct (HE k x (list_elem_of_here _ _)) as (j & -> & Hj).
  assert (Hbj : bound j) by (apply lookup_lt_Some in Hj; unfold bound in *; lia).
  rewrite store_key by done.
  destruct (IH (<[j := x]> res)) as [IH1 IH2]; [by rewrite length_insert|done| |].
  { intros k y Hky. apply HE. by apply list_elem_of_further. }
  split.
  - intros y [Hy|Hy]%elem_of_cons; [|by apply IH1]. apply pair_equal_spec in Hy as [Hkk ->].
    apply key_inj in Hkk as ->; [|done..]. rewrite IH2 by done. by rewrite list_lookup_insert_eq.
  - intros Hn. rewrite IH2 by (intros Hin; by apply Hn, list_elem_of_further).
    rewrite list_lookup_insert_ne; [done|]. intros ->. apply Hn. apply list_elem_of_here.
Qed.

Lemma array_key e l k : is_array e l -> k ∈ e.*1 -> exists i x, k = key i /\ l !! i = Some x /\ is_nil x = false.
Proof.
  intros [_ HE] Hk. apply list_elem_of_fmap in Hk as ([k' x] & -> & Hin).
  apply HE in Hin as (i & -> & Hx). by exists i, x.
Qed.

(** The greatest index of an array is where it is cut. *)
Lemma array_scan e l : bound (length l) -> is_array e l ->
  scan e.*1 = (Z.of_nat (length (strip l)), true).
Proof.
  intros Hl HA.
  assert (Hb : forall i x, l !! i = Some x -> bound i).
  { intros i x Hi. apply lookup_lt_Some in Hi. unfold bound in *. lia. }
  destruct (scan_indices e.*1) as (H1 & H2 & H3 & H4).
  { intros k Hk. destruct (array_key e l k HA Hk) as (i & x & -> & Hi & _).
    exists (Z.of_nat i + 1). rewrite key_index by by eapply Hb. split; [done|lia]. }
  rewrite (surjective_pairing (scan _)), H1. f_equal.
  assert (Hup : (scan e.*1).1 <= Z.of_nat (length (strip l))).
  { destruct H2 as [[_ ->]|(k & Hk & Hn)]; [lia|].
    destruct (array_key e l k HA Hk) as (i & x & -> & Hi & Hx). rewrite key_index in Hn by by eapply Hb.
    injection Hn as <-. pose proof (strip_rest l i x Hi Hx). lia. }
  destruct (decide (strip l = [])) as [HE|HE]; [rewrite HE in *; cbn in *; lia|].
  destruct (strip_last l HE) as (x & Hx & HN). set (j := (length (strip l) - 1)%nat) in *.
  assert (HIn : (key j, x) ∈ e) by (apply HA; by exists j).
  assert (Hj := H3 (key j) (Z.of_nat j + 1) ltac:(apply list_elem_of_fmap; by exists (key j, x))
    ltac:(apply key_index; by eapply Hb)).
  assert (length (strip l) <> 0)%nat by (by destruct (strip l)). unfold j in *. lia.
Qed.

Lemma is_nil_GNil x : is_nil x = true -> x = GNil.
Proof. by destruct x. Qed.

(** An array's entries, in any order, are put together as the array. *)
Lemma assemble_array e l : bound (length l) -> is_array e l -> assemble e = array l.
Proof.
  intros Hl HA. unfold assemble, array. rewrite (array_scan e l Hl HA). cbn [andb].
  destruct (strip l) as [|z r] eqn:E.
  - destruct e as [|[k x] e]; [done|]. exfalso.
    destruct HA as [_ HE]. destruct (proj1 (HE k x) (list_elem_of_here _ _)) as (i & _ & Hi & Hx).
    pose proof (strip_rest l i x Hi Hx) as HS. rewrite E in HS. cbn in HS. lia.
  - rewrite (proj2 (Z.ltb_lt _ _)) by (cbn; lia). rewrite Nat2Z.id. rewrite <- E.
    change (GArray (foldl store (replicate (length (strip l)) GNil) e) = GArray (strip l)). f_equal.
    apply list_eq. intros i. destruct (decide (i < length (strip l))%nat) as [Hi|Hi].
    2:{ rewrite !lookup_ge_None_2; [done|lia|]. rewrite store_length, length_replicate. lia. }
    destruct (lookup_lt_is_Some_2 _ _ Hi) as [x Hx]. rewrite Hx. apply strip_nil in Hx.
    assert (Hbi : bound i) by (apply lookup_lt_Some in Hx; unfold bound in *; lia).
    destruct (store_lookup e l (replicate (length (strip l)) GNil) i) as [S1 S2]; [done|done| |apply HA| |].
    { by rewrite length_replicate. }
    { intros k y Hky. apply HA in Hky as (j & -> & Hj & _). by exists j. }
    destruct (is_nil x) eqn:HN.
    + rewrite S2; [apply is_nil_GNil in HN as ->; by apply lookup_replicate_2|].
      intros Hin. destruct (array_key e l _ HA Hin) as (j & y & Hk & Hj & Hy).
      apply key_inj in Hk as ->; [congruence|done|]. apply lookup_lt_Some in Hj. unfold bound in *. lia.
    + apply S1, HA. by exists i.
Qed.

(** ** [goToLua] makes such tables *)

Context `{HTL : !TablesLaws}.

(** The entries of a table are those of a list of items. *)
Definition table_of (t : list (LValue * LValue)) (l : list LValue) : Prop :=
  NoDup t.*1 /\ forall k v, (k, v) ∈ t <-> exists i, k = key i /\ l !! i = Some v /\ v <> LNil.

Lemma set_items_snoc items x t :
  set_items 1 (items ++ [x]) t =
  raw_set (set_items 1 items t) (key (length items)) x.
Proof.
  unfold set_items, key. rewrite foldl_app. cbn. f_equal. do 2 f_equal.
  assert (HG : forall i, (foldl (fun s item => (s.1 + 1, raw_set s.2 (LNumber (float64 s.1)) item)) (i, t) items).1 =
    i + Z.of_nat (length items)).
  { clear x. revert t. induction items as [|y items IH]; intros t i; cbn; [lia|]. rewrite IH. lia. }
  rewrite HG. lia.
Qed.

Lemma raw_set_table t l v : bound (S (length l)) -> table_of t l ->
  table_of (raw_set t (key (length l)) v) (l ++ [v]).
Proof.
  intros Hb [HND HE].
  assert (Hfresh : key (length l) ∉ t.*1).
  { intros Hin. apply list_elem_of_fmap in Hin as ([k x] & Hk & Hin). cbn in Hk. subst k.
    apply HE in Hin as (i & Hk & Hi & _). apply lookup_lt_Some in Hi.
    apply key_inj in Hk; unfold bound in *; lia. }
  assert (Hold : forall i x, (l ++ [v]) !! i = Some x <-> l !! i = Some x \/ i = length l /\ x = v).
  { intros i x. rewrite lookup_app_Some. split.
    - intros [?|[Hge Hs]]; [by left|]. right. apply list_lookup_singleton_Some in Hs as [? <-]. split; [lia|done].
    - intros [?|[-> ->]]; [by left|]. right. split; [done|]. by rewrite Nat.sub_diag. }
  assert (Hv : v = LNil \/ v <> LNil) by (destruct v; ((by left) || (by right))).
  destruct Hv as [->|Hne].
  - rewrite raw_set_nil by done. split; [done|]. intros k x. rewrite HE. split.
    + intros (i & -> & Hi & Hx). exists i. rewrite Hold. auto.
    + intros (i & -> & [Hi|[-> ->]]%Hold & Hx); [by exists i|done].
  - split; [rewrite raw_set_new by done; by apply NoDup_cons|].
    intros k x. rewrite raw_set_new by done. rewrite elem_of_cons, HE. split.
    + intros [[= -> ->]|(i & -> & Hi & Hx)]; [exists (length l)|exists i]; rewrite Hold; auto.
    + intros (i & -> & [Hi|[-> ->]]%Hold & Hx); [right; by exists i|by left].
Qed.

Lemma set_items_table items : bound (length items) -> table_of (set_items 1 items []) items.
Proof.
  induction items as [|x items IH] using rev_ind; intros Hb.
  - split; [constructor|]. intros k v. split; [by intros ?%not_elem_of_nil|]. by intros (i & _ & Hi & _).
  - rewrite set_items_snoc. rewrite length_app in Hb. cbn in Hb. apply raw_set_table.
    + unfold bound in *. lia.
    + apply IH. unfold bound in *. lia.
Qed.

(** ** [goToLua] of objects *)

(** The entry a field gives, if any. *)
Definition entry (kv : string * LValue) : option (LValue * LValue) :=
  match kv.2 with LNil => None | v => Some (LString kv.1, v) end.

Lemma entry_Some kv k v : entry kv = Some (k, v) <-> k = LString kv.1 /\ v = kv.2 /\ v <> LNil.
Proof. destruct kv as [n x]. unfold entry. cbn. destruct x; naive_solver. Qed.

Lemma entries_NoDup fields : NoDup fields.*1 -> NoDup (omap entry fields).*1.
Proof.
  induction fields as [|[k v] fields IH]; intros HND; [constructor|].
  apply NoDup_cons in HND as [Hk HND]. cbn [omap list_omap].
  destruct (entry (k, v)) as [[k' v']|] eqn:E; [|by apply IH].
  apply entry_Some in E as (-> & _). cbn. apply NoDup_cons. split; [|by apply IH].
  intros Hin. apply list_elem_of_fmap in Hin as ([k' x] & Hk' & Hin). cbn in Hk'. subst k'.
  apply list_elem_of_omap in Hin as ([n y] & Hin & Hn).
  apply entry_Some in Hn as ([= ->] & _). apply Hk, list_elem_of_fmap. by exists (n, y).
Qed.

Lemma set_fields_perm fields t : NoDup fields.*1 -> (forall k, k ∈ fields.*1 -> LString k ∉ t.*1) ->
  set_fields fields t ≡ₚ
    omap entry fields ++ t.
Proof.
  revert t. induction fields as [|[k v] fields IH]; intros t HND Hf; [done|].
  apply NoDup_cons in HND as [Hk HND]. cbn [set_fields foldl]. unfold set_fields in IH.
  assert (Hkt : LString k ∉ t.*1) by apply Hf, list_elem_of_here.
  assert (Hrest : forall k', k' ∈ fields.*1 -> LString k' ∉ t.*1) by (intros; by apply Hf, list_elem_of_further).
  assert (HG : v <> LNil -> foldl (fun t kv => raw_set t (LString kv.1) kv.2) (raw_set t (LString k) v) fields ≡ₚ
    (LString k, v) :: omap entry fields ++ t).
  { intros Hv. rewrite IH; [|done|].
    - rewrite (raw_set_new t) by done. by rewrite Permutation_middle.
    - intros k' Hk' Hin. rewrite (raw_set_new t) in Hin by done. apply elem_of_cons in Hin as [[= ->]|Hin]; [done|].
      by eapply Hrest. }
  destruct v; cbn [fst snd]; try (by apply HG). rewrite raw_set_nil by done. by apply IH.
Qed.

Lemma is_nil_canon x : is_nil (canon x) = is_nil x.
Proof. destruct x as [| | | |l|m]; try done. cbn [canon]. unfold array. by destruct (strip _). Qed.

Lemma convert_keys t : (convert t).*1 = t.*1.
Proof. unfold convert. rewrite <- list_fmap_compose. by apply list_fmap_ext. Qed.

(** The table of converted items is read back as their array. *)
Lemma table_array t l : (forall x, x ∈ l -> luaToGo (goToLua x) = canon x) ->
  table_of t (goToLua <$> l) -> is_array (convert t) (canon <$> l).
Proof.
  intros HC [HND HE]. split; [by rewrite convert_keys|]. intros k y. unfold convert. rewrite list_elem_of_fmap. split.
  - intros ([k' v] & [= -> ->] & Hin). apply HE in Hin as (i & -> & Hi & Hv).
    apply list_lookup_fmap_Some in Hi as (x & -> & Hx). exists i. cbn.
    assert (Hin : x ∈ l) by by eapply list_elem_of_lookup_2. rewrite list_lookup_fmap, Hx, HC by done.
    split_and!; [done..|]. rewrite is_nil_canon. destruct x; try done; by destruct Hv.
  - intros (i & -> & Hi & Hy). apply list_lookup_fmap_Some in Hi as (x & -> & Hx). rewrite is_nil_canon in Hy.
    assert (Hin : x ∈ l) by by eapply list_elem_of_lookup_2.
    exists (key i, goToLua x). cbn. rewrite HC by done. split; [done|]. apply HE. exists i.
    rewrite list_lookup_fmap, Hx. split_and!; [done..|]. intros Hnil%goToLua_nil. by subst x.
Qed.

(** Named entries, in any order, are put together as an object. *)
Definition put_field (m : gmap string value) (kv : LValue * value) : gmap string value :=
  <[LVAsString kv.1 := kv.2]> m.

Lemma put_fields_spec (fields : list (string * value)) m : NoDup fields.*1 ->
  foldl put_field m ((fun kv => (LString kv.1, kv.2)) <$> fields) = list_to_map fields ∪ m.
Proof.
  revert m. induction fields as [|[k x] fields IH]; intros m HND; [symmetry; apply (left_id_L ∅ (∪))|].
  apply NoDup_cons in HND as [Hk HND]. cbn. rewrite IH by done. unfold put_field. cbn.
  rewrite <- insert_union_r; [by rewrite insert_union_l|]. by apply not_elem_of_list_to_map.
Qed.

Lemma assemble_object (e : list (LValue * value)) (m : gmap string value) :
  e ≡ₚ (fun kv => (LString kv.1, kv.2)) <$> map_to_list m -> assemble e = GObject m.
Proof.
  intros HP. apply Permutation_map_inv in HP as (fields & -> & HPf).
  assert (HND : NoDup fields.*1) by (rewrite <- HPf; apply NoDup_fst_map_to_list).
  assert (Hm : list_to_map fields = m).
  { rewrite <- (list_to_map_to_list m). symmetry. apply list_to_map_proper; [apply NoDup_fst_map_to_list|done]. }
  change (map _ fields) with ((fun kv : string * value => (LString kv.1, kv.2)) <$> fields).
  assert (HG : GObject (foldl put_field ∅ ((fun kv => (LString kv.1, kv.2)) <$> fields)) = GObject m).
  { f_equal. rewrite put_fields_spec by done. rewrite Hm. apply (right_id_L ∅ (∪)). }
  rewrite <- HG. unfold assemble. destruct fields as [|[k x] fields]; [done|].
  destruct (scan _) as [n b] eqn:HS. assert (b = false) as ->; [|done].
  cbn [fmap list_fmap fst snd] in HS.
  assert (HF : forall ks n, (foldl (fun s k => match index_of k with
    | Some n => (if s.1 <? n then n else s.1, s.2) | None => (s.1, false) end) (n, false) ks).2 = false).
  { clear. induction ks as [|y ks IH]; intros n; [done|]. cbn. destruct (index_of y); apply IH. }
  pose proof (HF ((fun kv : string * value => (LString kv.1, kv.2)) <$> fields).*1 0) as HF'.
  unfold scan in HS. cbn [foldl index_of fst snd] in HS. rewrite HS in HF'. exact HF'.
Qed.

(** The table of converted fields is read back as their object. *)
Lemma object_fields (m : gmap string value) :
  (forall k x, m !! k = Some x -> luaToGo (goToLua x) = canon x) ->
  convert (set_fields (range (goToLua <$> m)) []) ≡ₚ
  (fun kv => (LString kv.1, kv.2)) <$>
    map_to_list (omap (fun x => if is_nil x then None else Some x) (canon <$> m)).
Proof.
  intros HC. set (m' := omap _ _). pose proof (range_perm (goToLua <$> m)) as HR.
  assert (HND : NoDup (range (goToLua <$> m)).*1) by (rewrite HR; apply NoDup_fst_map_to_list).
  unfold convert. rewrite set_fields_perm by (try done; intros; apply not_elem_of_nil). rewrite app_nil_r, HR.
  apply NoDup_Permutation.
  - apply (NoDup_fmap_1 fst). change (NoDup (convert (omap entry (map_to_list (goToLua <$> m)))).*1).
    rewrite convert_keys. apply entries_NoDup, NoDup_fst_map_to_list.
  - apply NoDup_fmap_2; [|apply NoDup_map_to_list]. by intros [] [] [= -> ->].
  - intros [k y]. rewrite !list_elem_of_fmap. split.
    + intros ([k' v] & [= -> ->] & Hin). apply list_elem_of_omap in Hin as ([n x] & Hin & Hn).
      apply entry_Some in Hn as (-> & -> & Hv). apply elem_of_map_to_list in Hin. cbn in *.
      rewrite lookup_fmap in Hin. apply fmap_Some in Hin as (z & Hz & ->).
      exists (n, canon z). cbn. rewrite (HC n z Hz). split; [done|]. apply elem_of_map_to_list.
      unfold m'. rewrite lookup_omap, lookup_fmap, Hz. cbn. rewrite is_nil_canon.
      destruct z; try done; by destruct Hv.
    + intros ([n y'] & [= -> ->] & Hin). apply elem_of_map_to_list in Hin. cbn in *. unfold m' in Hin.
      rewrite lookup_omap, lookup_fmap in Hin. destruct (m !! n) as [z|] eqn:Hz; [|done]. cbn in Hin.
      rewrite is_nil_canon in Hin. destruct (is_nil z) eqn:HNz; [done|]. injection Hin as <-.
      exists (LString n, goToLua z). cbn. rewrite (HC n z Hz). split; [done|].
      apply list_elem_of_omap. exists (n, goToLua z). split; [|apply entry_Some; split_and!; [done..|]].
      * apply elem_of_map_to_list. by rewrite lookup_fmap, Hz.
      * intros Hnil%goToLua_nil. by subst z.
Qed.

Lemma strip_elem l x : x ∈ strip l -> x ∈ l.
Proof. intros [i Hi]%list_elem_of_lookup. by eapply list_elem_of_lookup_2, strip_nil. Qed.

Lemma strip_idem l : strip (strip l) = strip l.
Proof.
  induction l as [|x l IH]; [done|]. cbn. destruct (strip l) as [|y r] eqn:E.
  - destruct (is_nil x) eqn:HNx; [done|]. cbn. by rewrite HNx.
  - change (strip (x :: y :: r)) with
      (match strip (y :: r) with [] => if is_nil x then [] else [x] | r => x :: r end). by rewrite IH.
Qed.

Lemma canon_idem v : canon (canon v) = canon v.
Proof.
  induction v as [| | | |l IH|m IH] using value_induction; [done..| |].
  - cbn [canon]. unfold array. destruct (strip (canon <$> l)) as [|y r] eqn:E.
    + cbn. by rewrite fmap_empty, omap_empty.
    + cbn [canon]. rewrite <- E. assert (HM : canon <$> strip (canon <$> l) = strip (canon <$> l)).
      { rewrite <- (list_fmap_id (strip _)) at 2. apply list_fmap_ext. intros i x Hx.
        apply list_elem_of_lookup_2, strip_elem, list_elem_of_fmap in Hx as (z & -> & Hz). by apply IH. }
      rewrite HM. unfold array. by rewrite strip_idem, E.
  - cbn [canon]. f_equal. apply map_eq. intros k. rewrite !lookup_omap, !lookup_fmap, !lookup_omap, !lookup_fmap.
    destruct (m !! k) as [x|] eqn:Hk; [|done]. cbn. rewrite is_nil_canon.
    destruct (is_nil x) eqn:HNx; [done|]. cbn. by rewrite (IH k x Hk), is_nil_canon, HNx.
Qed.

Lemma lua_canon v : fits v = true -> luaToGo (goToLua v) = canon v.
Proof.
  induction v as [| | | |l IH|m IH] using value_induction; intros HF; [done..| |].
  - rewrite goToLua_array, luaToGo_table. assert (Hb : bound (length l)).
    { cbn [fits] in HF. apply andb_true_iff in HF as [HF _]. apply Z.ltb_lt in HF. exact HF. }
    cbn [canon]. apply assemble_array; [by rewrite length_fmap|]. apply table_array.
    + intros x Hx. apply IH; [done|]. by eapply fits_item.
    + apply set_items_table. by rewrite length_fmap.
  - cbn [goToLua]. rewrite luaToGo_table. cbn [canon]. apply assemble_object, object_fields.
    intros k x Hk. apply (IH k x Hk). by eapply fits_field.
Qed.

(** ** Properties *)

(** C34. A value a script takes from JSON and gives back is the same but for what Lua
    has no word for: nulls at the end of an array and null fields are gone, and an
    array left without items is an object.  A second time changes nothing.  So a
    document decoded to a table and encoded again is that document. *)
Theorem json_through_lua v : fits v = true ->
  luaToGo (goToLua v) = canon v /\ canon (canon v) = canon v /\
  (forall `{JSON} s t, Unmarshal s = Ok v -> json_decode (LString s) = Pushed [LTable t] ->
     json_encode (LTable t) =
       match Marshal (canon v) with Ok data => Pushed [LString data] | Err err => Pushed [LNil; LString err] end).
Proof.
  intros HF. pose proof (lua_canon v HF) as HC. split_and!; [done|apply canon_idem|].
  intros HJ s t HU HD. unfold json_decode in HD. cbn [LVAsString] in HD.
    rewrite HU in HD. injection HD as HD. unfold json_encode, tableToGo.
  rewrite <- HD, HC. by destruct (Marshal (canon v)).
Qed.

End arrays.
End tables.
End values.

Module Toy.

#[local] Instance integers : Numbers := {|
  number := Z; float64 n := n; int n := n; feq := Z.eqb; number_string _ := "1" |}.
#[local] Instance integers_laws : NumbersLaws.
Proof. split; [done|]. intros n _. apply Z.eqb_refl. Qed.

#[local] Instance tables : Tables := {|
  raw_set t k v := match v with LNil => t | _ => t ++ [(k, v)] end;
  range := map_to_list |}.
#[local] Instance tables_laws : TablesLaws.
Proof.
  split; [|done|done]. intros t k v _ Hv. assert (HP : t ++ [(k, v)] ≡ₚ (k, v) :: t) by (symmetry; apply Permutation_cons_append).
  by destruct v.
Qed.

(** [[1, null, {"a": null, "b": "x"}, [], null]] *)
Definition document : value :=
  GArray [GNumber (1 : number); GNil; GObject {[ "a" := GNil; "b" := GString "x" ]}; GArray []; GNil].

Lemma json_through_lua_witness :
  luaToGo (goToLua document) = GArray [GNumber (1 : number); GNil; GObject {[ "b" := GString "x" ]}; GObject ∅] /\
  canon (canon document) = canon document.
Proof.
  assert (HF : fits document = true) by by_vm. destruct (json_through_lua document HF) as (HC & HI & _).
  split; [|exact HI]. refine (eq_trans HC _). by_vm.
Defined.

End Toy.
End LuaJson.
