(* ===== verification/GoStrings.v ===== *)
(** The parts of Go's [strings], [strconv] and [path/filepath] packages the
    service uses, on byte strings (a Go [string] is a sequence of bytes, here a
    Rocq [string] whose [ascii] characters are the bytes), with the lemmas the
    components share: cutting and joining, splitting on a separator, decimal
    integers, trimming. *)

From S2P Require Export Prelude.

Local Open Scope nat_scope.

(** Byte [n] as a character, and strings given by their byte codes (used for
    the double quote and for UTF-8 sequences). *)
Definition chr (n : nat) : ascii := ascii_of_nat n.
Fixpoint bytes (l : list nat) : string :=
  match l with [] => "" | n :: l' => String (chr n) (bytes l') end.

Definition dquote : string := bytes [34].
Definition newline : ascii := chr 10.

(** ** strings *)

(** [CutPrefix p s] is the rest of [s] after [p]: [strings.CutPrefix]. *)
Fixpoint CutPrefix (p s : string) : option string :=
  match p, s with
  | EmptyString, _ => Some s
  | String c p', String d s' => if bool_decide (c = d) then CutPrefix p' s' else None
  | String _ _, EmptyString => None
  end.

(** [CutSuffix p s] is [s] without its suffix [p]. *)
Fixpoint CutSuffix (p s : string) : option string :=
  if bool_decide (s = p) then Some ""
  else match s with
       | EmptyString => None
       | String c s' => String c <$> CutSuffix p s'
       end.

Definition HasPrefix (s p : string) : bool := bool_decide (is_Some (CutPrefix p s)).
Definition HasSuffix (s p : string) : bool := bool_decide (is_Some (CutSuffix p s)).
Definition TrimPrefix (s p : string) : string := default s (CutPrefix p s).
Definition TrimSuffix (s p : string) : string := default s (CutSuffix p s).

(** [Cut s sep] splits around the first occurrence of [sep]; the callers that
    use [strings.Index] and slices read the same two parts. *)
Fixpoint Cut (s sep : string) : option (string * string) :=
  match CutPrefix sep s with
  | Some r => Some ("", r)
  | None =>
      match s with
      | EmptyString => None
      | String c s' => match Cut s' sep with Some (a, b) => Some (String c a, b) | None => None end
      end
  end.

Definition Contains (s sub : string) : bool := bool_decide (is_Some (Cut s sub)).

(** [strings.Split] on a one-byte separator (the only form the code uses). *)
Fixpoint Split (s : string) (c : ascii) : list string :=
  match s with
  | EmptyString => [""]
  | String d s' =>
      if bool_decide (d = c) then "" :: Split s' c
      else match Split s' c with
           | [] => [String d ""]
           | h :: t => String d h :: t
           end
  end.

Fixpoint Join (l : list string) (sep : string) : string :=
  match l with
  | [] => ""
  | [x] => x
  | x :: l' => x +:+ sep +:+ Join l' sep
  end.

(** The characters of a string, and [strings.ContainsAny] on a set of bytes. *)
Fixpoint chars (s : string) : list ascii :=
  match s with EmptyString => [] | String c s' => c :: chars s' end.
Definition ContainsAny (s : string) (set : string) : bool :=
  existsb (fun c => bool_decide (c ∈ chars set)) (chars s).

(** The UTF-8 encodings of the code points [unicode.IsSpace] accepts. *)
Definition space_seqs : list string :=
  map bytes
    ([[9]; [10]; [11]; [12]; [13]; [32]; [194; 133]; [194; 160]; [225; 154; 128]] ++
     map (fun n => [226; 128; n]) (seq 128 11 ++ [168; 169; 175]) ++
     [[226; 129; 159]; [227; 128; 128]]).

Fixpoint strip_any (strip : string -> string -> option string) (ps : list string) (s : string)
  : option string :=
  match ps with
  | [] => None
  | p :: ps' => match strip p s with Some r => Some r | None => strip_any strip ps' s end
  end.

(** Trimming removes at least one byte a round, so [length s] rounds suffice. *)
Fixpoint trim_with (strip : string -> string -> option string) (fuel : nat) (s : string) : string :=
  match fuel with
  | O => s
  | S n => match strip_any strip space_seqs s with
           | Some r => trim_with strip n r
           | None => s
           end
  end.

Definition TrimLeftSpace (s : string) : string := trim_with CutPrefix (String.length s) s.
Definition TrimRightSpace (s : string) : string := trim_with CutSuffix (String.length s) s.
Definition TrimSpace (s : string) : string := TrimRightSpace (TrimLeftSpace s).

(** [strings.ToLower] as the code uses it, to compare with ASCII constants:
    ASCII letters, and the two other code points whose lower case is ASCII
    (U+212A KELVIN SIGN and U+0130); every other byte is kept (a non-ASCII rune
    stays non-ASCII, so no comparison with an ASCII constant can tell). *)
Definition lower_ascii (c : ascii) : ascii :=
  let n := nat_of_ascii c in
  if (65 <=? n) && (n <=? 90) then chr (n + 32) else c.

Fixpoint ToLower (s : string) : string :=
  match s with
  | EmptyString => ""
  | String c s' =>
      match s' with
      | EmptyString => String (lower_ascii c) ""
      | String d s2 =>
          if bool_decide (c = chr 196 /\ d = chr 176) then String (chr 105) (ToLower s2)
          else match s2 with
               | String e s3 =>
                   if bool_decide (c = chr 226 /\ d = chr 132 /\ e = chr 170)
                   then String (chr 107) (ToLower s3)
                   else String (lower_ascii c) (ToLower s')
               | EmptyString => String (lower_ascii c) (ToLower s')
               end
      end
  end.

(** ** strconv *)

Definition is_digit (c : ascii) : bool := (48 <=? nat_of_ascii c) && (nat_of_ascii c <=? 57).
Definition digit_val (c : ascii) : Z := Z.of_nat (nat_of_ascii c) - 48.

Fixpoint read_digits (acc : Z) (s : string) : option Z :=
  match s with
  | EmptyString => Some acc
  | String c s' => if is_digit c then read_digits (acc * 10 + digit_val c)%Z s' else None
  end.

(** [strconv.Atoi] and [strconv.ParseInt(s, 10, 64)]: an optional sign, at
    least one digit, nothing else, and a value that fits an [int64]. *)
Definition Atoi (s : string) : option Z :=
  let '(neg, body) :=
    match s with
    | String c s' => if bool_decide (c = chr 45) then (true, s')
                     else if bool_decide (c = chr 43) then (false, s') else (false, s)
    | EmptyString => (false, s)
    end in
  match body with
  | EmptyString => None
  | _ => match read_digits 0 body with
         | Some v => let v' := if (neg : bool) then (- v)%Z else v in
                     if bool_decide (- 2 ^ 63 <= v' < 2 ^ 63)%Z then Some v' else None
         | None => None
         end
  end.

(** [strconv.Itoa] / [FormatInt(_, 10)] / the verb [%d]. *)
Definition Itoa (z : Z) : string := pretty z.

(** ** fmt.Sscanf, the verb [%d]

    Blanks are skipped (a newline among them is an error), then a sign and the
    longest run of digits, at least one, must make an [int64]; the rest of the
    input is left. *)
Fixpoint span_digits (s : string) : string * string :=
  match s with
  | EmptyString => ("", "")
  | String c s' =>
      if is_digit c then let '(d, r) := span_digits s' in (String c d, r) else ("", s)
  end.

Definition scan_int (s : string) : option (Z * string) :=
  let t := TrimLeftSpace s in
  let skipped := String.substring 0 (String.length s - String.length t) s in
  if bool_decide (newline ∈ chars skipped) then None else
  let '(sign, body) :=
    match t with
    | String c t' => if bool_decide (c ∈ [chr 43; chr 45]) then (String c "", t') else ("", t)
    | EmptyString => ("", t)
    end in
  let '(digits, rest) := span_digits body in
  match Atoi (sign +:+ digits) with
  | Some v => Some (v, rest)
  | None => None
  end.

(** [strings.Replace(s, old, new, 1)]. *)
Definition ReplaceFirst (s old new : string) : string :=
  match Cut s old with Some (a, b) => a +:+ new +:+ b | None => s end.

(** ** path/filepath (Unix) *)

(** [filepath.Ext]: from the last dot of the last element. *)
Fixpoint Ext (s : string) : string :=
  match s with
  | EmptyString => ""
  | String c s' =>
      if bool_decide (chr 47 ∈ chars s') then Ext s'
      else if bool_decide (c = chr 46) then
             (if bool_decide (chr 46 ∈ chars s') then Ext s' else s)
           else Ext s'
  end.

Fixpoint trim_slashes (fuel : nat) (s : string) : string :=
  match fuel with
  | O => s
  | S n => match CutSuffix "/" s with Some r => trim_slashes n r | None => s end
  end.

(** [filepath.Base]: trailing slashes dropped, then the last element. *)
Definition Base (s : string) : string :=
  if bool_decide (s = "") then "."
  else let t := trim_slashes (String.length s) s in
       if bool_decide (t = "") then "/"
       else List.last (Split t (chr 47)) "".

(** [filepath.Clean], [Dir] and [Join]. *)
Definition clean_step (rooted : bool) (stack : list string) (c : string) : list string :=
  if bool_decide (c = "") || bool_decide (c = ".") then stack
  else if bool_decide (c = "..") then
    match stack with
    | top :: rest => if bool_decide (top = "..") then ".." :: stack else rest
    | [] => if rooted then [] else [".."]
    end
  else c :: stack.

Definition Clean (s : string) : string :=
  let rooted := HasPrefix s "/" in
  let parts := rev (foldl (clean_step rooted) [] (Split s (chr 47))) in
  let body := Join parts "/" in
  if rooted then "/" +:+ body else if bool_decide (body = "") then "." else body.

(** The part of the path up to and including the last slash. *)
Fixpoint dir_part (s : string) : string :=
  match s with
  | EmptyString => ""
  | String c s' =>
      if bool_decide (chr 47 ∈ chars s) then String c (dir_part s') else ""
  end.
Definition Dir (s : string) : string := Clean (dir_part s).
Definition PathJoin (a b : string) : string :=
  if bool_decide (a = "") then (if bool_decide (b = "") then "" else Clean b)
  else if bool_decide (b = "") then Clean a
  else Clean (a +:+ "/" +:+ b).

(** * Lemmas *)

Arguments bytes : simpl never.
Arguments dquote : simpl never.
Arguments newline : simpl never.
Arguments chr : simpl never.

Lemma append_String c s t : String c s +:+ t = String c (s +:+ t).
Proof. done. Qed.
Lemma append_nil_l s : "" +:+ s = s.
Proof. done. Qed.
Lemma append_nil_r s : s +:+ "" = s.
Proof. induction s as [|c s IH]; [done|]. by rewrite append_String, IH. Qed.
Lemma append_assoc s t u : (s +:+ t) +:+ u = s +:+ t +:+ u.
Proof. induction s as [|c s IH]; [done|]. by rewrite !append_String, IH. Qed.
Lemma length_append s t : String.length (s +:+ t) = String.length s + String.length t.
Proof. induction s as [|c s IH]; [done|]. rewrite append_String. simpl. by rewrite IH. Qed.
Lemma append_inj_l s t u : s +:+ t = s +:+ u -> t = u.
Proof. induction s as [|c s IH]; [done|]. rewrite !append_String. naive_solver. Qed.
Lemma append_inj_r s t u : t +:+ s = u +:+ s -> t = u.
Proof.
  revert u. induction t as [|c t IH]; intros [|d u]; rewrite ?append_String, ?append_nil_l.
  - done.
  - intros H. apply (f_equal String.length) in H. simpl in H.
    rewrite length_append in H. lia.
  - intros H. apply (f_equal String.length) in H. simpl in H.
    rewrite length_append in H. lia.
  - intros [= -> H]. f_equal. auto.
Qed.

Lemma chars_append s t : chars (s +:+ t) = chars s ++ chars t.
Proof. induction s as [|c s IH]; [done|]. rewrite append_String. simpl. by rewrite IH. Qed.

Lemma CutPrefix_Some p s r : CutPrefix p s = Some r <-> s = p +:+ r.
Proof.
  revert s. induction p as [|c p IH]; intros s; simpl.
  { rewrite append_nil_l. split; congruence. }
  destruct s as [|d s]; rewrite append_String; [split; discriminate|].
  case_bool_decide; [subst; rewrite IH|]; split; congruence.
Qed.

Lemma CutPrefix_app p r : CutPrefix p (p +:+ r) = Some r.
Proof. by apply CutPrefix_Some. Qed.

Lemma CutSuffix_unfold p s : CutSuffix p s =
  if bool_decide (s = p) then Some "" else
  match s with EmptyString => None | String c s' => String c <$> CutSuffix p s' end.
Proof. by destruct s. Qed.

Lemma CutSuffix_Some p s r : CutSuffix p s = Some r <-> s = r +:+ p.
Proof.
  revert r. induction s as [|c s IH]; intros r; rewrite CutSuffix_unfold.
  { case_bool_decide as H.
    - subst. split; [by intros [= <-]|]. rewrite append_nil_r. naive_solver.
    - split; [done|]. destruct r; [rewrite append_nil_l; congruence | done]. }
  case_bool_decide as H.
  { split; [intros [= <-]; done|]. intros E. f_equal. rewrite H in E.
    change p with ("" +:+ p) in E at 1. by apply append_inj_r in E. }
  rewrite fmap_Some. setoid_rewrite IH. split.
  - intros (x & -> & ->). by rewrite append_String.
  - destruct r as [|d r]; [rewrite append_nil_l; congruence|].
    rewrite append_String. intros [= -> ->]. eauto.
Qed.

Lemma HasPrefix_true s p : HasPrefix s p = true <-> exists r, s = p +:+ r.
Proof.
  unfold HasPrefix. rewrite bool_decide_eq_true. unfold is_Some.
  by setoid_rewrite CutPrefix_Some.
Qed.

Lemma HasSuffix_true s p : HasSuffix s p = true <-> exists r, s = r +:+ p.
Proof.
  unfold HasSuffix. rewrite bool_decide_eq_true. unfold is_Some.
  by setoid_rewrite CutSuffix_Some.
Qed.

Lemma TrimPrefix_app p r : TrimPrefix (p +:+ r) p = r.
Proof. unfold TrimPrefix. by rewrite CutPrefix_app. Qed.

Lemma TrimSuffix_app p r : TrimSuffix (r +:+ p) p = r.
Proof.
  unfold TrimSuffix.
  by rewrite (proj2 (CutSuffix_Some p (r +:+ p) r) eq_refl).
Qed.

(** ** Cutting *)

Lemma Cut_unfold s sep : Cut s sep =
  match CutPrefix sep s with
  | Some r => Some ("", r)
  | None => match s with
            | EmptyString => None
            | String c s' =>
                match Cut s' sep with Some (a, b) => Some (String c a, b) | None => None end
            end
  end.
Proof. by destruct s. Qed.

Lemma Cut_sound s sep a b : Cut s sep = Some (a, b) -> s = a +:+ sep +:+ b.
Proof.
  revert a. induction s as [|c s IH]; intros a; rewrite Cut_unfold.
  - destruct (CutPrefix sep "") eqn:E; [|done].
    intros [= <- ->]. by apply CutPrefix_Some in E.
  - destruct (CutPrefix sep (String c s)) eqn:E.
    + intros [= <- ->]. by apply CutPrefix_Some in E.
    + destruct (Cut s sep) as [[x y]|] eqn:E'; [|done].
      intros [= <- ->]. rewrite append_String. f_equal. by apply IH.
Qed.

(** A separator whose first byte does not occur before it is cut there. *)
Lemma Cut_first c sep a b :
  c ∉ chars a -> Cut (a +:+ String c sep +:+ b) (String c sep) = Some (a, b).
Proof.
  induction a as [|d a IH]; intros Hc.
  - rewrite append_nil_l, Cut_unfold. by rewrite CutPrefix_app.
  - simpl in Hc. apply not_elem_of_cons in Hc as [Hd Hc].
    rewrite (append_String d a), Cut_unfold.
    rewrite IH by done.
    destruct (CutPrefix _ _) eqn:E; [|done].
    apply CutPrefix_Some in E. rewrite !append_String in E. simplify_eq.
Qed.

Lemma Contains_true s sub : Contains s sub = true <-> exists a b, Cut s sub = Some (a, b).
Proof.
  unfold Contains. rewrite bool_decide_eq_true. unfold is_Some. split.
  - intros [[a b] H]; eauto.
  - intros (a & b & H); eauto.
Qed.

(** ** Splitting and joining *)

Lemma Split_ne s c : Split s c <> [].
Proof. destruct s as [|d s]; simpl; [done|]. repeat case_match; done. Qed.

Lemma Join_cons x l sep : l <> [] -> Join (x :: l) sep = x +:+ sep +:+ Join l sep.
Proof. by destruct l. Qed.

Lemma Join_Split s c : Join (Split s c) (String c "") = s.
Proof.
  induction s as [|d s IH]; [done|]. simpl.
  case_bool_decide as E.
  - rewrite Join_cons by apply Split_ne. rewrite IH. by subst.
  - destruct (Split s c) as [|h t] eqn:E'; [by destruct (Split_ne s c)|].
    destruct t as [|h' t].
    + simpl in *. congruence.
    + rewrite Join_cons in IH |- * by done. rewrite append_String. by rewrite IH.
Qed.

Lemma Split_no s c : c ∉ chars s -> Split s c = [s].
Proof.
  induction s as [|d s IH]; [done|]. simpl. rewrite not_elem_of_cons. intros [H1 H2].
  rewrite bool_decide_eq_false_2 by congruence. by rewrite IH.
Qed.

Lemma Split_app_sep x c s : c ∉ chars x -> Split (x +:+ String c s) c = x :: Split s c.
Proof.
  induction x as [|d x IH].
  - intros _. rewrite append_nil_l. simpl. by rewrite bool_decide_eq_true_2.
  - cbn [chars]. rewrite not_elem_of_cons. intros [H1 H2]. rewrite append_String. cbn [Split].
    rewrite bool_decide_eq_false_2 by congruence. by rewrite IH.
Qed.

Lemma Split_Join l c :
  l <> [] -> Forall (fun x => c ∉ chars x) l -> Split (Join l (String c "")) c = l.
Proof.
  intros Hne HF. induction HF as [|x l Hx HF IH]; [done|].
  destruct l as [|y l].
  - simpl. by apply Split_no.
  - rewrite Join_cons by done. rewrite append_String, append_nil_l.
    rewrite Split_app_sep by done. f_equal. by apply IH.
Qed.

Lemma Split_no_sep s c : Forall (fun x => c ∉ chars x) (Split s c).
Proof.
  induction s as [|d s IH]; simpl; [apply Forall_singleton, not_elem_of_nil|].
  case_bool_decide as E.
  - constructor; [apply not_elem_of_nil|done].
  - destruct (Split s c) as [|h t].
    { apply Forall_singleton, not_elem_of_cons. split; [congruence|apply not_elem_of_nil]. }
    inversion IH as [|? ? Hh Ht]; subst. constructor; [|done].
    apply not_elem_of_cons. split; [congruence|done].
Qed.

(** ** Trimming *)

(** A string whose first and last bytes are no part of a space is unchanged. *)
Definition solid_byte (c : ascii) : bool :=
  (33 <=? nat_of_ascii c) && (nat_of_ascii c <=? 126).

Lemma space_seqs_first p : p ∈ space_seqs ->
  exists c p', p = String c p' /\ solid_byte c = false.
Proof.
  intros H.
  assert (HF : forallb (fun p => match p with String c _ => negb (solid_byte c) | _ => false end)
                 space_seqs = true) by (vm_compute; reflexivity).
  rewrite forallb_forall in HF. apply list_elem_of_In in H. specialize (HF _ H).
  destruct p as [|c p]; [done|]. exists c, p. split; [done|]. by apply negb_true_iff.
Qed.

Lemma strip_any_None strip ps s :
  (forall p, p ∈ ps -> strip p s = None) -> strip_any strip ps s = None.
Proof.
  induction ps as [|p ps IH]; simpl; intros H; [done|].
  rewrite H by set_solver. apply IH. set_solver.
Qed.

Lemma trim_with_id strip fuel s :
  strip_any strip space_seqs s = None -> trim_with strip fuel s = s.
Proof. destruct fuel; simpl; [done|]. by intros ->. Qed.

Lemma space_seqs_last p : p ∈ space_seqs ->
  exists c p', p = p' +:+ String c "" /\ solid_byte c = false.
Proof.
  intros H.
  assert (HF : forallb (fun p => match List.rev (chars p) with
                                 | c :: _ => negb (solid_byte c) | _ => false end)
                 space_seqs = true) by (vm_compute; reflexivity).
  rewrite forallb_forall in HF. apply list_elem_of_In in H. specialize (HF _ H).
  destruct (List.rev (chars p)) as [|c r] eqn:E; [done|].
  exists c, (String.string_of_list_ascii (List.rev r)). split; [|by apply negb_true_iff].
  apply (f_equal (@List.rev ascii)) in E. rewrite List.rev_involutive in E. simpl in E.
  assert (Hc : forall s, String.string_of_list_ascii (chars s) = s).
  { induction s as [|d s IHs]; simpl; congruence. }
  assert (Ha : forall l l', String.string_of_list_ascii (l ++ l') =
    String.string_of_list_ascii l +:+ String.string_of_list_ascii l').
  { induction l as [|d l IHl]; intros; [done|]. simpl. by rewrite IHl. }
  rewrite <- (Hc p), E, Ha. done.
Qed.

(** The shape of a line that trimming leaves alone. *)
Definition solid (s : string) : Prop :=
  s = "" \/
  exists c d s1 s2, s = String c s1 /\ s = s2 +:+ String d "" /\
                    solid_byte c = true /\ solid_byte d = true.

Lemma append_snoc_inj s t c d : s +:+ String c "" = t +:+ String d "" -> s = t /\ c = d.
Proof.
  revert t. induction s as [|x s IH]; intros [|y t];
    rewrite ?append_nil_l, ?append_String.
  - intros [= ->]. done.
  - intros [= _ H]. destruct t; discriminate H.
  - intros [= _ H]. destruct s; discriminate H.
  - intros [= -> H]. apply IH in H as [-> ->]. done.
Qed.

Lemma TrimSpace_solid s : solid s -> TrimSpace s = s.
Proof.
  intros [->|(c & d & s1 & s2 & E1 & E2 & Hc & Hd)]; [done|].
  unfold TrimSpace, TrimLeftSpace, TrimRightSpace.
  rewrite (trim_with_id CutPrefix).
  2:{ apply strip_any_None. intros p (x & p' & -> & Hx)%space_seqs_first.
      destruct (CutPrefix _ _) eqn:E; [|done].
      apply CutPrefix_Some in E. rewrite append_String in E. congruence. }
  apply trim_with_id. apply strip_any_None.
  intros p (x & p' & -> & Hx)%space_seqs_last.
  destruct (CutSuffix _ _) eqn:E; [|done].
  apply CutSuffix_Some in E. rewrite <- append_assoc in E. rewrite E2 in E.
  apply append_snoc_inj in E as [_ ->]. congruence.
Qed.

(** ** Decimal integers *)

Lemma is_digit_pretty x : is_digit (pretty_N_char (x mod 10)) = true.
Proof.
  assert (H : (x mod 10 < 10)%N) by (apply N.mod_lt; lia).
  revert H. generalize (x mod 10)%N as d. intros d H.
  assert (d = 0 \/ d = 1 \/ d = 2 \/ d = 3 \/ d = 4 \/ d = 5 \/ d = 6 \/ d = 7 \/ d = 8 \/ d = 9)%N
    as Hd by lia.
  by destruct_or! Hd; subst.
Qed.

Lemma digit_val_pretty x : digit_val (pretty_N_char (x mod 10)) = Z.of_N (x mod 10).
Proof.
  assert (H : (x mod 10 < 10)%N) by (apply N.mod_lt; lia).
  revert H. generalize (x mod 10)%N as d. intros d H.
  assert (d = 0 \/ d = 1 \/ d = 2 \/ d = 3 \/ d = 4 \/ d = 5 \/ d = 6 \/ d = 7 \/ d = 8 \/ d = 9)%N
    as Hd by lia.
  by destruct_or! Hd; subst.
Qed.

Lemma read_pretty_N_go x s : read_digits 0 (pretty_N_go x s) = read_digits (Z.of_N x) s.
Proof.
  revert s. induction (N.lt_wf_0 x) as [x _ IH]; intros s.
  destruct (decide (x = 0)%N) as [->|Hx]; [by rewrite pretty_N_go_0|].
  rewrite pretty_N_go_step by lia. rewrite IH by (apply N.div_lt; lia).
  cbn [read_digits]. rewrite is_digit_pretty, digit_val_pretty. f_equal.
  rewrite N2Z.inj_div, N2Z.inj_mod. pose proof (Z.div_mod (Z.of_N x) 10). lia.
Qed.

(** The digits of a number are digits, at least one of them. *)
Lemma pretty_N_go_digits x s :
  Forall (fun c => is_digit c = true) (chars s) ->
  Forall (fun c => is_digit c = true) (chars (pretty_N_go x s)).
Proof.
  revert s. induction (N.lt_wf_0 x) as [x _ IH]; intros s Hs.
  destruct (decide (x = 0)%N) as [->|Hx]; [by rewrite pretty_N_go_0|].
  rewrite pretty_N_go_step by lia. apply IH; [apply N.div_lt; lia|].
  simpl. constructor; [apply is_digit_pretty|done].
Qed.

Lemma pretty_N_digits (x : N) : Forall (fun c => is_digit c = true) (chars (pretty x)).
Proof.
  unfold pretty, pretty_N. case_decide; [by repeat constructor|].
  apply pretty_N_go_digits. constructor.
Qed.

Lemma read_pretty_N (x : N) : read_digits 0 (pretty x) = Some (Z.of_N x).
Proof.
  unfold pretty, pretty_N. case_decide; [by subst|].
  by rewrite read_pretty_N_go.
Qed.

Lemma pretty_N_ne (x : N) : pretty x <> "".
Proof.
  intros H. pose proof (read_pretty_N x) as R. rewrite H in R. cbn in R.
  assert (x = 0)%N as -> by (injection R; lia). discriminate H.
Qed.

Lemma Itoa_nonneg z : (0 <= z)%Z -> Itoa z = pretty (Z.to_N z).
Proof. destruct z; try lia; intros _; reflexivity. Qed.

Lemma Itoa_digits z : (0 <= z)%Z -> Forall (fun c => is_digit c = true) (chars (Itoa z)).
Proof. intros H. rewrite Itoa_nonneg by done. apply pretty_N_digits. Qed.

Lemma Itoa_nonempty z : (0 <= z)%Z -> Itoa z <> "".
Proof. intros H. rewrite Itoa_nonneg by done. apply pretty_N_ne. Qed.

Lemma Atoi_Itoa z : (0 <= z < 2 ^ 63)%Z -> Atoi (Itoa z) = Some z.
Proof.
  intros Hz. pose proof (Itoa_digits z ltac:(lia)) as HD.
  rewrite Itoa_nonneg in * by lia.
  pose proof (read_pretty_N (Z.to_N z)) as R. pose proof (pretty_N_ne (Z.to_N z)) as Hne.
  unfold Atoi. destruct (pretty (Z.to_N z)) as [|c s]; [done|].
  simpl in HD. inversion HD as [|? ? Hc _]; subst.
  rewrite !bool_decide_eq_false_2 by (intros ->; discriminate Hc).
  rewrite R. rewrite Z2N.id by lia. by rewrite bool_decide_eq_true_2 by lia.
Qed.

#[export] Hint Rewrite append_String append_nil_l append_nil_r append_assoc TrimPrefix_app
  TrimSuffix_app CutPrefix_app : storage.

(** Two ways to split the same string. *)
Lemma append_eq_append a b c d : a +:+ b = c +:+ d ->
  (exists k, a = c +:+ k /\ d = k +:+ b) \/ (exists k, c = a +:+ k /\ b = k +:+ d).
Proof.
  revert c. induction a as [|x a IH]; intros c.
  - rewrite append_nil_l. intros ->. right. exists c. by rewrite append_nil_l.
  - destruct c as [|y c].
    + rewrite append_nil_l. intros <-. left. exists (String x a). by rewrite append_nil_l.
    + rewrite !append_String. intros [= -> HE]. apply IH in HE as [(k & -> & ->)|(k & -> & ->)].
      * left. exists k. by rewrite append_String.
      * right. exists k. by rewrite append_String.
Qed.

(** [Cut] finds an occurrence when there is one. *)
Lemma Cut_complete s m a b : s = a +:+ m +:+ b -> is_Some (Cut s m).
Proof.
  intros ->. induction a as [|c a IH].
  - rewrite append_nil_l, Cut_unfold, CutPrefix_app. by eexists.
  - rewrite append_String, Cut_unfold. destruct (CutPrefix m _); [by eexists|].
    destruct IH as [[x y] ->]. by eexists.
Qed.

Lemma Contains_iff s m : Contains s m = true <-> exists a b, s = a +:+ m +:+ b.
Proof.
  rewrite Contains_true. split.
  - intros (a & b & HC%Cut_sound). eauto.
  - intros (a & b & HE). destruct (Cut_complete _ _ _ _ HE) as [[x y] Hc]. eauto.
Qed.

(** What trimming removes: bytes of the encodings of spaces, on both sides. *)
Definition space_byte (c : ascii) : bool := existsb (fun p => bool_decide (c ∈ chars p)) space_seqs.

Lemma space_seq_bytes p c : p ∈ space_seqs -> c ∈ chars p -> space_byte c = true.
Proof.
  intros Hp Hc. apply existsb_exists. exists p. split; [by apply list_elem_of_In|].
  by apply bool_decide_eq_true.
Qed.

Lemma strip_any_Some strip ps s r : strip_any strip ps s = Some r ->
  exists p, p ∈ ps /\ strip p s = Some r.
Proof.
  induction ps as [|p ps IH]; simpl; [done|]. destruct (strip p s) eqn:E.
  - intros [= ->]. exists p. split; [apply list_elem_of_here|done].
  - intros (q & Hq & Hs)%IH. exists q. split; [by apply list_elem_of_further|done].
Qed.

Lemma trim_left_decomp fuel s : exists w, s = w +:+ trim_with CutPrefix fuel s /\
  forall c, c ∈ chars w -> space_byte c = true.
Proof.
  revert s. induction fuel as [|fuel IH]; intros s; cbn [trim_with].
  - exists "". split; [by rewrite append_nil_l|]. by intros ? ?%not_elem_of_nil.
  - destruct (strip_any CutPrefix space_seqs s) as [r|] eqn:E.
    2:{ exists "". split; [by rewrite append_nil_l|]. by intros ? ?%not_elem_of_nil. }
    apply strip_any_Some in E as (p & Hp & ->%CutPrefix_Some).
    destruct (IH r) as (w & Hr & Hw). exists (p +:+ w). split.
    + rewrite append_assoc. by rewrite <- Hr.
    + intros c. rewrite chars_append, elem_of_app. intros [Hc|Hc]; [|auto].
      by eapply space_seq_bytes.
Qed.

Lemma trim_right_decomp fuel s : exists w, s = trim_with CutSuffix fuel s +:+ w /\
  forall c, c ∈ chars w -> space_byte c = true.
Proof.
  revert s. induction fuel as [|fuel IH]; intros s; cbn [trim_with].
  - exists "". split; [by rewrite append_nil_r|]. by intros ? ?%not_elem_of_nil.
  - destruct (strip_any CutSuffix space_seqs s) as [r|] eqn:E.
    2:{ exists "". split; [by rewrite append_nil_r|]. by intros ? ?%not_elem_of_nil. }
    apply strip_any_Some in E as (p & Hp & ->%CutSuffix_Some).
    destruct (IH r) as (w & Hr & Hw). exists (w +:+ p). split.
    + rewrite <- append_assoc. by rewrite <- Hr.
    + intros c. rewrite chars_append, elem_of_app. intros [Hc|Hc]; [auto|].
      by eapply space_seq_bytes.
Qed.

Lemma TrimSpace_decomp s : exists w1 w2, s = w1 +:+ TrimSpace s +:+ w2 /\
  (forall c, c ∈ chars w1 -> space_byte c = true) /\
  (forall c, c ∈ chars w2 -> space_byte c = true).
Proof.
  unfold TrimSpace, TrimRightSpace, TrimLeftSpace.
  destruct (trim_left_decomp (String.length s) s) as (w1 & H1 & Hw1).
  set (t := trim_with CutPrefix _ s) in *.
  destruct (trim_right_decomp (String.length t) t) as (w2 & H2 & Hw2).
  exists w1, w2. split; [|done]. by rewrite <- H2.
Qed.

Lemma TrimSpace_no_byte s c : c ∉ chars s -> c ∉ chars (TrimSpace s).
Proof.
  intros Hc Hin. destruct (TrimSpace_decomp s) as (w1 & w2 & E & _). apply Hc. rewrite E.
  rewrite !chars_append, !elem_of_app. auto.
Qed.

(** An occurrence of a text whose ends are no space bytes survives trimming. *)
Lemma Contains_TrimSpace s m c m1 d m2 :
  m = String c m1 -> m = m2 +:+ String d "" -> space_byte c = false -> space_byte d = false ->
  Contains s m = true -> Contains (TrimSpace s) m = true.
Proof.
  intros Hc Hd Hsc Hsd (a & b & HE)%Contains_iff. apply Contains_iff.
  destruct (TrimSpace_decomp s) as (w1 & w2 & E & Hw1 & Hw2). set (t := TrimSpace s) in *.
  rewrite E in HE. assert (HT : exists k, t +:+ w2 = k +:+ m +:+ b).
  { apply append_eq_append in HE as [(k & -> & HE)|(k & -> & HE)]; [|eauto].
    destruct k as [|x k].
    - exists "". by rewrite append_nil_l in HE |- *.
    - rewrite Hc, !append_String in HE. injection HE as <- _.
      rewrite Hw1 in Hsc; [done|]. rewrite chars_append, elem_of_app. right. by left. }
  destruct HT as (k & HT). rewrite <- append_assoc in HT.
  apply append_eq_append in HT as [(j & -> & _)|(j & HJ & ->)].
  - exists k, j. by rewrite append_assoc.
  - destruct (decide (j = "")) as [->|Hj].
    + rewrite append_nil_r in HJ. exists k, "". by rewrite append_nil_r.
    + assert (exists j' x, j = j' +:+ String x "") as (j' & x & ->).
      { clear -Hj. induction j as [|y j IH]; [done|]. destruct j as [|z j].
        - exists "", y. done.
        - destruct IH as (j' & x & ->); [done|]. exists (String y j'), x. by rewrite append_String. }
      rewrite Hd, <- !append_assoc in HJ. apply append_snoc_inj in HJ as [_ ->].
      rewrite Hw2 in Hsd; [done|]. rewrite !chars_append, !elem_of_app. left. right. by left.
Qed.

(** An extension is empty, or a dot and what has no dot or slash. *)
Definition ext_like (e : string) : Prop :=
  e = "" \/ exists x, e = "." +:+ x /\ (chr 46 ∉ chars x) /\ chr 47 ∉ chars x.

Lemma Ext_like s : ext_like (Ext s).
Proof.
  induction s as [|c s IH]; [by left|]. simpl. case_bool_decide as H1; [done|].
  case_bool_decide as H2; [|done]. case_bool_decide as H3; [done|].
  right. exists s. by rewrite H2.
Qed.

Lemma Ext_app a e : (chr 46 ∉ chars a) -> (chr 47 ∉ chars e) -> ext_like e -> Ext (a +:+ e) = e.
Proof.
  intros Ha Hs He. induction a as [|c a IH].
  - rewrite append_nil_l. destruct He as [->|(x & -> & H1 & H2)]; [done|].
    change ("." +:+ x) with (String (chr 46) x). simpl.
    rewrite (bool_decide_eq_false_2 _ H2).
    by rewrite (bool_decide_eq_false_2 _ H1).
  - simpl in Ha. rewrite not_elem_of_cons in Ha. destruct Ha as [Hc Ha].
    rewrite append_String. simpl. rewrite (IH Ha).
    case_bool_decide; [done|]. by rewrite bool_decide_eq_false_2.
Qed.

Lemma ext_like_no_slash e : ext_like e -> chr 47 ∉ chars e.
Proof.
  intros [->|(x & -> & _ & H)]; [by apply not_elem_of_nil|].
  rewrite chars_append, elem_of_app. intros [Hin|Hin]; [|done].
  apply list_elem_of_singleton in Hin. by vm_compute in Hin.
Qed.

(** Elements joined by slashes, the first and the last of them not empty, lose
    nothing to trimming. *)
Lemma trim_slashes_id n s : CutSuffix "/" s = None -> trim_slashes n s = s.
Proof. destruct n; simpl; [done|]. by intros ->. Qed.

Lemma CutSuffix_slash_None s t : t <> "" -> (chr 47 ∉ chars t) -> CutSuffix "/" (s +:+ t) = None.
Proof.
  intros Ht Hs. destruct (CutSuffix "/" (s +:+ t)) as [r|] eqn:E; [|done].
  apply CutSuffix_Some in E. exfalso. apply append_eq_append in E as [(k & _ & E)|(k & _ & E)].
  - destruct k as [|c k]; [rewrite append_nil_l in E; subst t; apply Hs; by left|].
    rewrite append_String in E. injection E as _ E. destruct k; [|done]. by rewrite append_nil_l in E.
  - apply Hs. rewrite E, chars_append, elem_of_app. right. by left.
Qed.

Lemma Join_last l x sep : exists s, Join (l ++ [x]) sep = s +:+ x.
Proof.
  induction l as [|y l [s IH]]; [by exists ""|]. simpl app.
  exists (y +:+ sep +:+ s). rewrite Join_cons by (by destruct l). rewrite IH.
  by rewrite !append_assoc.
Qed.

(** A string of visible ASCII characters is left alone by trimming. *)
Lemma solid_all s : Forall (fun c => solid_byte c = true) (chars s) -> solid s.
Proof.
  destruct s as [|c s]; [by left|]. intros HF. right.
  assert (Hsn : forall t, t <> "" -> exists t' d, t = t' +:+ String d "").
  { induction t as [|x t IH]; [done|]. intros _. destruct t as [|y t]; [by exists "", x|].
    destruct IH as (t' & d & ->); [done|]. exists (String x t'), d. by rewrite append_String. }
  destruct (Hsn (String c s)) as (t & d & E); [done|]. exists c, d, s, t. split_and!; [done|done|..].
  - by apply Forall_cons in HF as [? _].
  - rewrite E, chars_append in HF. apply Forall_app in HF as [_ HF]. by apply Forall_cons in HF as [? _].
Qed.

(** The first occurrence of [m] does not depend on what follows it. *)
Lemma Cut_shift a m b b' : Cut (a +:+ m +:+ b) m = Some (a, b) -> Cut (a +:+ m +:+ b') m = Some (a, b').
Proof.
  induction a as [|c a IH]; intros HC.
  - rewrite append_nil_l. by rewrite Cut_unfold, CutPrefix_app.
  - rewrite append_String in *. rewrite Cut_unfold in HC |- *.
    destruct (CutPrefix m (String c (a +:+ m +:+ b))) eqn:E; [congruence|].
    destruct (CutPrefix m (String c (a +:+ m +:+ b'))) as [r|] eqn:E'.
    + exfalso. apply CutPrefix_Some in E'. rewrite <- append_String, <- !append_assoc in E'.
      apply append_eq_append in E' as [(k & Hk & _)|(k & Hk & _)].
      * rewrite <- append_String, <- append_assoc, Hk, append_assoc, CutPrefix_app in E. done.
      * apply (f_equal String.length) in Hk. rewrite !length_append in Hk. simpl in Hk. lia.
    + destruct (Cut (a +:+ m +:+ b) m) as [[x y]|] eqn:EC; [|done]. injection HC as -> ->.
      by rewrite IH.
Qed.

(** Where a text occurs first, a longer text that occurs there occurs first. *)
Lemma Cut_longer s m x a b : Cut s m = Some (a, x +:+ b) -> Cut s (m +:+ x) = Some (a, b).
Proof.
  revert a. induction s as [|c s IH]; intros a HC.
  - rewrite Cut_unfold in HC |- *. destruct (CutPrefix m "") eqn:E; [|done].
    injection HC as <- ->. apply CutPrefix_Some in E. by rewrite E, <- append_assoc, CutPrefix_app.
  - rewrite Cut_unfold in HC |- *. destruct (CutPrefix m (String c s)) eqn:E.
    + injection HC as <- ->. apply CutPrefix_Some in E. by rewrite E, <- append_assoc, CutPrefix_app.
    + destruct (CutPrefix (m +:+ x) (String c s)) eqn:E'.
      { apply CutPrefix_Some in E'. by rewrite E', append_assoc, CutPrefix_app in E. }
      destruct (Cut s m) as [[y z]|] eqn:EC; [|done]. injection HC as <- ->. by rewrite (IH y).
Qed.

(** The last element of a path. *)
Lemma Base_file f : f <> "" -> (chr 47 ∉ chars f) -> Base f = f.
Proof.
  intros Hf Hs. unfold Base. rewrite bool_decide_eq_false_2 by done.
  rewrite trim_slashes_id by (by apply (CutSuffix_slash_None "" f)).
  rewrite bool_decide_eq_false_2 by done. by rewrite Split_no.
Qed.

Lemma Base_in d f : f <> "" -> (chr 47 ∉ chars f) -> Base (d +:+ String (chr 47) f) = f.
Proof.
  intros Hf Hs. unfold Base. rewrite bool_decide_eq_false_2 by (by destruct d).
  rewrite trim_slashes_id.
  2:{ change (String (chr 47) f) with ("/" +:+ f). rewrite <- append_assoc.
      by apply CutSuffix_slash_None. }
  rewrite bool_decide_eq_false_2 by (by destruct d).
  induction d as [|c d IH].
  - rewrite append_nil_l. cbn [Split]. rewrite bool_decide_eq_true_2 by done. by rewrite Split_no.
  - rewrite append_String. cbn [Split]. case_bool_decide.
    + destruct (Split (d +:+ _) _) as [|h t] eqn:E; [by destruct (Split_ne (d +:+ String (chr 47) f) (chr 47))|].
      exact IH.
    + destruct (Split (d +:+ _) _) as [|h t] eqn:E; [by destruct (Split_ne (d +:+ String (chr 47) f) (chr 47))|].
      destruct t as [|h' t]; [|exact IH]. simpl in IH. exfalso.
      apply (f_equal (fun l => Join l (String (chr 47) ""))) in E. rewrite Join_Split in E. simpl in E.
      subst h. apply Hs. rewrite <- IH, chars_append, elem_of_app. right. by left.
Qed.

(** A prefix whose ends are no space bytes survives trimming. *)
Lemma HasPrefix_TrimSpace s p c p1 d p2 :
  p = String c p1 -> p = p2 +:+ String d "" -> space_byte c = false -> space_byte d = false ->
  HasPrefix s p = true -> HasPrefix (TrimSpace s) p = true.
Proof.
  intros Hc Hd Hsc Hsd [r E]%HasPrefix_true. apply HasPrefix_true.
  destruct (TrimSpace_decomp s) as (w1 & w2 & ET & Hw1 & Hw2). set (t := TrimSpace s) in *.
  assert (w1 = "") as ->.
  { destruct w1 as [|x w1]; [done|]. rewrite ET, Hc, !append_String in E. injection E as -> _.
    rewrite Hw1 in Hsc; [done|]. by left. }
  rewrite ET, append_nil_l in E. apply append_eq_append in E as [(k & -> & _)|(k & Hk & ->)]; [by exists k|].
  destruct (decide (k = "")) as [->|Hne]; [exists ""; by rewrite Hk, !append_nil_r|]. exfalso.
  assert (exists k' x, k = k' +:+ String x "") as (k' & x & ->).
  { clear -Hne. induction k as [|y k IH]; [done|]. destruct k as [|z k]; [by exists "", y|].
    destruct IH as (k' & x & ->); [done|]. exists (String y k'), x. by rewrite append_String. }
  rewrite Hd, <- append_assoc in Hk. apply append_snoc_inj in Hk as [_ ->].
  rewrite Hw2 in Hsd; [done|]. rewrite !chars_append, !elem_of_app. left. right. by left.
Qed.

(** A text whose last byte occurs nowhere before it is cut there. *)
Lemma Cut_last a m' d b : (d ∉ chars a) -> (d ∉ chars m') ->
  Cut (a +:+ (m' +:+ String d "") +:+ b) (m' +:+ String d "") = Some (a, b).
Proof.
  intros Ha Hm. set (m := m' +:+ String d ""). induction a as [|c a IH].
  - rewrite append_nil_l. by rewrite Cut_unfold, CutPrefix_app.
  - simpl in Ha. rewrite not_elem_of_cons in Ha. destruct Ha as [Hc Ha].
    rewrite append_String, Cut_unfold, IH by done.
    destruct (CutPrefix m _) as [r|] eqn:E; [|done]. exfalso. apply CutPrefix_Some in E.
    unfold m in E. rewrite !append_assoc, <- !append_String in E.
    assert (H1 : Cut (String c a +:+ m' +:+ String d "" +:+ b) (String d "") = Some (String c a +:+ m', b)).
    { rewrite <- append_assoc. apply Cut_first. rewrite chars_append, elem_of_app. simpl.
      rewrite elem_of_cons. naive_solver. }
    rewrite E in H1. rewrite (Cut_first d "" m' r Hm) in H1.
    injection H1 as Hl _. apply (f_equal String.length) in Hl. rewrite length_append in Hl. simpl in Hl. lia.
Qed.

Lemma CutPrefix_clash p s c d p' s' : p = String c p' -> s = String d s' -> c <> d -> CutPrefix p s = None.
Proof.
  intros -> -> Hcd. destruct (CutPrefix _ _) eqn:E; [|done]. apply CutPrefix_Some in E.
  rewrite append_String in E. congruence.
Qed.

(** The extension of a name that ends in one, whatever dots come before. *)
Lemma Ext_last a x : (chr 47 ∉ chars a) -> (chr 46 ∉ chars x) -> (chr 47 ∉ chars x) ->
  Ext (a +:+ String (chr 46) x) = String (chr 46) x.
Proof.
  intros Ha Hx Hs. induction a as [|c a IH].
  - rewrite append_nil_l. cbn [Ext]. rewrite (bool_decide_eq_false_2 _ Hs).
    by rewrite bool_decide_eq_true_2, (bool_decide_eq_false_2 _ Hx).
  - cbn [chars] in Ha. rewrite not_elem_of_cons in Ha. destruct Ha as [Hc Ha]. rewrite append_String. cbn [Ext].
    assert (Hd : chr 46 ∈ chars (a +:+ String (chr 46) x)) by (rewrite chars_append, elem_of_app; right; by left).
    assert (Hn : chr 47 ∉ chars (a +:+ String (chr 46) x)).
    { rewrite chars_append, elem_of_app. intros [?|[?|?]%elem_of_cons]; done. }
    rewrite (bool_decide_eq_false_2 _ Hn), (bool_decide_eq_true_2 _ Hd), IH by done. by case_bool_decide.
Qed.

(** ** Joining clean paths *)

(** An element of a path, and a directory other than the root in its shortest
    form. *)
Definition component (x : string) : Prop :=
  x <> "" /\ x <> "." /\ x <> ".." /\ (chr 47 ∉ chars x).
Definition clean_dir (s : string) : Prop := Clean s = s /\ s <> "/" /\ s <> ".".

Lemma Split_snoc s x : (chr 47 ∉ chars x) -> Split (s +:+ String (chr 47) x) (chr 47) = Split s (chr 47) ++ [x].
Proof.
  intros Hx. induction s as [|c s IH].
  - rewrite append_nil_l. cbn [Split]. by rewrite bool_decide_eq_true_2, Split_no.
  - rewrite append_String. cbn [Split]. rewrite IH. case_bool_decide; [done|].
    destruct (Split s (chr 47)) as [|h t] eqn:E; [by destruct (Split_ne s (chr 47))|]. done.
Qed.

Lemma Join_snoc l x sep : l <> [] -> Join (l ++ [x]) sep = Join l sep +:+ sep +:+ x.
Proof.
  induction l as [|y l IH]; [done|]. intros _. destruct l as [|z l]; [done|].
  rewrite <- app_comm_cons, Join_cons by (by destruct l). rewrite IH by done.
  rewrite (Join_cons y (z :: l)) by done. by rewrite !append_assoc.
Qed.

Lemma Clean_snoc s x : s <> "" -> component x ->
  let stack := foldl (clean_step (HasPrefix s "/")) [] (Split s (chr 47)) in
  Clean (s +:+ "/" +:+ x) = (if HasPrefix s "/" then "/" else "") +:+ Join (rev stack ++ [x]) "/" /\
  Clean s = (if HasPrefix s "/" then "/" +:+ Join (rev stack) "/"
             else if bool_decide (Join (rev stack) "/" = "") then "." else Join (rev stack) "/").
Proof.
  intros Hs (Hx1 & Hx2 & Hx3 & Hx4) stack. split; [|done]. unfold Clean.
  assert (HP : HasPrefix (s +:+ "/" +:+ x) "/" = HasPrefix s "/").
  { destruct s as [|c s]; [done|]. rewrite append_String.
    destruct (HasPrefix (String c s) "/") eqn:E.
    - apply HasPrefix_true in E as [r E]. apply HasPrefix_true. rewrite (append_String "/"%char ""), append_nil_l in E.
      injection E as -> ->. by exists (r +:+ "/" +:+ x).
    - apply not_true_iff_false. intros [r E']%HasPrefix_true. rewrite (append_String "/"%char ""), append_nil_l in E'.
      injection E' as -> _. apply not_true_iff_false in E. apply E, HasPrefix_true. by exists s. }
  rewrite HP. change ("/" +:+ x) with (String (chr 47) x). rewrite Split_snoc, foldl_app by done. fold stack.
  cbn [foldl]. assert (HS : clean_step (HasPrefix s "/") stack x = x :: stack)
    by (unfold clean_step; by rewrite !bool_decide_eq_false_2).
  rewrite HS. destruct (HasPrefix s "/"); [done|]. rewrite append_nil_l.
  change (rev (x :: stack)) with (rev stack ++ [x]).
  rewrite (bool_decide_eq_false_2 (Join (rev stack ++ [x]) "/" = "")); [done|]. intros E. apply Hx1.
  destruct (Join_last (rev stack) x "/") as [t Ht]. rewrite Ht in E. destruct t; [|done]. by rewrite append_nil_l in E.
Qed.

Lemma PathJoin_clean s x : clean_dir s -> component x ->
  PathJoin s x = s +:+ "/" +:+ x /\ clean_dir (s +:+ "/" +:+ x).
Proof.
  intros (Hc & H1 & H2) Hx. assert (Hs : s <> "") by (intros ->; by vm_compute in Hc).
  destruct (Clean_snoc s x Hs Hx) as [HC HS]. rewrite Hc in HS.
  assert (HJ : Clean (s +:+ "/" +:+ x) = s +:+ "/" +:+ x).
  { rewrite HC. set (stack := foldl _ [] _) in *. destruct (decide (rev stack = [])) as [E|E].
    - exfalso. rewrite E in HS. simpl in HS. by destruct (HasPrefix s "/").
    - rewrite Join_snoc by done. destruct (HasPrefix s "/").
      + by rewrite <- append_assoc, <- HS.
      + rewrite append_nil_l. case_bool_decide; [done|]. by rewrite <- HS. }
  pose proof Hx as (Hx1 & _). split.
  - unfold PathJoin. by rewrite (bool_decide_eq_false_2 _ Hs), (bool_decide_eq_false_2 _ Hx1).
  - split_and!; [done|..].
    + intros E. apply (f_equal String.length) in E. rewrite !length_append in E. destruct s, x; simpl in E; done || lia.
    + intros E. apply (f_equal String.length) in E. rewrite !length_append in E. destruct s, x; simpl in E; done || lia.
Qed.

(** Two suffixes end alike. *)
Lemma suffix_clash s p q c d : HasSuffix s p = true -> HasSuffix s q = true ->
  last (chars p) = Some c -> last (chars q) = Some d -> c = d.
Proof.
  intros [a ->]%HasSuffix_true [b E]%HasSuffix_true Hc Hd. apply (f_equal (fun s => last (chars s))) in E.
  rewrite !chars_append, !last_app, Hc, Hd in E. by injection E.
Qed.

(** The part after the last slash. *)
Lemma last_part s : exists d x, (chr 47 ∉ chars x) /\ (s = x \/ s = d +:+ "/" +:+ x).
Proof.
  induction s as [|c s (d & x & Hx & IH)]; [exists "", ""; split; [by_dec|by left]|].
  destruct IH as [IH|IH]; subst s.
  - destruct (decide (c = chr 47)) as [->|Hc]; [exists "", x; split; [done|by right]|].
    exists "", (String c x). split; [|by left]. by intros [?|?]%elem_of_cons.
  - exists (String c d), x. split; [done|by right].
Qed.

(** The last element of a path ends as the path does. *)
Lemma Base_suffix p ext : ext <> "" -> (chr 47 ∉ chars ext) -> HasSuffix p ext = true -> HasSuffix (Base p) ext = true.
Proof.
  intros Hn He [r ->]%HasSuffix_true. apply HasSuffix_true. destruct (last_part r) as (d & x & Hx & [Hr|Hr]); subst r.
  all: assert (Hf : x +:+ ext <> "") by (destruct x; [by rewrite append_nil_l|by rewrite append_String]).
  all: assert (Hs : chr 47 ∉ chars (x +:+ ext)) by (rewrite chars_append, elem_of_app; tauto).
  all: exists x.
  - by apply Base_file.
  - rewrite !append_assoc. by apply (Base_in d (x +:+ ext)).
Qed.

(** A joined path keeps the extension of the file. *)
Lemma PathJoin_ext a b ext : a <> "" -> (chr 47 ∉ chars ext) -> (2 < String.length ext)%nat ->
  HasSuffix b ext = true -> HasSuffix (PathJoin a b) ext = true.
Proof.
  intros Ha He Hl [r ->]%HasSuffix_true. apply HasSuffix_true.
  assert (HC : forall s y, s <> "" -> (chr 47 ∉ chars y) -> exists t, Clean (s +:+ "/" +:+ y +:+ ext) = t +:+ ext).
  { intros s y Hs Hy. assert (Hlen : (2 < String.length (y +:+ ext))%nat) by (rewrite length_append; lia).
    destruct (Clean_snoc s (y +:+ ext) Hs) as [-> _].
    - assert (Hne : forall k, (String.length k <= 2)%nat -> y +:+ ext <> k) by (intros k Hk E; rewrite E in Hlen; lia).
      split; [by apply Hne; simpl; lia|]. split; [by apply Hne; simpl; lia|]. split; [by apply Hne; simpl; lia|].
      rewrite chars_append, elem_of_app. tauto.
    - match goal with |- context [Join (?l ++ _) _] => destruct (Join_last l (y +:+ ext) "/") as [t ->] end.
      set (root := if HasPrefix s "/" then _ else _). exists (root +:+ t +:+ y). by rewrite !append_assoc. }
  unfold PathJoin. rewrite (bool_decide_eq_false_2 _ Ha), bool_decide_eq_false_2.
  2:{ intros E. apply (f_equal String.length) in E. rewrite length_append in E. simpl in E. lia. }
  destruct (last_part r) as (d & x & Hx & [Hr|Hr]); subst r; [exact (HC a x Ha Hx)|].
  assert (Had : a +:+ "/" +:+ d <> "") by (destruct a; [done|by rewrite append_String]).
  destruct (HC _ x Had Hx) as [t Ht]. exists t. by rewrite <- Ht, !append_assoc.
Qed.

(** Lowering one ASCII byte at a time. *)
Lemma ToLower_cons c s : c <> chr 196 -> c <> chr 226 -> ToLower (String c s) = String (lower_ascii c) (ToLower s).
Proof.
  intros H1 H2. destruct s as [|d s2]; [done|]. cbn [ToLower]. rewrite bool_decide_eq_false_2 by naive_solver.
  destruct s2 as [|e s3]; [done|]. by rewrite bool_decide_eq_false_2 by naive_solver.
Qed.

Lemma ToLower_ends s t : Forall (fun c => c <> chr 196 /\ c <> chr 226) (chars s) ->
  exists s', ToLower (s +:+ t) = s' +:+ ToLower t.
Proof.
  induction s as [|c s IH]; intros HF.
  - exists "". by rewrite append_nil_l.
  - cbn [chars] in HF. apply Forall_cons in HF as [[H1 H2] HF]. destruct (IH HF) as [s' E].
    exists (String (lower_ascii c) s'). rewrite append_String, ToLower_cons, E by done. by rewrite append_String.
Qed.

(** The extension is that of the last element. *)
Lemma Ext_slash a f : (chr 47 ∉ chars f) -> Ext (a +:+ String (chr 47) f) = Ext f.
Proof.
  intros Hf. assert (Hin : forall a, chr 47 ∈ chars (a +:+ String (chr 47) f))
    by (intros b; rewrite chars_append, elem_of_app; right; by left).
  induction a as [|c a IH].
  - rewrite append_nil_l. cbn [Ext]. rewrite (bool_decide_eq_false_2 _ Hf).
    by rewrite (bool_decide_eq_false_2 (chr 47 = chr 46)).
  - rewrite append_String. cbn [Ext]. by rewrite (bool_decide_eq_true_2 _ (Hin a)).
Qed.
