(* ===== verification/GoUrl.v ===== *)
(** The parts of Go's [net/url] the service uses: the path of a parsed
    reference, path and query escaping, and query values. *)

From S2P Require Export GoStrings.

Local Open Scope nat_scope.

Module Url.

(** ** [url.Parse], the path *)

Definition is_ctl (c : ascii) : bool := (nat_of_ascii c <? 32) || (nat_of_ascii c =? 127).
Definition is_letter (c : ascii) : bool :=
  let n := nat_of_ascii c in ((65 <=? n) && (n <=? 90)) || ((97 <=? n) && (n <=? 122)).

Definition unhex (c : ascii) : option nat :=
  let n := nat_of_ascii c in
  if is_digit c then Some (n - 48)
  else if (97 <=? n) && (n <=? 102) then Some (n - 87)
  else if (65 <=? n) && (n <=? 70) then Some (n - 55) else None.

(** [unescape] of a path or fragment, where a plus sign is itself. *)
Fixpoint unescape (s : string) : option string :=
  match s with
  | EmptyString => Some ""
  | String c s' =>
      if bool_decide (c = "%"%char) then
        match s' with
        | String a (String b r) =>
            match unhex a, unhex b with
            | Some x, Some y => String (chr (16 * x + y)) <$> unescape r
            | _, _ => None
            end
        | _ => None
        end
      else String c <$> unescape s'
  end.

(** [getScheme]: [None] is the missing scheme error. *)
Fixpoint scheme_from (first : bool) (acc s : string) : option (string * string) :=
  match s with
  | EmptyString => Some ("", acc)
  | String c s' =>
      if is_letter c then scheme_from false (acc +:+ String c "") s'
      else if is_digit c || bool_decide (c ∈ ["+"; "-"; "."]%char) then
        if first then Some ("", acc +:+ s) else scheme_from false (acc +:+ String c "") s'
      else if bool_decide (c = ":"%char) then
        if first then None else Some (acc, s')
      else Some ("", acc +:+ s)
  end.
Definition getScheme (s : string) : option (string * string) := scheme_from true "" s.

(** The check of the authority of a reference with a host is left open; the
    service's own references are paths. *)
Class Authority := authority_ok : string -> bool.

Definition parse_path `{Authority} (u : string) : option string :=
  if existsb is_ctl (chars u) then None
  else if bool_decide (u = "*") then Some "*"
  else
    match getScheme u with
    | None => None
    | Some (scheme, rest) =>
        let rest := match Cut rest "?" with Some (a, _) => a | None => rest end in
        if negb (HasPrefix rest "/") && negb (bool_decide (scheme = "")) then Some ""
        else if negb (HasPrefix rest "/") &&
                Contains (match Cut rest "/" with Some (a, _) => a | None => rest end) ":"
        then None
        else if (negb (bool_decide (scheme = "")) || negb (HasPrefix rest "///")) && HasPrefix rest "//"
        then
          let a := TrimPrefix rest "//" in
          let '(authority, rest) :=
            match Cut a "/" with Some (x, y) => (x, "/" +:+ y) | None => (a, "") end in
          if authority_ok authority then unescape rest else None
        else unescape rest
    end.

Definition Parse_Path `{Authority} (s : string) : option string :=
  match Cut s "#" with
  | None => parse_path s
  | Some (u, frag) =>
      match parse_path u with
      | None => None
      | Some p => match unescape frag with Some _ => Some p | None => None end
      end
  end.

(** ** Escaping *)

Definition upper_hex (n : nat) : ascii := if n <? 10 then chr (48 + n) else chr (55 + n).
Definition percent (c : ascii) : string :=
  let n := nat_of_ascii c in
  String "%" (String (upper_hex (n / 16)) (String (upper_hex (n mod 16)) "")).
Definition unreserved (c : ascii) : bool :=
  is_letter c || is_digit c || bool_decide (c ∈ ["-"; "_"; "."; "~"]%char).

Fixpoint QueryEscape (s : string) : string :=
  match s with
  | EmptyString => ""
  | String c s' =>
      (if bool_decide (c = " "%char) then "+"
       else if unreserved c then String c "" else percent c) +:+ QueryEscape s'
  end.

(** [url.PathEscape] keeps a few more bytes of a path segment. *)
Fixpoint PathEscape (s : string) : string :=
  match s with
  | EmptyString => ""
  | String c s' =>
      (if unreserved c || bool_decide (c ∈ ["$"; "&"; "+"; ":"; "="; "@"]%char)
       then String c "" else percent c) +:+ PathEscape s'
  end.

(** Query values: the keys with their values in order. *)
Abbreviation Values := (list (string * list string)).

Definition Lookup (q : Values) (k : string) : list string :=
  match list_find (fun p => p.1 = k) q with Some (_, (_, vs)) => vs | None => [] end.
Definition Get (q : Values) (k : string) : string := List.hd "" (Lookup q k).
Definition Has (q : Values) (k : string) : bool := existsb (fun p => bool_decide (p.1 = k)) q.
Definition Del (q : Values) (k : string) : Values := filter (fun p => p.1 <> k) q.
Definition Set_ (q : Values) (k v : string) : Values := (k, [v]) :: Del q k.

(** The order of [sort.Strings]: by bytes. *)
Fixpoint str_le (s t : string) : bool :=
  match s, t with
  | EmptyString, _ => true
  | String _ _, EmptyString => false
  | String c s', String d t' =>
      if nat_of_ascii c =? nat_of_ascii d then str_le s' t' else nat_of_ascii c <? nat_of_ascii d
  end.
Fixpoint insert_key (p : string * list string) (q : Values) : Values :=
  match q with
  | [] => [p]
  | p' :: q' => if str_le p.1 p'.1 then p :: q else p' :: insert_key p q'
  end.
Definition sort_keys (q : Values) : Values := foldr insert_key [] q.

Definition encode_pairs (q : Values) : list string :=
  flat_map (fun p => (fun v => QueryEscape p.1 +:+ "=" +:+ QueryEscape v) <$> p.2) (sort_keys q).
Definition Encode (q : Values) : string := Join (encode_pairs q) "&".

Lemma Get_Set q k v k' : Get (Set_ q k v) k' = if decide (k = k') then v else Get q k'.
Proof.
  unfold Get, Lookup, Set_, Del. simpl. case_decide; [done|].
  replace (list_find (fun p : string * list string => p.1 = k') (filter _ q))
    with (list_find (fun p : string * list string => p.1 = k') (filter (fun p => p.1 <> k) q)) by done.
  induction q as [|p q IH]; [done|]. rewrite filter_cons. cbn [list_find].
  destruct (decide (p.1 = k)) as [Hk|Hk].
  - rewrite decide_False by tauto. destruct (decide (p.1 = k')); [congruence|].
    destruct (list_find _ q) as [[i [x y]]|], (list_find _ (filter _ q)) as [[j [z w]]|]; simpl in *; done.
  - rewrite decide_True by done. cbn [list_find]. destruct (decide (p.1 = k')); [done|].
    destruct (list_find _ q) as [[i [x y]]|], (list_find _ (filter _ q)) as [[j [z w]]|]; simpl in *; done.
Qed.

(** An escaped value has no byte that could end a query, a line or an attribute. *)
Lemma QueryEscape_chars s c : c ∈ chars (QueryEscape s) ->
  unreserved c = true \/ c = "+"%char \/ c = "%"%char.
Proof.
  induction s as [|d s IH]; simpl; [by intros ?%not_elem_of_nil|].
  rewrite chars_append. intros [Hc|Hc]%elem_of_app; [|auto].
  destruct (bool_decide (d = " "%char)).
  - apply elem_of_cons in Hc as [->|?%not_elem_of_nil]; auto.
  - destruct (unreserved d) eqn:Hd.
    + apply elem_of_cons in Hc as [->|?%not_elem_of_nil]; auto.
    + assert (Hh : forall n, n < 16 -> unreserved (upper_hex n) = true).
      { intros n Hn. do 16 (destruct n as [|n]; [reflexivity|]). lia. }
      pose proof (nat_ascii_bounded d) as Hb.
      apply elem_of_cons in Hc as [->|Hc]; [auto|].
      apply elem_of_cons in Hc as [->|Hc].
      * left. apply Hh. apply Nat.Div0.div_lt_upper_bound. lia.
      * apply elem_of_cons in Hc as [->|?%not_elem_of_nil]; [|done].
        left. apply Hh. apply Nat.mod_upper_bound. lia.
Qed.

(** ** References made of plain characters

    A relative reference of letters, digits, dots, dashes, underscores and
    slashes is its own path. *)
Definition plain_byte (c : ascii) : bool :=
  is_letter c || is_digit c || bool_decide (c ∈ ["."; "/"; "_"; "-"]%char).
Definition plain (s : string) : Prop := Forall (fun c => plain_byte c = true) (chars s).

Lemma plain_byte_spec c : plain_byte c = true ->
  solid_byte c = true /\ is_ctl c = false /\ bool_decide (c ∈ ["#"; "%"; ":"; "?"; "*"; ","]%char) = false /\
  c <> chr 34 /\ c <> newline.
Proof. destruct c as [[] [] [] [] [] [] [] []]; vm_compute; intros ?; (discriminate || (repeat split; discriminate)). Qed.

Lemma plain_no s c : plain s -> plain_byte c = false -> c ∉ chars s.
Proof. intros HF Hc Hin. unfold plain in HF. rewrite Forall_forall in HF. apply HF in Hin. congruence. Qed.

Lemma plain_append s t : plain (s +:+ t) <-> plain s /\ plain t.
Proof. unfold plain. by rewrite chars_append, Forall_app. Qed.

Lemma plain_solid s : plain s -> solid s.
Proof. intros HF. apply solid_all. eapply Forall_impl; [exact HF|]. intros c Hc. by apply plain_byte_spec. Qed.

Lemma Cut_absent s m c m' : m = String c m' -> (c ∉ chars s) -> Cut s m = None.
Proof.
  intros -> Hc. destruct (Cut s (String c m')) as [[a b]|] eqn:E; [|done]. exfalso. apply Hc.
  apply Cut_sound in E as ->. rewrite !chars_append, !elem_of_app. right. left. by left.
Qed.

Lemma scheme_from_plain first acc s : plain s -> scheme_from first acc s = Some ("", acc +:+ s).
Proof.
  revert first acc. induction s as [|c s IH]; intros first acc HF; cbn [scheme_from].
  - by rewrite append_nil_r.
  - apply Forall_cons in HF as [Hc HF].
    assert (HA : forall b, scheme_from b (acc +:+ String c "") s = Some ("", acc +:+ String c s)).
    { intros b. rewrite (IH _ _ HF). by rewrite append_assoc. }
    destruct (is_letter c); [by apply HA|].
    destruct (is_digit c || _); [destruct first; [done|by apply HA]|].
    rewrite bool_decide_eq_false_2; [done|]. intros ->. by vm_compute in Hc.
Qed.

Lemma unescape_plain s : plain s -> unescape s = Some s.
Proof.
  induction s as [|c s IH]; [done|]. intros HF. apply Forall_cons in HF as [Hc HF]. cbn [unescape].
  rewrite bool_decide_eq_false_2 by (intros ->; by vm_compute in Hc). by rewrite IH.
Qed.

Lemma Parse_Path_plain `{Authority} s : plain s -> HasPrefix s "/" = false -> Parse_Path s = Some s.
Proof.
  intros HF Hs. unfold Parse_Path. rewrite (Cut_absent s "#" "#"%char "") by (done || by apply plain_no).
  unfold parse_path.
  assert (HX : existsb is_ctl (chars s) = false).
  { clear Hs. induction HF as [|c l Hc HF IH]; [done|]. simpl. rewrite IH.
    by destruct (plain_byte_spec c Hc) as (_ & -> & _). }
  rewrite HX. rewrite bool_decide_eq_false_2 by (intros ->; apply Forall_cons in HF as [HF _]; by vm_compute in HF).
  unfold getScheme. rewrite scheme_from_plain, append_nil_l by done. cbn iota beta zeta.
  rewrite (Cut_absent s "?" "?"%char "") by (done || by apply plain_no). cbn iota zeta. rewrite Hs.
  assert (HC : Contains (match Cut s "/" with Some (a, _) => a | None => s end) ":" = false).
  { unfold Contains. apply bool_decide_eq_false_2. intros [[x y] HC]. revert HC.
    rewrite (Cut_absent _ ":" ":"%char ""); [done..|]. destruct (Cut s "/") as [[a b]|] eqn:E.
    - apply Cut_sound in E as ->. apply plain_append in HF as [HF _]. by apply plain_no.
    - by apply plain_no. }
  rewrite HC. cbn [negb andb].
  assert (H2 : HasPrefix s "//" = false).
  { apply not_true_iff_false. intros [r ->]%HasPrefix_true. by vm_compute in Hs. }
  rewrite H2, andb_false_r. by apply unescape_plain.
Qed.

End Url.
