(* ===== verification/Net.v ===== *)
(** The parts of Go's [net/url] and [net] that decide where a request may go: the
    host of a parsed address, and ranges of IP addresses. *)

From S2P Require Export GoUrl.

Local Open Scope nat_scope.

Module Net.

(** ** [net/url]: the host of an address *)

(** Around the last [c]: [strings.LastIndex] and slices. *)
Fixpoint CutLast (c : ascii) (s : string) : option (string * string) :=
  match s with
  | EmptyString => None
  | String d s' =>
      match CutLast c s' with
      | Some (a, b) => Some (String d a, b)
      | None => if bool_decide (d = c) then Some ("", s') else None
      end
  end.

Definition digits (s : string) : bool := forallb is_digit (chars s).

Definition validOptionalPort (port : string) : bool :=
  match port with
  | EmptyString => true
  | String c s => bool_decide (c = ":"%char) && digits s
  end.

(** The bytes [shouldEscape] leaves alone in a host. *)
Definition host_byte (c : ascii) : bool :=
  Url.unreserved c ||
  bool_decide (c ∈ ["!"; "$"; "&"; "'"; "("; ")"; "*"; "+"; ","; ";"; "="; ":"; "["; "]"; "<"; ">"]%char) ||
  bool_decide (c = chr 34).

(** [unescape] of a host, or of the zone of an IPv6 address. *)
Fixpoint unescape_host (zone : bool) (s : string) : option string :=
  match s with
  | EmptyString => Some ""
  | String c s' =>
      if bool_decide (c = "%"%char) then
        match s' with
        | String a (String b r) =>
            match Url.unhex a, Url.unhex b with
            | Some x, Some y =>
                let v := 16 * x + y in
                if (v =? 37) ||
                   (if zone then (v =? 32) || ((v <? 128) && host_byte (chr v)) else 8 <=? x)
                then String (chr v) <$> unescape_host zone r else None
            | _, _ => None
            end
        | _ => None
        end
      else if (nat_of_ascii c <? 128) && negb (host_byte c) then None
      else String c <$> unescape_host zone s'
  end.

Definition parseHost (host : string) : option string :=
  if HasPrefix host "[" then
    match CutLast "]"%char host with
    | None => None
    | Some (inside, colonPort) =>
        if negb (validOptionalPort colonPort) then None else
        match Cut inside "%25" with
        | Some (address, zone) =>
            a ← unescape_host false address; z ← unescape_host true ("%25" +:+ zone);
            b ← unescape_host false ("]" +:+ colonPort); Some (a +:+ z +:+ b)
        | None => unescape_host false host
        end
    end
  else
    match CutLast ":"%char host with
    | Some (_, port) => if digits port then unescape_host false host else None
    | None => unescape_host false host
    end.

Definition userinfo_byte (c : ascii) : bool :=
  Url.unreserved c ||
  bool_decide (c ∈ [":"; "!"; "$"; "&"; "'"; "("; ")"; "*"; "+"; ","; ";"; "="; "%"; "@"]%char).

Definition userinfo_ok (userinfo : string) : bool :=
  forallb userinfo_byte (chars userinfo) &&
  match Cut userinfo ":" with
  | Some (user, password) =>
      bool_decide (is_Some (Url.unescape user)) && bool_decide (is_Some (Url.unescape password))
  | None => bool_decide (is_Some (Url.unescape userinfo))
  end.

Definition parseAuthority (authority : string) : option string :=
  match CutLast "@"%char authority with
  | None => parseHost authority
  | Some (userinfo, host) =>
      h ← parseHost host; if userinfo_ok userinfo then Some h else None
  end.

Definition authority_ok : Url.Authority := fun a => bool_decide (is_Some (parseAuthority a)).

(** The authority of a reference that parses: what is between the two slashes
    and the next one. *)
Definition authority_of (s : string) : string :=
  let u := match Cut s "#" with Some (a, _) => a | None => s end in
  match Url.getScheme u with
  | None => ""
  | Some (scheme, rest) =>
      let rest := match Cut rest "?" with Some (a, _) => a | None => rest end in
      if (negb (bool_decide (scheme = "")) || negb (HasPrefix rest "///")) && HasPrefix rest "//"
      then let a := TrimPrefix rest "//" in
           match Cut a "/" with Some (x, _) => x | None => a end
      else ""
  end.

(** [stripPort], brackets included. *)
Definition stripPort (hostPort : string) : string :=
  let host := match CutLast ":"%char hostPort with
              | Some (host, port) => if digits port then host else hostPort
              | None => hostPort
              end in
  if HasPrefix host "[" && HasSuffix host "]" then TrimSuffix (TrimPrefix host "[") "]" else host.

(** [url.Parse], then [Hostname]: [None] is the parse error. *)
Definition Parse_Hostname (s : string) : option string :=
  match @Url.Parse_Path authority_ok s with
  | None => None
  | Some _ => Some (stripPort (default "" (parseAuthority (authority_of s))))
  end.

(** ** [net]: addresses and networks *)

Local Open Scope Z_scope.

(** [net.IP]: four or sixteen bytes. *)
Abbreviation IP := (list Z).

Definition v4InV6Prefix : list Z := [0; 0; 0; 0; 0; 0; 0; 0; 0; 0; 255; 255].

Definition To4 (ip : IP) : option IP :=
  if (length ip =? 4)%nat then Some ip
  else if (length ip =? 16)%nat && bool_decide (take 12 ip = v4InV6Prefix) then Some (drop 12 ip) else None.

Record IPNet := mkIPNet { n_IP : IP; n_Mask : list Z }.

(** [CIDRMask] of [len] bytes. *)
Definition mask_byte (ones : Z) (i : nat) : Z :=
  256 - 2 ^ (8 - Z.max 0 (Z.min 8 (ones - 8 * Z.of_nat i))).
Definition CIDRMask (ones : Z) (len : nat) : list Z := mask_byte ones <$> seq 0 len.

(** The network [ParseCIDR] makes of an address and a prefix length. *)
Definition cidr (ip : IP) (ones : Z) : IPNet :=
  let mask := CIDRMask ones (length ip) in mkIPNet (zip_with Z.land ip mask) mask.

Definition networkNumberAndMask (n : IPNet) : option (IP * list Z) :=
  let ip := match To4 (n_IP n) with
            | Some ip => Some ip
            | None => if (length (n_IP n) =? 16)%nat then Some (n_IP n) else None
            end in
  match ip with
  | None => None
  | Some ip =>
      if (length (n_Mask n) =? length ip)%nat then Some (ip, n_Mask n)
      else if (length (n_Mask n) =? 16)%nat && (length ip =? 4)%nat then Some (ip, drop 12 (n_Mask n))
      else None
  end.

Definition Contains (n : IPNet) (ip : IP) : bool :=
  match networkNumberAndMask n with
  | None => (length ip =? 0)%nat
  | Some (nn, m) =>
      let ip := default ip (To4 ip) in
      (length ip =? length nn)%nat && bool_decide (zip_with Z.land nn m = zip_with Z.land ip m)
  end.

(** A byte string that is an address. *)
Definition address (ip : IP) : Prop :=
  Forall (fun b => 0 <= b < 256) ip /\ (length ip = 4%nat \/ length ip = 16%nat).

End Net.
