(* ===== verification/Base64.v ===== *)
(** The [encoding/base64] and [encoding/hex] functions the service uses:
    [RawURLEncoding] for sealed grants and [StdEncoding] for the key ring.  Text
    and bytes are both Go strings here. *)

From S2P Require Export GoStrings.

Local Open Scope Z_scope.

Module Base64.

(** The two alphabets differ in their last two letters; [pad] is the padding
    character, absent in the raw encodings. *)
Record Encoding := mkEncoding { c62 : ascii; c63 : ascii; padded : bool }.

Definition StdEncoding : Encoding := mkEncoding "+" "/" true.
Definition RawURLEncoding : Encoding := mkEncoding "-" "_" false.

Definition byteZ (c : ascii) : Z := Z.of_nat (nat_of_ascii c).
Definition chrZ (z : Z) : ascii := ascii_of_nat (Z.to_nat (z mod 256)).

Definition letter (e : Encoding) (i : Z) : ascii :=
  if i <? 26 then chrZ (65 + i)
  else if i <? 52 then chrZ (97 + (i - 26))
  else if i <? 62 then chrZ (48 + (i - 52))
  else if i =? 62 then c62 e else c63 e.

Definition sextet (e : Encoding) (c : ascii) : option Z :=
  let n := byteZ c in
  if (65 <=? n) && (n <=? 90) then Some (n - 65)
  else if (97 <=? n) && (n <=? 122) then Some (n - 97 + 26)
  else if (48 <=? n) && (n <=? 57) then Some (n - 48 + 52)
  else if bool_decide (c = c62 e) then Some 62
  else if bool_decide (c = c63 e) then Some 63 else None.

Definition pads (e : Encoding) (n : nat) : string :=
  if padded e then (if (n =? 2)%nat then "==" else "=") else "".

(** [EncodeToString]: three bytes to four letters, the rest to two or three. *)
Fixpoint EncodeToString (e : Encoding) (s : string) : string :=
  match s with
  | "" => ""
  | String a "" =>
      let v := byteZ a * 65536 in
      String (letter e (v / 262144)) (String (letter e (v / 4096 mod 64)) (pads e 2))
  | String a (String b "") =>
      let v := byteZ a * 65536 + byteZ b * 256 in
      String (letter e (v / 262144)) (String (letter e (v / 4096 mod 64))
        (String (letter e (v / 64 mod 64)) (pads e 1)))
  | String a (String b (String c r)) =>
      let v := byteZ a * 65536 + byteZ b * 256 + byteZ c in
      String (letter e (v / 262144)) (String (letter e (v / 4096 mod 64))
        (String (letter e (v / 64 mod 64)) (String (letter e (v mod 64)) (EncodeToString e r))))
  end.

(** The decoder skips line breaks and does not look at the unused low bits of
    the last letter. *)
Definition is_break (c : ascii) : bool := bool_decide (c = chr 10) || bool_decide (c = chr 13).

Definition out1 (v : Z) : string := String (chrZ (v / 65536)) "".
Definition out2 (v : Z) : string := String (chrZ (v / 65536)) (String (chrZ (v / 256)) "").
Definition out3 (v : Z) (r : string) : string :=
  String (chrZ (v / 65536)) (String (chrZ (v / 256)) (String (chrZ v) r)).

Fixpoint decode_quanta (e : Encoding) (l : list ascii) : option string :=
  match l with
  | [] => Some ""
  | [_] => None
  | [a; b] =>
      if padded e then None else
      x ← sextet e a; y ← sextet e b; Some (out1 (x * 262144 + y * 4096))
  | [a; b; c] =>
      if padded e then None else
      x ← sextet e a; y ← sextet e b; z ← sextet e c;
      Some (out2 (x * 262144 + y * 4096 + z * 64))
  | a :: b :: c :: d :: r =>
      x ← sextet e a; y ← sextet e b;
      match sextet e c, sextet e d with
      | Some z, Some w =>
          t ← decode_quanta e r; Some (out3 (x * 262144 + y * 4096 + z * 64 + w) t)
      | Some z, None =>
          if padded e && bool_decide (d = "="%char) && bool_decide (r = [])
          then Some (out2 (x * 262144 + y * 4096 + z * 64)) else None
      | None, None =>
          if padded e && bool_decide (c = "="%char) && bool_decide (d = "="%char) &&
             bool_decide (r = [])
          then Some (out1 (x * 262144 + y * 4096)) else None
      | None, Some _ => None
      end
  end.

Definition DecodeString (e : Encoding) (s : string) : option string :=
  decode_quanta e (filter (fun c => is_break c = false) (chars s)).

(** [hex.EncodeToString] *)
Definition hex_digit (n : Z) : ascii := if n <? 10 then chrZ (48 + n) else chrZ (87 + n).
Fixpoint hex_encode (s : string) : string :=
  match s with
  | "" => ""
  | String c r => String (hex_digit (byteZ c / 16)) (String (hex_digit (byteZ c mod 16)) (hex_encode r))
  end.

(** * Lemmas *)

Lemma byteZ_range c : 0 <= byteZ c < 256.
Proof. unfold byteZ. pose proof (nat_ascii_bounded c). lia. Qed.

Lemma chrZ_byteZ c v : v mod 256 = byteZ c -> chrZ v = c.
Proof. intros H. unfold chrZ. rewrite H. unfold byteZ. rewrite Nat2Z.id. apply ascii_nat_embedding. Qed.

Lemma byteZ_chrZ v : 0 <= v < 256 -> byteZ (chrZ v) = v.
Proof.
  intros Hv. unfold byteZ, chrZ. rewrite nat_ascii_embedding by (rewrite Z.mod_small by done; lia).
  rewrite Z2Nat.id; [by apply Z.mod_small|by apply Z.mod_pos_bound].
Qed.

Lemma byteZ_inj c d : byteZ c = byteZ d -> c = d.
Proof.
  intros HE. rewrite <- (chrZ_byteZ c (byteZ c)), <- (chrZ_byteZ d (byteZ d)); [by rewrite HE|..];
    apply Z.mod_small, byteZ_range.
Qed.

(** A test run over all the values below a bound. *)
Lemma forall_below (n : nat) (P : Z -> bool) :
  forallb P (Z.of_nat <$> seq 0 n) = true -> forall i, 0 <= i < Z.of_nat n -> P i = true.
Proof.
  intros H i Hi. rewrite forallb_forall in H. apply H, list_elem_of_In, list_elem_of_fmap.
  exists (Z.to_nat i). split; [lia|]. apply list_elem_of_In, in_seq. lia.
Qed.

Definition good_letters (e : Encoding) : bool :=
  forallb (fun i => bool_decide (sextet e (letter e i) = Some i) && negb (is_break (letter e i)) &&
                    negb (bool_decide (letter e i = "."%char)))
    (Z.of_nat <$> seq 0 64).

Lemma letters_ok e i : good_letters e = true -> 0 <= i < 64 ->
  sextet e (letter e i) = Some i /\ is_break (letter e i) = false /\ letter e i <> "."%char.
Proof.
  intros Hg Hi. pose proof (forall_below 64 _ Hg i ltac:(lia)) as H. cbv beta in H.
  go_bools. split; [assumption|]. split; assumption.
Qed.

(** Four base-64 digits and three base-256 digits of the same number. *)
Lemma digits64 v : 0 <= v < 16777216 ->
  v / 262144 * 262144 + v / 4096 mod 64 * 4096 + v / 64 mod 64 * 64 + v mod 64 = v.
Proof.
  intros Hv. pose proof (Z.div_mod v 64). pose proof (Z.div_mod (v / 64) 64).
  pose proof (Z.div_mod (v / 4096) 64).
  replace (v / 4096) with (v / 64 / 64) in * by (rewrite Z.div_div by lia; f_equal; lia).
  replace (v / 262144) with (v / 64 / 64 / 64) in * by (rewrite !Z.div_div by lia; f_equal; lia).
  lia.
Qed.

Lemma top_digit v : 0 <= v < 16777216 -> 0 <= v / 262144 < 64.
Proof. intros. split; [apply Z.div_pos; lia|apply Z.div_lt_upper_bound; lia]. Qed.

Lemma low_digit v : 0 <= v mod 64 < 64.
Proof. apply Z.mod_pos_bound. lia. Qed.

Lemma bytes_of a b c : 0 <= b < 256 -> 0 <= c < 256 ->
  (a * 65536 + b * 256 + c) / 65536 = a /\ (a * 65536 + b * 256 + c) / 256 = a * 256 + b.
Proof.
  intros. split; symmetry.
  - apply (Z.div_unique _ _ _ (b * 256 + c)); lia.
  - apply (Z.div_unique _ _ _ c); lia.
Qed.

Lemma chrZ_add k c : chrZ (k * 256 + byteZ c) = c.
Proof.
  apply chrZ_byteZ. rewrite Z.add_comm, Z.mod_add by lia. apply Z.mod_small, byteZ_range.
Qed.

Lemma three_bytes a b c (v := byteZ a * 65536 + byteZ b * 256 + byteZ c) :
  chrZ (v / 65536) = a /\ chrZ (v / 256) = b /\ chrZ v = c.
Proof.
  destruct (bytes_of (byteZ a) (byteZ b) (byteZ c)) as [H1 H2]; [apply byteZ_range..|].
  unfold v. rewrite H1, H2. split_and!.
  - apply (chrZ_add 0).
  - apply chrZ_add.
  - rewrite <- (chrZ_add (byteZ a * 256 + byteZ b) c) at 2. f_equal. lia.
Qed.

Lemma byteZ_0 : byteZ (chr 0) = 0.
Proof. done. Qed.

Section round_trip.
Context (e : Encoding) (Hg : good_letters e = true) (Hp : padded e = false).

#[local] Arguments letter : simpl never.
#[local] Arguments sextet : simpl never.
#[local] Arguments chrZ : simpl never.
#[local] Arguments is_break : simpl never.
#[local] Hint Resolve top_digit low_digit : core.

Lemma skip_letter i l : 0 <= i < 64 ->
  filter (fun c => is_break c = false) (letter e i :: l) =
  letter e i :: filter (fun c => is_break c = false) l.
Proof. intros Hi. apply filter_cons_True. by apply letters_ok. Qed.

Lemma sextet_letter i : 0 <= i < 64 -> sextet e (letter e i) = Some i.
Proof. intros Hi. by apply letters_ok. Qed.

Lemma value_range a b c : 0 <= byteZ a * 65536 + byteZ b * 256 + byteZ c < 16777216.
Proof. pose proof (byteZ_range a). pose proof (byteZ_range b). pose proof (byteZ_range c). lia. Qed.

(** The low digits a short last group leaves out are zero. *)
Lemma zero_digit v q k : 0 < k -> v = q * 64 * k -> v / k mod 64 = 0.
Proof. intros Hk ->. rewrite Z.div_mul by lia. apply Z.mod_mul. lia. Qed.

Lemma zero_digit0 v q : v = q * 64 -> v mod 64 = 0.
Proof. intros ->. apply Z.mod_mul. lia. Qed.

Lemma decode_encode_len n s : (String.length s <= n)%nat ->
  DecodeString e (EncodeToString e s) = Some s.
Proof.
  revert s. induction n as [|n IH]; intros s Hn; [destruct s; simpl in *; [done|lia]|].
  destruct s as [|a [|b [|c r]]]; [done|..]; unfold DecodeString; cbn [EncodeToString chars].
  - pose proof (value_range a (chr 0) (chr 0)) as HR.
    destruct (three_bytes a (chr 0) (chr 0)) as (H1 & _ & _).
    rewrite !byteZ_0, Z.mul_0_l, !Z.add_0_r in *. unfold pads. rewrite Hp.
    rewrite !skip_letter by auto. cbn [chars]. rewrite filter_nil. cbn [decode_quanta].
    rewrite Hp, !sextet_letter by auto. simpl. unfold out1.
    replace (_ + _) with (byteZ a * 65536); [by rewrite H1|].
    rewrite <- (digits64 _ HR) at 1.
    rewrite (zero_digit _ (byteZ a * 16) 64), (zero_digit0 (byteZ a * 65536) (byteZ a * 1024)) by lia. lia.
  - pose proof (value_range a b (chr 0)) as HR.
    destruct (three_bytes a b (chr 0)) as (H1 & H2 & _).
    rewrite !byteZ_0, !Z.add_0_r in *. unfold pads. rewrite Hp.
    rewrite !skip_letter by auto. cbn [chars]. rewrite filter_nil. cbn [decode_quanta].
    rewrite Hp, !sextet_letter by auto. simpl. unfold out2.
    replace (_ + _) with (byteZ a * 65536 + byteZ b * 256); [by rewrite H1, H2|].
    rewrite <- (digits64 _ HR) at 1.
    rewrite (zero_digit0 (byteZ a * 65536 + byteZ b * 256) (byteZ a * 1024 + byteZ b * 4)) by lia. lia.
  - pose proof (value_range a b c) as HR. destruct (three_bytes a b c) as (H1 & H2 & H3).
    rewrite !skip_letter by auto. cbn [decode_quanta].
    rewrite !sextet_letter by auto. simpl in Hn.
    specialize (IH r ltac:(lia)). unfold DecodeString in IH. simpl. rewrite IH. simpl. unfold out3.
    by rewrite digits64, H1, H2, H3.
Qed.

Lemma decode_encode s : DecodeString e (EncodeToString e s) = Some s.
Proof. by eapply decode_encode_len. Qed.

Lemma encode_length n s : (String.length s <= n)%nat ->
  (String.length (EncodeToString e s) <= 4 * ((String.length s + 2) / 3))%nat.
Proof.
  revert s. induction n as [|n IH]; intros s Hn; [destruct s; simpl in *; lia|].
  destruct s as [|a [|b [|c r]]]; [simpl; lia|..]; cbn [EncodeToString String.length];
    unfold pads; rewrite ?Hp; cbn [String.length].
  - change ((1 + 2) / 3)%nat with 1%nat. lia.
  - change ((2 + 2) / 3)%nat with 1%nat. lia.
  - simpl in Hn. specialize (IH r ltac:(lia)).
    replace (S (S (S (String.length r))) + 2)%nat with (String.length r + 2 + 1 * 3)%nat by lia.
    rewrite Nat.div_add by lia. lia.
Qed.
End round_trip.

Lemma hex_encode_length s : String.length (hex_encode s) = (2 * String.length s)%nat.
Proof. induction s; simpl; lia. Qed.

Lemma hex_digit_inj x y : 0 <= x < 16 -> 0 <= y < 16 -> hex_digit x = hex_digit y -> x = y.
Proof.
  intros Hx Hy HE. apply (f_equal byteZ) in HE. unfold hex_digit in HE.
  destruct (Z.ltb_spec x 10), (Z.ltb_spec y 10); rewrite !byteZ_chrZ in HE by lia; lia.
Qed.

Lemma hex_encode_inj s t : hex_encode s = hex_encode t -> s = t.
Proof.
  revert t. induction s as [|c s IH]; intros [|d t]; cbn [hex_encode]; [done..|].
  intros [= Hh Hl Hr]. pose proof (byteZ_range c). pose proof (byteZ_range d).
  apply hex_digit_inj in Hh, Hl; [|by (try apply Z.mod_pos_bound; Z.to_euclidean_division_equations; lia)..].
  f_equal; [|by apply IH]. apply byteZ_inj. Z.to_euclidean_division_equations. lia.
Qed.

End Base64.
