(* ===== verification/Manifest.v ===== *)
(** [internal/bundle/manifest.go]: the immutable metadata of a stored bundle. *)

From S2P Require Export GoStrings.

Local Open Scope Z_scope.

Definition ManifestFilename : string := "manifest.json".
Definition OriginalFilename : string := "original".

Record Asset := mkAsset {
  a_CID : string;
  a_Path : string;
  a_BundlePath : string;
  a_Format : string;
  a_ContentType : string;
  a_Width : Z;
  a_Height : Z;
  a_Size : Z
}.

(** [Variants] and [Metadata] are Go maps; a nil map reads like an empty one. *)
Record Manifest := mkManifest {
  m_CID : string;
  m_Name : string;
  m_Type : string;
  m_Version : Z;
  m_Size : Z;
  m_Original : Asset;
  m_Variants : gmap string Asset;
  m_Metadata : gmap string string
}.

Definition NewFileManifest (name contentType format : string) (size : Z) : Manifest :=
  {| m_CID := ""; m_Name := name; m_Type := "file"; m_Version := 1; m_Size := size;
     m_Original := {| a_CID := ""; a_Path := ""; a_BundlePath := OriginalFilename;
                      a_Format := format; a_ContentType := contentType;
                      a_Width := 0; a_Height := 0; a_Size := size |};
     m_Variants := ∅; m_Metadata := ∅ |}.

Definition set_Path (p : string) (a : Asset) : Asset :=
  {| a_CID := a_CID a; a_Path := p; a_BundlePath := a_BundlePath a; a_Format := a_Format a;
     a_ContentType := a_ContentType a; a_Width := a_Width a; a_Height := a_Height a;
     a_Size := a_Size a |}.

(** The loop over [m.Variants] rewrites each value under its own key. *)
Definition Finalize (rootCID : string) (m : Manifest) : Manifest :=
  {| m_CID := rootCID; m_Name := m_Name m; m_Type := m_Type m; m_Version := m_Version m;
     m_Size := m_Size m;
     m_Original := set_Path ("/file/" +:+ rootCID) (m_Original m);
     m_Variants := map_imap (fun key variant =>
        Some (set_Path ("/file/" +:+ rootCID +:+ "/" +:+ key) variant)) (m_Variants m);
     m_Metadata := m_Metadata m |}.

Lemma Finalize_variant rootCID m key :
  m_Variants (Finalize rootCID m) !! key =
  set_Path ("/file/" +:+ rootCID +:+ "/" +:+ key) <$> m_Variants m !! key.
Proof. simpl. rewrite map_lookup_imap. by destruct (m_Variants m !! key). Qed.

Lemma Finalize_dom rootCID m : dom (m_Variants (Finalize rootCID m)) = dom (m_Variants m).
Proof.
  apply set_eq. intros k. rewrite !elem_of_dom, Finalize_variant. by rewrite fmap_is_Some.
Qed.
