(* ===== verification/Blur.v ===== *)
(** [internal/imageproc/privacy.go]: the arithmetic of the privacy renditions -
    the box blur and its three passes, and the soft mask laid over a face.  A
    picture is its rows of pixels, with its top left corner at the origin, which is
    where [toNRGBA] puts it.  Floating point is the interface [Float64]. *)

From Stdlib Require Import ZifyBool.
From S2P Require Export Prelude.

Local Open Scope Z_scope.

Module Blur.

(** ** Pixels *)

Definition uint8 (z : Z) : Z := z mod 256.

Record NRGBA := mkNRGBA { R : Z; G : Z; B : Z; A : Z }.
Definition transparent : NRGBA := mkNRGBA 0 0 0 0.

#[export] Instance NRGBA_eq_dec : EqDecision NRGBA.
Proof. solve_decision. Defined.

Record Image := mkImage { Dx : nat; rows : list (list NRGBA) }.
Definition Dy (img : Image) : nat := length (rows img).

(** Outside the picture [NRGBAAt] answers the zero colour. *)
Definition at_ (l : list NRGBA) (x : Z) : NRGBA :=
  if (0 <=? x) then default transparent (l !! Z.to_nat x) else transparent.
Definition row (img : Image) (y : nat) : list NRGBA := default [] (rows img !! y).
Definition NRGBAAt (img : Image) (x y : Z) : NRGBA :=
  if (0 <=? y) then at_ (row img (Z.to_nat y)) x else transparent.

(** A picture from its pixels. *)
Definition draw (dx dy : nat) (f : nat -> nat -> NRGBA) : Image :=
  mkImage dx ((fun y => (fun x => f x y) <$> seq 0 dx) <$> seq 0 dy).

(** ** The box blur *)

Record sums := mkSums { red : Z; green : Z; blue : Z; alpha : Z; count : Z }.

Definition premultiplied (c : NRGBA) : Z * Z * Z * Z :=
  (R c * A c, G c * A c, B c * A c, A c).

Definition unpremultiplied (s : sums) : NRGBA :=
  if (count s =? 0) || (alpha s =? 0) then transparent
  else
    let averageAlpha := Z.quot (alpha s) (count s) in
    mkNRGBA (uint8 (Z.min 255 (Z.quot (red s) (alpha s))))
            (uint8 (Z.min 255 (Z.quot (green s) (alpha s))))
            (uint8 (Z.min 255 (Z.quot (blue s) (alpha s))))
            (uint8 averageAlpha).

Definition empty_sums : sums := mkSums 0 0 0 0 0.
Definition add (s : sums) (c : NRGBA) : sums :=
  let '(r, g, b, a) := premultiplied c in
  mkSums (int64 (red s + r)) (int64 (green s + g)) (int64 (blue s + b)) (int64 (alpha s + a))
         (int64 (count s + 1)).
Definition remove (s : sums) (c : NRGBA) : sums :=
  let '(r, g, b, a) := premultiplied c in
  mkSums (int64 (red s - r)) (int64 (green s - g)) (int64 (blue s - b)) (int64 (alpha s - a))
         (int64 (count s - 1)).

(** One row or column: the second loop of [boxBlurHorizontal] and
    [boxBlurVertical] from position [x] on, with [left] positions to go. *)
Fixpoint slide (l : list NRGBA) (radius : Z) (left : nat) (x : Z) (s : sums) : list NRGBA :=
  match left with
  | O => []
  | S left' =>
      let removeX := x - radius in
      let s1 := if 0 <=? removeX then remove s (at_ l removeX) else s in
      let addX := x + radius + 1 in
      let s2 := if addX <? Z.of_nat (length l) then add s1 (at_ l addX) else s1 in
      unpremultiplied s :: slide l radius left' (x + 1) s2
  end.

(** The first loop, over the positions up to [min(Max-1, Min+radius)]. *)
Definition first_window (l : list NRGBA) (radius : Z) : sums :=
  fold_left add (take (Z.to_nat (radius + 1)) l) empty_sums.

Definition blur_line (l : list NRGBA) (radius : Z) : list NRGBA :=
  slide l radius (length l) 0 (first_window l radius).

Definition boxBlurHorizontal (src : Image) (radius : Z) : Image :=
  mkImage (Dx src) ((fun l => blur_line l radius) <$> rows src).

Definition column (img : Image) (x : nat) : list NRGBA :=
  (fun l => default transparent (l !! x)) <$> rows img.

Definition boxBlurVertical (src : Image) (radius : Z) : Image :=
  let columns := (fun x => blur_line (column src x) radius) <$> seq 0 (Dx src) in
  mkImage (Dx src)
    ((fun y => (fun c => default transparent (c !! y)) <$> columns) <$> seq 0 (Dy src)).

(** [cloneNRGBA] is the identity on values. *)
Definition blurNRGBA (src : Image) (radius : Z) : Image :=
  if radius <=? 0 then src
  else Nat.iter 3 (fun result => boxBlurVertical (boxBlurHorizontal result radius) radius) src.

(** ** Rectangles *)

Record Rectangle := mkRect { MinX : Z; MinY : Z; MaxX : Z; MaxY : Z }.
Definition width (r : Rectangle) : Z := MaxX r - MinX r.
Definition height (r : Rectangle) : Z := MaxY r - MinY r.
Definition Empty (r : Rectangle) : bool := (MaxX r <=? MinX r) || (MaxY r <=? MinY r).
Definition Rect (x0 y0 x1 y1 : Z) : Rectangle :=
  mkRect (Z.min x0 x1) (Z.min y0 y1) (Z.max x0 x1) (Z.max y0 y1).
Definition Intersect (r s : Rectangle) : Rectangle :=
  let i := mkRect (Z.max (MinX r) (MinX s)) (Z.max (MinY r) (MinY s))
                  (Z.min (MaxX r) (MaxX s)) (Z.min (MaxY r) (MaxY s)) in
  if Empty i then mkRect 0 0 0 0 else i.
Definition In (x y : Z) (r : Rectangle) : bool :=
  (MinX r <=? x) && (x <? MaxX r) && (MinY r <=? y) && (y <? MaxY r).
Definition Bounds (img : Image) : Rectangle := mkRect 0 0 (Z.of_nat (Dx img)) (Z.of_nat (Dy img)).

Definition roundUpToMultiple (value multiple : Z) : Z :=
  if (value <=? 0) || (multiple <=? 0) then 0
  else Z.quot (value + multiple - 1) multiple * multiple.

Definition expandFaceRect (rect bounds : Rectangle) : Rectangle :=
  let padding := Z.max 2 (Z.quot (Z.min (width rect) (height rect)) 4) in
  Intersect (Rect (MinX rect - padding) (MinY rect - padding)
                  (MaxX rect + padding) (MaxY rect + padding)) bounds.
(** ** The mask over a face *)

(** What the mask computes in [float64]. *)
Class Float64 := {
  F : Type;
  float64 : Z -> F;
  lit : Z -> Z -> F;  (* the constant [n/d] *)
  fadd : F -> F -> F; fsub : F -> F -> F; fmul : F -> F -> F; fdiv : F -> F -> F;
  fmin : F -> F -> F; fmax : F -> F -> F; Sqrt : F -> F;
  Floor : F -> F; Ceil : F -> F; Round : F -> F;
  fle : F -> F -> bool;
  to_int : F -> Z;
  (* a colour copied by [draw.Draw] through its 16-bit premultiplied form *)
  recode : NRGBA -> NRGBA
}.

Section mask.
Context `{HF : Float64}.

Definition faceMaskSolid : F := lit 8 10.
Definition faceMaskFade : F := lit 13 10.

Definition faceMaskWeight (distance : F) : F :=
  if fle distance faceMaskSolid then lit 1 1
  else if fle faceMaskFade distance then lit 0 1
  else
    let t := fdiv (fsub faceMaskFade distance) (lit 1 2) in
    fmul (fmul t t) (fsub (lit 3 1) (fmul (lit 2 1) t)).

Definition blendChannel (under over : Z) (weight : F) : Z :=
  let value := fadd (fmul (float64 under) (fsub (lit 1 1) weight)) (fmul (float64 over) weight) in
  uint8 (to_int (Round (fmax (lit 0 1) (fmin (lit 255 1) value)))).

Record ellipse := mkEllipse { centerX : F; centerY : F; radiusX : F; radiusY : F }.

Definition ellipse_of (face : Rectangle) : ellipse :=
  mkEllipse (fdiv (float64 (MinX face + MaxX face - 1)) (lit 2 1))
            (fdiv (float64 (MinY face + MaxY face - 1)) (lit 2 1))
            (fmax (lit 1 1) (fdiv (float64 (width face)) (lit 2 1)))
            (fmax (lit 1 1) (fdiv (float64 (height face)) (lit 2 1))).

Definition distance (e : ellipse) (x y : Z) : F :=
  let dx := fdiv (fsub (float64 x) (centerX e)) (radiusX e) in
  let dy := fdiv (fsub (float64 y) (centerY e)) (radiusY e) in
  Sqrt (fadd (fmul dx dx) (fmul dy dy)).

Definition offset (r : Rectangle) (x y : Z) : Rectangle :=
  mkRect (MinX r + x) (MinY r + y) (MaxX r + x) (MaxY r + y).

Definition soft_area (dst blurred : Image) (originX originY : Z) (e : ellipse) : Rectangle :=
  Intersect (Intersect
    (Rect (to_int (Floor (fsub (centerX e) (fmul (radiusX e) faceMaskFade))))
          (to_int (Floor (fsub (centerY e) (fmul (radiusY e) faceMaskFade))))
          (to_int (Ceil (fadd (centerX e) (fmul (radiusX e) faceMaskFade))) + 1)
          (to_int (Ceil (fadd (centerY e) (fmul (radiusY e) faceMaskFade))) + 1))
    (Bounds dst)) (offset (Bounds blurred) originX originY).

(** What the loop leaves at one pixel; every round reads and writes its own. *)
Definition soft_pixel (e : ellipse) (x y : Z) (under over : NRGBA) : NRGBA :=
  let d := distance e x y in
  if fle faceMaskFade d then under
  else
    let weight := faceMaskWeight d in
    if fle (lit 1 1) weight then over
    else mkNRGBA (blendChannel (R under) (R over) weight) (blendChannel (G under) (G over) weight)
                 (blendChannel (B under) (B over) weight) (blendChannel (A under) (A over) weight).

Definition applySoftEllipse (dst blurred : Image) (originX originY : Z) (face : Rectangle) : Image :=
  let e := ellipse_of face in
  let area := soft_area dst blurred originX originY e in
  draw (Dx dst) (Dy dst) (fun i j =>
    let x := Z.of_nat i in let y := Z.of_nat j in
    let under := NRGBAAt dst x y in
    if In x y area then soft_pixel e x y under (NRGBAAt blurred (x - originX) (y - originY))
    else under).

(** [draw.Draw(region, region.Bounds(), dst, work.Min, draw.Src)] on a new picture *)
Definition copy_region (src : Image) (work : Rectangle) : Image :=
  draw (Z.to_nat (width work)) (Z.to_nat (height work))
    (fun x y => recode (NRGBAAt src (MinX work + Z.of_nat x) (MinY work + Z.of_nat y))).

Definition face_radius (minimumRadius : Z) (face : Rectangle) : Z :=
  Z.max minimumRadius (Z.quot (Z.min (width face) (height face)) 5).

(** The region the blur of a face is taken from. *)
Definition face_work (src : Image) (radius : Z) (face : Rectangle) : Rectangle :=
  let bandX := to_int (fmul (fdiv (float64 (width face)) (lit 2 1)) (lit 3 10)) + 1 in
  let bandY := to_int (fmul (fdiv (float64 (height face)) (lit 2 1)) (lit 3 10)) + 1 in
  Intersect (Rect (MinX face - bandX - radius) (MinY face - bandY - radius)
                  (MaxX face + bandX + radius) (MaxY face + bandY + radius)) (Bounds src).

(** One round of [blurFaceRegions]. *)
Definition blur_face (src : Image) (minimumRadius : Z) (dst : Image) (face : Rectangle) : Image :=
  let face := Intersect face (Bounds src) in
  if Empty face then dst
  else
    let radius := face_radius minimumRadius face in
    let work := face_work src radius face in
    let blurred := blurNRGBA (copy_region dst work) radius in
    applySoftEllipse dst blurred (MinX work) (MinY work) face.

Definition blurFaceRegions (src : Image) (faces : list Rectangle) (minimumRadius : Z) : Image :=
  fold_left (blur_face src minimumRadius) faces src.

End mask.

(** * Specification *)

Definition channel (z : Z) : Prop := 0 <= z <= 255.
Definition pixel_ok (c : NRGBA) : Prop := channel (R c) /\ channel (G c) /\ channel (B c) /\ channel (A c).
Definition wf_image (img : Image) : Prop :=
  Forall (fun l => length l = Dx img /\ Forall pixel_ok l) (rows img).

(** The positions at most [r] away from [x]. *)
Definition window (l : list NRGBA) (r x : nat) : list NRGBA := drop (x - r) (take (x + r + 1) l).

(** The mean of a window: opacity is averaged, colours weigh by their opacity. *)
Definition mean (w : list NRGBA) : NRGBA :=
  let opacity := zsum A w in
  if opacity =? 0 then transparent
  else mkNRGBA (zsum (fun c => R c * A c) w / opacity) (zsum (fun c => G c * A c) w / opacity)
               (zsum (fun c => B c * A c) w / opacity) (opacity / Z.of_nat (length w)).

Definition mean_row (r : nat) (img : Image) : Image :=
  draw (Dx img) (Dy img) (fun x y => mean (window (row img y) r x)).
Definition mean_column (r : nat) (img : Image) : Image :=
  draw (Dx img) (Dy img) (fun x y => mean (window (column img x) r y)).

(** * Lemmas *)

Definition total (w : list NRGBA) : sums :=
  mkSums (zsum (fun c => R c * A c) w) (zsum (fun c => G c * A c) w)
         (zsum (fun c => B c * A c) w) (zsum A w) (Z.of_nat (length w)).

(** The registers hold the sums as long as these fit. *)
Definition wrap (s : sums) : sums :=
  mkSums (int64 (red s)) (int64 (green s)) (int64 (blue s)) (int64 (alpha s)) (int64 (count s)).

Definition plus (s t : sums) : sums :=
  mkSums (red s + red t) (green s + green t) (blue s + blue t) (alpha s + alpha t) (count s + count t).

Lemma int64_add_l a b : int64 (int64 a + b) = int64 (a + b).
Proof.
  unfold int64. f_equal. replace ((a + 2 ^ 63) mod 2 ^ 64 - 2 ^ 63 + b + 2 ^ 63)
    with ((a + 2 ^ 63) mod 2 ^ 64 + b) by lia.
  rewrite Zplus_mod_idemp_l. f_equal. lia.
Qed.

Lemma int64_sub_l a b : int64 (int64 a - b) = int64 (a - b).
Proof. apply (int64_add_l a (- b)). Qed.

Lemma fold_add l s : fold_left add l (wrap s) = wrap (plus s (total l)).
Proof.
  revert s. induction l as [|c l IH]; intros s.
  { unfold plus, wrap. cbn. f_equal; f_equal; lia. }
  cbn [fold_left]. replace (add (wrap s) c) with (wrap (plus s (total [c]))).
  - rewrite IH. f_equal. unfold plus, total. cbn. f_equal; lia.
  - unfold add, wrap, plus, total. cbn. rewrite !int64_add_l. f_equal; f_equal; lia.
Qed.

Lemma first_window_total l r : first_window l (Z.of_nat r) = wrap (total (window l r 0)).
Proof.
  unfold first_window, window. change empty_sums with (wrap empty_sums). rewrite fold_add.
  replace (Z.to_nat (Z.of_nat r + 1)) with (0 + r + 1)%nat by lia. done.
Qed.

(** Moving the window: what leaves on the left, what enters on the right. *)
Lemma window_moves l r x : (x < length l)%nat ->
  window l r x ++ option_list (l !! (x + r + 1)%nat) =
  (if (r <=? x)%nat then [at_ l (Z.of_nat x - Z.of_nat r)] else []) ++ window l r (S x).
Proof.
  intros Hx. unfold window.
  assert (HT : take (S x + r + 1) l = take (x + r + 1) l ++ option_list (l !! (x + r + 1)%nat)).
  { replace (S x + r + 1)%nat with (S (x + r + 1)) by lia.
    destruct (l !! (x + r + 1)%nat) as [c|] eqn:E; [by apply take_S_r|].
    apply lookup_ge_None in E. rewrite !take_ge by lia. simpl. by rewrite app_nil_r. }
  assert (HL : (x - r <= length (take (x + r + 1) l))%nat) by (rewrite length_take; lia).
  destruct (Nat.leb_spec r x) as [Hr|Hr].
  - rewrite HT. replace (S x - r)%nat with (S (x - r)) by lia.
    unfold at_. rewrite (proj2 (Z.leb_le _ _)) by lia.
    replace (Z.to_nat (Z.of_nat x - Z.of_nat r)) with (x - r)%nat by lia.
    destruct (l !! (x - r)%nat) as [c|] eqn:E; [|apply lookup_ge_None in E; lia].
    rewrite <- drop_app_le by done. cbn [default from_option app].
    apply drop_S. rewrite lookup_app_l; [|rewrite length_take; lia].
    by rewrite lookup_take_lt by lia.
  - replace (x - r)%nat with 0%nat by lia. replace (S x - r)%nat with 0%nat by lia.
    by rewrite HT.
Qed.

Lemma total_app a b : total (a ++ b) =
  mkSums (red (total a) + red (total b)) (green (total a) + green (total b))
         (blue (total a) + blue (total b)) (alpha (total a) + alpha (total b))
         (count (total a) + count (total b)).
Proof. unfold total. cbn. rewrite !zsum_app, length_app, Nat2Z.inj_add. done. Qed.

Lemma total_one c : total [c] = mkSums (R c * A c) (G c * A c) (B c * A c) (A c) 1.
Proof. unfold total. cbn. f_equal; lia. Qed.

Lemma slide_step l r x : (x < length l)%nat ->
  let s1 := if 0 <=? Z.of_nat x - Z.of_nat r
            then remove (wrap (total (window l r x))) (at_ l (Z.of_nat x - Z.of_nat r))
            else wrap (total (window l r x)) in
  (if Z.of_nat x + Z.of_nat r + 1 <? Z.of_nat (length l)
   then add s1 (at_ l (Z.of_nat x + Z.of_nat r + 1)) else s1) = wrap (total (window l r (S x))).
Proof.
  intros Hx s1. pose proof (f_equal total (window_moves l r x Hx)) as HW.
  rewrite !total_app in HW.
  assert (HA : total (option_list (l !! (x + r + 1)%nat)) =
    if Z.of_nat x + Z.of_nat r + 1 <? Z.of_nat (length l)
    then total [at_ l (Z.of_nat x + Z.of_nat r + 1)] else total []).
  { destruct (Z.ltb_spec (Z.of_nat x + Z.of_nat r + 1) (Z.of_nat (length l))) as [H|H].
    - unfold at_. rewrite (proj2 (Z.leb_le _ _)) by lia.
      replace (Z.to_nat (Z.of_nat x + Z.of_nat r + 1)) with (x + r + 1)%nat by lia.
      destruct (l !! (x + r + 1)%nat) eqn:E; [done|apply lookup_ge_None in E; lia].
    - rewrite lookup_ge_None_2 by lia. done. }
  rewrite HA in HW. unfold s1. clear HA s1.
  destruct (Nat.leb_spec r x) as [Hr|Hr];
    [rewrite (proj2 (Z.leb_le _ _)) by lia|rewrite (proj2 (Z.leb_gt _ _)) by lia];
    destruct (_ <? _); rewrite ?total_one in HW; unfold total in HW at 2 4;
    injection HW; intros; unfold add, remove, wrap; cbn; unfold total in *; cbn in *;
    rewrite ?int64_sub_l, ?int64_add_l; f_equal; f_equal; lia.
Qed.

Lemma slide_windows l r left x : (x + left = length l)%nat ->
  slide l (Z.of_nat r) left (Z.of_nat x) (wrap (total (window l r x))) =
  (fun k => unpremultiplied (wrap (total (window l r k)))) <$> seq x left.
Proof.
  revert x. induction left as [|left IH]; intros x HL; [done|]. cbn [slide seq fmap list_fmap].
  f_equal. rewrite (slide_step l r x) by lia.
  replace (Z.of_nat x + 1) with (Z.of_nat (S x)) by lia. apply IH. lia.
Qed.

Lemma zsum_le {C} (f g : C -> Z) l : (forall c, c ∈ l -> f c <= g c) -> zsum f l <= zsum g l.
Proof.
  induction l as [|c l IH]; simpl; intros H; [lia|].
  pose proof (H c (list_elem_of_here _ _)).
  assert (forall b, b ∈ l -> f b <= g b) by (intros; apply H; by apply list_elem_of_further).
  specialize (IH ltac:(done)). lia.
Qed.

Lemma zsum_scale {C} k (f : C -> Z) l : zsum (fun c => k * f c) l = k * zsum f l.
Proof. induction l; simpl; lia. Qed.

(** A weighted mean of channels is a channel. *)
Lemma weighted_bounds (f : NRGBA -> Z) w : Forall pixel_ok w ->
  (forall c, pixel_ok c -> channel (f c)) ->
  0 <= zsum (fun c => f c * A c) w <= 255 * zsum A w.
Proof.
  intros HF Hf. rewrite Forall_forall in HF. split.
  - apply zsum_nonneg. intros c Hc. specialize (HF c Hc). specialize (Hf c HF).
    destruct HF as (_ & _ & _ & ?). unfold channel in *. nia.
  - rewrite <- zsum_scale. apply zsum_le. intros c Hc. specialize (HF c Hc). specialize (Hf c HF).
    destruct HF as (_ & _ & _ & ?). unfold channel in *. nia.
Qed.

Lemma opacity_bounds w : Forall pixel_ok w -> 0 <= zsum A w <= 255 * Z.of_nat (length w).
Proof.
  intros HF. rewrite Forall_forall in HF. split.
  - apply zsum_nonneg. intros c Hc. destruct (HF c Hc) as (_ & _ & _ & H). unfold channel in H. lia.
  - rewrite Z.mul_comm. apply zsum_bound. intros c Hc. destruct (HF c Hc) as (_ & _ & _ & H).
    unfold channel in H. lia.
Qed.

Lemma uint8_channel z : channel z -> uint8 z = z.
Proof. unfold channel, uint8. intros. apply Z.mod_small. lia. Qed.

Lemma div_channel a b : 0 < b -> 0 <= a <= 255 * b -> channel (a / b).
Proof. intros Hb Ha. unfold channel. split; [apply Z.div_pos; lia|]. apply Z.div_le_upper_bound; lia. Qed.

(** On pixels in range the sums give the mean: neither the cut at 255 nor the
    conversion to 8 bits changes anything. *)
Lemma unpremultiplied_mean w : Forall pixel_ok w -> unpremultiplied (total w) = mean w.
Proof.
  intros HF. pose proof (opacity_bounds w HF) as HO. unfold unpremultiplied, mean, total.
  cbn [red green blue alpha count].
  destruct (Z.eqb_spec (zsum A w) 0) as [E|E]; [by rewrite orb_true_r|].
  assert (0 < Z.of_nat (length w)) by lia. rewrite (proj2 (Z.eqb_neq _ 0)) by lia. cbn [orb].
  assert (HQ : forall f, (forall c, pixel_ok c -> channel (f c)) ->
    uint8 (Z.min 255 (Z.quot (zsum (fun c => f c * A c) w) (zsum A w))) =
    zsum (fun c => f c * A c) w / zsum A w).
  { intros f Hf. pose proof (weighted_bounds f w HF Hf) as HB.
    rewrite Z.quot_div_nonneg by lia. pose proof (div_channel _ (zsum A w) ltac:(lia) HB) as Hc.
    rewrite Z.min_r by (unfold channel in Hc; lia). by apply uint8_channel. }
  rewrite !HQ by (intros c (H1 & H2 & H3 & H4); done).
  rewrite Z.quot_div_nonneg by lia. rewrite uint8_channel; [done|]. apply div_channel; lia.
Qed.

Lemma mean_ok w : Forall pixel_ok w -> pixel_ok (mean w).
Proof.
  intros HF. pose proof (opacity_bounds w HF) as HO. unfold mean.
  destruct (Z.eqb_spec (zsum A w) 0) as [E|E]; [done|].
  split_and!; cbn; apply div_channel; try lia; apply weighted_bounds; try done;
    by intros c (H1 & H2 & H3 & H4).
Qed.

Lemma window_ok l r x : Forall pixel_ok l -> Forall pixel_ok (window l r x).
Proof. intros. by apply Forall_drop, Forall_take. Qed.

Lemma window_length l r x : (length (window l r x) <= length l)%nat.
Proof. unfold window. rewrite length_drop, length_take. lia. Qed.

(** The longest side of a picture whose sums certainly fit. *)
Definition side_limit : Z := 2 ^ 47.

(** No sum over one line overflows. *)
Lemma wrap_total w : Forall pixel_ok w -> Z.of_nat (length w) <= side_limit ->
  wrap (total w) = total w.
Proof.
  intros HF HL. pose proof (opacity_bounds w HF) as HO. unfold side_limit in HL.
  assert (HQ : forall f, (forall c, pixel_ok c -> channel (f c)) ->
    int64 (zsum (fun c => f c * A c) w) = zsum (fun c => f c * A c) w).
  { intros f Hf. pose proof (weighted_bounds f w HF Hf) as HB. apply int64_id. unfold in_int64. lia. }
  unfold wrap, total. cbn [red green blue alpha count].
  rewrite !HQ by (intros c (H1 & H2 & H3 & H4); done).
  rewrite !int64_id by (unfold in_int64; lia). done.
Qed.

Lemma blur_line_mean l r : Forall pixel_ok l -> Z.of_nat (length l) <= side_limit ->
  blur_line l (Z.of_nat r) = (fun k => mean (window l r k)) <$> seq 0 (length l).
Proof.
  intros HF HL. unfold blur_line. rewrite first_window_total.
  change 0 with (Z.of_nat 0). rewrite slide_windows by done.
  apply list_fmap_ext. intros k c _. pose proof (window_length l r c).
  rewrite wrap_total; [by apply unpremultiplied_mean, window_ok|by apply window_ok|lia].
Qed.

Lemma rows_seq img : rows img = row img <$> seq 0 (Dy img).
Proof.
  apply list_eq. intros y. rewrite list_lookup_fmap. unfold row, Dy.
  destruct (rows img !! y) as [l|] eqn:E.
  - apply lookup_lt_Some in E as HL. rewrite lookup_seq_lt by done. simpl. by rewrite E.
  - apply lookup_ge_None in E. by rewrite lookup_seq_ge by lia.
Qed.

Lemma row_ok img y : wf_image img -> (y < Dy img)%nat ->
  length (row img y) = Dx img /\ Forall pixel_ok (row img y).
Proof.
  intros HW Hy. unfold row. destruct (rows img !! y) as [l|] eqn:E.
  - unfold wf_image in HW. rewrite Forall_forall in HW. apply HW. by eapply list_elem_of_lookup_2.
  - apply lookup_ge_None in E. unfold Dy in Hy. lia.
Qed.

Lemma pixel_ok_lookup l x : Forall pixel_ok l -> pixel_ok (default transparent (l !! x)).
Proof.
  intros HF. destruct (l !! x) as [c|] eqn:E; [|done].
  rewrite Forall_forall in HF. apply HF. by eapply list_elem_of_lookup_2.
Qed.

Lemma column_ok img x : wf_image img ->
  length (column img x) = Dy img /\ Forall pixel_ok (column img x).
Proof.
  intros HW. unfold column. split; [by rewrite length_fmap|].
  apply Forall_fmap. eapply Forall_impl; [exact HW|]. intros l [_ HF]. by apply pixel_ok_lookup.
Qed.

Lemma draw_ok dx dy f : (forall x y, (x < dx)%nat -> (y < dy)%nat -> pixel_ok (f x y)) ->
  wf_image (draw dx dy f) /\ Dx (draw dx dy f) = dx /\ Dy (draw dx dy f) = dy.
Proof.
  intros Hf. unfold draw, Dy. cbn [rows Dx]. rewrite length_fmap, length_seq. split; [|done].
  apply Forall_forall. cbn [rows]. intros l (y & -> & Hy)%list_elem_of_fmap.
  rewrite length_fmap, length_seq. split; [done|].
  apply Forall_fmap, Forall_forall. intros x Hx. rewrite elem_of_seq in Hx, Hy.
  apply Hf; lia.
Qed.

Lemma mean_row_ok r img : wf_image img ->
  wf_image (mean_row r img) /\ Dx (mean_row r img) = Dx img /\ Dy (mean_row r img) = Dy img.
Proof. intros HW. apply draw_ok. intros x y _ Hy. apply mean_ok, window_ok. by apply row_ok. Qed.

Lemma mean_column_ok r img : wf_image img ->
  wf_image (mean_column r img) /\ Dx (mean_column r img) = Dx img /\ Dy (mean_column r img) = Dy img.
Proof. intros HW. apply draw_ok. intros x y _ _. apply mean_ok, window_ok. by apply column_ok. Qed.

Lemma horizontal_mean img r : wf_image img -> Z.of_nat (Dx img) <= side_limit ->
  boxBlurHorizontal img (Z.of_nat r) = mean_row r img.
Proof.
  intros HW HL. unfold boxBlurHorizontal, mean_row, draw. f_equal.
  rewrite rows_seq at 1. rewrite <- list_fmap_compose. apply list_fmap_ext. intros k y Hy.
  apply list_elem_of_lookup_2, elem_of_seq in Hy.
  destruct (row_ok img y HW ltac:(lia)) as [HLn HF]. unfold compose.
  rewrite blur_line_mean by (try done; lia). by rewrite HLn.
Qed.

Lemma vertical_mean img r : wf_image img -> Z.of_nat (Dy img) <= side_limit ->
  boxBlurVertical img (Z.of_nat r) = mean_column r img.
Proof.
  intros HW HL. unfold boxBlurVertical, mean_column, draw. f_equal.
  apply list_fmap_ext. intros k y Hy. apply list_elem_of_lookup_2, elem_of_seq in Hy.
  rewrite <- list_fmap_compose. apply list_fmap_ext. intros j x _. unfold compose.
  destruct (column_ok img x HW) as [HLn HF].
  rewrite blur_line_mean by (try done; lia). rewrite HLn, list_lookup_fmap, lookup_seq_lt by lia.
  done.
Qed.

Lemma pass_mean img r : wf_image img -> Z.of_nat (Dx img) <= side_limit ->
  Z.of_nat (Dy img) <= side_limit ->
  let out := boxBlurVertical (boxBlurHorizontal img (Z.of_nat r)) (Z.of_nat r) in
  out = mean_column r (mean_row r img) /\ wf_image out /\ Dx out = Dx img /\ Dy out = Dy img.
Proof.
  intros HW HX HY out. destruct (mean_row_ok r img HW) as (HW1 & HX1 & HY1).
  destruct (mean_column_ok r _ HW1) as (HW2 & HX2 & HY2).
  assert (HE : out = mean_column r (mean_row r img)).
  { unfold out. rewrite horizontal_mean by done. apply vertical_mean; [done|lia]. }
  rewrite HE. split_and!; [done|done|congruence|congruence].
Qed.

(** The three rounds. *)
Lemma blur_rounds img radius : wf_image img -> Z.of_nat (Dx img) <= side_limit ->
  Z.of_nat (Dy img) <= side_limit -> 0 < radius ->
  let r := Z.to_nat radius in
  let out := Nat.iter 3 (fun i => boxBlurVertical (boxBlurHorizontal i radius) radius) img in
  out = Nat.iter 3 (fun i => mean_column r (mean_row r i)) img /\
  wf_image out /\ Dx out = Dx img /\ Dy out = Dy img.
Proof.
  intros HW HX HY Hr r out. unfold out.
  replace radius with (Z.of_nat r) by lia. generalize 3%nat as n.
  induction n as [|n (HE & HWn & HXn & HYn)]; [done|]. rewrite !Nat.iter_succ, <- HE.
  set (i := Nat.iter n _ img) in *.
  destruct (pass_mean i r HWn ltac:(lia) ltac:(lia)) as (-> & ? & ? & ?).
  split_and!; [done|done|lia|lia].
Qed.

Lemma NRGBAAt_draw dx dy f x y : (x < dx)%nat -> (y < dy)%nat ->
  NRGBAAt (draw dx dy f) (Z.of_nat x) (Z.of_nat y) = f x y.
Proof.
  intros Hx Hy. unfold NRGBAAt, row, at_, draw. cbn [rows].
  rewrite !(proj2 (Z.leb_le _ _)), !Nat2Z.id by lia.
  rewrite list_lookup_fmap, lookup_seq_lt by done. cbn.
  by rewrite list_lookup_fmap, lookup_seq_lt by done.
Qed.

Lemma NRGBAAt_ok img x y : wf_image img -> pixel_ok (NRGBAAt img x y).
Proof.
  intros HW. unfold NRGBAAt, at_. destruct (0 <=? y); [|done]. destruct (0 <=? x); [|done].
  apply pixel_ok_lookup. unfold row. destruct (rows img !! Z.to_nat y) as [l|] eqn:E; [|done].
  unfold wf_image in HW. rewrite Forall_forall in HW. apply HW. by eapply list_elem_of_lookup_2.
Qed.

Lemma uint8_ok z : channel (uint8 z).
Proof. unfold channel, uint8. pose proof (Z.mod_pos_bound z 256). lia. Qed.

(** ** Properties *)

(** C21. The whole-picture blur is what it approximates a Gaussian with: three
    rounds of averaging, over the positions at most [radius] away, along the rows
    and then along the columns.  The running sums never overflow, no average
    leaves the range of a channel, and the picture keeps its size. *)
Theorem blur_is_windowed_mean img radius :
  wf_image img -> Z.of_nat (Dx img) <= side_limit -> Z.of_nat (Dy img) <= side_limit ->
  0 < radius ->
  let r := Z.to_nat radius in
  let out := blurNRGBA img radius in
  out = Nat.iter 3 (fun i => mean_column r (mean_row r i)) img /\
  wf_image out /\ Dx out = Dx img /\ Dy out = Dy img.
Proof.
  intros HW HX HY Hr r out. unfold out, blurNRGBA. rewrite (proj2 (Z.leb_gt _ _)) by lia.
  by apply blur_rounds.
Qed.

(** * Examples *)

Module Toy.

(** Fixed point with three decimals. *)
#[export] Instance fixed : Float64 := {|
  F := Z; float64 z := 1000 * z; lit n d := 1000 * n / d;
  fadd := Z.add; fsub := Z.sub; fmul a b := a * b / 1000; fdiv a b := a * 1000 / b;
  fmin := Z.min; fmax := Z.max; Sqrt a := Z.sqrt (a * 1000);
  Floor a := a / 1000 * 1000; Ceil a := (a + 999) / 1000 * 1000; Round a := (a + 500) / 1000 * 1000;
  fle := Z.leb; to_int a := a / 1000; recode c := c
|}.

Definition grey (v : Z) : NRGBA := mkNRGBA v v v 255.
Definition strip : Image := mkImage 3 [[grey 0; grey 90; mkNRGBA 255 0 0 0]].

Lemma blur_is_windowed_mean_witness :
  boxBlurHorizontal strip 1 = mkImage 3 [[grey 45; mkNRGBA 45 45 45 170; mkNRGBA 90 90 90 127]] /\
  blurNRGBA strip 1 = Nat.iter 3 (fun i => mean_column 1 (mean_row 1 i)) strip.
Proof.
  split; [by_vm|].
  assert (HW : wf_image strip).
  { apply Forall_cons. split; [|by constructor]. split; [done|].
    repeat (apply Forall_cons; split; [by_dec|]). by constructor. }
  refine (proj1 (blur_is_windowed_mean strip 1 HW _ _ _)); [by_dec|by_dec|by_dec].
Defined.

End Toy.

End Blur.
