(* ===== verification/SoftMask.v ===== *)
(** The soft mask over a face ([blurFaceRegions] and [applySoftEllipse] of
    [internal/imageproc/privacy.go], modelled in [Blur]) against the geometry it is
    meant to have: how far a position is from the centre of a face is a rational
    number here, and what floating point makes of it is bounded by the laws of
    rounding. *)

From S2P Require Export Blur.
From Stdlib Require Import QArith Qabs Qround Lqa.

Local Open Scope Z_scope.

Module SoftMask.
Import Blur.

(** * Rounding *)

(** A result may be off by a 2^-45th; those of [float64] are by a 2^-53rd. *)
Definition epsilon : Q := 1 # 35184372088832.
Definition near (k q r : Q) : Prop := (q - k * (1 + Qabs q) <= r /\ r <= q + k * (1 + Qabs q))%Q.

(** Rounding does not change signs; whole numbers and halves of them are numbers of
    [float64], and a result that is one is exact. *)
Definition rounds (q r : Q) : Prop :=
  near epsilon q r /\ (0 <= q -> 0 <= r)%Q /\ (forall z, Z.abs z <= 2 ^ 53 -> (2 * q == inject_Z z)%Q -> (r == q)%Q).

(** Up to 2^100, far from overflow. *)
Definition fits (q : Q) : Prop := (-1267650600228229401496703205376 <= q <= 1267650600228229401496703205376)%Q.

(** Towards zero. *)
Definition truncate (q : Q) : Z := Z.quot (Qnum q) (Zpos (Qden q)).

(** What the mask relies on of [float64] and of [math]: [value x q] says that [x] is
    the number [q], and neither infinite nor undefined. *)
Class Float64Laws `{Float64} := {
  value : F -> Q -> Prop;
  value_eq x p q : value x p -> (p == q)%Q -> value x q;
  of_int z : Z.abs z <= 2 ^ 53 -> value (float64 z) (inject_Z z);
  of_lit n d : 0 <= n <= 1000 -> 0 < d <= 1000 ->
    exists r, value (lit n d) r /\ rounds (inject_Z n / inject_Z d) r;
  of_add x y p q : value x p -> value y q -> fits (p + q) -> exists r, value (fadd x y) r /\ rounds (p + q) r;
  of_sub x y p q : value x p -> value y q -> fits (p - q) -> exists r, value (fsub x y) r /\ rounds (p - q) r;
  of_mul x y p q : value x p -> value y q -> fits (p * q) -> exists r, value (fmul x y) r /\ rounds (p * q) r;
  of_div x y p q : value x p -> value y q -> (0 < q)%Q -> fits (p / q) -> exists r, value (fdiv x y) r /\ rounds (p / q) r;
  of_sqrt x p : value x p -> (0 <= p)%Q -> fits p -> exists r, value (Sqrt x) r /\ (0 <= r)%Q /\ near (2 * epsilon) p (r * r);
  of_max x y p q : value x p -> value y q -> value (fmax x y) (if Qle_bool p q then q else p);
  of_min x y p q : value x p -> value y q -> value (fmin x y) (if Qle_bool p q then p else q);
  of_floor x p : value x p -> fits p -> value (Floor x) (inject_Z (Qfloor p));
  of_ceil x p : value x p -> fits p -> value (Ceil x) (inject_Z (Qceiling p));
  of_round x p : value x p -> fits p -> exists z, value (Round x) (inject_Z z) /\
    (p - (1 # 2) <= inject_Z z /\ inject_Z z <= p + (1 # 2))%Q;
  to_int_of x p : value x p -> Z.abs (truncate p) <= 2 ^ 62 -> to_int x = truncate p;
  fle_of x y p q : value x p -> value y q -> fle x y = true <-> (p <= q)%Q;
  (* a colour copied through its 16-bit form is a colour *)
  recode_ok c : pixel_ok c -> pixel_ok (recode c)
}.

(** * Specification *)

(** How far a position is from the centre of a face, squared, in radii of its ellipse. *)
Definition squared_distance (face : Rectangle) (x y : Z) : Q :=
  let dx := (inject_Z (2 * x - (MinX face + MaxX face - 1)) / inject_Z (Z.max 2 (width face)))%Q in
  let dy := (inject_Z (2 * y - (MinY face + MaxY face - 1)) / inject_Z (Z.max 2 (height face)))%Q in
  (dx * dx + dy * dy)%Q.

(** Inside the solid part, eight tenths of the ellipse; beyond the fade, thirteen
    tenths of it.  A ten-thousandth is left for rounding. *)
Definition solid (face : Rectangle) (x y : Z) : Prop :=
  Empty face = false /\ (squared_distance face x y <= 6399 # 10000)%Q.
Definition beyond (face : Rectangle) (x y : Z) : Prop :=
  Empty face = true \/ (16901 # 10000 <= squared_distance face x y)%Q.

(** The pixel a face is hidden with: three rounds of averaging over the region around
    the face, as the picture was before it. *)
Definition cover `{Float64} (src : Image) (minimumRadius : Z) (dst : Image) (face : Rectangle) (x y : Z) : NRGBA :=
  let face := Intersect face (Bounds src) in
  let radius := face_radius minimumRadius face in
  let work := face_work src radius face in
  let r := Z.to_nat radius in
  NRGBAAt (Nat.iter 3 (fun i => mean_column r (mean_row r i)) (copy_region dst work)) (x - MinX work) (y - MinY work).

Definition channels : list (NRGBA -> Z) := [R; G; B; A].

(** * Lemmas *)

(** ** Rounding *)

Lemma near_bound k b q r : near k q r -> (0 <= k)%Q -> (- b <= q <= b)%Q ->
  (q - k * (1 + b) <= r <= q + k * (1 + b))%Q.
Proof.
  intros [H1 H2] Hk [Hb1 Hb2]. assert (HB : (Qabs q <= b)%Q) by (apply Qabs_Qle_condition; split; lra).
  generalize dependent (Qabs q). intros a H1 H2 HB. assert (0 <= k * (b - a))%Q by (apply Qmult_le_0_compat; lra).
  split; lra.
Qed.

Lemma near_nonneg k q r : (0 <= q)%Q -> near k q r <-> (q - k * (1 + q) <= r /\ r <= q + k * (1 + q))%Q.
Proof. intros Hq. unfold near. by rewrite (Qabs_pos q Hq). Qed.

Lemma square_nonneg (q : Q) : (0 <= q * q)%Q.
Proof. destruct (Qlt_le_dec q 0); nra. Qed.

Lemma near_weaken k k' q r : (k <= k')%Q -> near k q r -> near k' q r.
Proof.
  intros Hk [H1 H2]. pose proof (Qabs_nonneg q). unfold near. generalize dependent (Qabs q). intros a H1 H2 Ha.
  assert (0 <= (k' - k) * (1 + a))%Q by (apply Qmult_le_0_compat; lra). split; lra.
Qed.

(** Errors add up. *)
Lemma near_trans q r s (k e : Q) : (0 <= q)%Q -> (0 <= r)%Q -> (0 <= k <= 1)%Q -> (0 <= e)%Q ->
  near k q r -> near e r s -> near (k + 2 * e) q s.
Proof.
  intros Hq Hr [Hk0 Hk1] He. rewrite !near_nonneg by done. intros [H1 H2] [H3 H4].
  assert (0 <= e * ((1 - k) + (1 - k) * q))%Q.
  { apply Qmult_le_0_compat; [done|]. assert (0 <= (1 - k) * q)%Q by (apply Qmult_le_0_compat; lra). lra. }
  assert (0 <= e * (q + k * (1 + q) - r))%Q by (apply Qmult_le_0_compat; lra). split; lra.
Qed.

Lemma near_add k p q r s : (0 <= p)%Q -> (0 <= q)%Q -> (0 <= k)%Q -> near k p r -> near k q s ->
  near (2 * k) (p + q) (r + s).
Proof.
  intros Hp Hq Hk. rewrite !near_nonneg by lra. intros [H1 H2] [H3 H4].
  assert (0 <= k * p)%Q by nra. assert (0 <= k * q)%Q by nra. split; lra.
Qed.

Lemma near_square q r : near epsilon q r -> near (4 * epsilon) (q * q) (r * r).
Proof.
  intros [H1 H2]. apply near_nonneg; [nra|]. set (a := Qabs q) in *.
  assert (Ha : (0 <= a /\ a * a == q * q /\ (a == q \/ a == - q))%Q).
  { unfold a. apply Qabs_case; intros Hs; (split; [lra|]; split; [lra|]); [left|right]; lra. }
  destruct Ha as (Ha & Haa & Hq). set (e := (epsilon * (1 + a))%Q) in *. set (d := (r - q)%Q).
  assert (He : (0 <= (e - d) * (e + d))%Q) by (apply Qmult_le_0_compat; unfold d; lra).
  assert (Hd : (- (a * e) <= q * d /\ q * d <= a * e)%Q).
  { assert (0 <= a * (e - d))%Q by (apply Qmult_le_0_compat; unfold d; lra).
    assert (0 <= a * (e + d))%Q by (apply Qmult_le_0_compat; unfold d; lra).
    destruct Hq as [Hq|Hq]; rewrite Hq in *; lra. }
  assert (HR : (r * r == q * q + d * d + 2 * (q * d))%Q) by (unfold d; ring).
  assert (Hs : (0 <= (a - 1) * (a - 1))%Q) by (destruct (Qlt_le_dec a 1); nra).
  assert (0 <= d * d)%Q by (destruct (Qlt_le_dec d 0); nra).
  unfold e, epsilon in *. split; lra.
Qed.

(** ** The ellipse of a face *)

(** A face inside a picture. *)
Definition face_fits (face : Rectangle) : Prop :=
  (0 <= MinX face < MaxX face /\ MaxX face <= 2 ^ 31) /\ (0 <= MinY face < MaxY face /\ MaxY face <= 2 ^ 31).

Definition position_fits (x y : Z) : Prop := 0 <= x <= 2 ^ 31 /\ 0 <= y <= 2 ^ 31.

Section ellipse.
Context `{HFl : Float64Laws}.

Lemma inject_bounds a z b : a <= z <= b -> (a # 1 <= inject_Z z /\ inject_Z z <= b # 1)%Q.
Proof. intros [H1 H2]. by rewrite Zle_Qle in H1, H2. Qed.

Lemma lit_int n : 0 <= n <= 1000 -> value (lit n 1) (inject_Z n).
Proof.
  intros Hn. destruct (of_lit n 1 Hn ltac:(lia)) as (r & Hr & _ & _ & HE). eapply value_eq; [exact Hr|].
  rewrite (HE (2 * n)); [field|lia|rewrite inject_Z_mult; field].
Qed.

Lemma half_of z : Z.abs z <= 2 ^ 53 -> value (fdiv (float64 z) (lit 2 1)) ((1 # 2) * inject_Z z).
Proof.
  intros Hz. destruct (inject_bounds (-9007199254740992) z 9007199254740992) as [HB1 HB2]; [lia|].
  assert (HE : (inject_Z z / inject_Z 2 == (1 # 2) * inject_Z z)%Q) by (change (inject_Z 2) with 2%Q; field).
  destruct (of_div _ _ _ _ (of_int z Hz) (lit_int 2 ltac:(lia))) as (r & Hr & _ & _ & HX); [done| |].
  - unfold fits. rewrite HE. split; lra.
  - eapply value_eq; [exact Hr|]. rewrite (HX z Hz); rewrite HE; [reflexivity|lra].
Qed.

(** One coordinate: the centre, the radius, and the distance in radii. *)
Definition twice_center (lo hi : Z) : Z := lo + hi - 1.
Definition twice_radius (lo hi : Z) : Z := Z.max 2 (hi - lo).
Definition offset_ratio (lo hi x : Z) : Q :=
  (inject_Z (2 * x - twice_center lo hi) / inject_Z (twice_radius lo hi))%Q.

Lemma radius_value lo hi : 0 <= lo < hi -> hi <= 2 ^ 31 ->
  value (fmax (lit 1 1) (fdiv (float64 (hi - lo)) (lit 2 1))) ((1 # 2) * inject_Z (twice_radius lo hi)).
Proof.
  intros Hlo Hhi. eapply value_eq; [apply of_max; [apply lit_int; lia|apply half_of; lia]|].
  unfold twice_radius. destruct (Qle_bool _ _) eqn:E.
  - apply Qle_bool_iff in E. assert (H2 : (inject_Z 2 <= inject_Z (hi - lo))%Q).
    { change (inject_Z 1) with 1%Q in E. change (inject_Z 2) with 2%Q. lra. }
    rewrite <- Zle_Qle in H2. by rewrite Z.max_r.
  - assert (H2 : ~ (inject_Z 2 <= inject_Z (hi - lo))%Q).
    { intros H2. apply not_true_iff_false in E. apply E, Qle_bool_iff.
      change (inject_Z 2) with 2%Q in H2. change (inject_Z 1) with 1%Q. lra. }
    rewrite <- Zle_Qle in H2. rewrite Z.max_l by lia. reflexivity.
Qed.

Lemma center_value lo hi : 0 <= lo < hi -> hi <= 2 ^ 31 ->
  value (fdiv (float64 (lo + hi - 1)) (lit 2 1)) ((1 # 2) * inject_Z (twice_center lo hi)).
Proof. intros. apply (half_of (lo + hi - 1)). lia. Qed.

Lemma ratio_value lo hi x : 0 <= lo < hi -> hi <= 2 ^ 31 -> 0 <= x <= 2 ^ 31 ->
  exists q, value (fdiv (fsub (float64 x) (fdiv (float64 (lo + hi - 1)) (lit 2 1)))
                        (fmax (lit 1 1) (fdiv (float64 (hi - lo)) (lit 2 1)))) q /\
    near epsilon (offset_ratio lo hi x) q /\ (-8589934592 <= offset_ratio lo hi x <= 8589934592)%Q.
Proof.
  intros Hlo Hhi Hx. set (u := 2 * x - twice_center lo hi). set (w := twice_radius lo hi).
  destruct (inject_bounds (-8589934592) u 8589934592) as [HU1 HU2]; [unfold u, twice_center; lia|].
  destruct (inject_bounds 2 w 4294967296) as [HW1 HW2]; [unfold w, twice_radius; lia|].
  assert (HX : (inject_Z u == 2 * inject_Z x - inject_Z (twice_center lo hi))%Q).
  { unfold u. unfold Z.sub. rewrite inject_Z_plus, inject_Z_opp, inject_Z_mult. reflexivity. }
  destruct (of_sub _ _ _ _ (of_int x ltac:(lia)) (center_value lo hi Hlo Hhi)) as (a & Ha & _ & _ & HE).
  { split; lra. }
  assert (Hau : (a == (1 # 2) * inject_Z u)%Q).
  { rewrite (HE u); [|unfold u, twice_center; lia|]; lra. }
  assert (HR : (-8589934592 <= offset_ratio lo hi x <= 8589934592)%Q).
  { unfold offset_ratio. fold u w. split; [apply Qle_shift_div_l|apply Qle_shift_div_r]; lra. }
  assert (Hq : (a / ((1 # 2) * inject_Z w) == offset_ratio lo hi x)%Q).
  { unfold offset_ratio. fold u w. rewrite Hau. field. lra. }
  destruct (of_div _ _ _ _ Ha (radius_value lo hi Hlo Hhi)) as (q & Hv & Hn & _).
  { fold w. lra. }
  { fold w. unfold fits. rewrite Hq. split; lra. }
  exists q. split; [exact Hv|]. fold w in Hn. split; [|done]. unfold near in *. by rewrite <- Hq.
Qed.

(** What [x * x] gives for an [x] that is nearly [u]. *)
Lemma square_value x u q : value x q -> near epsilon u q -> (-8589934592 <= u <= 8589934592)%Q ->
  exists p, value (fmul x x) p /\ (0 <= p)%Q /\ near (6 * epsilon) (u * u) p /\ (p <= 100000000000000000000)%Q.
Proof.
  intros Hx Hn [Hu1 Hu2]. pose proof (near_square _ _ Hn) as HS. pose proof (square_nonneg u) as Hu.
  assert (HB : (u * u <= 73786976294838206464)%Q).
  { assert (0 <= (8589934592 - u) * (8589934592 + u))%Q by (apply Qmult_le_0_compat; lra). lra. }
  pose proof (square_nonneg q) as Hq. pose proof HS as HS'. apply near_nonneg in HS' as [_ HS']; [|done].
  unfold epsilon in HS'. destruct (of_mul _ _ _ _ Hx Hx) as (p & Hp & Np & Zp & _); [split; lra|].
  exists p. split; [exact Hp|]. split; [by apply Zp|]. split.
  - eapply near_weaken; [|apply (near_trans _ (q * q) _ (4 * epsilon) epsilon Hu Hq); [| |exact HS|exact Np]]; unfold epsilon; [lra|split; lra|lra].
  - apply near_nonneg in Np as [_ Np]; [|done]. unfold epsilon in Np. lra.
Qed.

(** The computed distance, squared, against the exact one. *)
Lemma distance_value face x y : face_fits face -> position_fits x y ->
  exists r, value (distance (ellipse_of face) x y) r /\ (0 <= r)%Q /\
    near (18 * epsilon) (squared_distance face x y) (r * r).
Proof.
  intros [[HX1 HX2] [HY1 HY2]] [Hx Hy]. unfold distance, ellipse_of, width, height. cbn [centerX centerY radiusX radiusY].
  destruct (ratio_value (MinX face) (MaxX face) x HX1 HX2 Hx) as (q & Hq & Nq & Bq1 & Bq2).
  destruct (ratio_value (MinY face) (MaxY face) y HY1 HY2 Hy) as (q' & Hq' & Nq' & Bq1' & Bq2').
  change (squared_distance face x y) with
    (offset_ratio (MinX face) (MaxX face) x * offset_ratio (MinX face) (MaxX face) x +
     offset_ratio (MinY face) (MaxY face) y * offset_ratio (MinY face) (MaxY face) y)%Q.
  set (u := offset_ratio (MinX face) (MaxX face) x) in *. set (v := offset_ratio (MinY face) (MaxY face) y) in *.
  destruct (square_value _ _ _ Hq Nq (conj Bq1 Bq2)) as (p & Hp & Hp0 & Np & Bp).
  destruct (square_value _ _ _ Hq' Nq' (conj Bq1' Bq2')) as (p' & Hp' & Hp0' & Np' & Bp').
  assert (Hu : (0 <= u * u)%Q) by apply square_nonneg. assert (Hv : (0 <= v * v)%Q) by apply square_nonneg.
  destruct (of_add _ _ _ _ Hp Hp') as (t & Ht & Nt & Zt & _); [split; lra|].
  assert (Ht0 : (0 <= t)%Q) by (apply Zt; lra).
  assert (NT : near (14 * epsilon) (u * u + v * v) t).
  { eapply near_weaken; [|apply (near_trans _ (p + p') _ (2 * (6 * epsilon)) epsilon); [lra|lra|..|exact Nt]].
    all: try (unfold epsilon; try split; lra). apply near_add; [done..| |exact Np|exact Np']. unfold epsilon. lra. }
  assert (BT : (t <= 400000000000000000000)%Q).
  { apply near_nonneg in Nt as [_ Nt]; [|lra]. unfold epsilon in Nt. lra. }
  destruct (of_sqrt _ _ Ht Ht0) as (r & Hr & Hr0 & Nr); [split; lra|]. exists r. split; [exact Hr|]. split; [done|].
  eapply near_weaken; [|apply (near_trans _ t _ (14 * epsilon) (2 * epsilon)); [lra|done|..|exact NT|exact Nr]].
  all: unfold epsilon; try split; lra.
Qed.

(** The two constants, and what a distance below one or above the other tells. *)
Lemma lit_near n d : 0 <= n <= 1000 -> 0 < d <= 1000 ->
  exists r, value (lit n d) r /\ near epsilon (inject_Z n / inject_Z d) r.
Proof. intros Hn Hd. destruct (of_lit n d Hn Hd) as (r & Hr & HN & _). by exists r. Qed.

Lemma faceMaskSolid_value : exists s, value faceMaskSolid s /\ (799999 # 1000000 <= s <= 800001 # 1000000)%Q.
Proof.
  destruct (lit_near 8 10 ltac:(lia) ltac:(lia)) as (s & Hs & HN). exists s. split; [exact Hs|].
  destruct (proj1 (near_nonneg epsilon (8 # 10) s ltac:(done)) HN). unfold epsilon in *. split; lra.
Qed.

Lemma faceMaskFade_value : exists s, value faceMaskFade s /\ (1299999 # 1000000 <= s <= 1300001 # 1000000)%Q.
Proof.
  destruct (lit_near 13 10 ltac:(lia) ltac:(lia)) as (s & Hs & HN). exists s. split; [exact Hs|].
  destruct (proj1 (near_nonneg epsilon (13 # 10) s ltac:(done)) HN). unfold epsilon in *. split; lra.
Qed.

Lemma squared_distance_nonneg face x y : (0 <= squared_distance face x y)%Q.
Proof. unfold squared_distance. cbn zeta. apply (Qplus_le_compat 0 _ 0); apply square_nonneg. Qed.

Lemma solid_distance face x y : face_fits face -> position_fits x y -> solid face x y ->
  fle (distance (ellipse_of face) x y) faceMaskSolid = true /\ fle faceMaskFade (distance (ellipse_of face) x y) = false.
Proof.
  intros HF HP [_ HS]. destruct (distance_value face x y HF HP) as (r & Hr & Hr0 & HN).
  pose proof (squared_distance_nonneg face x y) as HT. apply near_nonneg in HN as [_ HN]; [|done].
  destruct faceMaskSolid_value as (s & Hs & Hs1 & _). destruct faceMaskFade_value as (f & Hf & Hf1 & _).
  unfold epsilon in HN. split.
  - apply (fle_of _ _ _ _ Hr Hs). destruct (Qlt_le_dec s r) as [Hlt|]; [|done]. exfalso. nra.
  - apply not_true_iff_false. rewrite (fle_of _ _ _ _ Hf Hr). intros Hle. nra.
Qed.

Lemma beyond_distance face x y : face_fits face -> position_fits x y -> (16901 # 10000 <= squared_distance face x y)%Q ->
  fle faceMaskFade (distance (ellipse_of face) x y) = true.
Proof.
  intros HF HP HS. destruct (distance_value face x y HF HP) as (r & Hr & Hr0 & HN).
  apply near_nonneg in HN as [HN _]; [|lra]. destruct faceMaskFade_value as (f & Hf & _ & Hf2).
  unfold epsilon in HN. apply (fle_of _ _ _ _ Hf Hr). destruct (Qlt_le_dec r f) as [Hlt|]; [|done]. exfalso.
  assert (0 <= (f - r) * (f + r))%Q by (apply Qmult_le_0_compat; lra).
  assert (0 <= ((1300001 # 1000000) - f) * ((1300001 # 1000000) + f))%Q by (apply Qmult_le_0_compat; lra). lra.
Qed.

(** ** Where the mask is drawn *)

(** A solid position is inside the face. *)
Lemma solid_ratio face x y : solid face x y ->
  let u := 2 * x - twice_center (MinX face) (MaxX face) in
  let v := 2 * y - twice_center (MinY face) (MaxY face) in
  5 * Z.abs u <= 4 * twice_radius (MinX face) (MaxX face) /\ 5 * Z.abs v <= 4 * twice_radius (MinY face) (MaxY face).
Proof.
  intros [_ HS] u v.
  change (squared_distance face x y) with
    (offset_ratio (MinX face) (MaxX face) x * offset_ratio (MinX face) (MaxX face) x +
     offset_ratio (MinY face) (MaxY face) y * offset_ratio (MinY face) (MaxY face) y)%Q in HS.
  assert (HK : forall lo hi z, (offset_ratio lo hi z * offset_ratio lo hi z <= 64 # 100)%Q ->
    5 * Z.abs (2 * z - twice_center lo hi) <= 4 * twice_radius lo hi).
  { clear. intros lo hi z. set (t := 2 * z - twice_center lo hi). set (w := twice_radius lo hi).
    change (offset_ratio lo hi z) with (inject_Z t / inject_Z w)%Q. intros HQ.
    destruct (Z.le_gt_cases (5 * Z.abs t) (4 * w)) as [|Hlt]; [done|exfalso].
    destruct (inject_bounds 2 w w) as [Hw _]; [unfold w, twice_radius; lia|].
    assert (Hq : (inject_Z t / inject_Z w * inject_Z w == inject_Z t)%Q) by (field; lra).
    set (q := (inject_Z t / inject_Z w)%Q) in *.
    assert (Hw0 : 0 <= w) by (unfold w, twice_radius; lia).
    assert (HZ : 16 * (w * w) < 25 * (t * t)).
    { rewrite <- (Z.abs_square t). generalize dependent (Z.abs t). intros a Hlt. clear -Hlt Hw0. nia. }
    rewrite Zlt_Qlt, !inject_Z_mult in HZ. rewrite <- Hq in HZ.
    change (inject_Z 16) with 16%Q in HZ. change (inject_Z 25) with 25%Q in HZ.
    pose proof (square_nonneg (inject_Z w)).
    assert (0 <= ((64 # 100) - q * q) * (inject_Z w * inject_Z w))%Q by (apply Qmult_le_0_compat; lra). lra. }
  pose proof (square_nonneg (offset_ratio (MinX face) (MaxX face) x)).
  pose proof (square_nonneg (offset_ratio (MinY face) (MaxY face) y)).
  split; apply HK; lra.
Qed.

Lemma solid_In face x y : face_fits face -> solid face x y -> In x y face = true.
Proof.
  intros [[HX _] [HY _]] HS. destruct (solid_ratio _ _ _ HS) as [HU HV]. unfold twice_center, twice_radius in *.
  unfold In. lia.
Qed.

Lemma to_int_whole x z : value x (inject_Z z) -> - 2 ^ 61 <= z <= 2 ^ 61 -> to_int x = z.
Proof.
  intros Hx Hz. assert (HT : truncate (inject_Z z) = z) by apply Z.quot_1_r.
  rewrite (to_int_of _ _ Hx); [done|]. rewrite HT. lia.
Qed.

Lemma floor_int x p : value x p -> (-1000000000000 <= p <= 1000000000000)%Q -> to_int (Floor x) = Qfloor p.
Proof.
  intros Hx [H1 H2]. apply to_int_whole; [apply of_floor; [exact Hx|split; lra]|].
  pose proof (Qfloor_le p). pose proof (Qlt_floor p) as HL. rewrite inject_Z_plus in HL. change (inject_Z 1) with 1%Q in HL.
  assert (-1000000000001 < Qfloor p <= 1000000000000); [|lia].
  rewrite Zlt_Qlt, Zle_Qle. change (inject_Z (-1000000000001)) with (-1000000000001)%Q.
  change (inject_Z 1000000000000) with 1000000000000%Q. split; lra.
Qed.

Lemma ceil_int x p : value x p -> (-1000000000000 <= p <= 1000000000000)%Q -> to_int (Ceil x) = Qceiling p.
Proof.
  intros Hx [H1 H2]. apply to_int_whole; [apply of_ceil; [exact Hx|split; lra]|].
  pose proof (Qle_ceiling p). pose proof (Qceiling_lt p) as HL. unfold Z.sub in HL. rewrite inject_Z_plus in HL.
  change (inject_Z (- (1))) with (-1)%Q in HL.
  assert (-1000000000000 <= Qceiling p < 1000000000001); [|lia].
  rewrite Zlt_Qlt, Zle_Qle. change (inject_Z 1000000000001) with 1000000000001%Q.
  change (inject_Z (-1000000000000)) with (-1000000000000)%Q. split; lra.
Qed.

(** The area the loops run over, in one coordinate. *)
Lemma area_bounds lo hi x : 0 <= lo < hi -> hi <= 2 ^ 31 ->
  5 * Z.abs (2 * x - twice_center lo hi) <= 4 * twice_radius lo hi -> 
  let c := fdiv (float64 (lo + hi - 1)) (lit 2 1) in
  let r := fmax (lit 1 1) (fdiv (float64 (hi - lo)) (lit 2 1)) in
  to_int (Floor (fsub c (fmul r faceMaskFade))) <= x < to_int (Ceil (fadd c (fmul r faceMaskFade))) + 1.
Proof.
  intros Hlo Hhi HU c r. pose proof (center_value lo hi Hlo Hhi) as Hc. pose proof (radius_value lo hi Hlo Hhi) as Hr.
  fold c in Hc. fold r in Hr. destruct faceMaskFade_value as (f & Hf & Hf1 & Hf2).
  set (w := twice_radius lo hi) in *. set (m := twice_center lo hi) in *.
  destruct (inject_bounds 2 w 2147483648) as [Hw1 Hw2]; [unfold w, twice_radius; lia|].
  destruct (inject_bounds 0 m 4294967296) as [Hm1 Hm2]; [unfold m, twice_center; lia|].
  assert (HX : (5 * (2 * inject_Z x - inject_Z m) <= 4 * inject_Z w /\ - (4 * inject_Z w) <= 5 * (2 * inject_Z x - inject_Z m))%Q).
  { assert (H1 : 5 * (2 * x - m) <= 4 * w) by lia. assert (H2 : - (4 * w) <= 5 * (2 * x - m)) by lia.
    unfold Z.sub in H1, H2. rewrite Zle_Qle in H1, H2.
    rewrite ?inject_Z_mult, ?inject_Z_plus, ?inject_Z_opp, ?inject_Z_mult in H1.
    rewrite ?inject_Z_opp, ?inject_Z_mult, ?inject_Z_plus, ?inject_Z_opp, ?inject_Z_mult in H2.
    change (inject_Z 5) with 5%Q in *. change (inject_Z 4) with 4%Q in *. change (inject_Z 2) with 2%Q in *.
    split; lra. }
  assert (HP : ((649 # 1000) * inject_Z w <= (1 # 2) * inject_Z w * f <= (651 # 1000) * inject_Z w)%Q) by (split; nra).
  destruct HP as [HP1 HP2]. destruct (of_mul _ _ _ _ Hr Hf) as (p & Hp & Np & _); [split; lra|].
  destruct (near_bound epsilon 4294967296 _ _ Np) as [Np1 Np2]; [done|split; lra|]. unfold epsilon in Np1, Np2.
  destruct (of_sub _ _ _ _ Hc Hp) as (a & Ha & Na & _); [split; lra|].
  destruct (near_bound epsilon 8589934592 _ _ Na) as [Na1 Na2]; [done|split; lra|]. unfold epsilon in Na1, Na2.
  destruct (of_add _ _ _ _ Hc Hp) as (b & Hb & Nb & _); [split; lra|].
  destruct (near_bound epsilon 8589934592 _ _ Nb) as [Nb1 Nb2]; [done|split; lra|]. unfold epsilon in Nb1, Nb2.
  rewrite (floor_int _ _ Ha), (ceil_int _ _ Hb) by (split; lra).
  pose proof (Qfloor_le a). pose proof (Qle_ceiling b).
  assert (Qfloor a <= x /\ x <= Qceiling b); [|lia]. rewrite !Zle_Qle. split; lra.
Qed.


Lemma In_Intersect x y r s : In x y r = true -> In x y s = true -> In x y (Intersect r s) = true.
Proof.
  unfold In, Intersect, Empty. intros Hr Hs. cbn [MinX MinY MaxX MaxY].
  destruct (_ || _) eqn:E; cbn [MinX MinY MaxX MaxY]; lia.
Qed.

Lemma In_Rect x y x0 y0 x1 y1 : x0 <= x < x1 -> y0 <= y < y1 -> In x y (Rect x0 y0 x1 y1) = true.
Proof. intros. unfold In, Rect. cbn. lia. Qed.

Lemma In_offset x y img ox oy : 0 <= x - ox < Z.of_nat (Dx img) -> 0 <= y - oy < Z.of_nat (Dy img) ->
  In x y (offset (Bounds img) ox oy) = true.
Proof. intros. unfold In, offset, Bounds. cbn [MinX MinY MaxX MaxY]. lia. Qed.

(** A solid position is in the area, if it is in the pictures. *)
Lemma solid_soft_area face x y dst blurred ox oy : face_fits face -> solid face x y ->
  In x y (Bounds dst) = true -> In x y (offset (Bounds blurred) ox oy) = true ->
  In x y (soft_area dst blurred ox oy (ellipse_of face)) = true.
Proof.
  intros [[HX1 HX2] [HY1 HY2]] HS Hd Hb. destruct (solid_ratio _ _ _ HS) as [HU HV].
  unfold soft_area. repeat apply In_Intersect; [|done..].
  apply In_Rect; unfold ellipse_of, width, height; cbn [centerX centerY radiusX radiusY]; by apply area_bounds.
Qed.

(** The region the blur is taken from contains the face. *)
Lemma band_nonneg n : 0 <= n <= 2 ^ 31 -> 0 <= to_int (fmul (fdiv (float64 n) (lit 2 1)) (lit 3 10)).
Proof.
  intros Hn. destruct (inject_bounds 0 n 2147483648) as [Hn1 Hn2]; [lia|].
  destruct (of_lit 3 10 ltac:(lia) ltac:(lia)) as (f & Hf & Nf & _).
  destruct (proj1 (near_nonneg epsilon (3 # 10) f ltac:(done)) Nf) as [Hf1 Hf2]. unfold epsilon in Hf1, Hf2.
  destruct (of_mul _ _ _ _ (half_of n ltac:(lia)) Hf) as (p & Hp & Np & Zp & _); [split; nra|].
  specialize (Zp ltac:(nra)). assert (HB : ((1 # 2) * inject_Z n * f <= 1000000000000)%Q) by nra.
  apply near_nonneg in Np as [_ Np]; [|nra]. unfold epsilon in Np.
  destruct p as [num den]. unfold Qle in Zp. cbn in Zp.
  assert (HT : 0 <= truncate (num # den) <= 2000000000000).
  { unfold truncate. cbn. split; [apply Z.quot_pos; lia|].
    assert (HL : (num # den <= 2000000000000)%Q) by lra. unfold Qle in HL. cbn in HL.
    apply Z.quot_le_upper_bound; lia. }
  rewrite (to_int_of _ _ Hp); lia.
Qed.

Lemma face_in_work src radius face x y : face_fits face -> 0 <= radius ->
  In x y face = true -> In x y (Bounds src) = true -> In x y (face_work src radius face) = true.
Proof.
  intros [[HX1 HX2] [HY1 HY2]] Hr HI HB. unfold face_work.
  pose proof (band_nonneg (width face) ltac:(unfold width; lia)) as H1.
  pose proof (band_nonneg (height face) ltac:(unfold height; lia)) as H2.
  unfold width, height in *. apply In_Intersect; [|done]. unfold In in HI. apply In_Rect; lia.
Qed.

(** ** What is laid over a pixel *)

Definition weight_ok (w : Q) : Prop := (- (1 # 1000000) <= w <= 1 + (1 # 1000000))%Q.

Ltac near_b HN b := destruct (near_bound epsilon b _ _ (proj1 HN)) as [? ?]; [done|split; lra|unfold epsilon in *].

(** [t^2 (3 - 2 t)] is between none and one. *)
Lemma cubic_bounds (t q m : Q) : (- (1 # 100000) <= t <= 1 + (1 # 100000))%Q ->
  (- (1 # 100000000) <= q - t * t <= 1 # 100000000)%Q -> (- (1 # 100000000) <= m - (3 - 2 * t) <= 1 # 100000000)%Q ->
  (- (1 # 10000000) <= q * m <= 1 + (1 # 10000000))%Q.
Proof.
  intros [Ht1 Ht2] [Hq1 Hq2] [Hm1 Hm2]. set (a := (q - t * t)%Q) in *. set (b := (m - (3 - 2 * t))%Q) in *.
  assert (HE : (q * m == t * t * (3 - 2 * t) + t * t * b + a * m)%Q) by (unfold a, b; ring).
  pose proof (square_nonneg t) as Htt. assert (Htt2 : (t * t <= 1 + (1 # 1000))%Q) by nra.
  assert (H1 : (0 <= t * t * (3 - 2 * t) <= 1)%Q).
  { split; [apply Qmult_le_0_compat; lra|].
    assert (0 <= (1 - t) * (1 - t) * (1 + 2 * t))%Q by (apply Qmult_le_0_compat; [apply square_nonneg|lra]). lra. }
  assert (H2 : (- (1 # 50000000) <= t * t * b <= 1 # 50000000)%Q) by (split; nra).
  assert (H3 : (- (1 # 25000000) <= a * m <= 1 # 25000000)%Q).
  { assert (0 <= m <= 4)%Q as [Hm Hm'] by (unfold b in *; split; lra).
    assert (0 <= m * ((1 # 100000000) - a))%Q by (apply Qmult_le_0_compat; lra).
    assert (0 <= m * (a + (1 # 100000000)))%Q by (apply Qmult_le_0_compat; lra). split; lra. }
  destruct H1, H2, H3. split; lra.
Qed.

Lemma share_bounds (q a : Q) : (0 <= q <= 255)%Q -> (- (1 # 100000) <= a <= 1 + (1 # 100000))%Q -> (- 1 <= q * a <= 256)%Q.
Proof.
  intros [Hq1 Hq2] [Ha1 Ha2]. assert (0 <= q * (a + (1 # 100000)))%Q by (apply Qmult_le_0_compat; lra).
  assert (0 <= q * (1 + (1 # 100000) - a))%Q by (apply Qmult_le_0_compat; lra). split; lra.
Qed.

(** A mixture of two numbers is between them. *)
Lemma convex_bounds (lo hi u o a v : Q) : (lo <= u <= hi)%Q -> (lo <= o <= hi)%Q -> (0 <= lo)%Q -> (hi <= 255)%Q ->
  (- (1 # 1000000) <= v <= 1 + (1 # 1000000))%Q -> (- (1 # 1000000) <= a - (1 - v) <= 1 # 1000000)%Q ->
  (lo - (1 # 1000) <= u * a + o * v <= hi + (1 # 1000))%Q.
Proof.
  intros [Hu1 Hu2] [Ho1 Ho2] H0 H255 [Hv1 Hv2] [Ha1 Ha2]. set (e := (a - (1 - v))%Q) in *.
  assert (HE : (u * a + o * v == u + (o - u) * v + u * e)%Q) by (unfold e; ring).
  assert (0 <= u * ((1 # 1000000) - e))%Q by (apply Qmult_le_0_compat; lra).
  assert (0 <= u * (e + (1 # 1000000)))%Q by (apply Qmult_le_0_compat; lra).
  destruct (Qlt_le_dec o u).
  - assert (0 <= (u - o) * (v + (1 # 1000000)))%Q by (apply Qmult_le_0_compat; lra).
    assert (0 <= (u - o) * (1 + (1 # 1000000) - v))%Q by (apply Qmult_le_0_compat; lra). split; lra.
  - assert (0 <= (o - u) * (v + (1 # 1000000)))%Q by (apply Qmult_le_0_compat; lra).
    assert (0 <= (o - u) * (1 + (1 # 1000000) - v))%Q by (apply Qmult_le_0_compat; lra). split; lra.
Qed.

Lemma weight_value d r : value d r -> (0 <= r)%Q -> fle d faceMaskSolid = false -> fle faceMaskFade d = false ->
  exists w, value (faceMaskWeight d) w /\ weight_ok w.
Proof.
  intros Hd Hr H1 H2. unfold faceMaskWeight. rewrite H1, H2.
  destruct faceMaskSolid_value as (s & Hs & Hs1 & Hs2). destruct faceMaskFade_value as (f & Hf & Hf1 & Hf2).
  assert (HL : (s < r)%Q).
  { destruct (Qlt_le_dec s r) as [|Hle]; [done|]. by rewrite (proj2 (fle_of _ _ _ _ Hd Hs) Hle) in H1. }
  assert (HU : (r < f)%Q).
  { destruct (Qlt_le_dec r f) as [|Hle]; [done|]. by rewrite (proj2 (fle_of _ _ _ _ Hf Hd) Hle) in H2. }
  destruct (of_sub _ _ _ _ Hf Hd) as (a & Ha & Na); [split; lra|]. near_b Na 1%Q.
  destruct (of_lit 1 2 ltac:(lia) ltac:(lia)) as (h & Hh & _ & _ & Eh). specialize (Eh 1 ltac:(lia) ltac:(reflexivity)).
  change (inject_Z 1 / inject_Z 2)%Q with (1 # 2)%Q in Eh.
  assert (Ea : (a / h == 2 * a)%Q) by (rewrite Eh; field).
  destruct (of_div _ _ _ _ Ha Hh) as (t & Ht & Nt); [lra|split; lra|]. near_b Nt 2%Q.
  assert (Ht1 : (- (1 # 100000) <= t <= 1 + (1 # 100000))%Q) by (split; lra). destruct Ht1 as [Ht1 Ht2].
  assert (Htt : (0 <= t * t <= 1 + (3 # 100000))%Q) by (split; [apply square_nonneg|nra]). destruct Htt as [Htt1 Htt2].
  destruct (of_mul _ _ _ _ Ht Ht) as (q & Hq & Nq); [split; lra|]. near_b Nq 2%Q.
  destruct (of_mul _ _ _ _ (lit_int 2 ltac:(lia)) Ht) as (k & Hk & Nk); [change (inject_Z 2) with 2%Q; split; lra|].
  change (inject_Z 2) with 2%Q in Nk. near_b Nk 3%Q.
  destruct (of_sub _ _ _ _ (lit_int 3 ltac:(lia)) Hk) as (m & Hm & Nm); [change (inject_Z 3) with 3%Q; split; lra|].
  change (inject_Z 3) with 3%Q in Nm. near_b Nm 4%Q.
  assert (HP : (- (1 # 10000000) <= q * m <= 1 + (1 # 10000000))%Q).
  { assert (Hd1 : (- (1 # 100000000) <= q - t * t <= 1 # 100000000)%Q) by (split; lra).
    assert (Hd2 : (- (1 # 100000000) <= m - (3 - 2 * t) <= 1 # 100000000)%Q) by (split; lra).
    clear - Ht1 Ht2 Htt1 Htt2 Hd1 Hd2. apply (cubic_bounds t); [split; lra|done..]. }
  destruct HP as [HP1 HP2]. destruct (of_mul _ _ _ _ Hq Hm) as (w & Hw & Nw); [split; lra|]. near_b Nw 2%Q.
  exists w. split; [exact Hw|]. split; lra.
Qed.

(** Half a unit is never reached by what rounding adds. *)
Lemma blendChannel_between u o w v : channel u -> channel o -> value w v -> weight_ok v ->
  Z.min u o <= blendChannel u o w <= Z.max u o.
Proof.
  intros Hu Ho Hw [Hv1 Hv2]. unfold channel in *. unfold blendChannel.
  destruct (inject_bounds 0 u 255) as [Hu1 Hu2]; [lia|]. destruct (inject_bounds 0 o 255) as [Ho1 Ho2]; [lia|].
  set (lo := inject_Z (Z.min u o)). set (hi := inject_Z (Z.max u o)).
  assert (HLH : (lo <= inject_Z u <= hi /\ lo <= inject_Z o <= hi)%Q) by (unfold lo, hi; rewrite <- !Zle_Qle; lia).
  assert (HB : (0 <= lo /\ hi <= 255)%Q).
  { unfold lo, hi. change 0%Q with (inject_Z 0). change 255%Q with (inject_Z 255). rewrite <- !Zle_Qle. lia. }
  destruct HLH as [[] []], HB. set (qu := inject_Z u) in *. set (qo := inject_Z o) in *.
  destruct (of_sub _ _ _ _ (lit_int 1 ltac:(lia)) Hw) as (a & Ha & Na); [change (inject_Z 1) with 1%Q; split; lra|].
  change (inject_Z 1) with 1%Q in Na. near_b Na 2%Q.
  destruct (share_bounds qu a) as [? ?]; [lra..|]. destruct (share_bounds qo v) as [? ?]; [lra..|].
  assert (Hqu : value (float64 u) qu) by (apply of_int; lia). assert (Hqo : value (float64 o) qo) by (apply of_int; lia).
  destruct (of_mul _ _ _ _ Hqu Ha) as (b & Hb & Nb); [split; lra|]. near_b Nb 256%Q.
  destruct (of_mul _ _ _ _ Hqo Hw) as (d & Hd & Nd); [split; lra|]. near_b Nd 256%Q.
  destruct (of_add _ _ _ _ Hb Hd) as (x & Hx & Nx); [split; lra|]. near_b Nx 600%Q.
  assert (HX : (lo - (1 # 500) <= x <= hi + (1 # 500))%Q).
  { assert (Hc : (lo - (1 # 1000) <= qu * a + qo * v <= hi + (1 # 1000))%Q); [|destruct Hc; split; lra].
    apply convex_bounds; try split; lra. }
  destruct HX as [HX1 HX2].
  pose proof (of_max _ _ _ _ (lit_int 0 ltac:(lia)) (of_min _ _ _ _ (lit_int 255 ltac:(lia)) Hx)) as HC.
  change (inject_Z 0) with 0%Q in HC. change (inject_Z 255) with 255%Q in HC.
  set (y := (if Qle_bool 255 x then 255 else x)%Q) in HC. set (z := (if Qle_bool 0 y then y else 0)%Q) in HC.
  assert (HZ : (lo - (1 # 500) <= z <= hi + (1 # 500))%Q).
  { unfold z, y. clear - HX1 HX2 H0 H1 H4 H5. destruct (Qle_bool 255 x) eqn:E1.
    - apply Qle_bool_iff in E1. change (Qle_bool 0 255) with true. cbv iota. split; lra.
    - destruct (Qle_bool 0 x) eqn:E2; [by split|].
      assert (~ (0 <= x)%Q) by (rewrite <- Qle_bool_iff; by rewrite E2). split; lra. }
  destruct HZ as [HZ1 HZ2]. destruct (of_round _ _ HC) as (n & Hn & Hn1 & Hn2); [split; lra|].
  assert (HN : Z.min u o - 1 < n < Z.max u o + 1).
  { rewrite !Zlt_Qlt. unfold Z.sub. rewrite !inject_Z_plus. change (inject_Z (- (1))) with (-1)%Q.
    change (inject_Z 1) with 1%Q. fold lo hi. split; lra. }
  rewrite (to_int_whole _ _ Hn) by lia. unfold uint8. rewrite Z.mod_small by lia. lia.
Qed.


End ellipse.

(** ** One face *)

Section faces.
Context `{HFl : Float64Laws}.

Lemma channel_ok c p : c ∈ channels -> pixel_ok p -> channel (c p).
Proof.
  intros Hc (H1 & H2 & H3 & H4). unfold channels in Hc. rewrite !elem_of_cons, elem_of_nil in Hc.
  by destruct Hc as [-> | [-> | [-> | [-> | []]]]].
Qed.

Lemma soft_pixel_ok e x y under over : pixel_ok under -> pixel_ok over -> pixel_ok (soft_pixel e x y under over).
Proof.
  intros Hu Ho. unfold soft_pixel. destruct (fle _ _); [done|]. destruct (fle _ _); [done|].
  split_and!; apply uint8_ok.
Qed.

Lemma Intersect_inside rect img :
  width (Intersect rect (Bounds img)) <= Z.of_nat (Dx img) /\
  height (Intersect rect (Bounds img)) <= Z.of_nat (Dy img).
Proof. unfold Intersect, width, height. destruct (Empty _); cbn [MinX MinY MaxX MaxY Bounds]; lia. Qed.

Lemma blur_ok img radius : wf_image img -> Z.of_nat (Dx img) <= side_limit ->
  Z.of_nat (Dy img) <= side_limit -> wf_image (blurNRGBA img radius).
Proof.
  intros HW HX HY. unfold blurNRGBA. destruct (Z.leb_spec radius 0) as [|Hr]; [done|].
  by apply (blur_rounds img radius).
Qed.

Lemma copy_region_ok src work : wf_image src ->
  wf_image (copy_region src work) /\ Dx (copy_region src work) = Z.to_nat (width work) /\
  Dy (copy_region src work) = Z.to_nat (height work).
Proof. intros HW. apply draw_ok. intros. by apply recode_ok, NRGBAAt_ok. Qed.

(** The region around a face, and its blur. *)
Lemma region_ok src dst radius face : wf_image dst -> Z.of_nat (Dx src) <= 2 ^ 31 -> Z.of_nat (Dy src) <= 2 ^ 31 ->
  let region := copy_region dst (face_work src radius face) in
  wf_image region /\ Z.of_nat (Dx region) <= side_limit /\ Z.of_nat (Dy region) <= side_limit.
Proof.
  intros HW HX HY region. destruct (copy_region_ok dst (face_work src radius face) HW) as (H1 & H2 & H3).
  assert (Hs : width (face_work src radius face) <= Z.of_nat (Dx src) /\ height (face_work src radius face) <= Z.of_nat (Dy src))
    by apply Intersect_inside.
  unfold region, side_limit. rewrite H2, H3. split_and!; [done|lia|lia].
Qed.

Lemma blur_face_ok src minimumRadius dst face : wf_image dst ->
  Z.of_nat (Dx src) <= 2 ^ 31 -> Z.of_nat (Dy src) <= 2 ^ 31 ->
  let out := blur_face src minimumRadius dst face in
  wf_image out /\ Dx out = Dx dst /\ Dy out = Dy dst.
Proof.
  intros HW HX HY out. unfold out, blur_face. cbn zeta. set (f := Intersect face (Bounds src)).
  destruct (Empty f); [done|]. unfold applySoftEllipse. apply draw_ok. intros x y Hx Hy.
  destruct (In _ _ _); [|by apply NRGBAAt_ok]. apply soft_pixel_ok; [by apply NRGBAAt_ok|].
  apply NRGBAAt_ok, blur_ok; by apply region_ok.
Qed.

Lemma face_fits_Intersect src face : Z.of_nat (Dx src) <= 2 ^ 31 -> Z.of_nat (Dy src) <= 2 ^ 31 ->
  Empty (Intersect face (Bounds src)) = false -> face_fits (Intersect face (Bounds src)).
Proof.
  intros HX HY. unfold Intersect. destruct (Empty (mkRect _ _ _ _)) eqn:E; [done|]. intros _.
  unfold Empty in E. unfold face_fits. cbn [MinX MinY MaxX MaxY Bounds] in *. lia.
Qed.

Lemma soft_pixel_between face x y under over c lo hi : face_fits face -> position_fits x y ->
  c ∈ channels -> pixel_ok under -> pixel_ok over -> lo <= c under <= hi -> lo <= c over <= hi ->
  lo <= c (soft_pixel (ellipse_of face) x y under over) <= hi.
Proof.
  intros HF HP Hc Hu Ho Hlu Hlo. unfold soft_pixel. destruct (distance_value face x y HF HP) as (r & Hr & Hr0 & _).
  destruct (fle faceMaskFade _) eqn:E1; [done|]. destruct (fle (lit 1 1) _) eqn:E2; [done|].
  assert (E3 : fle (distance (ellipse_of face) x y) faceMaskSolid = false).
  { apply not_true_iff_false. intros E3. apply not_true_iff_false in E2. apply E2. unfold faceMaskWeight. rewrite E3.
    by apply (fle_of _ _ _ _ (lit_int 1 ltac:(lia)) (lit_int 1 ltac:(lia))). }
  destruct (weight_value _ _ Hr Hr0 E3 E1) as (w & Hw & Hv).
  assert (HK : forall g, g ∈ channels -> lo <= g under <= hi -> lo <= g over <= hi ->
    lo <= blendChannel (g under) (g over) (faceMaskWeight (distance (ellipse_of face) x y)) <= hi).
  { intros g Hg H1 H2. pose proof (blendChannel_between _ _ _ _ (channel_ok g _ Hg Hu) (channel_ok g _ Hg Ho) Hw Hv). lia. }
  pose proof (HK c Hc Hlu Hlo) as HC. unfold channels in Hc. rewrite !elem_of_cons, elem_of_nil in Hc.
  by destruct Hc as [-> | [-> | [-> | [-> | []]]]].
Qed.

Lemma beyond_dec face x y : beyond face x y \/ ~ beyond face x y.
Proof.
  unfold beyond. destruct (Empty face); [by left; left|].
  destruct (Qlt_le_dec (squared_distance face x y) (16901 # 10000)) as [Hlt|]; [right|by left; right].
  intros [|Hle]; [done|]. lra.
Qed.

(** What one mask does to one pixel. *)
Section at_position.
Context (src dst : Image) (minimumRadius : Z) (face : Rectangle) (x y : nat).
Context (HW : wf_image dst) (HX : Z.of_nat (Dx src) <= 2 ^ 31) (HY : Z.of_nat (Dy src) <= 2 ^ 31).
Context (HDx : Dx dst = Dx src) (HDy : Dy dst = Dy src) (Hr : 0 < minimumRadius).
Context (Hx : (x < Dx src)%nat) (Hy : (y < Dy src)%nat).
Notation X := (Z.of_nat x).
Notation Y := (Z.of_nat y).
Notation f := (Intersect face (Bounds src)).
Notation radius := (face_radius minimumRadius f).
Notation work := (face_work src radius f).

Lemma position_ok : position_fits X Y.
Proof. unfold position_fits. lia. Qed.

Lemma radius_positive : minimumRadius <= radius.
Proof. unfold face_radius. lia. Qed.

Lemma covered_by : NRGBAAt (blurNRGBA (copy_region dst work) radius) (X - MinX work) (Y - MinY work) =
  cover src minimumRadius dst face X Y.
Proof.
  unfold cover. f_equal. pose proof radius_positive. unfold blurNRGBA. rewrite (proj2 (Z.leb_gt _ _)) by lia.
  apply blur_rounds; [by apply region_ok..|lia].
Qed.

Lemma blurred_size : Dx (blurNRGBA (copy_region dst work) radius) = Z.to_nat (width work) /\
  Dy (blurNRGBA (copy_region dst work) radius) = Z.to_nat (height work).
Proof.
  pose proof radius_positive. destruct (region_ok src dst radius f HW HX HY) as (H1 & H2 & H3).
  destruct (copy_region_ok dst work HW) as (_ & <- & <-). unfold blurNRGBA. rewrite (proj2 (Z.leb_gt _ _)) by lia.
  by destruct (blur_rounds (copy_region dst work) radius H1 H2 H3 ltac:(lia)) as (_ & _ & -> & ->).
Qed.

Lemma blur_face_beyond : beyond f X Y ->
  NRGBAAt (blur_face src minimumRadius dst face) X Y = NRGBAAt dst X Y.
Proof.
  intros HB. unfold blur_face. destruct (Empty f) eqn:HE; [done|]. destruct HB as [HB|HB]; [congruence|].
  unfold applySoftEllipse. rewrite NRGBAAt_draw by congruence. cbn zeta. destruct (In _ _ _); [|done].
  unfold soft_pixel. rewrite beyond_distance; [done|by apply face_fits_Intersect|by apply position_ok|done].
Qed.

Lemma blur_face_solid : solid f X Y -> In X Y work = true /\
  NRGBAAt (blur_face src minimumRadius dst face) X Y = cover src minimumRadius dst face X Y.
Proof.
  intros HS. destruct HS as [HE HS0]. assert (HS : solid f X Y) by by split.
  pose proof (face_fits_Intersect src face HX HY HE) as HF. pose proof radius_positive.
  assert (HB : In X Y (Bounds src) = true) by (unfold In, Bounds; cbn; lia).
  assert (HWk : In X Y work = true) by (apply face_in_work; [done|lia|by apply solid_In|done]).
  split; [done|]. rewrite <- covered_by. unfold blur_face. rewrite HE. unfold applySoftEllipse.
  rewrite NRGBAAt_draw by congruence. cbn zeta. destruct (solid_distance f X Y HF position_ok HS) as [H1 H2].
  rewrite solid_soft_area; [|done|done| |].
  - unfold soft_pixel. rewrite H2. unfold faceMaskWeight. rewrite H1.
    by rewrite (proj2 (fle_of _ _ _ _ (lit_int 1 ltac:(lia)) (lit_int 1 ltac:(lia))) (Qle_refl _)).
  - unfold In, Bounds in *. cbn in *. lia.
  - destruct blurred_size as [H3 H4]. apply In_offset; rewrite ?H3, ?H4; unfold In, width, height in *; lia.
Qed.

(** The pixel is no colour outside the ones it had and the ones laid over it. *)
Lemma blur_face_between c lo hi : c ∈ channels -> lo <= c (NRGBAAt dst X Y) <= hi ->
  (~ beyond f X Y -> lo <= c (cover src minimumRadius dst face X Y) <= hi) ->
  lo <= c (NRGBAAt (blur_face src minimumRadius dst face) X Y) <= hi.
Proof.
  intros Hc Hu Ho. destruct (beyond_dec f X Y) as [HB|HB]; [by rewrite blur_face_beyond|]. specialize (Ho HB).
  assert (HE : Empty f = false) by (apply not_true_iff_false; intros HE; apply HB; by left).
  unfold blur_face. rewrite HE. unfold applySoftEllipse. rewrite NRGBAAt_draw by congruence. cbn zeta.
  rewrite covered_by. destruct (In _ _ _); [|done].
  apply (soft_pixel_between f X Y); [by apply face_fits_Intersect|by apply position_ok|done|by apply NRGBAAt_ok| |done..].
  rewrite <- covered_by. by apply NRGBAAt_ok, blur_ok; apply region_ok.
Qed.

End at_position.
End faces.

(** ** Many faces *)

Section many.
Context `{HFl : Float64Laws}.
Context (src : Image) (faces : list Rectangle) (minimumRadius : Z) (x y : nat).
Context (HW : wf_image src) (HX : Z.of_nat (Dx src) <= 2 ^ 31) (HY : Z.of_nat (Dy src) <= 2 ^ 31).
Context (Hr : 0 < minimumRadius) (Hx : (x < Dx src)%nat) (Hy : (y < Dy src)%nat).
Notation picture k := (blurFaceRegions src (take k faces) minimumRadius).

Lemma picture_ok k : wf_image (picture k) /\ Dx (picture k) = Dx src /\ Dy (picture k) = Dy src.
Proof.
  generalize (take k faces). intros l. induction l as [|f l (H1 & H2 & H3)] using rev_ind; [done|].
  unfold blurFaceRegions in *. rewrite fold_left_app. cbn [fold_left].
  destruct (blur_face_ok src minimumRadius _ f H1 HX HY) as (? & ? & ?). split_and!; [done|congruence..].
Qed.

Lemma picture_S k f : faces !! k = Some f -> picture (S k) = blur_face src minimumRadius (picture k) f.
Proof. intros Hf. unfold blurFaceRegions. by rewrite (take_S_r _ _ _ Hf), fold_left_app. Qed.

(** From a picture on, a pixel stays within what it has and what later masks lay over it. *)
Lemma pixel_within c lo hi k n : c ∈ channels -> (k <= n)%nat ->
  lo <= c (NRGBAAt (picture k) (Z.of_nat x) (Z.of_nat y)) <= hi ->
  (forall j g, (k <= j)%nat -> faces !! j = Some g ->
     ~ beyond (Intersect g (Bounds src)) (Z.of_nat x) (Z.of_nat y) ->
     lo <= c (cover src minimumRadius (picture j) g (Z.of_nat x) (Z.of_nat y)) <= hi) ->
  lo <= c (NRGBAAt (picture n) (Z.of_nat x) (Z.of_nat y)) <= hi.
Proof.
  intros Hc Hk H0 HC. induction Hk as [|n Hk IH]; [done|]. destruct (faces !! n) as [f|] eqn:Hf.
  - rewrite (picture_S n f Hf). destruct (picture_ok n) as (H1 & H2 & H3).
    apply blur_face_between; [done..|]. intros HB. by apply (HC n f).
  - apply lookup_ge_None in Hf. by rewrite take_ge in * by lia.
Qed.

End many.

Lemma same_channels p q : (forall c, c ∈ channels -> c p = c q) -> p = q.
Proof.
  intros HC. destruct p, q.
  pose proof (HC R ltac:(by left)). pose proof (HC G ltac:(right; left)). pose proof (HC B ltac:(do 2 right; left)).
  pose proof (HC A ltac:(do 3 right; left)). cbn in *. congruence.
Qed.

(** * Properties *)

(** C20. A face in a photo is really hidden, and nothing but faces is.  Whatever faces
    were found, in whatever order and however they overlap, the picture keeps its size;
    a position beyond the fade of every face keeps its pixel; at a position inside the
    solid part of a face nothing is left of the pixel it had: every channel is within
    the means that this mask and those drawn after it put there, so it is this mask's
    mean where no later mask reaches, and those means are taken over regions that
    contain the position, with no less than the smallest radius; and elsewhere a pixel
    is within what it was and those means.  Where a position is, is exact geometry:
    pictures are up to 2^31 pixels a side, and a ten-thousandth of the squared radius
    is left for rounding. *)
Theorem face_masks `{HFl : Float64Laws} src faces minimumRadius x y :
  wf_image src -> Z.of_nat (Dx src) <= 2 ^ 31 -> Z.of_nat (Dy src) <= 2 ^ 31 -> 0 < minimumRadius ->
  (x < Dx src)%nat -> (y < Dy src)%nat ->
  let X := Z.of_nat x in
  let Y := Z.of_nat y in
  let inside f := Intersect f (Bounds src) in
  let out := blurFaceRegions src faces minimumRadius in
  let laid_over j g := cover src minimumRadius (blurFaceRegions src (take j faces) minimumRadius) g X Y in
  let masks_within k c lo hi := forall j g, (k <= j)%nat -> faces !! j = Some g -> ~ beyond (inside g) X Y ->
    lo <= c (laid_over j g) <= hi in
  (wf_image out /\ Dx out = Dx src /\ Dy out = Dy src) /\
  ((forall f, f ∈ faces -> beyond (inside f) X Y) -> NRGBAAt out X Y = NRGBAAt src X Y) /\
  (forall k f, faces !! k = Some f -> solid (inside f) X Y ->
     (forall c lo hi, c ∈ channels -> masks_within k c lo hi -> lo <= c (NRGBAAt out X Y) <= hi) /\
     ((forall j g, (k < j)%nat -> faces !! j = Some g -> beyond (inside g) X Y) -> NRGBAAt out X Y = laid_over k f) /\
     minimumRadius <= face_radius minimumRadius (inside f) /\
     In X Y (face_work src (face_radius minimumRadius (inside f)) (inside f)) = true) /\
  (forall c lo hi, c ∈ channels -> lo <= c (NRGBAAt src X Y) <= hi -> masks_within 0%nat c lo hi ->
     lo <= c (NRGBAAt out X Y) <= hi).
Proof.
  intros HW HX HY Hr Hx Hy X Y inside out laid_over masks_within.
  assert (HO : out = blurFaceRegions src (take (length faces) faces) minimumRadius) by (unfold out; by rewrite firstn_all).
  assert (HK : forall k c lo hi, c ∈ channels -> (k <= length faces)%nat ->
    lo <= c (NRGBAAt (blurFaceRegions src (take k faces) minimumRadius) X Y) <= hi -> masks_within k c lo hi ->
    lo <= c (NRGBAAt out X Y) <= hi).
  { intros k c lo hi Hc Hk Hb HM. rewrite HO. by apply (pixel_within src faces minimumRadius x y HW HX HY Hr Hx Hy c lo hi k). }
  assert (HS : forall k f, faces !! k = Some f -> solid (inside f) X Y -> (S k <= length faces)%nat /\
    In X Y (face_work src (face_radius minimumRadius (inside f)) (inside f)) = true /\
    NRGBAAt (blurFaceRegions src (take (S k) faces) minimumRadius) X Y = laid_over k f).
  { intros k f Hf HSo. split; [by eapply lookup_lt_Some|]. rewrite (picture_S src faces minimumRadius k f Hf).
    destruct (picture_ok src faces minimumRadius HW HX HY k) as (H1 & H2 & H3).
    by apply (blur_face_solid src _ minimumRadius f x y H1 HX HY H2 H3 Hr Hx Hy). }
  split; [rewrite HO; by apply picture_ok|]. split_and!.
  - intros HB. apply same_channels. intros c Hc.
    assert (HE : c (NRGBAAt src X Y) <= c (NRGBAAt out X Y) <= c (NRGBAAt src X Y)); [|lia].
    apply (HK 0%nat c); [done|lia|exact (conj (Z.le_refl _) (Z.le_refl _))|]. intros j g _ Hg HN. exfalso. apply HN, HB. by eapply list_elem_of_lookup_2.
  - intros k f Hf HSo. destruct (HS k f Hf HSo) as (Hk & HWk & HE). split_and!; [| |unfold face_radius; lia|done].
    + intros c lo hi Hc HM. apply (HK (S k) c); [done..| |].
      * rewrite HE. apply (HM k f); [lia|done|]. intros [HB|HB]; destruct HSo; [congruence|lra].
      * intros j g Hj. apply HM. lia.
    + intros HB. apply same_channels. intros c Hc.
      assert (HL : c (laid_over k f) <= c (NRGBAAt out X Y) <= c (laid_over k f)); [|lia].
      apply (HK (S k) c); [done..|rewrite HE; lia|]. intros j g Hj Hg HN. exfalso. apply HN. apply (HB j g); [lia|done].
  - intros c lo hi Hc Hb HM. apply (HK 0%nat c); [done|lia|exact Hb|exact HM].
Qed.

(** * Examples *)

Module Toy.

(** Fixed point with forty-seven binary places. *)
Definition one : Z := 2 ^ 47.
#[export] Instance fine : Float64 := {|
  F := Z; float64 z := one * z; lit n d := one * n / d;
  fadd := Z.add; fsub := Z.sub; fmul a b := a * b / one; fdiv a b := a * one / b;
  fmin := Z.min; fmax := Z.max; Sqrt a := Z.sqrt (a * one);
  Floor a := a / one * one; Ceil a := - (- a / one) * one; Round a := (a + one / 2) / one * one;
  fle := Z.leb; to_int a := Z.quot a one; recode c := c
|}.

Definition number (x : Z) (q : Q) : Prop := (inject_Z x == q * inject_Z one)%Q.

(** The floor of the exact result, in units of the last place, is a rounding. *)
Lemma floor_rounds z q : (inject_Z z <= q * inject_Z one < inject_Z z + 1)%Q ->
  exists r, number z r /\ rounds q r.
Proof.
  change (inject_Z one) with 140737488355328%Q. intros [H1 H2]. exists (inject_Z z * (1 # 140737488355328))%Q.
  split; [unfold number; change (inject_Z one) with 140737488355328%Q; ring|].
  pose proof (Qabs_nonneg q). unfold rounds, near, epsilon. split; [split; lra|]. split.
  - intros Hq. assert (HZ : (-1 < inject_Z z)%Q) by lra. change (-1)%Q with (inject_Z (-1)) in HZ.
    rewrite <- Zlt_Qlt in HZ. assert (Hz : 0 <= z) by lia. rewrite Zle_Qle in Hz. change (inject_Z 0) with 0%Q in Hz. lra.
  - intros k _ Hk. assert (HE : (q * 140737488355328 == inject_Z (k * 70368744177664))%Q).
    { rewrite inject_Z_mult. change (inject_Z 70368744177664) with 70368744177664%Q. lra. }
    rewrite HE in H1, H2. rewrite <- Zle_Qle in H1. change 1%Q with (inject_Z 1) in H2.
    rewrite <- inject_Z_plus, <- Zlt_Qlt in H2. assert (z = k * 70368744177664) as -> by lia. lra.
Qed.

Lemma number_Qeq x q : number x q -> (q == inject_Z x * (1 # 140737488355328))%Q.
Proof. unfold number. change (inject_Z one) with 140737488355328%Q. intros. lra. Qed.

Lemma div_floor a b : 0 < b -> (inject_Z (a / b) * inject_Z b <= inject_Z a < (inject_Z (a / b) + 1) * inject_Z b)%Q.
Proof.
  intros Hb. change 1%Q with (inject_Z 1). rewrite <- inject_Z_plus, <- !inject_Z_mult, <- Zle_Qle, <- Zlt_Qlt.
  pose proof (Z.div_mod a b ltac:(lia)). pose proof (Z.mod_pos_bound a b Hb). lia.
Qed.

Lemma div_rounds a b q : 0 < b -> (inject_Z a == q * inject_Z one * inject_Z b)%Q ->
  exists r, number (a / b) r /\ rounds q r.
Proof.
  intros Hb HE. destruct (div_floor a b Hb) as [H1 H2]. rewrite HE in H1, H2.
  rewrite Zlt_Qlt in Hb. change (inject_Z 0) with 0%Q in Hb.
  apply floor_rounds. split; [by apply (Qmult_le_r _ _ _ Hb)|by apply (Qmult_lt_r _ _ _ Hb)].
Qed.

Lemma exact_rounds z q : number z q -> exists r, number z r /\ rounds q r.
Proof. intros Hz. apply floor_rounds. unfold number in Hz. rewrite <- Hz. split; lra. Qed.

Lemma Qfloor_unique z q : (inject_Z z <= q < inject_Z z + 1)%Q -> Qfloor q = z.
Proof.
  intros [H1 H2]. pose proof (Qfloor_le q). pose proof (Qlt_floor q) as HL.
  assert (HA : (inject_Z z < inject_Z (Qfloor q + 1))%Q) by lra.
  assert (HB : (inject_Z (Qfloor q) < inject_Z (z + 1))%Q) by (rewrite inject_Z_plus; change (inject_Z 1) with 1%Q; lra).
  rewrite <- Zlt_Qlt in HA, HB. lia.
Qed.

Lemma floor_number x p : number x p -> Qfloor p = x / one.
Proof.
  intros Hx%number_Qeq. destruct (div_floor x one ltac:(done)) as [H1 H2].
  change (inject_Z one) with 140737488355328%Q in *. apply Qfloor_unique. rewrite Hx. split; lra.
Qed.

Lemma whole_number z : number (z * one) (inject_Z z).
Proof. unfold number. by rewrite inject_Z_mult. Qed.

Lemma number_opp x p : number x p -> number (- x) (- p).
Proof. unfold number. intros HE. rewrite inject_Z_opp, HE. ring. Qed.

Lemma le_number x y p q : number x p -> number y q -> x <= y <-> (p <= q)%Q.
Proof. intros Hx%number_Qeq Hy%number_Qeq. rewrite Hx, Hy, Zle_Qle. split; intros; lra. Qed.

Lemma truncate_number x p : number x p -> Z.quot x one = truncate p.
Proof.
  intros Hx. destruct p as [n d]. unfold number, Qeq in Hx. cbn [inject_Z Qmult Qnum Qden] in Hx.
  unfold truncate. cbn [Qnum Qden]. rewrite <- (Z.quot_mul_cancel_r x one (Z.pos d)) by done.
  rewrite <- (Z.quot_mul_cancel_r n (Z.pos d) one) by done. f_equal; lia.
Qed.

Lemma sqrt_number x p : number x p -> (0 <= p)%Q ->
  exists r, number (Z.sqrt (x * one)) r /\ (0 <= r)%Q /\ near (2 * epsilon) p (r * r).
Proof.
  intros Hx Hp. assert (Hx0 : 0 <= x) by (by apply (le_number 0 x 0 p)).
  pose proof (Z.sqrt_nonneg (x * one)) as Hs. destruct (Z.sqrt_spec (x * one)) as [H1 H2]; [unfold one; lia|].
  set (s := Z.sqrt (x * one)) in *. exists (inject_Z s * (1 # 140737488355328))%Q.
  unfold Z.succ in H2. rewrite Zle_Qle in H1, Hs. rewrite Zlt_Qlt in H2. rewrite !inject_Z_mult in H1, H2.
  rewrite inject_Z_plus in H2. unfold number in Hx. rewrite Hx in H1, H2.
  change (inject_Z 1) with 1%Q in H2. change (inject_Z 0) with 0%Q in Hs.
  split; [unfold number|]; change (inject_Z one) with 140737488355328%Q in *; [ring|].
  split; [lra|]. apply near_nonneg; [done|]. pose proof (square_nonneg (inject_Z s * (1 # 140737488355328) - 1)).
  unfold epsilon. split; lra.
Qed.

#[export] Instance fine_laws : Float64Laws.
Proof.
  refine {| value := (number : @F fine -> Q -> Prop) |}; cbn [F float64 lit fadd fsub fmul fdiv fmin fmax Sqrt Floor Ceil Round fle to_int recode fine].
  - intros x p q Hx HE. unfold number in *. by rewrite <- HE.
  - intros z _. unfold number. rewrite inject_Z_mult. ring.
  - intros n d _ Hd. apply div_rounds; [lia|]. rewrite inject_Z_mult. field. intros HE.
    assert (0 < d)%Z as Hd' by lia. rewrite Zlt_Qlt, HE in Hd'. by vm_compute in Hd'.
  - intros x y p q Hx Hy _. apply exact_rounds. unfold number in *. rewrite inject_Z_plus, Hx, Hy. ring.
  - intros x y p q Hx Hy _. apply exact_rounds. unfold number in *. unfold Z.sub. rewrite inject_Z_plus, inject_Z_opp, Hx, Hy. ring.
  - intros x y p q Hx Hy _. apply div_rounds; [done|]. unfold number in *. rewrite inject_Z_mult, Hx, Hy. ring.
  - intros x y p q Hx Hy Hq _. apply div_rounds.
    + destruct (Z.le_gt_cases y 0) as [Hle|]; [|lia]. apply (le_number y 0 q 0) in Hle; [lra|done|by vm_compute].
    + unfold number in *. rewrite inject_Z_mult, Hx, Hy. field. lra.
  - intros x p Hx Hp _. by apply sqrt_number.
  - intros x y p q Hx Hy. destruct (Qle_bool p q) eqn:E.
    + apply Qle_bool_iff, (le_number x y p q Hx Hy) in E. by rewrite Z.max_r.
    + rewrite Z.max_l; [done|]. destruct (Z.le_gt_cases y x) as [|Hlt]; [done|].
      assert (Hle : x <= y) by lia. apply (le_number x y p q Hx Hy), Qle_bool_iff in Hle. congruence.
  - intros x y p q Hx Hy. destruct (Qle_bool p q) eqn:E.
    + apply Qle_bool_iff, (le_number x y p q Hx Hy) in E. by rewrite Z.min_l.
    + rewrite Z.min_r; [done|]. destruct (Z.le_gt_cases y x) as [|Hlt]; [done|].
      assert (Hle : x <= y) by lia. apply (le_number x y p q Hx Hy), Qle_bool_iff in Hle. congruence.
  - intros x p Hx _. rewrite (floor_number x p Hx). apply whole_number.
  - intros x p Hx _. unfold Qceiling. rewrite (floor_number _ _ (number_opp _ _ Hx)). apply whole_number.
  - intros x p Hx _. exists ((x + one / 2) / one). split; [apply whole_number|].
    destruct (div_floor (x + one / 2) one ltac:(done)) as [H1 H2]. rewrite inject_Z_plus in H1, H2.
    apply number_Qeq in Hx. change (inject_Z one) with 140737488355328%Q in *.
    change (inject_Z (one / 2)) with 70368744177664%Q in *. rewrite Hx. split; lra.
  - intros x p Hx _. by apply truncate_number.
  - intros x y p q Hx Hy. rewrite Z.leb_le. by apply le_number.
  - done.
Qed.

Definition grey (v : Z) : NRGBA := mkNRGBA v v v 255.

(** Two bright faces that overlap, on a dark ground. *)
Definition photo : Image :=
  draw 12 8 (fun x y => grey (if ((2 <=? x) && (x <? 10) && (2 <=? y) && (y <? 6))%nat then 200 else 10)).
Definition faces : list Rectangle := [mkRect 2 2 6 6; mkRect 5 2 10 6].

Lemma photo_ok : wf_image photo.
Proof.
  apply draw_ok. intros x y _ _. generalize ((2 <=? x) && (x <? 10) && (2 <=? y) && (y <? 6))%nat as b. intros []; by_dec.
Qed.

(** A position in the first face holds the mean its mask lays there, though the second
    is drawn after it, and a corner is as it was. *)
Lemma face_masks_witness :
  let out := blurFaceRegions photo faces 1 in
  NRGBAAt photo 3 3 = grey 200 /\ NRGBAAt out 3 3 = cover photo 1 photo (mkRect 2 2 6 6) 3 3 /\
  NRGBAAt out 0 0 = grey 10.
Proof.
  assert (HL : Z.of_nat (Dx photo) <= 2 ^ 31 /\ Z.of_nat (Dy photo) <= 2 ^ 31) by (by vm_compute).
  intros out. split; [by_vm|]. split.
  - refine (proj1 (proj2 (proj1 (proj2 (proj2 (face_masks photo faces 1 3 3 photo_ok (proj1 HL) (proj2 HL)
      _ _ _))) 0%nat (mkRect 2 2 6 6) _ _)) _); [by_dec|by_dec|by_dec|reflexivity|by split|].
    intros [|[|j]] g Hj Hg; [lia| |done]. injection Hg as <-. right. by vm_compute.
  - refine (eq_trans (proj1 (proj2 (face_masks photo faces 1 0 0 photo_ok (proj1 HL) (proj2 HL) _ _ _)) _) _);
      [by_dec|by_dec|by_dec| |by_vm].
    intros f [-> | [-> | []%elem_of_nil]%elem_of_cons]%elem_of_cons; right; by vm_compute.
Defined.
End Toy.

End SoftMask.
