(* ===== verification/ImageMeta.v ===== *)
(** [internal/imageproc/metadata.go]: what is taken out of a JPEG, PNG or WebP
    original before it is stored.  Files are lists of bytes; the index [i] of the
    source's loops is the suffix [rest = data[i:]]. *)

From Stdlib Require Import ZifyBool.
From S2P Require Export GoStrings.

Local Open Scope Z_scope.

Module ImageMeta.

Definition be16 (a b : Z) : Z := a * 256 + b.
Definition be32 (a b c d : Z) : Z := ((a * 256 + b) * 256 + c) * 256 + d.
Definition le32 (a b c d : Z) : Z := be32 d c b a.
(** The low [k] bytes of [v], least significant first. *)
Definition put_le32 (v : Z) : list Z :=
  [v mod 256; v / 256 mod 256; v / 65536 mod 256; v / 16777216 mod 256].

(** ASCII text as bytes. *)
Definition text (s : string) : list Z := (fun c => Z.of_nat (nat_of_ascii c)) <$> chars s.

Definition between (lo m hi : Z) : bool := (lo <=? m) && (m <=? hi).

(** [x[from:to]] *)
Definition slice {A} (from to : nat) (l : list A) : list A := drop from (take to l).

(** ** TIFF *)

Record order := mkOrder { u16 : Z -> Z -> Z; u32 : Z -> Z -> Z -> Z -> Z }.
Definition LittleEndian : order := mkOrder (fun a b => be16 b a) le32.
Definition BigEndian : order := mkOrder be16 be32.

Definition read16 (o : order) (l : list Z) (i : nat) : Z :=
  match drop i l with a :: b :: _ => u16 o a b | _ => 0 end.

(** The entries from number [entry] on; [left] counts those still to read. *)
Fixpoint tiff_entries (o : order) (tiff : list Z) (offset : nat) (entry left : nat) : Z :=
  match left with
  | O => 0
  | S left' =>
      let start := (offset + 2 + entry * 12)%nat in
      if (length tiff <? start + 12)%nat then 0
      else if read16 o tiff start =? 274 then read16 o tiff (start + 8)
      else tiff_entries o tiff offset (S entry) left'
  end.

Definition tiffOrientation (tiff : list Z) : Z :=
  match tiff with
  | a :: b :: _ :: _ :: w :: x :: y :: z :: _ =>
      let with_order o :=
        let offset := u32 o w x y z in
        if (offset <? 8) || (Z.of_nat (length tiff) <? offset + 2) then 0
        else let offset := Z.to_nat offset in
             tiff_entries o tiff offset 0 (Z.to_nat (read16 o tiff offset)) in
      if bool_decide ([a; b] = text "II") then with_order LittleEndian
      else if bool_decide ([a; b] = text "MM") then with_order BigEndian else 0
  | _ => 0
  end.

(** ** JPEG *)

Definition exif_header : list Z := text "Exif" ++ [0; 0].
Definition standalone (m : Z) : bool := between 208 m 215 || (m =? 1).
Definition scan (m : Z) : bool := (m =? 218) || (m =? 217).
(** APP1, APP13 and COM. *)
Definition metadata_marker (m : Z) : bool := (m =? 225) || (m =? 237) || (m =? 254).

(** The loop; every round moves forward, so the length of the file is fuel enough:
    [stuck] is what a run cut off by its fuel would give, and does not matter
    ([stripping_ends]). *)
Fixpoint orientation_loop (stuck : Z) (fuel : nat) (rest : list Z) : Z :=
  match fuel with
  | O => stuck
  | S n =>
      match rest with
      | b :: m :: h :: l :: _ =>
          if negb (b =? 255) then 0
          else if scan m then 0
          else if standalone m || (m =? 255) then orientation_loop stuck n (drop 2 rest)
          else
            let len := be16 h l in
            if (len <? 2) || (Z.of_nat (length rest) <? 2 + len) then 0
            else
              let payload := slice 4 (2 + Z.to_nat len) rest in
              let value :=
                if (m =? 225) && (14 <? length payload)%nat &&
                   bool_decide (take 6 payload = exif_header)
                then tiffOrientation (drop 6 payload) else 0 in
              if 0 <? value then value else orientation_loop stuck n (drop (2 + Z.to_nat len) rest)
      | _ => 0
      end
  end.

Definition jpegOrientation (data : list Z) : Z := orientation_loop 0 (length data) (drop 2 data).

Definition jpegOrientationSegment (orientation : Z) : list Z :=
  let tiff := text "MM" ++ [0; 42; 0; 0; 0; 8; 0; 1;
                            1; 18; 0; 3; 0; 0; 0; 1; 0; orientation mod 256; 0; 0;
                            0; 0; 0; 0] in
  let payload := exif_header ++ tiff in
  let n := Z.of_nat (length payload) + 2 in
  [255; 225; n / 256 mod 256; n mod 256] ++ payload.

(** [None] is [return data]. *)
Fixpoint jpeg_loop (stuck : option (list Z)) (fuel : nat) (out rest : list Z) : option (list Z) :=
  match fuel with
  | O => stuck
  | S n =>
      match rest with
      | b :: m :: tail =>
          if negb (b =? 255) then None
          else if m =? 255 then jpeg_loop stuck n out (drop 1 rest)
          else if scan m then Some (out ++ rest)
          else if standalone m then jpeg_loop stuck n (out ++ take 2 rest) (drop 2 rest)
          else
            match tail with
            | h :: l :: _ =>
                let len := be16 h l in
                if (len <? 2) || (Z.of_nat (length rest) <? 2 + len) then None
                else
                  let segment := take (2 + Z.to_nat len) rest in
                  jpeg_loop stuck n (if metadata_marker m then out else out ++ segment)
                    (drop (2 + Z.to_nat len) rest)
            | _ => None
            end
      | _ => None
      end
  end.

Definition stripJPEGMetadata (data : list Z) : list Z :=
  let orientation := jpegOrientation data in
  let out := [255; 216] ++
    (if (1 <? orientation) && (orientation <=? 8) then jpegOrientationSegment orientation else []) in
  default data (jpeg_loop None (length data) out (drop 2 data)).

(** ** PNG *)

Definition png_signature : list Z := [137] ++ text "PNG" ++ [13; 10; 26; 10].
Definition png_dropped (kind : list Z) : bool :=
  bool_decide (kind ∈ text <$> ["eXIf"; "tEXt"; "zTXt"; "iTXt"; "tIME"]).

Fixpoint png_loop (stuck : option (list Z)) (fuel : nat) (out rest : list Z) : option (list Z) :=
  match fuel with
  | O => stuck
  | S n =>
      match rest with
      | a :: b :: c :: d :: _ =>
          if (length rest <? 12)%nat then None else
          let len := be32 a b c d in
          if Z.of_nat (length rest) <? 12 + len then None
          else
            let size := (12 + Z.to_nat len)%nat in
            let kind := slice 4 8 rest in
            let out := if png_dropped kind then out else out ++ take size rest in
            if bool_decide (kind = text "IEND") then Some out
            else png_loop stuck n out (drop size rest)
      | _ => None
      end
  end.

Definition stripPNGMetadata (data : list Z) : list Z :=
  default data (png_loop None (length data) (take 8 data) (drop 8 data)).

(** ** WebP *)

Definition webp_dropped (kind : list Z) : bool := bool_decide (kind ∈ text <$> ["EXIF"; "XMP "]).

(** [cleaned[8] &^= 0x08 | 0x04] *)
Definition clear_flags (chunk : list Z) : list Z :=
  match chunk !! 8%nat with
  | Some flags => <[8%nat := Z.land flags (Z.lxor 255 (Z.lor 8 4))]> chunk
  | None => chunk
  end.

(** The size a chunk takes: padded to even, but for a last chunk without its pad
    byte. *)
Definition webp_size (size available : Z) : option Z :=
  let padded := size + size mod 2 in
  if available <? 8 + padded then (if 8 + size =? available then Some size else None)
  else Some padded.

Fixpoint webp_loop (stuck : option (list Z)) (fuel : nat) (out rest : list Z) : option (list Z) :=
  match fuel with
  | O => stuck
  | S n =>
      match rest with
      | k0 :: k1 :: k2 :: k3 :: s0 :: s1 :: s2 :: s3 :: _ =>
          match webp_size (le32 s0 s1 s2 s3) (Z.of_nat (length rest)) with
          | None => None
          | Some padded =>
              let kind := [k0; k1; k2; k3] in
              let chunk := take (8 + Z.to_nat padded) rest in
              let out :=
                if webp_dropped kind then out
                else if bool_decide (kind = text "VP8X") then out ++ clear_flags chunk
                else out ++ chunk in
              webp_loop stuck n out (drop (8 + Z.to_nat padded) rest)
          end
      | _ => Some out
      end
  end.

(** [binary.LittleEndian.PutUint32(out[4:8], uint32(len(out)-8))] *)
Definition with_riff_size (out : list Z) : list Z :=
  take 4 out ++ put_le32 (Z.of_nat (length out) - 8) ++ drop 8 out.

Definition stripWebPMetadata (data : list Z) : list Z :=
  match webp_loop None (S (length data)) (take 12 data) (drop 12 data) with
  | Some out => with_riff_size out
  | None => data
  end.

(** ** The entry point *)

Definition StripMetadata (data : list Z) : list Z :=
  if (4 <? length data)%nat && bool_decide (take 2 data = [255; 216]) then stripJPEGMetadata data
  else if (8 <? length data)%nat && bool_decide (take 8 data = png_signature) then stripPNGMetadata data
  else if (12 <? length data)%nat && bool_decide (take 4 data = text "RIFF") &&
          bool_decide (slice 8 12 data = text "WEBP") then stripWebPMetadata data
  else data.

(** * Specification *)

(** A JPEG header as its segments, up to the scan or the end of the image.  The
    body of a segment is its two length bytes and its payload. *)
Inductive seg := Mark (m : Z) | Seg (m : Z) (body : list Z).

Definition encode_seg (s : seg) : list Z :=
  match s with Mark m => [255; m] | Seg m body => 255 :: m :: body end.
Definition encode (l : list seg) : list Z := concat (encode_seg <$> l).

Definition is_metadata (s : seg) : bool :=
  match s with Mark _ => false | Seg m _ => bool_decide (m ∈ [225; 237; 254]) end.
Definition kept (l : list seg) : list seg := filter (fun s => is_metadata s = false) l.

Fixpoint parse_jpeg (fuel : nat) (rest : list Z) : option (list seg * list Z) :=
  match fuel with
  | O => None
  | S n =>
      match rest with
      | b :: m :: tail =>
          if negb (b =? 255) then None
          else if m =? 255 then parse_jpeg n (drop 1 rest)
          else if scan m then Some ([], rest)
          else if standalone m then (fun p => (Mark m :: p.1, p.2)) <$> parse_jpeg n (drop 2 rest)
          else
            match tail with
            | h :: l :: _ =>
                let len := be16 h l in
                if (len <? 2) || (Z.of_nat (length rest) <? 2 + len) then None
                else (fun p => (Seg m (take (Z.to_nat len) tail) :: p.1, p.2))
                       <$> parse_jpeg n (drop (2 + Z.to_nat len) rest)
            | _ => None
            end
      | _ => None
      end
  end.

(** The segments of a whole file, after its start-of-image marker. *)
Definition jpeg_segments (data : list Z) : option (list seg * list Z) :=
  parse_jpeg (length data) (drop 2 data).

Definition orientation_block (o : Z) : list seg :=
  if (1 <? o) && (o <=? 8) then [Seg 225 (drop 2 (jpegOrientationSegment o))] else [].

(** *** The rotation a JPEG declares

    A TIFF block: a byte order, the offset of its first directory, and there a
    number of entries of twelve bytes each - a tag in the first two, a value from
    the ninth byte on.  Tag 274 is the orientation. *)
Definition number (big : bool) (l : list Z) : Z :=
  foldl (fun n b => n * 256 + b) 0 (if big then l else reverse l).

(** The first of at most [n] entries in [d] that has the tag has the value [v]. *)
Definition entry_says (big : bool) (d : list Z) (n v : Z) : Prop :=
  exists before e rest, d = concat (before ++ [e]) ++ rest /\
    Forall (fun e => length e = 12%nat) (before ++ [e]) /\ Z.of_nat (length before) < n /\
    Forall (fun e => number big (take 2 e) <> 274) before /\
    number big (take 2 e) = 274 /\ number big (take 2 (drop 8 e)) = v.

Definition tiff_says (tiff : list Z) (v : Z) : Prop :=
  exists big count entries, take 2 tiff = text (if big : bool then "MM" else "II") /\
    let offset := number big (take 4 (drop 4 tiff)) in
    8 <= offset /\ drop (Z.to_nat offset) tiff = count ++ entries /\ length count = 2%nat /\
    entry_says big entries (number big count) v.

(** An APP1 segment with an EXIF block. *)
Definition seg_says (s : seg) (v : Z) : Prop :=
  exists h l tiff, s = Seg 225 (h :: l :: exif_header ++ tiff) /\ tiff_says tiff v.

(** The first segment that says anything but zero says [v]. *)
Definition rotation (segs : list seg) (v : Z) : Prop :=
  exists before s after, segs = before ++ s :: after /\ seg_says s v /\
    forall s' v', s' ∈ before -> seg_says s' v' -> v' <= 0.

(** * Lemmas *)

Definition wf_seg (s : seg) : Prop :=
  match s with
  | Mark m => standalone m = true
  | Seg m body => m <> 255 /\ scan m = false /\ standalone m = false /\
      exists h l p, body = h :: l :: p /\ be16 h l = Z.of_nat (length body)
  end.

Definition scan_start (tail : list Z) : Prop := exists m t, tail = 255 :: m :: t /\ scan m = true.

Lemma standalone_not m : standalone m = true -> m <> 255 /\ scan m = false.
Proof. unfold standalone, scan, between. intros HS. split; lia. Qed.

(** What one well-formed segment does to the parse. *)
Lemma parse_seg n s rest : wf_seg s ->
  parse_jpeg (S n) (encode_seg s ++ rest) = (fun p => (s :: p.1, p.2)) <$> parse_jpeg n rest.
Proof.
  destruct s as [m|m body]; cbn [encode_seg wf_seg].
  - intros HS. pose proof (standalone_not m HS) as [H1 H2]. cbn [app parse_jpeg].
    rewrite (proj2 (Z.eqb_neq m 255) H1), H2, HS. done.
  - intros (H1 & H2 & H3 & h & l & p & -> & HL). cbn [app parse_jpeg].
    rewrite (proj2 (Z.eqb_neq m 255) H1), H2, H3. cbn [negb].
    rewrite HL. cbn [length]. rewrite Nat2Z.id, !length_app.
    destruct (_ || _) eqn:E; [exfalso; lia|]. clear E.
    change (255 :: m :: h :: l :: p ++ rest) with ([255; m] ++ ((h :: l :: p) ++ rest)).
    change (2 + S (S (length p)))%nat with (length ([255; m] ++ h :: l :: p)).
    rewrite app_assoc, drop_app_length.
    change (h :: l :: p ++ rest) with ((h :: l :: p) ++ rest).
    by rewrite (take_app_length (h :: l :: p)).
Qed.

Lemma parse_tail n tail : scan_start tail -> parse_jpeg (S n) tail = Some ([], tail).
Proof.
  intros (m & t & -> & HS). cbn [parse_jpeg]. cbn [negb Z.eqb].
  assert (m <> 255) by (intros ->; discriminate HS).
  by rewrite (proj2 (Z.eqb_neq m 255)), HS by done.
Qed.

Lemma parse_encode segs tail n : Forall wf_seg segs -> scan_start tail ->
  (length segs < n)%nat -> parse_jpeg n (encode segs ++ tail) = Some (segs, tail).
Proof.
  intros HF HT. revert n. induction HF as [|s segs Hs HF IH]; intros [|n] Hn; simpl in Hn; [lia| |lia|].
  - by apply parse_tail.
  - unfold encode. cbn [fmap list_fmap concat]. rewrite <- app_assoc, parse_seg by done.
    fold (encode segs). by rewrite IH by lia.
Qed.

Lemma parse_jpeg_wf n rest segs tail : parse_jpeg n rest = Some (segs, tail) ->
  Forall wf_seg segs /\ scan_start tail.
Proof.
  revert rest segs. induction n as [|n IH]; intros rest segs; [done|]. cbn [parse_jpeg].
  destruct rest as [|b [|m tl]]; [done..|].
  destruct (Z.eqb_spec b 255) as [->|]; [|done]. cbn [negb].
  destruct (Z.eqb_spec m 255) as [->|Hm]; [apply IH|].
  destruct (scan m) eqn:Hs; [intros [= <- <-]; split; [constructor|by exists m, tl]|].
  destruct (standalone m) eqn:Hst.
  { intros ([s t] & HP & [= -> ->])%fmap_Some. apply IH in HP as [H1 H2]. split; [by constructor|done]. }
  destruct tl as [|h [|l tl]]; [done..|].
  destruct (_ || _) eqn:E; [done|]. intros ([s t] & HP & [= -> ->])%fmap_Some.
  apply IH in HP as [H1 H2]. split; [|done]. constructor; [|done]. cbn [length] in E.
  split_and!; [done..|]. exists h, l, (take (Z.to_nat (be16 h l) - 2) tl).
  destruct (Z.to_nat (be16 h l)) as [|[|k]] eqn:Hk; [lia..|]. split.
  - cbn [take]. do 2 f_equal. f_equal. lia.
  - cbn [take length]. rewrite length_take. lia.
Qed.

Lemma metadata_marker_spec m : metadata_marker m = bool_decide (m ∈ [225; 237; 254]).
Proof.
  unfold metadata_marker. apply eq_true_iff_eq. rewrite bool_decide_eq_true.
  set_unfold. lia.
Qed.

(** The loop is: parse, drop the metadata, write the rest back. *)
Lemma jpeg_loop_parse n out rest :
  jpeg_loop None n out rest = (fun p => out ++ encode (kept p.1) ++ p.2) <$> parse_jpeg n rest.
Proof.
  revert out rest. induction n as [|n IH]; intros out rest; [done|]. cbn [jpeg_loop parse_jpeg].
  destruct rest as [|b [|m tl]]; [done..|].
  destruct (Z.eqb_spec b 255) as [->|]; [|done]. cbn [negb].
  destruct (m =? 255); [apply IH|]. destruct (scan m); [done|].
  destruct (standalone m).
  { rewrite IH. destruct (parse_jpeg n _) as [[s t]|]; [|done]. cbn. by rewrite <- !app_assoc. }
  destruct tl as [|h [|l tl]]; [done..|]. destruct (_ || _) eqn:E; [done|].
  rewrite IH. destruct (parse_jpeg n _) as [[s t]|]; [|done]. cbn [fmap option_fmap option_map fst snd].
  f_equal. unfold kept. rewrite filter_cons. cbn [is_metadata].
  rewrite metadata_marker_spec. destruct (bool_decide _); [by rewrite decide_False|]. rewrite decide_True by done.
  unfold encode. cbn [fmap list_fmap concat encode_seg]. rewrite <- !app_assoc. f_equal.
Qed.

(** The fuel is enough: each round consumes a byte. *)
Lemma parse_jpeg_fuel n k rest : (length rest <= n)%nat -> parse_jpeg (S (n + k)) rest = parse_jpeg (S n) rest.
Proof.
  revert rest. induction n as [|n IH]; intros rest Hn.
  { destruct rest; [done|simpl in Hn; lia]. }
  change (S n + k)%nat with (S (n + k)). remember (S (n + k)) as a. cbn [parse_jpeg]. subst a.
  destruct rest as [|b [|m tl]]; [done..|]. cbn [length] in Hn.
  assert (HD : forall j, (0 < j)%nat -> parse_jpeg (S (n + k)) (drop j (b :: m :: tl)) =
    parse_jpeg (S n) (drop j (b :: m :: tl))).
  { intros j Hj. apply IH. rewrite length_drop. cbn [length]. lia. }
  destruct (negb (b =? 255)); [done|]. destruct (m =? 255); [by apply HD; lia|].
  destruct (scan m); [done|]. destruct (standalone m); [by rewrite HD by lia|].
  destruct tl as [|h [|l tl]]; [done..|]. destruct (_ || _); [done|]. by rewrite HD by lia.
Qed.

Lemma orientation_block_wf o : Forall wf_seg (orientation_block o).
Proof.
  unfold orientation_block. destruct (_ && _); [|constructor]. constructor; [|constructor].
  cbn. split_and!; [lia|done|done|]. eexists _, _, _. split; [reflexivity|done].
Qed.

Lemma orientation_block_encode o : encode (orientation_block o) =
  if (1 <? o) && (o <=? 8) then jpegOrientationSegment o else [].
Proof. unfold orientation_block. by destruct (_ && _). Qed.

Lemma kept_wf segs : Forall wf_seg segs -> Forall wf_seg (kept segs).
Proof. rewrite !Forall_forall. by intros HF s [_ Hs%HF]%list_elem_of_filter. Qed.

Lemma encode_app a b : encode (a ++ b) = encode a ++ encode b.
Proof. unfold encode. by rewrite fmap_app, concat_app. Qed.

Lemma encode_segs_length segs : (length segs <= length (encode segs))%nat.
Proof.
  induction segs as [|s segs IH]; [done|]. unfold encode in *. cbn. rewrite length_app.
  destruct s; cbn; lia.
Qed.

(** *** Orientation *)

Lemma orientation_mark n m rest : standalone m = true ->
  orientation_loop 0 (S n) ([255; m] ++ rest) = 0 \/
  orientation_loop 0 (S n) ([255; m] ++ rest) = orientation_loop 0 n rest.
Proof.
  intros HS. destruct rest as [|h [|l rest]]; [by left..|]. right. cbn [app orientation_loop negb Z.eqb].
  pose proof (standalone_not m HS) as [_ H2]. by rewrite H2, HS.
Qed.

Definition exif_value (m : Z) (payload : list Z) : Z :=
  if (m =? 225) && (14 <? length payload)%nat && bool_decide (take 6 payload = exif_header)
  then tiffOrientation (drop 6 payload) else 0.

Lemma orientation_seg n m body rest : wf_seg (Seg m body) ->
  orientation_loop 0 (S n) (encode_seg (Seg m body) ++ rest) =
  if 0 <? exif_value m (drop 2 body) then exif_value m (drop 2 body) else orientation_loop 0 n rest.
Proof.
  intros (H1 & H2 & H3 & h & l & p & -> & HL). cbn [encode_seg app orientation_loop negb Z.eqb].
  rewrite H2, H3, (proj2 (Z.eqb_neq m 255) H1), HL. cbn [orb length]. rewrite Nat2Z.id, length_app.
  destruct (_ || _) eqn:E; [exfalso; lia|]. clear E.
  unfold slice. cbn [Nat.add take drop]. rewrite take_app_length, drop_app_length. done.
Qed.

Lemma orientation_none n segs tail : Forall wf_seg segs -> scan_start tail ->
  Forall (fun s => is_metadata s = false) segs -> orientation_loop 0 n (encode segs ++ tail) = 0.
Proof.
  intros HF HT HM. revert n. induction HF as [|s segs Hs HF IH]; intros [|n]; [done| |done|].
  - destruct HT as (m & t & -> & HS). cbn. destruct t as [|h [|l t]]; [done..|]. by rewrite HS.
  - apply Forall_cons in HM as [Hm HM]. specialize (IH HM).
    unfold encode. cbn [fmap list_fmap concat]. fold (encode segs). rewrite <- app_assoc.
    destruct s as [m|m body].
    + destruct (orientation_mark n m (encode segs ++ tail)) as [E|E]; [done| |]; cbn [encode_seg];
        rewrite E; [done|apply IH].
    + rewrite orientation_seg by done. cbn [is_metadata] in Hm. rewrite <- metadata_marker_spec in Hm. unfold metadata_marker in Hm.
      unfold exif_value. rewrite (proj2 (Z.eqb_neq m 225)) by lia. cbn. apply IH.
Qed.

Lemma orientation_written n o rest : (1 <? o) && (o <=? 8) = true ->
  orientation_loop 0 (S n) (jpegOrientationSegment o ++ rest) = o.
Proof.
  intros Ho. pose proof (orientation_block_wf o) as HW. pose proof (orientation_block_encode o) as HE.
  unfold orientation_block in HW, HE. rewrite Ho in HW, HE.
  apply Forall_cons in HW as [HW _]. unfold encode in HE. cbn [fmap list_fmap concat] in HE.
  rewrite app_nil_r in HE. rewrite <- HE, orientation_seg by done.
  assert (HV : exif_value 225 (drop 2 (drop 2 (jpegOrientationSegment o))) = o).
  { assert (o = 2 \/ o = 3 \/ o = 4 \/ o = 5 \/ o = 6 \/ o = 7 \/ o = 8) as Hc by lia.
    by destruct Hc as [->|[->|[->|[->|[->|[->| ->]]]]]]. }
  rewrite HV. destruct (Z.ltb_spec 0 o); [done|lia].
Qed.

(** *** What the loops read is what the file declares *)

Definition order_of (big : bool) : order := if big then BigEndian else LittleEndian.

Lemma read16_number big l i : (i + 2 <= length l)%nat ->
  read16 (order_of big) l i = number big (take 2 (drop i l)).
Proof.
  intros Hi. unfold read16. assert (HL : (2 <= length (drop i l))%nat) by (rewrite length_drop; lia).
  destruct (drop i l) as [|a [|b rest]]; [cbn in HL; lia..|]. by destruct big.
Qed.

Lemma u32_number big w x y z : u32 (order_of big) w x y z = number big [w; x; y; z].
Proof. by destruct big. Qed.

Lemma entry_says_nil big d v : ~ entry_says big d 0 v.
Proof. intros (before & e & rest & _ & _ & Hn & _). lia. Qed.

(** One entry: it is the one, or the search goes on behind it. *)
Lemma entry_says_cons big d n v : (12 <= length d)%nat ->
  entry_says big d n v <-> 0 < n /\
    if decide (number big (take 2 d) = 274) then number big (take 2 (drop 8 d)) = v
    else entry_says big (drop 12 d) (n - 1) v.
Proof.
  intros HL. assert (HT : take 2 (take 12 d) = take 2 d) by (by rewrite take_take).
  assert (HV : take 2 (drop 8 (take 12 d)) = take 2 (drop 8 d)) by (by rewrite skipn_firstn_comm, take_take).
  assert (H12 : length (take 12 d) = 12%nat) by (rewrite length_take; lia). split.
  - intros (before & e & rest & Hd & HF & Hn & Hb & He & Hv). split; [lia|]. destruct before as [|a before].
    + cbn in Hd, HF. rewrite app_nil_r in Hd. apply Forall_cons in HF as [HE _]. subst d.
      rewrite <- HE, take_app_length in HT, HV. rewrite <- HT, <- HV. by rewrite decide_True.
    + cbn in Hd, HF, Hn. apply Forall_cons in HF as [HE HF]. apply Forall_cons in Hb as [Ha Hb].
      rewrite <- app_assoc in Hd. subst d. rewrite <- HE, take_app_length in HT. rewrite <- HT.
      rewrite decide_False by done. rewrite <- HE, drop_app_length. exists before, e, rest. split_and!; try done. lia.
  - intros [Hn Hd]. case_decide as HE.
    + exists [], (take 12 d), (drop 12 d). cbn. rewrite app_nil_r, take_drop, HT, HV.
      split_and!; try done. by constructor.
    + destruct Hd as (before & e & rest & Hd & HF & Hlt & Hb & He & Hv). exists (take 12 d :: before), e, rest.
      cbn. rewrite <- app_assoc, <- Hd, take_drop. split_and!; try done; [by constructor|lia|].
      constructor; [by rewrite HT|done].
Qed.

Lemma tiff_entries_says big tiff offset v : 0 < v -> forall left entry,
  tiff_entries (order_of big) tiff offset entry left = v <->
  entry_says big (drop (offset + 2 + entry * 12) tiff) (Z.of_nat left) v.
Proof.
  intros Hv left. induction left as [|left IH]; intros entry; cbn [tiff_entries].
  { split; [lia|]. by intros ?%entry_says_nil. }
  set (start := (offset + 2 + entry * 12)%nat).
  destruct (Nat.ltb_spec (length tiff) (start + 12)) as [Hlt|Hge].
  - split; [lia|]. intros (before & e & rest & Hd & HF & _). exfalso.
    apply (f_equal length) in Hd. apply Forall_app in HF as [_ HE]. apply Forall_cons in HE as [HE _].
    rewrite length_drop, concat_app, !length_app in Hd. cbn in Hd. rewrite app_nil_r in Hd. lia.
  - rewrite entry_says_cons by (rewrite length_drop; lia). rewrite !read16_number, !drop_drop by lia.
    case_decide as HE.
    + rewrite HE. cbn [Z.eqb Pos.eqb]. split; [split; [lia|done]|by intros [_ ?]].
    + rewrite (proj2 (Z.eqb_neq _ _)) by done. rewrite IH.
      replace (offset + 2 + S entry * 12)%nat with (start + 12)%nat by (unfold start; lia).
      replace (Z.of_nat (S left) - 1) with (Z.of_nat left) by lia. split; [split; [lia|done]|by intros [_ ?]].
Qed.

(** Reading under one byte order. *)
Definition tiff_under (big : bool) (tiff : list Z) : Z :=
  let offset := number big (take 4 (drop 4 tiff)) in
  if (offset <? 8) || (Z.of_nat (length tiff) <? offset + 2) then 0
  else let offset := Z.to_nat offset in
       tiff_entries (order_of big) tiff offset 0 (Z.to_nat (read16 (order_of big) tiff offset)).

Lemma tiff_under_says big tiff v : 0 < v ->
  tiff_under big tiff = v <-> exists count entries,
    let offset := number big (take 4 (drop 4 tiff)) in
    8 <= offset /\ drop (Z.to_nat offset) tiff = count ++ entries /\ length count = 2%nat /\
    entry_says big entries (number big count) v.
Proof.
  intros Hv. unfold tiff_under. cbn zeta. set (offset := number big _). destruct (_ || _) eqn:E.
  - split; [lia|]. intros (count & entries & Ho & Hd & Hc & Hs). exfalso.
    apply (f_equal length) in Hd. rewrite length_drop, length_app in Hd. lia.
  - apply orb_false_iff in E as [E1 E2]. apply Z.ltb_ge in E1, E2.
    rewrite tiff_entries_says by done. rewrite read16_number by lia.
    rewrite Nat.mul_0_l, Nat.add_0_r, <- drop_drop. set (d := drop (Z.to_nat offset) tiff).
    assert (HL : length (take 2 d) = 2%nat) by (rewrite length_take; unfold d; rewrite length_drop; lia).
    assert (HN : forall k, entry_says big (drop 2 d) (Z.of_nat (Z.to_nat k)) v <-> entry_says big (drop 2 d) k v).
    { intros k. unfold entry_says. split; intros (b & e & r & H1 & H2 & H3 & H4); exists b, e, r; split_and!; try apply H4; try done; lia. }
    rewrite HN. split.
    + intros Hs. exists (take 2 d), (drop 2 d). by rewrite take_drop.
    + intros (count & entries & _ & Hd & Hc & Hs). rewrite Hd, <- Hc, take_app_length, drop_app_length. done.
Qed.

Lemma tiff_orientation_says tiff v : 0 < v -> tiffOrientation tiff = v <-> tiff_says tiff v.
Proof.
  intros Hv. assert (HS : tiff_says tiff v <-> exists big : bool,
    take 2 tiff = text (if big then "MM" else "II") /\ tiff_under big tiff = v).
  { unfold tiff_says. setoid_rewrite (fun big => tiff_under_says big tiff v Hv). cbn zeta. clear.
    split; [intros (big & c & es & H1 & H2)|intros (big & H1 & c & es & H2)]; exists big; eauto. }
  rewrite HS. clear HS. unfold tiffOrientation.
  destruct tiff as [|a [|b [|c [|d [|w [|x [|y [|z rest]]]]]]]].
  9:{ change (take 2 (a :: _)) with [a; b].
      case_bool_decide as HI; [|case_bool_decide as HM];
        [lazymatch goal with |- _ <-> ?R =>
           change (tiff_under false (a :: b :: c :: d :: w :: x :: y :: z :: rest) = v <-> R) end
        |lazymatch goal with |- _ <-> ?R =>
           change (tiff_under true (a :: b :: c :: d :: w :: x :: y :: z :: rest) = v <-> R) end|].
      - split; [intros <-; by exists false|]. intros ([] & HE & <-); [|done]. rewrite HE in HI. discriminate HI.
      - split; [intros <-; by exists true|]. by intros ([] & HE & <-).
      - split; [lia|]. intros ([] & HE & _); done. }
  all: split; [lia|]; intros (big & _ & HU); unfold tiff_under in HU; cbn [drop take] in HU.
  all: destruct (_ || _) eqn:E in HU; [lia|]; cbn [length] in E; lia.
Qed.

Lemma exif_value_says h l p v m : 0 < v -> exif_value m p = v <-> seg_says (Seg m (h :: l :: p)) v.
Proof.
  intros Hv. unfold exif_value, seg_says. split.
  - destruct (_ && _ && _) eqn:E; [|lia]. go_bools. intros HT%tiff_orientation_says; [|done].
    exists h, l, (drop 6 p). split; [|done]. subst. do 3 f_equal. rewrite <- (take_drop 6 p) at 1. by f_equal.
  - intros (h' & l' & tiff & HE & HT). assert (m = 225 /\ p = exif_header ++ tiff) as [-> ->] by (split; congruence).
    clear HE. apply tiff_orientation_says in HT; [|done].
    assert (HL : (8 < length tiff)%nat).
    { apply Nat.nle_gt. intros Hle. revert HT. rewrite tiff_orientation_says by done.
      intros (big & count & entries & _ & Ho & Hd & Hc & _). apply (f_equal length) in Hd.
      rewrite length_drop, length_app in Hd. lia. }
    assert (H14 : (14 < length (exif_header ++ tiff))%nat).
    { rewrite length_app. change (length exif_header) with 6%nat. lia. }
    rewrite (proj2 (Nat.ltb_lt _ _) H14), (bool_decide_eq_true_2 (take 6 _ = _)) by done. exact HT.
Qed.

(** The loop's answer is the rotation the segments declare. *)
Lemma orientation_says segs tail v n : Forall wf_seg segs -> scan_start tail -> 0 < v ->
  (length segs < n)%nat -> orientation_loop 0 n (encode segs ++ tail) = v <-> rotation segs v.
Proof.
  intros HF HT Hv. revert n. induction HF as [|s segs Hs HF IH]; intros [|n] Hn; cbn [length] in Hn; [lia| |lia|].
  - destruct HT as (m & t & -> & HSc).
    assert (HE : orientation_loop 0 (S n) (encode [] ++ 255 :: m :: t) = 0).
    { cbn. destruct t as [|h [|l t]]; [done..|]. by rewrite HSc. }
    rewrite HE. split; [lia|]. intros ([|? ?] & ? & ? & ? & _); discriminate.
  - unfold encode. cbn [fmap list_fmap concat]. fold (encode segs). rewrite <- app_assoc.
    assert (HR : (forall v', 0 < v' -> ~ seg_says s v') -> rotation (s :: segs) v <-> rotation segs v).
    { intros Hno. split.
      - intros ([|s' before] & x & after & [= <- ->] & Hx & Hb); [by destruct (Hno v)|].
        exists before, x, after. split_and!; [done..|]. intros s' v' Hs'. apply Hb. by right.
      - intros (before & x & after & -> & Hx & Hb). exists (s :: before), x, after. split_and!; [done..|].
        intros s' v' [->|Hs']%elem_of_cons Hsay; [|by eapply Hb]. apply Z.nlt_ge. intros Hp. by apply (Hno v'). }
    destruct s as [m|m body].
    + rewrite HR by (intros v' _ (? & ? & ? & ? & _); done). cbn [encode_seg].
      assert (HL : (2 <= length (encode segs ++ tail))%nat).
      { destruct HT as (m' & t & -> & _). rewrite length_app. cbn. lia. }
      destruct (encode segs ++ tail) as [|h [|l rest]] eqn:E; [cbn in HL; lia..|].
      cbn [app orientation_loop negb Z.eqb drop]. cbn [wf_seg] in Hs. pose proof (standalone_not m Hs) as [_ H2].
      rewrite H2, Hs. cbn [orb]. rewrite <- (IH n) by lia. by rewrite <- E.
    + rewrite orientation_seg by done. destruct Hs as (_ & _ & _ & h & l & p & -> & _). change (drop 2 (h :: l :: p)) with p.
      pose proof (fun v' H => exif_value_says h l p v' m H) as HX. destruct (Z.ltb_spec 0 (exif_value m p)) as [Hp|Hp].
      * rewrite (HX v Hv). split.
        -- intros Hsay. exists [], (Seg m (h :: l :: p)), segs. split_and!; [done..|]. by intros ? ? ?%not_elem_of_nil.
        -- intros ([|s' before] & x & after & [= <- ->] & Hx & Hb); [done|]. exfalso.
           specialize (Hb _ _ (list_elem_of_here _ _) (proj1 (HX _ Hp) eq_refl)). lia.
      * rewrite HR.
        -- by rewrite <- (IH n) by lia.
        -- intros v' Hv' Hsay. apply HX in Hsay; lia.
Qed.

Lemma jpeg_rotation segs tail v : Forall wf_seg segs -> scan_start tail -> 0 < v ->
  jpegOrientation ([255; 216] ++ encode segs ++ tail) = v <-> rotation segs v.
Proof.
  intros HW HT Hv. unfold jpegOrientation. cbn [app length drop]. apply orientation_says; [done..|].
  pose proof (encode_segs_length segs). rewrite length_app. lia.
Qed.

(** ** PNG chunks *)

Definition png_kind (chunk : list Z) : list Z := slice 4 8 chunk.
(** A chunk of EXIF, of text in any of its three forms, or of the last change. *)
Definition is_png_metadata (kind : list Z) : bool :=
  existsb (fun k => bool_decide (text k = kind)) ["tIME"; "tEXt"; "zTXt"; "iTXt"; "eXIf"].
Definition png_kept (l : list (list Z)) : list (list Z) :=
  filter (fun c => is_png_metadata (png_kind c) = false) l.

Fixpoint parse_png (fuel : nat) (rest : list Z) : option (list (list Z)) :=
  match fuel with
  | O => None
  | S n =>
      match rest with
      | a :: b :: c :: d :: _ =>
          if (length rest <? 12)%nat then None else
          let len := be32 a b c d in
          if Z.of_nat (length rest) <? 12 + len then None
          else
            let size := (12 + Z.to_nat len)%nat in
            if bool_decide (slice 4 8 rest = text "IEND") then Some [take size rest]
            else cons (take size rest) <$> parse_png n (drop size rest)
      | _ => None
      end
  end.

(** The chunks of a whole file, through its end chunk. *)
Definition png_chunks (data : list Z) : option (list (list Z)) :=
  parse_png (length data) (drop 8 data).

Definition wf_chunk (c : list Z) : Prop :=
  exists w x y z t, c = w :: x :: y :: z :: t /\ (12 <= length c)%nat /\ 0 <= be32 w x y z /\
    length c = (12 + Z.to_nat (be32 w x y z))%nat.

Lemma slice_take {A} (c : list A) i j n : (j <= n)%nat -> slice i j (take n c) = slice i j c.
Proof. intros. unfold slice. rewrite take_take. by rewrite Nat.min_l by done. Qed.

Lemma png_dropped_spec kind : png_dropped kind = is_png_metadata kind.
Proof.
  unfold png_dropped, is_png_metadata. apply eq_true_iff_eq.
  rewrite bool_decide_eq_true, existsb_exists, list_elem_of_fmap. split.
  - intros (k & -> & Hk). exists k. rewrite bool_decide_eq_true. split; [|done].
    apply list_elem_of_In. set_solver.
  - intros (k & Hk & HE). rewrite bool_decide_eq_true in HE. exists k. split; [done|].
    apply list_elem_of_In in Hk. set_solver.
Qed.

Lemma png_loop_parse n out rest :
  png_loop None n out rest = (fun cs => out ++ concat (png_kept cs)) <$> parse_png n rest.
Proof.
  revert out rest. induction n as [|n IH]; intros out rest; [done|]. cbn [png_loop parse_png].
  destruct rest as [|a [|b [|c [|d tl]]]]; [done..|].
  destruct (_ <? 12)%nat; [done|]. destruct (_ <? _); [done|].
  set (size := (12 + Z.to_nat _)%nat). set (rest := a :: _).
  assert (HK : png_kind (take size rest) = slice 4 8 rest).
  { apply slice_take. unfold size. lia. }
  destruct (decide (slice 4 8 rest = text "IEND")) as [HE|HE].
  - rewrite (bool_decide_eq_true_2 _ HE). cbn [fmap option_fmap option_map]. f_equal.
    unfold png_kept. rewrite filter_cons, HK, HE. rewrite decide_True by done.
    change (png_dropped (text "IEND")) with false. cbn [filter list_filter concat].
    by rewrite app_nil_r.
  - rewrite (bool_decide_eq_false_2 _ HE), IH.
    destruct (parse_png n (drop size rest)) as [cs|]; [|done]. cbn [fmap option_fmap option_map]. f_equal.
    unfold png_kept. rewrite filter_cons, HK, <- png_dropped_spec. destruct (png_dropped _).
    + by rewrite decide_False.
    + rewrite decide_True by done. cbn [concat]. by rewrite <- app_assoc.
Qed.

Lemma parse_chunk n c rest : wf_chunk c -> parse_png (S n) (c ++ rest) =
  if bool_decide (png_kind c = text "IEND") then Some [c] else cons c <$> parse_png n rest.
Proof.
  intros (w & x & y & z & t & -> & H12 & H0 & HL). cbn [app parse_png].
  change (w :: x :: y :: z :: t ++ rest) with ((w :: x :: y :: z :: t) ++ rest).
  rewrite length_app. rewrite (proj2 (Nat.ltb_ge _ _)) by lia.
  rewrite (proj2 (Z.ltb_ge _ _)) by lia. rewrite <- HL, take_app_length, drop_app_length.
  assert (HS : slice 4 8 ((w :: x :: y :: z :: t) ++ rest) = png_kind (w :: x :: y :: z :: t)).
  { unfold png_kind, slice. by rewrite take_app_le by lia. }
  by rewrite HS.
Qed.

(** A file's chunks: all well formed, the end chunk last and only there. *)
Inductive png_file : list (list Z) -> Prop :=
| png_end c : wf_chunk c -> png_kind c = text "IEND" -> png_file [c]
| png_more c l : wf_chunk c -> png_kind c <> text "IEND" -> png_file l -> png_file (c :: l).

Lemma parse_png_file n rest cs : Forall (fun b => 0 <= b) rest ->
  parse_png n rest = Some cs -> png_file cs.
Proof.
  revert rest cs. induction n as [|n IH]; intros rest cs HB; [done|]. cbn [parse_png].
  destruct rest as [|a [|b [|c [|d tl]]]]; [done..|].
  destruct (_ <? 12)%nat eqn:H12; [done|]. destruct (_ <? _) eqn:HL; [done|].
  set (size := (12 + Z.to_nat _)%nat). set (rest := a :: _) in *.
  assert (H0 : 0 <= be32 a b c d) by (unfold rest in HB; rewrite !Forall_cons in HB; unfold be32; lia).
  assert (Hlen : length (take size rest) = size) by (rewrite length_take; unfold size; lia).
  assert (HW : wf_chunk (take size rest)).
  { assert (HT : take size rest = a :: b :: c :: d :: take (size - 4) tl) by done.
    exists a, b, c, d, (take (size - 4) tl).
    split; [exact HT|]. rewrite Hlen. unfold size. split_and!; [lia|exact H0|done]. }
  assert (HK : png_kind (take size rest) = slice 4 8 rest) by (apply slice_take; unfold size; lia).
  destruct (decide (slice 4 8 rest = text "IEND")) as [HE|HE].
  - rewrite (bool_decide_eq_true_2 _ HE). intros HX.
    assert (cs = [take size rest]) as -> by congruence. by apply png_end; [|rewrite HK].
  - rewrite (bool_decide_eq_false_2 _ HE). intros (l & HP & ->)%fmap_Some.
    apply png_more; [done|by rewrite HK|]. eapply IH; [|exact HP]. by apply Forall_drop.
Qed.

Lemma parse_concat n cs : png_file cs -> (length cs <= n)%nat -> parse_png n (concat cs) = Some cs.
Proof.
  intros HF. revert n. induction HF as [c Hw Hk|c l Hw Hk HF IH]; intros [|n] Hn; simpl in Hn; try lia;
    cbn [concat]; rewrite parse_chunk by done.
  - by rewrite bool_decide_eq_true_2.
  - rewrite bool_decide_eq_false_2 by done. by rewrite IH by lia.
Qed.

Lemma png_kept_file cs : png_file cs -> png_file (png_kept cs).
Proof.
  induction 1 as [c Hw Hk|c l Hw Hk HF IH]; unfold png_kept in *; rewrite filter_cons.
  - rewrite decide_True by (by rewrite Hk). by constructor.
  - case_decide; [by constructor|done].
Qed.

Lemma concat_length cs : png_file cs -> (length cs <= length (concat cs))%nat.
Proof.
  assert (HW : forall c, wf_chunk c -> (0 < length c)%nat) by (intros c (w & x & y & z & t & -> & ?); simpl; lia).
  induction 1 as [c Hw Hk|c l Hw Hk HF IH]; cbn; rewrite length_app; specialize (HW c Hw); simpl; lia.
Qed.

(** ** WebP chunks *)

Definition webp_kind (c : list Z) : list Z := take 4 c.
Definition webp_clean (c : list Z) : list Z :=
  if bool_decide (webp_kind c = text "VP8X") then clear_flags c else c.
Definition is_webp_metadata (kind : list Z) : bool :=
  bool_decide (text "XMP " = kind) || bool_decide (text "EXIF" = kind).
Definition webp_kept (l : list (list Z)) : list (list Z) :=
  webp_clean <$> filter (fun c => is_webp_metadata (webp_kind c) = false) l.

Fixpoint parse_webp (fuel : nat) (rest : list Z) : option (list (list Z)) :=
  match fuel with
  | O => None
  | S n =>
      match rest with
      | k0 :: k1 :: k2 :: k3 :: s0 :: s1 :: s2 :: s3 :: _ =>
          match webp_size (le32 s0 s1 s2 s3) (Z.of_nat (length rest)) with
          | None => None
          | Some padded => cons (take (8 + Z.to_nat padded) rest)
                             <$> parse_webp n (drop (8 + Z.to_nat padded) rest)
          end
      | _ => Some []
      end
  end.

(** The chunks of a whole file; fewer than eight bytes at its end are none. *)
Definition webp_chunks (data : list Z) : option (list (list Z)) :=
  parse_webp (S (length data)) (drop 12 data).

Definition webp_header (c : list Z) (size : Z) : Prop :=
  exists k0 k1 k2 k3 s0 s1 s2 s3 t, c = k0 :: k1 :: k2 :: k3 :: s0 :: s1 :: s2 :: s3 :: t /\
    size = le32 s0 s1 s2 s3 /\ 0 <= size.

(** Padded chunks, but for the last one. *)
Inductive webp_file : list (list Z) -> Prop :=
| webp_nil : webp_file []
| webp_last c size : webp_header c size -> Z.of_nat (length c) = 8 + size -> size mod 2 = 1 ->
    webp_file [c]
| webp_more c size l : webp_header c size -> Z.of_nat (length c) = 8 + (size + size mod 2) ->
    webp_file l -> webp_file (c :: l).

Lemma webp_dropped_spec kind : webp_dropped kind = is_webp_metadata kind.
Proof.
  unfold webp_dropped, is_webp_metadata. apply eq_true_iff_eq.
  rewrite orb_true_iff, !bool_decide_eq_true. set_solver.
Qed.

Lemma webp_loop_parse n out rest :
  webp_loop None n out rest = (fun cs => out ++ concat (webp_kept cs)) <$> parse_webp n rest.
Proof.
  revert out rest. induction n as [|n IH]; intros out rest; [done|]. cbn [webp_loop parse_webp].
  destruct rest as [|k0 [|k1 [|k2 [|k3 [|s0 [|s1 [|s2 [|s3 t]]]]]]]];
    [cbn; by rewrite app_nil_r..|].
  destruct (webp_size _ _) as [padded|]; [|done]. rewrite IH.
  destruct (parse_webp n _) as [cs|]; [|done]. cbn [fmap option_fmap option_map]. f_equal.
  set (chunk := take _ _). unfold webp_kept. rewrite filter_cons.
  change (webp_kind chunk) with [k0; k1; k2; k3].
  rewrite webp_dropped_spec.
  destruct (is_webp_metadata _); [by rewrite decide_False|]. rewrite decide_True by done.
  cbn [fmap list_fmap concat]. unfold webp_clean at 2. change (webp_kind chunk) with [k0; k1; k2; k3].
  destruct (bool_decide _); by rewrite <- app_assoc.
Qed.

Lemma le32_nonneg rest s0 s1 s2 s3 : Forall (fun b => 0 <= b) rest -> s0 ∈ rest -> s1 ∈ rest ->
  s2 ∈ rest -> s3 ∈ rest -> 0 <= le32 s0 s1 s2 s3.
Proof.
  rewrite Forall_forall. intros HF H0 H1 H2 H3. unfold le32, be32.
  apply HF in H0. apply HF in H1. apply HF in H2. apply HF in H3. lia.
Qed.

Lemma parse_webp_file n rest cs : Forall (fun b => 0 <= b) rest ->
  parse_webp n rest = Some cs -> webp_file cs.
Proof.
  revert rest cs. induction n as [|n IH]; intros rest cs HB; [done|]. cbn [parse_webp].
  destruct rest as [|k0 [|k1 [|k2 [|k3 [|s0 [|s1 [|s2 [|s3 t]]]]]]]];
    [intros [= <-]; constructor..|].
  assert (Hs : 0 <= le32 s0 s1 s2 s3) by (eapply le32_nonneg; [exact HB|set_solver..]).
  set (size := le32 s0 s1 s2 s3) in *. set (rest := k0 :: _) in *.
  assert (HH : forall p, webp_header (take (8 + p) rest) size).
  { intros p. unfold rest. cbn [Nat.add take]. by exists k0, k1, k2, k3, s0, s1, s2, s3, (take p t). }
  unfold webp_size. destruct (Z.ltb_spec (Z.of_nat (length rest)) (8 + (size + size mod 2))) as [HL|HL].
  - destruct (Z.eqb_spec (8 + size) (Z.of_nat (length rest))) as [HE|]; [|done].
    intros (l & HP & ->)%fmap_Some.
    assert (HD : drop (8 + Z.to_nat size) rest = []) by (apply drop_ge; lia).
    rewrite HD in HP. destruct n as [|n]; [done|]. injection HP as <-.
    eapply webp_last; [apply HH|rewrite length_take; lia|].
    pose proof (Z.mod_pos_bound size 2). lia.
  - intros (l & HP & ->)%fmap_Some. pose proof (Z.mod_pos_bound size 2).
    eapply webp_more; [apply HH|rewrite length_take; lia|].
    eapply IH; [|exact HP]. by apply Forall_drop.
Qed.

Lemma parse_webp_chunk n c size rest : webp_header c size ->
  Z.of_nat (length c) = 8 + (size + size mod 2) \/
    rest = [] /\ size mod 2 = 1 /\ Z.of_nat (length c) = 8 + size ->
  parse_webp (S n) (c ++ rest) = cons c <$> parse_webp n rest.
Proof.
  intros (k0 & k1 & k2 & k3 & s0 & s1 & s2 & s3 & t & -> & -> & H0) HL. cbn [app parse_webp].
  set (c := k0 :: k1 :: k2 :: k3 :: s0 :: s1 :: s2 :: s3 :: t) in *.
  change (k0 :: k1 :: k2 :: k3 :: s0 :: s1 :: s2 :: s3 :: t ++ rest) with (c ++ rest).
  set (size := le32 s0 s1 s2 s3) in *.
  assert (HS : exists p, webp_size size (Z.of_nat (length (c ++ rest))) = Some p /\
    (8 + Z.to_nat p = length c)%nat).
  { unfold webp_size. rewrite length_app. pose proof (Z.mod_pos_bound size 2).
    destruct HL as [HL|(-> & Hm & HL)].
    - rewrite (proj2 (Z.ltb_ge _ _)) by lia. eexists. split; [done|lia].
    - cbn [length]. rewrite (proj2 (Z.ltb_lt _ _)), (proj2 (Z.eqb_eq _ _)) by lia.
      eexists. split; [done|lia]. }
  destruct HS as (p & -> & ->). by rewrite take_app_length, drop_app_length.
Qed.

Lemma parse_webp_concat n cs : webp_file cs -> (length cs < n)%nat -> parse_webp n (concat cs) = Some cs.
Proof.
  intros HF. revert n. induction HF as [|c size HH HL Hm|c size l HH HL HF IH]; intros [|n] Hn;
    simpl in Hn; try lia; cbn [concat]; [done|..].
  - rewrite (parse_webp_chunk n c size []) by auto. by destruct n; [lia|].
  - rewrite (parse_webp_chunk n c size) by auto. by rewrite IH by lia.
Qed.

Lemma clear_flags_cons a b c d e f g h t : clear_flags (a :: b :: c :: d :: e :: f :: g :: h :: t) =
  a :: b :: c :: d :: e :: f :: g :: h ::
    match t with x :: t' => Z.land x (Z.lxor 255 (Z.lor 8 4)) :: t' | [] => [] end.
Proof. by destruct t. Qed.

Lemma webp_clean_shape c size : webp_header c size ->
  webp_header (webp_clean c) size /\ length (webp_clean c) = length c /\
  webp_kind (webp_clean c) = webp_kind c /\ webp_clean (webp_clean c) = webp_clean c.
Proof.
  intros (k0 & k1 & k2 & k3 & s0 & s1 & s2 & s3 & t & -> & Hs & H0). unfold webp_clean at 1 2 3 5.
  unfold webp_kind. cbn [take]. destruct (bool_decide _) eqn:E.
  2:{ split_and!; [by exists k0, k1, k2, k3, s0, s1, s2, s3, t|done|done|].
      unfold webp_clean, webp_kind. cbn [take]. by rewrite E. }
  rewrite clear_flags_cons. split_and!; [by eexists _, _, _, _, _, _, _, _, _|by destruct t|done|].
  unfold webp_clean, webp_kind. cbn [take]. rewrite E, clear_flags_cons. destruct t; [done|].
  do 9 f_equal. rewrite <- Z.land_assoc. by rewrite Z.land_diag.
Qed.

Lemma webp_kept_file cs : webp_file cs -> webp_file (webp_kept cs).
Proof.
  induction 1 as [|c size HH HL Hm|c size l HH HL HF IH]; unfold webp_kept in *; [constructor|..];
    rewrite filter_cons; destruct (webp_clean_shape c size HH) as (H1 & H2 & _ & _);
    case_decide; cbn [fmap list_fmap filter list_filter]; try done.
  - eapply webp_last; [exact H1|by rewrite H2|done].
  - constructor.
  - eapply webp_more; [exact H1|by rewrite H2|done].
Qed.

Lemma webp_kept_idem cs : webp_file cs -> webp_kept (webp_kept cs) = webp_kept cs.
Proof.
  assert (HC : forall c size l, webp_header c size -> webp_kept (webp_kept l) = webp_kept l ->
    webp_kept (webp_kept (c :: l)) = webp_kept (c :: l)).
  { intros c size l HH HE. destruct (webp_clean_shape c size HH) as (_ & _ & H3 & H4).
    unfold webp_kept in *. rewrite (filter_cons _ c l). case_decide as Hd; [|done].
    cbn [fmap list_fmap]. rewrite filter_cons, H3, decide_True by done. cbn [fmap list_fmap].
    by rewrite H4, HE. }
  induction 1 as [|c size HH HL Hm|c size l HH HL HF IH]; [done|by eapply HC|by eapply HC].
Qed.

Lemma webp_length cs : webp_file cs -> (length cs <= length (concat cs))%nat.
Proof.
  induction 1 as [|c size HH HL Hm|c size l HH HL HF IH]; [done|..];
    destruct HH as (k0 & k1 & k2 & k3 & s0 & s1 & s2 & s3 & t & -> & _);
    cbn; rewrite ?length_app; simpl; lia.
Qed.

Lemma riff_drop out : (12 <= length out)%nat -> drop 12 (with_riff_size out) = drop 12 out.
Proof.
  intros HL. do 8 (destruct out as [|? out]; [simpl in HL; lia|]). done.
Qed.

Lemma riff_twice out : (8 <= length out)%nat ->
  with_riff_size (with_riff_size out) = with_riff_size out /\
  length (with_riff_size out) = length out.
Proof. intros HL. do 8 (destruct out as [|? out]; [simpl in HL; lia|]). done. Qed.

Lemma riff_same a b : length a = 12%nat -> with_riff_size (take 12 (with_riff_size (a ++ b)) ++ b) =
  with_riff_size (a ++ b).
Proof. intros HL. do 12 (destruct a as [|? a]; [done|]). destruct a; [|done]. done. Qed.

(** ** The loops end

    Every round takes at least one byte off what is left, so a round more than the
    bytes left is never run. *)

Lemma orientation_loop_ends a b n rest : (length rest < n)%nat ->
  orientation_loop a n rest = orientation_loop b n rest.
Proof.
  revert rest. induction n as [|n IH]; intros rest Hn; [lia|].
  cbn [orientation_loop]. destruct rest as [|x [|m [|h [|l tl]]]]; [done..|]. cbn [length] in Hn.
  assert (HD : forall j, (0 < j)%nat -> orientation_loop a n (drop j (x :: m :: h :: l :: tl)) =
    orientation_loop b n (drop j (x :: m :: h :: l :: tl))).
  { intros j Hj. apply IH. rewrite length_drop. cbn [length]. lia. }
  by rewrite !HD by lia.
Qed.

Lemma jpeg_loop_ends a b n out rest : (length rest < n)%nat -> jpeg_loop a n out rest = jpeg_loop b n out rest.
Proof.
  revert out rest. induction n as [|n IH]; intros out rest Hn; [lia|].
  cbn [jpeg_loop]. destruct rest as [|x [|m tl]]; [done..|]. cbn [length] in Hn.
  assert (HD : forall o j, (0 < j)%nat -> jpeg_loop a n o (drop j (x :: m :: tl)) =
    jpeg_loop b n o (drop j (x :: m :: tl))).
  { intros o j Hj. apply IH. rewrite length_drop. cbn [length]. lia. }
  rewrite !HD by lia. destruct tl as [|h [|l tl]]; [done..|]. by rewrite !HD by lia.
Qed.

Lemma png_loop_ends a b n out rest : (length rest < n)%nat -> png_loop a n out rest = png_loop b n out rest.
Proof.
  revert out rest. induction n as [|n IH]; intros out rest Hn; [lia|].
  cbn [png_loop]. destruct rest as [|x [|y [|c [|d tl]]]]; [done..|]. cbn [length] in Hn.
  rewrite IH; [done|]. rewrite length_drop. cbn [length]. lia.
Qed.

Lemma webp_loop_ends a b n out rest : (length rest < n)%nat -> webp_loop a n out rest = webp_loop b n out rest.
Proof.
  revert out rest. induction n as [|n IH]; intros out rest Hn; [lia|].
  cbn [webp_loop]. do 8 (destruct rest as [|? rest]; [done|]). cbn [length] in Hn.
  destruct (webp_size _ _); [|done]. apply IH. rewrite length_drop. cbn [length]. lia.
Qed.

(** Each loop keeps at most what it is given. *)
Lemma jpeg_loop_length n out rest o : jpeg_loop None n out rest = Some o ->
  (length o <= length out + length rest)%nat.
Proof.
  revert out rest. induction n as [|n IH]; intros out rest; [done|]. cbn [jpeg_loop].
  destruct rest as [|b [|m tl]]; [done..|]. destruct (negb _); [done|].
  destruct (m =? 255); [intros HE%IH; revert HE; rewrite length_drop; lia|].
  destruct (scan m); [intros [= <-]; by rewrite length_app|].
  destruct (standalone m).
  { intros HE%IH. revert HE. rewrite length_app, length_take, length_drop. lia. }
  destruct tl as [|h [|l tl]]; [done..|]. destruct (_ || _); [done|]. intros HE%IH. revert HE.
  destruct (metadata_marker m); rewrite ?length_app, ?length_take, length_drop; lia.
Qed.

Lemma png_loop_length n out rest o : png_loop None n out rest = Some o ->
  (length o <= length out + length rest)%nat.
Proof.
  revert out rest. induction n as [|n IH]; intros out rest; [done|]. cbn [png_loop].
  destruct rest as [|a [|b [|c [|d tl]]]]; [done..|]. destruct (_ <? 12)%nat; [done|].
  destruct (_ <? _); [done|]. set (out' := if png_dropped _ then _ else _).
  assert (HO : (length out' <= length out + Nat.min (12 + Z.to_nat (be32 a b c d)) (length (a :: b :: c :: d :: tl)))%nat).
  { unfold out'. destruct (png_dropped _); [lia|]. rewrite length_app, length_take. lia. }
  case_bool_decide; [intros [= <-]; lia|]. intros HE%IH. revert HE. rewrite length_drop. lia.
Qed.

Lemma clear_flags_length chunk : length (clear_flags chunk) = length chunk.
Proof. unfold clear_flags. destruct (_ !! _); [by rewrite length_insert|done]. Qed.

Lemma webp_loop_length n out rest o : webp_loop None n out rest = Some o ->
  (length o <= length out + length rest)%nat.
Proof.
  revert out rest. induction n as [|n IH]; intros out rest; [done|]. cbn [webp_loop].
  do 8 (destruct rest as [|? rest]; [intros [= <-]; lia|]).
  destruct (webp_size _ _) as [padded|]; [|done]. intros HE%IH. revert HE.
  match goal with |- context [drop ?j ?l] => set (rest' := l); set (size := j) end.
  rewrite length_drop. destruct (webp_dropped _); [lia|].
  case_bool_decide; rewrite length_app, ?clear_flags_length, length_take; lia.
Qed.

Lemma StripMetadata_length data : (length (StripMetadata data) <= length data + 36)%nat.
Proof.
  unfold StripMetadata. destruct ((4 <? length data)%nat && _) eqn:EJ.
  { apply andb_true_iff in EJ as [EJ%Nat.ltb_lt _]. unfold stripJPEGMetadata.
    destruct (jpeg_loop None _ _ _) as [o|] eqn:E; [|cbn; lia]. apply jpeg_loop_length in E. cbn [default from_option id].
    assert (HL : forall (b : bool) v, (length (if b then jpegOrientationSegment v else []) <= 36)%nat)
      by (intros [] v; cbn [length]; [by vm_compute|lia]).
    specialize (HL ((1 <? jpegOrientation data) && (jpegOrientation data <=? 8)) (jpegOrientation data)).
    rewrite length_app, length_drop in E. change (length [255; 216]) with 2%nat in E. lia. }
  destruct ((8 <? length data)%nat && _) eqn:EP.
  { apply andb_true_iff in EP as [EP%Nat.ltb_lt _]. unfold stripPNGMetadata.
    destruct (png_loop None _ _ _) as [o|] eqn:E; [|cbn; lia]. apply png_loop_length in E. cbn [default from_option id].
    rewrite length_take, length_drop in E. lia. }
  destruct ((12 <? length data)%nat && _ && _) eqn:EW; [|lia].
  apply andb_true_iff in EW as [[EW%Nat.ltb_lt _]%andb_true_iff _]. unfold stripWebPMetadata.
  destruct (webp_loop None _ _ _) as [o|] eqn:E; [|lia]. apply webp_loop_length in E.
  rewrite length_take, length_drop in E. unfold with_riff_size, put_le32.
  rewrite !length_app, length_take, length_drop. cbn [length]. lia.
Qed.

(** ** Properties *)

Lemma strip_written data : stripJPEGMetadata data =
  match jpeg_segments data with
  | Some (segs, tail) =>
      [255; 216] ++ encode (orientation_block (jpegOrientation data) ++ kept segs) ++ tail
  | None => data
  end.
Proof.
  unfold stripJPEGMetadata, jpeg_segments. rewrite jpeg_loop_parse.
  destruct (parse_jpeg _ _) as [[segs tail]|]; [|done].
  cbn [fmap option_fmap option_map default from_option fst snd].
  rewrite <- orientation_block_encode, encode_app, <- !app_assoc. done.
Qed.

Lemma orientation_of_written o segs tail : Forall wf_seg segs -> scan_start tail ->
  jpegOrientation ([255; 216] ++ encode (orientation_block o ++ kept segs) ++ tail) =
  if (1 <? o) && (o <=? 8) then o else 0.
Proof.
  intros HW HT. unfold jpegOrientation. cbn [app length drop].
  rewrite encode_app, orientation_block_encode, <- app_assoc.
  destruct ((1 <? o) && (o <=? 8)) eqn:Ho; [by apply orientation_written|].
  apply orientation_none; [by apply kept_wf|done|].
  rewrite Forall_forall. by intros s [Hs _]%list_elem_of_filter.
Qed.

Lemma kept_twice o segs : kept (orientation_block o ++ kept segs) = kept segs.
Proof.
  unfold kept. rewrite filter_app.
  assert (HF : filter (fun s => is_metadata s = false) (orientation_block o) = []).
  { unfold orientation_block. by destruct (_ && _). }
  rewrite HF, app_nil_l. apply filter_all. rewrite Forall_forall.
  by intros s [Hs _]%list_elem_of_filter.
Qed.

Lemma jpeg_stripped data :
  let o := jpegOrientation data in
  let out := stripJPEGMetadata data in
  match jpeg_segments data with
  | Some (segs, tail) =>
      jpeg_segments out = Some (orientation_block o ++ kept segs, tail) /\
      jpegOrientation out = (if (1 <? o) && (o <=? 8) then o else 0) /\
      (data = [255; 216] ++ encode segs ++ tail -> forall v, 2 <= v <= 8 ->
         rotation segs v <-> rotation (orientation_block o ++ kept segs) v) /\
      stripJPEGMetadata out = out
  | None => out = data
  end.
Proof.
  intros o out. pose proof (strip_written data) as Hout. fold out o in Hout.
  destruct (jpeg_segments data) as [[segs tail]|] eqn:HP; [|done].
  apply parse_jpeg_wf in HP as [HW HT].
  assert (HPd : jpeg_segments out = Some (orientation_block o ++ kept segs, tail)).
  { rewrite Hout. unfold jpeg_segments. cbn [app drop]. apply parse_encode; [|done|].
    - apply Forall_app. split; [apply orientation_block_wf|by apply kept_wf].
    - pose proof (encode_segs_length (orientation_block o ++ kept segs)) as HE.
      cbn [app length]. rewrite (length_app (encode _) tail). lia. }
  assert (HO : jpegOrientation out = if (1 <? o) && (o <=? 8) then o else 0)
    by (rewrite Hout; by apply orientation_of_written).
  split_and!; [done|done| |].
  { intros Hd v Hv. rewrite <- (jpeg_rotation segs tail v), <- Hd by (done || lia).
    rewrite <- (jpeg_rotation (orientation_block o ++ kept segs) tail v); [|
      apply Forall_app; split; [apply orientation_block_wf|by apply kept_wf]|done|lia].
    rewrite <- Hout, HO. fold o. destruct (_ && _) eqn:E; [done|]. lia. }
  rewrite (strip_written out), HPd, HO, kept_twice, Hout.
  assert (HB : orientation_block (if (1 <? o) && (o <=? 8) then o else 0) = orientation_block o).
  { unfold orientation_block. destruct ((1 <? o) && (o <=? 8)) eqn:Ho; by rewrite ?Ho. }
  by rewrite HB.
Qed.

Lemma png_stripped data : Forall (fun b => 0 <= b) data -> (8 <= length data)%nat ->
  match png_chunks data with
  | Some cs =>
      png_chunks (stripPNGMetadata data) = Some (png_kept cs) /\
      stripPNGMetadata (stripPNGMetadata data) = stripPNGMetadata data
  | None => stripPNGMetadata data = data
  end.
Proof.
  intros HB H8. unfold png_chunks.
  assert (HS : forall d, stripPNGMetadata d =
    match parse_png (length d) (drop 8 d) with
    | Some cs => take 8 d ++ concat (png_kept cs) | None => d end).
  { intros d. unfold stripPNGMetadata. rewrite png_loop_parse. by destruct (parse_png _ _). }
  destruct (parse_png (length data) (drop 8 data)) as [cs|] eqn:HP; [|by rewrite HS, HP].
  apply parse_png_file in HP as HF; [|by apply Forall_drop].
  pose proof (png_kept_file cs HF) as HK. rewrite (HS data), HP.
  set (d := take 8 data ++ concat (png_kept cs)).
  assert (H8' : length (take 8 data) = 8%nat) by (rewrite length_take; lia).
  assert (HD : drop 8 d = concat (png_kept cs)).
  { unfold d. rewrite <- H8' at 1. apply drop_app_length. }
  assert (HT : take 8 d = take 8 data).
  { unfold d. rewrite <- H8' at 1. apply take_app_length. }
  assert (HPd : parse_png (length d) (drop 8 d) = Some (png_kept cs)).
  { rewrite HD. apply parse_concat; [done|]. unfold d. rewrite length_app.
    pose proof (concat_length _ HK). lia. }
  split; [done|]. rewrite HS, HPd, HT. unfold d. do 2 f_equal.
  apply filter_all. rewrite Forall_forall. by intros c [Hc _]%list_elem_of_filter.
Qed.

Lemma webp_stripped data : Forall (fun b => 0 <= b) data -> (12 <= length data)%nat ->
  match webp_chunks data with
  | Some cs =>
      let out := stripWebPMetadata data in
      webp_chunks out = Some (webp_kept cs) /\ stripWebPMetadata out = out /\
      take 4 (drop 4 out) = put_le32 (Z.of_nat (length out) - 8)
  | None => stripWebPMetadata data = data
  end.
Proof.
  intros HB H12. unfold webp_chunks.
  assert (HS : forall d, stripWebPMetadata d =
    match parse_webp (S (length d)) (drop 12 d) with
    | Some cs => with_riff_size (take 12 d ++ concat (webp_kept cs)) | None => d end).
  { intros d. unfold stripWebPMetadata. rewrite webp_loop_parse. by destruct (parse_webp _ _). }
  destruct (parse_webp (S (length data)) (drop 12 data)) as [cs|] eqn:HP; [|by rewrite HS, HP].
  apply parse_webp_file in HP as HF; [|by apply Forall_drop].
  pose proof (webp_kept_file cs HF) as HK. rewrite (HS data), HP. cbn zeta.
  assert (H12' : length (take 12 data) = 12%nat) by (rewrite length_take; lia).
  set (body := concat (webp_kept cs)) in *. set (hd := take 12 data) in *.
  set (d := with_riff_size (hd ++ body)).
  assert (HLd : length d = length (hd ++ body)) by (apply riff_twice; rewrite length_app; lia).
  assert (HD : drop 12 d = body).
  { unfold d. rewrite riff_drop by (rewrite length_app; lia). rewrite <- H12'. apply drop_app_length. }
  assert (HPd : parse_webp (S (length d)) (drop 12 d) = Some (webp_kept cs)).
  { rewrite HD. apply parse_webp_concat; [done|]. rewrite HLd, length_app.
    pose proof (webp_length _ HK). fold body in H. lia. }
  split_and!; [done| |].
  - rewrite HS, HPd, (webp_kept_idem cs HF). fold body. by apply riff_same.
  - rewrite HLd. unfold d. clear -H12'. do 12 (destruct hd as [|? hd]; [done|]). done.
Qed.

(** C19. An original keeps its picture and loses what it says about where it was
    taken: for a file the parser of its format reads, the stored file reads as
    exactly the same segments or chunks without EXIF, XMP, IPTC and text blocks,
    in order and byte for byte (the flags announcing EXIF and XMP cleared in a
    WebP), followed by the same scan data; the stored JPEG has no APP1 block but the
    one that keeps a rotation of 2 to 8, and where no fill bytes stand between the
    segments it declares such a rotation exactly when the uploaded file did, in its
    first EXIF block that has one and in either byte order; a file that cannot be read
    is stored unchanged; and stripping a stripped file changes nothing. *)
Theorem metadata_stripped data : Forall (fun b => 0 <= b < 256) data ->
  let out := StripMetadata data in
  (take 2 data = [255; 216] -> (4 < length data)%nat ->
     let o := jpegOrientation data in
     match jpeg_segments data with
     | Some (segs, tail) =>
         jpeg_segments out = Some (orientation_block o ++ kept segs, tail) /\
         jpegOrientation out = (if (1 <? o) && (o <=? 8) then o else 0) /\
         (data = [255; 216] ++ encode segs ++ tail -> forall v, 2 <= v <= 8 ->
            rotation segs v <-> rotation (orientation_block o ++ kept segs) v) /\
         stripJPEGMetadata out = out
     | None => out = data
     end) /\
  (take 8 data = png_signature -> (8 < length data)%nat ->
     match png_chunks data with
     | Some cs => png_chunks out = Some (png_kept cs) /\ stripPNGMetadata out = out
     | None => out = data
     end) /\
  (take 4 data = text "RIFF" -> slice 8 12 data = text "WEBP" -> (12 < length data)%nat ->
     match webp_chunks data with
     | Some cs => webp_chunks out = Some (webp_kept cs) /\ stripWebPMetadata out = out /\
         take 4 (drop 4 out) = put_le32 (Z.of_nat (length out) - 8)
     | None => out = data
     end).
Proof.
  intros HB out.
  assert (HB0 : Forall (fun b => 0 <= b) data) by (eapply Forall_impl; [exact HB|simpl; lia]).
  unfold out, StripMetadata. split_and!.
  - intros H2 H4. rewrite (proj2 (Nat.ltb_lt _ _) H4), (bool_decide_eq_true_2 _ H2). apply jpeg_stripped.
  - intros H8 HL. assert (take 2 data <> [255; 216]).
    { intros HE. apply (f_equal (take 2)) in H8. rewrite take_take in H8. cbn in H8, HE. congruence. }
    rewrite (bool_decide_eq_false_2 (take 2 data = _)), andb_false_r by done.
    rewrite (proj2 (Nat.ltb_lt _ _) HL), (bool_decide_eq_true_2 _ H8).
    apply png_stripped; [done|lia].
  - intros HR HWp HL. destruct data as [|a [|b [|c [|d [|e [|f [|g [|h rest]]]]]]]]; try done.
    injection HR as -> -> -> ->.
    rewrite (bool_decide_eq_false_2 (take 2 _ = [255; 216])), andb_false_r by done.
    rewrite (bool_decide_eq_false_2 (take 8 _ = png_signature)), andb_false_r by done.
    rewrite (proj2 (Nat.ltb_lt _ _) HL), HWp. apply webp_stripped; [done|lia].
Qed.

(** C35. Stripping ends on every input, however malformed: each of its four loops ends
    within as many rounds as the file has bytes, since what a run cut off there
    would answer makes no difference, and the result is at most the block that
    keeps a rotation longer than the file. *)
Theorem stripping_ends data cut cut_orientation : data <> [] ->
  let n := length data in
  orientation_loop cut_orientation n (drop 2 data) = jpegOrientation data /\
  (forall out, jpeg_loop cut n out (drop 2 data) = jpeg_loop None n out (drop 2 data)) /\
  (forall out, png_loop cut n out (drop 8 data) = png_loop None n out (drop 8 data)) /\
  (forall out, webp_loop cut (S n) out (drop 12 data) = webp_loop None (S n) out (drop 12 data)) /\
  (length (StripMetadata data) <= n + 36)%nat.
Proof.
  intros Hne n. assert (Hn : (0 < n)%nat) by (unfold n; destruct data; [done|cbn; lia]).
  split_and!; [|intros out..|].
  - apply orientation_loop_ends. rewrite length_drop. lia.
  - apply jpeg_loop_ends. rewrite length_drop. lia.
  - apply png_loop_ends. rewrite length_drop. lia.
  - apply webp_loop_ends. rewrite length_drop. lia.
  - apply StripMetadata_length.
Qed.

(** A small photo: EXIF holding a rotation and more, a comment, a scan. *)
Definition photo : list Z :=
  [255; 216] ++ jpegOrientationSegment 6 ++ [255; 254; 0; 4; 72; 105] ++
  [255; 219; 0; 3; 7] ++ [255; 218; 0; 2; 1; 2; 3; 255; 217].

Definition photo_rotation : list Z := text "MM" ++ [0; 42; 0; 0; 0; 8; 0; 1] ++
  [1; 18; 0; 3; 0; 0; 0; 1; 0; 6; 0; 0] ++ [0; 0; 0; 0].

Lemma photo_rotated rest : rotation (Seg 225 (0 :: 34 :: exif_header ++ photo_rotation) :: rest) 6.
Proof.
  exists [], (Seg 225 (0 :: 34 :: exif_header ++ photo_rotation)), rest. split_and!; [done| |by intros ? ? ?%not_elem_of_nil].
  exists 0, 34, photo_rotation. split; [done|]. exists true, [0; 1], (drop 10 photo_rotation).
  cbv zeta. split_and!; try by_vm; [by_dec|]. exists [], [1; 18; 0; 3; 0; 0; 0; 1; 0; 6; 0; 0], [0; 0; 0; 0]. split_and!; try by_vm; by_dec.
Qed.

Lemma metadata_stripped_witness :
  StripMetadata photo = [255; 216] ++ jpegOrientationSegment 6 ++ [255; 219; 0; 3; 7] ++
    [255; 218; 0; 2; 1; 2; 3; 255; 217] /\
  exists segs tail, jpeg_segments (StripMetadata photo) = Some (segs, tail) /\ rotation segs 6.
Proof.
  split; [by_vm|].
  assert (HB : Forall (fun b => 0 <= b < 256) photo) by by_dec.
  destruct (metadata_stripped photo HB) as (HJ & _ & _).
  assert (H4 : (4 < length photo)%nat) by by_dec.
  specialize (HJ eq_refl H4). destruct HJ as (HO & _ & HR & _). eexists _, _. split; [exact HO|].
  refine (proj1 (HR _ 6 _) _); [by_vm|lia|exact (photo_rotated _)].
Defined.

Lemma stripping_ends_witness :
  jpeg_loop (Some [1; 2; 3]) (length photo) [] (drop 2 photo) = jpeg_loop None (length photo) [] (drop 2 photo) /\
  jpegOrientation photo = orientation_loop 9 (length photo) (drop 2 photo).
Proof.
  destruct (stripping_ends photo (Some [1; 2; 3]) 9 ltac:(discriminate)) as (HO & HJ & _).
  split; [apply HJ|by rewrite HO].
Defined.

(** The same photo with one fill byte before its EXIF block, which the format
    allows and the stripping loop skips on its own, while the loop that looks for
    the orientation skips two bytes: the rotation is lost. *)
Definition filled_photo : list Z := [255; 216; 255] ++ drop 2 photo.

Lemma fill_loses_orientation :
  jpeg_segments filled_photo = jpeg_segments photo /\
  jpegOrientation photo = 6 /\ jpegOrientation filled_photo = 0 /\
  jpegOrientation (StripMetadata filled_photo) = 0.
Proof. split_and!; by_vm. Qed.

End ImageMeta.
