(* ===== verification/GoList.v ===== *)
(** Go's [container/list], as the two caches use it: a doubly linked list whose
    elements have an identity (the [*list.Element] pointer stored in the cache's
    map).  An element is a pair of its identity and its value, the list is kept
    front first, and identities are allocated by a counter, so a pointer is
    never reused. *)

From S2P Require Export Prelude.

Local Open Scope nat_scope.

Record glist (A : Type) := GList { gl_next : nat; gl_elems : list (nat * A) }.
Arguments GList {A} gl_next gl_elems.
Arguments gl_next {A} g.
Arguments gl_elems {A} g.

Section glist.
Context {A : Type}.
Implicit Types (l : glist A) (e : nat) (x : A).

Definition New : glist A := GList 0 [].
Definition Len l : nat := length (gl_elems l).

Definition PushFront x l : nat * glist A :=
  (gl_next l, GList (S (gl_next l)) ((gl_next l, x) :: gl_elems l)).

Definition Back l : option (nat * A) := list.last (gl_elems l).

(** The value an element pointer leads to. *)
Definition Value e l : option A := snd <$> (snd <$> list_find (fun p => p.1 = e) (gl_elems l)).

Definition Remove e l : glist A := GList (gl_next l) (filter (fun p => p.1 <> e) (gl_elems l)).

Definition MoveToFront e l : glist A :=
  match Value e l with
  | Some x => GList (gl_next l) ((e, x) :: gl_elems (Remove e l))
  | None => l
  end.

(** Mutation through the pointer. *)
Definition Update (f : A -> A) e l : glist A :=
  GList (gl_next l) ((fun p => if decide (p.1 = e) then (p.1, f p.2) else p) <$> gl_elems l).

Definition wf l : Prop :=
  NoDup (gl_elems l).*1 /\ forall e, e ∈ (gl_elems l).*1 -> e < gl_next l.

(** ** Lemmas *)

Lemma wf_New : wf New.
Proof. split; [constructor|]. intros e H. by apply not_elem_of_nil in H. Qed.

Lemma Value_Some e x l : wf l -> Value e l = Some x <-> (e, x) ∈ gl_elems l.
Proof.
  intros [HN _]. unfold Value. rewrite fmap_Some. setoid_rewrite fmap_Some. split.
  - intros ([e' x'] & ([i [e2 x2]] & Hf & Heq) & ->). simpl in *. simplify_eq.
    apply list_find_Some in Hf as (Hl & He & _). simpl in He. subst.
    by eapply list_elem_of_lookup_2.
  - intros Hin. destruct (list_elem_of_lookup_1 _ _ Hin) as [i Hi].
    exists (e, x). split; [|done]. exists (i, (e, x)). split; [|done].
    apply list_find_Some. split_and!; [done..|].
    intros j [e' x'] Hj Hlt. simpl. intros ->.
    assert (i = j); [|lia]. apply (NoDup_lookup _ i j e HN).
    + rewrite list_lookup_fmap. by rewrite Hi.
    + rewrite list_lookup_fmap. by rewrite Hj.
Qed.

Lemma Value_None e l : Value e l = None <-> e ∉ (gl_elems l).*1.
Proof.
  unfold Value. rewrite !fmap_None, list_find_None, Forall_forall. split.
  - intros H (p & -> & Hp)%list_elem_of_fmap. exact (H p Hp eq_refl).
  - intros H p Hp <-. apply H. apply list_elem_of_fmap. eauto.
Qed.

Lemma elem_of_Remove e p l : p ∈ gl_elems (Remove e l) <-> p ∈ gl_elems l /\ p.1 <> e.
Proof. unfold Remove. simpl. rewrite list_elem_of_filter. tauto. Qed.

Lemma Remove_fst_sub e l : (gl_elems (Remove e l)).*1 ⊆ (gl_elems l).*1.
Proof.
  intros i (p & -> & [Hp _]%elem_of_Remove)%list_elem_of_fmap.
  apply list_elem_of_fmap. eauto.
Qed.

Lemma wf_Remove e l : wf l -> wf (Remove e l).
Proof.
  intros [HN HB]. split.
  - unfold Remove. simpl. eapply sublist_NoDup; [exact HN|]. apply fmap_sublist, sublist_filter.
  - intros i Hi. apply HB. by apply (Remove_fst_sub e).
Qed.

Lemma Remove_not_in e l : e ∉ (gl_elems (Remove e l)).*1.
Proof. intros (p & -> & [_ Hp]%elem_of_Remove)%list_elem_of_fmap. done. Qed.

Lemma Remove_perm e x l :
  wf l -> (e, x) ∈ gl_elems l -> gl_elems l ≡ₚ (e, x) :: gl_elems (Remove e l).
Proof.
  intros [HN _] Hin. unfold Remove. simpl.
  apply list_elem_of_split in Hin as (l1 & l2 & Heq). rewrite Heq in HN |- *.
  rewrite fmap_app, fmap_cons in HN. apply NoDup_app in HN as (HN1 & Hdis & HN2).
  simpl in HN2. apply NoDup_cons in HN2 as [Hn2 HN2].
  rewrite filter_app, filter_cons_False by (simpl; tauto).
  assert (Hf : forall k, e ∉ k.*1 -> filter (fun p : nat * A => p.1 <> e) k = k).
  { intros k Hk. apply filter_all. apply Forall_forall. intros p Hp <-. apply Hk.
    apply list_elem_of_fmap. eauto. }
  rewrite (Hf l1), (Hf l2); [by rewrite Permutation_middle|done|].
  intros Hin1. apply (Hdis e Hin1). simpl. apply list_elem_of_here.
Qed.

Lemma Remove_length e x l :
  wf l -> (e, x) ∈ gl_elems l -> Len l = S (Len (Remove e l)).
Proof. intros HW Hin. unfold Len. rewrite (Remove_perm e x l) by done. done. Qed.

Lemma wf_perm_cons e x l :
  wf l -> (e, x) ∈ gl_elems l -> wf (GList (gl_next l) ((e, x) :: gl_elems (Remove e l))).
Proof.
  intros HW Hin. destruct (wf_Remove e l HW) as [HN' HB']. split; simpl.
  - apply NoDup_cons. split; [apply Remove_not_in|done].
  - intros i [->|Hi]%elem_of_cons; [|by apply HB'].
    destruct HW as [_ HB]. apply HB. apply list_elem_of_fmap. by exists (e, x).
Qed.

Lemma MoveToFront_perm e l : wf l -> gl_elems (MoveToFront e l) ≡ₚ gl_elems l.
Proof.
  intros HW. unfold MoveToFront. destruct (Value e l) as [x|] eqn:HV; [|done]. simpl.
  apply Value_Some in HV; [|done]. symmetry. by apply Remove_perm.
Qed.

Lemma wf_MoveToFront e l : wf l -> wf (MoveToFront e l).
Proof.
  intros HW. unfold MoveToFront. destruct (Value e l) as [x|] eqn:HV; [|done].
  apply Value_Some in HV; [|done]. by apply wf_perm_cons.
Qed.

Lemma wf_PushFront x l : wf l -> wf (PushFront x l).2.
Proof.
  intros [HN HB]. unfold PushFront. split; simpl.
  - apply NoDup_cons. split; [|done]. intros H. specialize (HB _ H). lia.
  - intros e [->|He]%elem_of_cons; [lia|]. specialize (HB _ He). lia.
Qed.

Lemma Back_elem p l : Back l = Some p -> p ∈ gl_elems l.
Proof. unfold Back. intros H. apply last_Some in H as [l' ->]. set_solver. Qed.

Lemma Back_None l : Back l = None -> gl_elems l = [].
Proof. unfold Back. apply last_None. Qed.

(** Removing the back element leaves the rest in order. *)
Lemma Back_Remove e x l :
  wf l -> Back l = Some (e, x) -> gl_elems l = gl_elems (Remove e l) ++ [(e, x)].
Proof.
  intros [HN _] HB. unfold Back in HB. apply last_Some in HB as [l' Heq].
  unfold Remove. simpl. rewrite Heq in HN |- *.
  rewrite fmap_app in HN. apply NoDup_app in HN as (_ & Hdis & _).
  rewrite filter_app, filter_cons_False by (simpl; tauto).
  rewrite filter_nil, app_nil_r. f_equal. symmetry. apply filter_all, Forall_forall.
  intros p Hp <-. apply (Hdis p.1); [apply list_elem_of_fmap; eauto|apply list_elem_of_here].
Qed.

Lemma Update_fst f e l : (gl_elems (Update f e l)).*1 = (gl_elems l).*1.
Proof.
  unfold Update. simpl. rewrite <- list_fmap_compose. apply list_fmap_ext.
  intros i [e' x] _. simpl. by case_decide.
Qed.

Lemma wf_Update f e l : wf l -> wf (Update f e l).
Proof. intros [HN HB]. split; [by rewrite Update_fst|]. rewrite Update_fst. done. Qed.

Lemma elem_of_Update f e p l :
  p ∈ gl_elems (Update f e l) <->
  exists q, q ∈ gl_elems l /\ p = if decide (q.1 = e) then (q.1, f q.2) else q.
Proof.
  unfold Update. simpl. rewrite list_elem_of_fmap. split; intros (q & H1 & H2); by exists q.
Qed.

Lemma Update_length f e l : Len (Update f e l) = Len l.
Proof. unfold Len, Update. simpl. apply length_fmap. Qed.

Lemma wf_unique e x y l : wf l -> (e, x) ∈ gl_elems l -> (e, y) ∈ gl_elems l -> x = y.
Proof. intros HW H1 H2. apply Value_Some in H1, H2; [|done..]. congruence. Qed.

(** ** Indexed lists

    The caches find an element through a map from its value's key to its
    pointer.  [indexed] says the map holds exactly the elements of the list. *)
Context (kf : A -> string).

Definition indexed (m : gmap string nat) l : Prop :=
  forall k e, m !! k = Some e <-> exists x, (e, x) ∈ gl_elems l /\ kf x = k.

Lemma indexed_unique m l e1 e2 x1 x2 :
  indexed m l -> (e1, x1) ∈ gl_elems l -> (e2, x2) ∈ gl_elems l -> kf x1 = kf x2 -> e1 = e2.
Proof.
  intros HI H1 H2 Hc.
  assert (m !! kf x1 = Some e1) by (apply HI; eauto).
  assert (m !! kf x1 = Some e2) by (apply HI; eauto).
  congruence.
Qed.

Lemma indexed_perm m l l' :
  gl_elems l' ≡ₚ gl_elems l -> indexed m l -> indexed m l'.
Proof. intros HP HI k e. rewrite (HI k e). by setoid_rewrite HP. Qed.

Lemma indexed_empty : indexed ∅ New.
Proof.
  intros k e. rewrite lookup_empty. split; [done|]. intros (x & H1 & _).
  by apply not_elem_of_nil in H1.
Qed.

Lemma indexed_Remove m e x l :
  wf l -> indexed m l -> (e, x) ∈ gl_elems l -> indexed (delete (kf x) m) (Remove e l).
Proof.
  intros HW HI HB k e'. rewrite lookup_delete_Some, (HI k e'). split.
  - intros (Hk & y & Hin & Heq). exists y. split; [|done].
    apply elem_of_Remove. split; [done|]. simpl. intros ->.
    apply Hk. by rewrite (wf_unique e x y l HW HB Hin).
  - intros (y & [Hin He]%elem_of_Remove & Heq). simpl in He. split; [|eauto].
    intros Hk. apply He. eapply indexed_unique; eauto. congruence.
Qed.

Lemma indexed_PushFront m x l :
  indexed m l -> m !! kf x = None ->
  indexed (<[kf x := (PushFront x l).1]> m) (PushFront x l).2.
Proof.
  intros HI Hk k e. rewrite lookup_insert_Some, (HI k e). simpl. split.
  - intros [[<- <-]|(Hne & y & Hin & <-)].
    + eexists. split; [apply list_elem_of_here|done].
    + exists y. split; [by apply list_elem_of_further|done].
  - intros (y & [Heq|Hin]%elem_of_cons & Hcid).
    + simplify_eq. by left.
    + right. split; [|eauto]. intros Hx.
      assert (m !! kf y = Some e) by (apply HI; eauto). congruence.
Qed.

Lemma indexed_Update m f e l :
  (forall x, kf (f x) = kf x) -> indexed m l -> indexed m (Update f e l).
Proof.
  intros Hf HI k e'. rewrite (HI k e'). split.
  - intros (x & Hin & <-). exists (if decide (e' = e) then f x else x). split.
    + apply elem_of_Update. exists (e', x). split; [done|]. simpl. by case_decide.
    + case_decide; [apply Hf|done].
  - intros (x & ([e2 y] & Hin & Heq)%elem_of_Update & <-). simpl in Heq.
    case_decide; simplify_eq; exists y; by rewrite ?Hf.
Qed.

Lemma indexed_keys_nodup m l : wf l -> indexed m l -> NoDup (kf <$> (gl_elems l).*2).
Proof.
  intros [HN _] HI.
  assert (Hu : forall e1 x1 e2 x2, (e1, x1) ∈ gl_elems l ->
    (e2, x2) ∈ gl_elems l -> kf x1 = kf x2 -> e1 = e2).
  { intros. by eapply indexed_unique. }
  clear HI. induction (gl_elems l) as [|[e x] l' IH]; simpl in *; [constructor|].
  apply NoDup_cons in HN as [Hn HN]. apply NoDup_cons. split.
  - intros (y & Heq & Hin)%list_elem_of_fmap.
    apply list_elem_of_fmap in Hin as ([e' y2] & -> & Hin). simpl in *.
    apply Hn. apply list_elem_of_fmap. exists (e', y2). split; [simpl|done].
    eapply Hu; [apply list_elem_of_here|by apply list_elem_of_further|done].
  - apply IH; [done|]. intros e1 x1 e2 x2 H1 H2. apply Hu; by apply list_elem_of_further.
Qed.

Lemma indexed_size m l : wf l -> indexed m l -> size m = Len l.
Proof.
  intros HW HI. rewrite <- size_dom.
  replace (dom m) with (list_to_set (kf <$> (gl_elems l).*2) : gset string).
  - rewrite size_list_to_set by (by eapply indexed_keys_nodup). by rewrite !length_fmap.
  - apply set_eq. intros k. rewrite elem_of_list_to_set, elem_of_dom. unfold is_Some.
    setoid_rewrite (HI k). rewrite list_elem_of_fmap. split.
    + intros (x & -> & Hin). apply list_elem_of_fmap in Hin as ([e y] & -> & Hin). eauto.
    + intros (e & x & Hin & <-). exists x. split; [done|]. apply list_elem_of_fmap. by exists (e, x).
Qed.

End glist.

Arguments indexed_Remove {A} kf.
Arguments indexed_PushFront {A} kf.

#[export] Hint Resolve wf_New wf_Remove wf_MoveToFront wf_PushFront wf_Update indexed_empty
  indexed_Update : storage.
#[global] Arguments Update : simpl never.
#[global] Arguments MoveToFront : simpl never.
#[global] Arguments Remove : simpl never.
