(* ===== verification/Http.v ===== *)
(** Requests and responses as the handlers see them, the storage they read from
    and the header helpers of [internal/handler]. *)

From S2P Require Export GoUrl Manifest.

Local Open Scope Z_scope.

Module Http.

(** The parts of [*http.Request] the handlers read: headers by canonical name
    (first value), cookies by name, and the user the authentication middleware
    put in the context. *)
Record Request := mkRequest {
  r_Method : string;
  r_Path : string;
  r_Query : Url.Values;
  r_Headers : gmap string string;
  r_Cookies : gmap string string;
  r_UserID : string
}.

Definition Header (r : Request) (k : string) : string := default "" (r_Headers r !! k).

Definition with_query (q : Url.Values) (r : Request) : Request :=
  {| r_Method := r_Method r; r_Path := r_Path r; r_Query := q; r_Headers := r_Headers r;
     r_Cookies := r_Cookies r; r_UserID := r_UserID r |}.

(** A body: a JSON object of strings, a manifest, a list of results, or the bytes
    copied from a file. *)
Inductive Body :=
| JSON (fields : list (string * string))
| ManifestBody (m : Manifest)
| Bytes (content : string)
| NoBody.

Record Response := mkResponse {
  w_Status : Z;
  w_Headers : gmap string string;
  w_Body : Body
}.

(** [writeJSON] on the headers set so far. *)
Definition writeJSON (h : gmap string string) (code : Z) (b : Body) : Response :=
  mkResponse code (<["Content-Type" := "application/json"]> h) b.

Definition jsonError (h : gmap string string) (code : Z) (msg : string) : Response :=
  writeJSON h code (JSON [("error", msg)]).

(** A stream from the cluster: its bytes, and whether it ends in an error. *)
Record reader := mkReader { data : string; rerr : bool }.

(** [io.ReadAll] of [io.LimitReader(r, limit)]. *)
Definition ReadAll (limit : Z) (r : reader) : option string :=
  let n := Z.of_nat (String.length (data r)) in
  if rerr r && (n <? limit) then None
  else Some (if limit <? n then String.substring 0 (Z.to_nat limit) (data r) else data r).

(** The reads of [ipfs.Clusterer] (the manager of Cluster.v implements them). *)
Class Storage := {
  ClusterTryFetch : string -> option reader;
  ClusterTryFetchPath : string -> string -> option reader
}.

(** [fetchVideoAsset]: the file itself, or the original inside a bundle. *)
Definition fetchVideoAsset `{Storage} (cid : string) : option reader :=
  match ClusterTryFetch cid with
  | Some r => Some r
  | None => ClusterTryFetchPath cid OriginalFilename
  end.

Definition maxPlaylistBytes : Z := 4 * 2 ^ 20.

Definition readVideoAsset `{Storage} (cid : string) : option string :=
  match fetchVideoAsset cid with
  | None => None
  | Some r =>
      match ReadAll (maxPlaylistBytes + 1) r with
      | None => None
      | Some d => if maxPlaylistBytes <? Z.of_nat (String.length d) then None else Some d
      end
  end.

(** ** Header helpers *)

Definition inlineSafeContentType (contentType : string) : bool :=
  let mediaType := ToLower (TrimSpace (match Cut contentType ";" with
                                       | Some (a, _) => a | None => contentType end)) in
  bool_decide (mediaType ∈ ["image/jpeg"; "image/png"; "image/webp"; "image/gif"; "image/avif";
                            "image/heic"; "image/heif"; "text/plain"]) ||
  HasPrefix mediaType "video/" || HasPrefix mediaType "audio/" ||
  bool_decide (mediaType = "application/vnd.apple.mpegurl").

Definition file_csp : string :=
  "default-src 'none'; img-src 'self' data:; media-src 'self'; style-src 'unsafe-inline'; sandbox".

Definition setUserFileHeaders (h : gmap string string) (contentType : string) : gmap string string :=
  let h := <["Content-Security-Policy" := file_csp]> h in
  let h := <["X-Content-Type-Options" := "nosniff"]> h in
  if inlineSafeContentType contentType then h
  else <["Content-Disposition" := "attachment"]> (<["Content-Type" := "application/octet-stream"]> h).

Definition protectedMediaCacheControl (managed : bool) : string :=
  if managed then "private, no-store" else "private, max-age=31536000, immutable".

(** A response that cannot act as a page of the app: the sandbox policy is on and
    what is not a picture, video, sound or plain text is a download. *)
Definition inert (h : gmap string string) : Prop :=
  h !! "Content-Security-Policy" = Some file_csp /\
  h !! "X-Content-Type-Options" = Some "nosniff" /\
  (exists ct, h !! "Content-Type" = Some ct /\
     (inlineSafeContentType ct = true \/
      ct = "application/octet-stream" /\ h !! "Content-Disposition" = Some "attachment")).

Lemma setUserFileHeaders_inert h ct :
  h !! "Content-Type" = Some ct -> inert (setUserFileHeaders h ct).
Proof.
  intros Hct. unfold setUserFileHeaders, inert. destruct (inlineSafeContentType ct) eqn:E.
  - split_and!; [by simplify_map_eq..|]. exists ct. split; [by simplify_map_eq|by left].
  - split_and!; [by simplify_map_eq..|]. eexists. split; [by simplify_map_eq|].
    right. split; [done|by simplify_map_eq].
Qed.

Lemma inert_insert h k v : inert h ->
  k ∉ ["Content-Security-Policy"; "X-Content-Type-Options"; "Content-Type"; "Content-Disposition"] ->
  inert (<[k := v]> h).
Proof.
  intros (H1 & H2 & ct & H3 & H4) Hk. rewrite !not_elem_of_cons in Hk.
  destruct Hk as (? & ? & ? & ? & _). unfold inert. rewrite !lookup_insert_ne by done. eauto 6.
Qed.

End Http.
