(* ===== verification/GoIO.v ===== *)
(** [io]: readers as state machines, what reads them to the end, and the reader types
    of the source: [countingReader] ([internal/handler/handler.go]) and
    [luaStringReader] ([internal/auth/lua/request.go]).  They justify [Http.ReadAll],
    which the handlers' models use: however the bytes of a file come in pieces, what
    an upload has read and counted is a function of the file. *)

From S2P Require Export Http.

Local Open Scope Z_scope.

Module GoIO.

(** What a read ends with besides bytes. *)
Inductive read_err := EOF | Failed.
#[export] Instance read_err_eq : EqDecision read_err.
Proof. solve_decision. Defined.

(** [Read] into a buffer of the given length: the reader afterwards, the bytes it put
    into the buffer, and the error. *)
Definition Read_ (S : Type) : Type := S -> nat -> S * (string * option read_err).

Definition prefix_of (n : nat) (s : string) : string := String.substring 0 n s.
Definition rest_of (n : nat) (s : string) : string := String.substring n (String.length s - n) s.

(** [io.ReadAll]: [spare] is the room left in the buffer once so many bytes are in it,
    which [append] decides and is never zero; [fuel] counts the reads. *)
Fixpoint ReadAll {S} (Read : Read_ S) (spare : nat -> nat) (fuel : nat) (r : S) (b : string)
  : option (S * (string * option read_err)) :=
  match fuel with
  | O => None
  | Datatypes.S fuel =>
      let '(r, (d, err)) := Read r (spare (String.length b)) in
      let b := b +:+ d in
      match err with
      | None => ReadAll Read spare fuel r b
      | Some EOF => Some (r, (b, None))
      | Some Failed => Some (r, (b, Some Failed))
      end
  end.

(** [io.LimitedReader] *)
Definition LimitedRead {S} (Read : Read_ S) : Read_ (S * Z) := fun '(r, N) n =>
  if N <=? 0 then ((r, N), ("", Some EOF)) else
  let n := if N <? Z.of_nat n then Z.to_nat N else n in
  let '(r, (d, err)) := Read r n in
  ((r, N - Z.of_nat (String.length d)), (d, err)).

(** ** [countingReader] *)

Record countingReader (S : Type) := mkCounting { cr_r : S; bytesRead : Z }.
Arguments mkCounting {S} _ _.
Arguments cr_r {S} _.
Arguments bytesRead {S} _.

Definition counting_Read {S} (Read : Read_ S) : Read_ (countingReader S) := fun cr n =>
  let '(r, (d, err)) := Read (cr_r cr) n in
  (mkCounting r (int64 (bytesRead cr + Z.of_nat (String.length d))), (d, err)).

(** ** [luaStringReader] *)

Record luaStringReader := mkLuaString { lua_data : string; lua_pos : nat }.

Definition newLuaStringReader (s : string) : luaStringReader := mkLuaString s 0.

Definition lua_Read : Read_ luaStringReader := fun r n =>
  if (String.length (lua_data r) <=? lua_pos r)%nat then (r, ("", Some EOF)) else
  let d := prefix_of n (rest_of (lua_pos r) (lua_data r)) in
  (mkLuaString (lua_data r) (lua_pos r + String.length d), (d, None)).

(** * Specification *)

(** The contract of [io.Reader], of a reader that has [content] left and then ends with
    [e]: a read with room makes progress, in pieces of any size; the end comes in a
    read of its own, or, when it is [EOF], with the last bytes. *)
#[warnings="-register-all"]
Inductive delivers {S} (Read : Read_ S) : S -> string -> read_err -> Prop :=
| delivers_read r content e :
    (forall n, (0 < n)%nat ->
       (content = "" /\ exists r', Read r n = (r', ("", Some e))) \/
       (e = EOF /\ content <> "" /\ (String.length content <= n)%nat /\ exists r', Read r n = (r', (content, Some EOF))) \/
       (exists r' d rest, Read r n = (r', (d, None)) /\ content = d +:+ rest /\ d <> "" /\
          (String.length d <= n)%nat /\ delivers Read r' rest e)) ->
    delivers Read r content e.

(** * Lemmas *)

Lemma length_ne s : s <> "" -> (0 < String.length s)%nat.
Proof. destruct s; [done|simpl; lia]. Qed.

Lemma prefix_of_app d rest n : prefix_of (String.length d + n) (d +:+ rest) = d +:+ prefix_of n rest.
Proof. induction d as [|c d IH]; [by rewrite !append_nil_l|]. rewrite !append_String.
  unfold prefix_of in *. cbn [String.length Nat.add String.substring]. by rewrite IH. Qed.

Lemma prefix_of_all n s : (String.length s <= n)%nat -> prefix_of n s = s.
Proof. revert n. induction s as [|c s IH]; intros [|n] Hn; unfold prefix_of in *; simpl in *; [done|done|lia|]. by rewrite IH by lia. Qed.

Lemma prefix_of_split n s : prefix_of n s +:+ rest_of n s = s.
Proof.
  unfold prefix_of, rest_of. revert n. induction s as [|c s IH]; intros [|n]; simpl; [done|done| |].
  - pose proof (prefix_of_all (String.length s) s (le_n _)) as HW. unfold prefix_of in HW. by rewrite append_nil_l, HW.
  - by rewrite append_String, IH.
Qed.

Lemma rest_of_prefix p s : rest_of (String.length p) (p +:+ s) = s.
Proof.
  pose proof (prefix_of_split (String.length p) (p +:+ s)) as HE.
  pose proof (prefix_of_app p s 0) as HP. rewrite Nat.add_0_r in HP. rewrite HP in HE.
  assert (H0 : prefix_of 0 s = "") by by destruct s. rewrite H0, append_nil_r in HE. by apply append_inj_l in HE.
Qed.

Lemma length_prefix_of n s : String.length (prefix_of n s) = (n `min` String.length s)%nat.
Proof. unfold prefix_of. revert n. induction s as [|c s IH]; intros [|n]; simpl; [done..|]. by rewrite IH. Qed.

Lemma rest_of_add n m s : rest_of (n + m) s = rest_of m (rest_of n s).
Proof.
  revert n. induction s as [|c s IH]; intros n.
  - by destruct n, m.
  - destruct n as [|n]; [|exact (IH n)]. unfold rest_of at 3. rewrite Nat.sub_0_r.
    change (String.substring 0 (String.length (String c s)) (String c s)) with (prefix_of (String.length (String c s)) (String c s)).
    by rewrite prefix_of_all.
Qed.

(** Reading all of a reader gets its content and its end, with enough fuel. *)
Lemma ReadAll_delivers {S} (Read : Read_ S) spare fuel r content e b :
  delivers Read r content e -> (forall k, (0 < spare k)%nat) -> (String.length content < fuel)%nat ->
  exists r', ReadAll Read spare fuel r b =
    Some (r', (b +:+ content, if decide (e = EOF) then None else Some Failed)).
Proof.
  intros HD Hs. revert r content b HD. induction fuel as [|fuel IH]; intros r content b HD Hf; [lia|].
  destruct HD as [r content e HD]. cbn [ReadAll].
  destruct (HD (spare (String.length b)) (Hs _))
    as [(-> & r' & ->)|[(-> & _ & _ & r' & ->)|(r' & d & rest & -> & -> & Hd & _ & HD')]].
  - exists r'. rewrite append_nil_r. by destruct e.
  - by exists r'.
  - rewrite length_append in Hf. apply length_ne in Hd.
    destruct (IH r' rest (b +:+ d) HD' ltac:(lia)) as [r'' ->]. exists r''. by rewrite append_assoc.
Qed.

(** A limited reader delivers the beginning, and then its own end. *)
Lemma LimitedRead_delivers {S} (Read : Read_ S) r content e N : delivers Read r content e -> 0 <= N ->
  delivers (LimitedRead Read) (r, N) (prefix_of (Z.to_nat N) content)
    (if N <=? Z.of_nat (String.length content) then EOF else e).
Proof.
  remember (String.length content) as len eqn:Hlen. revert r content N Hlen.
  induction (lt_wf len) as [len _ IH]; intros r content N -> HD HN. constructor. intros n Hn.
  unfold LimitedRead. destruct (Z.leb_spec N 0) as [H0|H0].
  { replace N with 0 by lia. left. change (Z.to_nat 0) with 0%nat. split; [by destruct content|].
    destruct (Z.leb_spec 0 (Z.of_nat (String.length content))); [by eexists|lia]. }
  cbn zeta. set (n' := if N <? Z.of_nat n then Z.to_nat N else n).
  assert (Hn' : (0 < n' <= n)%nat /\ Z.of_nat n' <= N) by (unfold n'; destruct (Z.ltb_spec N (Z.of_nat n)); lia).
  destruct HD as [r content e HD]. destruct (HD n' ltac:(lia))
    as [(-> & r' & ->)|[(-> & Hne & Hl & r' & ->)|(r' & d & rest & -> & -> & Hd & Hl & HD')]].
  - left. rewrite prefix_of_all by (simpl; lia). split; [done|].
    assert (Hb : (N <=? Z.of_nat (String.length "")) = false) by (apply Z.leb_gt; simpl; lia). rewrite Hb. by eexists.
  - right. left. rewrite prefix_of_all by lia. split; [by case_match|]. split; [done|]. split; [lia|]. by eexists.
  - right. right. apply length_ne in Hd as Hd'.
    assert (HE : Z.to_nat N = (String.length d + Z.to_nat (N - Z.of_nat (String.length d)))%nat) by lia.
    eexists _, d, _. split; [done|]. rewrite HE, prefix_of_app. split; [done|]. split; [done|]. split; [lia|].
    rewrite length_append in IH |- *.
    replace (N <=? Z.of_nat (String.length d + String.length rest))
      with (N - Z.of_nat (String.length d) <=? Z.of_nat (String.length rest)) by (apply eq_true_iff_eq; rewrite !Z.leb_le; lia).
    replace (String.length d + Z.to_nat (N - Z.of_nat (String.length d)) - String.length d)%nat
      with (Z.to_nat (N - Z.of_nat (String.length d))) by lia.
    eapply IH; [|done..|lia]. lia.
Qed.

Lemma int64_add_int64 a b : int64 (int64 a + b) = int64 (a + b).
Proof.
  unfold int64. f_equal.
  replace (a + b + 2 ^ 63) with ((a + 2 ^ 63) + b) by lia. rewrite <- (Zplus_mod_idemp_l (a + 2 ^ 63) b).
  f_equal. lia.
Qed.

(** Counting changes nothing that is read, and counts it. *)
Lemma ReadAll_counting {S} (Read : Read_ S) spare fuel r n b :
  ReadAll (counting_Read Read) spare fuel (mkCounting r (int64 n)) b =
  (fun '(r', (b', err)) =>
     (mkCounting r' (int64 (n + Z.of_nat (String.length b') - Z.of_nat (String.length b))), (b', err)))
    <$> ReadAll Read spare fuel r b.
Proof.
  revert r n b. induction fuel as [|fuel IH]; intros r n b; [done|]. cbn [ReadAll].
  unfold counting_Read at 1. cbn [cr_r bytesRead]. destruct (Read r _) as [r' [d err]].
  rewrite int64_add_int64.
  assert (HE : n + Z.of_nat (String.length d) =
    n + Z.of_nat (String.length (b +:+ d)) - Z.of_nat (String.length b)) by (rewrite length_append; lia).
  destruct err as [[]|]; cbn [fmap option_fmap option_map]; [by rewrite <- HE..|].
  rewrite IH. destruct (ReadAll Read spare fuel r' (b +:+ d)) as [[r'' [b' err]]|]; [|done].
  cbn [fmap option_fmap option_map]. rewrite length_append. do 4 f_equal. lia.
Qed.

Lemma lua_delivers s pos : (pos <= String.length s)%nat -> delivers lua_Read (mkLuaString s pos) (rest_of pos s) EOF.
Proof.
  remember (String.length s - pos)%nat as left eqn:Hleft. revert pos Hleft.
  induction (lt_wf left) as [left _ IH]; intros pos -> Hp. constructor. intros n Hn.
  assert (HL : String.length (rest_of pos s) = (String.length s - pos)%nat).
  { pose proof (f_equal String.length (prefix_of_split pos s)) as HL. rewrite length_append, length_prefix_of in HL. lia. }
  unfold lua_Read. cbn [lua_data lua_pos]. destruct (Nat.leb_spec (String.length s) pos) as [Hend|Hmore].
  { left. split; [|by eexists]. destruct (rest_of pos s); [done|]. simpl in HL. lia. }
  right. right. set (d := prefix_of n (rest_of pos s)).
  assert (Hd : String.length d = (n `min` (String.length s - pos))%nat) by (unfold d; by rewrite length_prefix_of, HL).
  eexists _, d, (rest_of n (rest_of pos s)). split; [done|]. split; [by unfold d; rewrite prefix_of_split|].
  split; [intros E; rewrite E in Hd; simpl in Hd; lia|]. split; [lia|].
  destruct (Nat.le_gt_cases n (String.length s - pos)) as [Hle|Hgt].
  - rewrite <- rest_of_add. replace (pos + n)%nat with (pos + String.length d)%nat by lia.
    eapply IH; [|done|lia]. lia.
  - assert (HE : rest_of n (rest_of pos s) = rest_of (pos + String.length d) s); [|rewrite HE; eapply IH; [|done|lia]; lia].
    assert (Hz : forall k t, (String.length t <= k)%nat -> rest_of k t = "").
    { intros k t Ht. pose proof (f_equal String.length (prefix_of_split k t)) as HLk.
      rewrite length_append, length_prefix_of in HLk. destruct (rest_of k t); [done|]. simpl in HLk. lia. }
    rewrite !Hz by lia. done.
Qed.

(** ** Properties *)

(** C29. What an upload reads and counts is a function of the file: in whatever pieces
    its bytes arrive and into whatever buffers, reading the file to the end through
    the counter and the limiter ends, gives what the handlers' models read -
    everything up to the limit, or an error when the file breaks off below it - and
    the counter, which the size limit and the daily budget go by, says how much
    that was. *)
Theorem counted_read {S} (Read : Read_ S) r content e limit spare fuel :
  delivers Read r content e -> (forall k, (0 < spare k)%nat) -> 0 <= limit < 2 ^ 63 ->
  (String.length content < fuel)%nat ->
  exists r' n d err,
    ReadAll (counting_Read (LimitedRead Read)) spare fuel (mkCounting (r, limit) 0) "" =
      Some (mkCounting r' n, (d, err)) /\
    match Http.ReadAll limit (Http.mkReader content (bool_decide (e = Failed))) with
    | Some data => d = data /\ err = None /\ n = Z.of_nat (String.length data)
    | None => err = Some Failed
    end.
Proof.
  intros HD Hs Hl Hf. set (p := prefix_of (Z.to_nat limit) content).
  assert (HLp : String.length p = (Z.to_nat limit `min` String.length content)%nat) by apply length_prefix_of.
  destruct (ReadAll_delivers (LimitedRead Read) spare fuel (r, limit) p _ ""
    (LimitedRead_delivers Read r content e limit HD ltac:(lia)) Hs ltac:(lia)) as [r' HR].
  pose proof (ReadAll_counting (LimitedRead Read) spare fuel (r, limit) 0 "") as HC.
  change (int64 0) with 0 in HC. rewrite HC, HR. eexists _, _, _, _. split; [done|].
  rewrite append_nil_l, int64_id by (unfold in_int64; simpl; lia).
  unfold Http.ReadAll. cbn [Http.data Http.rerr]. set (n := Z.of_nat (String.length content)).
  replace (0 + Z.of_nat (String.length p) - Z.of_nat (String.length "")) with (Z.of_nat (String.length p)) by (simpl; lia).
  destruct (Z.leb_spec limit n) as [Hln|Hln].
  - replace (n <? limit) with false by lia. rewrite andb_false_r. split; [|split; [done|]].
    + destruct (Z.ltb_spec limit n); [done|]. unfold p. by rewrite prefix_of_all by lia.
    + destruct (Z.ltb_spec limit n); [done|]. lia.
  - replace (n <? limit) with true by lia. rewrite andb_true_r. replace (limit <? n) with false by lia.
    destruct e; cbn; [|done]. unfold p. rewrite prefix_of_all by lia. done.
Qed.

(** The body of a script's request is sent whole, however the transport reads it. *)
Theorem script_body_sent body spare fuel : (forall k, (0 < spare k)%nat) -> (String.length body < fuel)%nat ->
  exists r', ReadAll lua_Read spare fuel (newLuaStringReader body) "" = Some (r', (body, None)).
Proof.
  intros Hs Hf. pose proof (lua_delivers body 0 ltac:(lia)) as HD.
  assert (HE : rest_of 0 body = body).
  { pose proof (prefix_of_split 0 body) as HE. assert (HP : prefix_of 0 body = "") by (by destruct body).
    by rewrite HP, append_nil_l in HE. }
  rewrite HE in HD. destruct (ReadAll_delivers lua_Read spare fuel _ _ _ "" HD Hs Hf) as [r' HR].
  exists r'. unfold newLuaStringReader. by rewrite HR, append_nil_l.
Qed.

(** ** Witnesses *)
Module Toy.

Lemma counted_read_witness :
  let run limit := ReadAll (counting_Read (LimitedRead lua_Read)) (fun _ => 2%nat) 9
                     (mkCounting (newLuaStringReader "sevenby", limit) 0) "" in
  (fun x => (bytesRead x.1, x.2)) <$> run 4 = Some (4, ("seve", None)) /\
  exists r' n d err, run 4 = Some (mkCounting r' n, (d, err)) /\
    match Http.ReadAll 4 (Http.mkReader "sevenby" (bool_decide (EOF = Failed))) with
    | Some data => d = data /\ err = None /\ n = Z.of_nat (String.length data)
    | None => err = Some Failed
    end.
Proof.
  intros run. split; [by_vm|].
  apply (counted_read lua_Read (newLuaStringReader "sevenby") "sevenby" EOF 4 (fun _ => 2%nat) 9).
  - exact (lua_delivers "sevenby" 0 ltac:(simpl; lia)).
  - intros k. lia.
  - lia.
  - simpl. lia.
Defined.

Lemma script_body_sent_witness :
  exists r', ReadAll lua_Read (fun _ => 3%nat) 9 (newLuaStringReader "sevenby") "" = Some (r', ("sevenby", None)).
Proof. apply (script_body_sent "sevenby" (fun _ => 3%nat) 9); [intros k; lia|simpl; lia]. Defined.

End Toy.
End GoIO.
