(* ===== verification/Middleware.v ===== *)
(** [internal/middleware]: authentication by API key or script, rate limiting per
    address, and the header middlewares.  The Lua script is a function from
    requests to its verdict; a token bucket is the interface [Limiter]. *)

From S2P Require Export Http.

Local Open Scope Z_scope.

Module Middleware.
Import Http.

(** ** [auth.go] *)

Definition mediaTokenCookie : string := "iamfree_media_token".

Definition extractToken (r : Request) : string :=
  let auth := Header r "Authorization" in
  if HasPrefix auth "Bearer " then TrimPrefix auth "Bearer " else
  let key := Header r "X-Api-Key" in
  if negb (bool_decide (key = "")) then key else
  let token := Url.Get (r_Query r) "token" in
  if negb (bool_decide (token = "")) then token else
  Url.Get (r_Query r) "access_token".

Definition set_header (k v : string) (r : Request) : Request :=
  {| r_Method := r_Method r; r_Path := r_Path r; r_Query := r_Query r;
     r_Headers := <[k := v]> (r_Headers r); r_Cookies := r_Cookies r; r_UserID := r_UserID r |}.

Definition with_user (id : string) (r : Request) : Request :=
  {| r_Method := r_Method r; r_Path := r_Path r; r_Query := r_Query r; r_Headers := r_Headers r;
     r_Cookies := r_Cookies r; r_UserID := id |}.

(** The session cookie stands in for a missing Authorization header. *)
Definition with_cookie (r : Request) : Request :=
  if bool_decide (Header r "Authorization" = "") then
    match r_Cookies r !! mediaTokenCookie with
    | Some v => if bool_decide (TrimSpace v = "") then r
                else set_header "Authorization" ("Bearer " +:+ TrimSpace v) r
    | None => r
    end
  else r.

Definition validKeys (apiKeys : list string) : gset string :=
  list_to_set (filter (fun k => k <> "") (TrimSpace <$> apiKeys)).

(** The script: [None] when there is none or it is not enabled; its answer is an
    error or whether it accepts the request. *)
Definition script := option (Request -> result string bool).

(** The body it spells out is the JSON of one of the texts below. *)
Definition writeAuthError (status : Z) (msg : string) : Response := jsonError ∅ status msg.

(** The request handed on, or the refusal. *)
Definition AuthMiddleware (apiKeys : list string) (lua : script) (r : Request)
  : result Response Request :=
  if bool_decide (r_Method r = "GET") && bool_decide (r_Path r = "/config") then Ok r else
  let r := with_cookie r in
  let token := extractToken r in
  let refused :=
    if negb (bool_decide (token = "")) then Err (writeAuthError 403 "Authentication failed")
    else Err (writeAuthError 401 "Authentication required") in
  if negb (bool_decide (token = "")) && bool_decide (token ∈ validKeys apiKeys)
  then Ok (with_user "api-key" r)
  else
    match lua with
    | None => refused
    | Some authorize =>
        match authorize r with
        | Err _ => Err (writeAuthError 401 "Authentication failed")
        | Ok true => Ok (with_user "lua-auth" r)
        | Ok false => refused
        end
    end.

Definition APIKeyAuth (apiKeys : list string) : Request -> result Response Request :=
  AuthMiddleware apiKeys None.

(** ** [security.go], [middleware.go] *)

Definition SecurityHeaders (h : gmap string string) : gmap string string :=
  <["X-XSS-Protection" := "1; mode=block"]>
  (<["Referrer-Policy" := "strict-origin-when-cross-origin"]>
  (<["X-Frame-Options" := "DENY"]>
  (<["X-Content-Type-Options" := "nosniff"]> h))).

(** A middleware is a function on handlers; [Chain] applies them outermost first. *)
Definition Chain {H : Type} (h : H) (middlewares : list (H -> H)) : H :=
  fold_right (fun m acc => m acc) h middlewares.

Section cors.
(** [strings.EqualFold] *)
Context (EqualFold : string -> string -> bool).

Definition allowedOrigin (allowedOrigins : list string) (origin : string) : string :=
  match allowedOrigins with
  | [o] => o
  | _ =>
      if bool_decide ("*" ∈ allowedOrigins) then "*"
      else if existsb (fun allowed => negb (bool_decide (origin = "")) && EqualFold allowed origin)
                allowedOrigins
      then origin else ""
  end.

(** The headers set for a request, and whether it is answered here with 204. *)
Definition CORS (allowedOrigins allowedHeaders : list string) (r : Request) (h : gmap string string)
  : gmap string string * bool :=
  let h :=
    if (0 <? length allowedOrigins)%nat then
      let originStr := allowedOrigin allowedOrigins (Header r "Origin") in
      let h := if (1 <? length allowedOrigins)%nat then <["Vary" := "Origin"]> h else h in
      let h := if negb (bool_decide (originStr = "")) then <["Access-Control-Allow-Origin" := originStr]> h
               else h in
      <["Access-Control-Allow-Methods" := "GET, POST, DELETE, OPTIONS"]>
        (<["Access-Control-Allow-Headers" := Join allowedHeaders ","]> h)
    else h in
  if bool_decide (r_Method r = "OPTIONS") then (<["Content-Type" := "application/json"]> h, true)
  else (h, false).
End cors.

(** ** [ratelimit.go] *)

Definition splitByComma (s : string) : list string := Split s ","%char.

(** [trimSpace] drops blanks only. *)
Fixpoint trim_left (s : string) : string :=
  match s with String " " s' => trim_left s' | _ => s end.
Fixpoint trim_right (s : string) : string :=
  match s with
  | EmptyString => ""
  | String c s' =>
      let t := trim_right s' in
      if bool_decide (t = "") && bool_decide (c = " "%char) then "" else String c t
  end.
Definition trimSpace (s : string) : string := trim_right (trim_left s).

(** What is before the last colon. *)
Fixpoint before_colon (s : string) : option string :=
  match s with
  | EmptyString => None
  | String c s' =>
      match before_colon s' with
      | Some t => Some (String c t)
      | None => if bool_decide (c = ":"%char) then Some "" else None
      end
  end.

Definition extractIP (r : Request) (remoteAddr : string) : string :=
  let xff := Header r "X-Forwarded-For" in
  if negb (bool_decide (xff = "")) then trimSpace (hd "" (splitByComma xff))
  else default remoteAddr (before_colon remoteAddr).

(** [rate.NewLimiter] and [Allow] at a moment. *)
Class Limiter := {
  bucket : Type;
  NewLimiter : bucket;
  Allow : Z -> bucket -> bucket * bool
}.

Section ratelimit.
Context `{Limiter}.

Record visitor := mkVisitor { limiter : bucket; lastSeen : Z }.
Abbreviation visitors := (gmap string visitor).

Definition Minute : Z := 60 * 1000000000.

Definition getLimiter (ip : string) (now : Z) (vs : visitors) : visitors * bucket :=
  match vs !! ip with
  | Some v => (<[ip := mkVisitor (limiter v) now]> vs, limiter v)
  | None => (<[ip := mkVisitor NewLimiter now]> vs, NewLimiter)
  end.

(** One request: the limiter is shared with the map, so what [Allow] changes is
    seen by the next request of the same address. *)
Definition RateLimit (ip : string) (now : Z) (vs : visitors) : visitors * bool :=
  let '(vs, l) := getLimiter ip now vs in
  let '(l, ok) := Allow now l in
  (<[ip := mkVisitor l now]> vs, ok).

(** A round of the background clean-up. *)
Definition cleanup (now : Z) (vs : visitors) : visitors :=
  filter (fun kv => ~ 3 * Minute < now - lastSeen kv.2) vs.

Inductive event := Request_ (ip : string) (now : Z) | Cleanup (now : Z).

(** A run, and the verdicts on the requests in their order. *)
Fixpoint run (es : list event) (vs : visitors) : visitors * list (string * bool) :=
  match es with
  | [] => (vs, [])
  | Request_ ip now :: es' =>
      let '(vs, ok) := RateLimit ip now vs in
      let '(vs, out) := run es' vs in (vs, (ip, ok) :: out)
  | Cleanup now :: es' => run es' (cleanup now vs)
  end.

(** * Specification *)

(** The events that concern one address. *)
Definition concerns (ip : string) (e : event) : Prop :=
  match e with Request_ ip' _ => ip' = ip | Cleanup _ => True end.
#[export] Instance concerns_dec ip e : Decision (concerns ip e).
Proof. destruct e; simpl; apply _. Defined.

(** * Lemmas *)

Lemma RateLimit_self ip now vs : (RateLimit ip now vs).1 !! ip = Some
  (mkVisitor (Allow now (default NewLimiter (limiter <$> vs !! ip))).1 now) /\
  (RateLimit ip now vs).2 = (Allow now (default NewLimiter (limiter <$> vs !! ip))).2.
Proof.
  unfold RateLimit, getLimiter.
  destruct (vs !! ip) as [v|]; simpl.
  - destruct (Allow now (limiter v)) as [l ok]. cbn [fst snd]. by rewrite lookup_insert_eq.
  - destruct (Allow now NewLimiter) as [l ok]. cbn [fst snd]. by rewrite lookup_insert_eq.
Qed.

Lemma RateLimit_other ip ip' now vs : ip <> ip' -> (RateLimit ip now vs).1 !! ip' = vs !! ip'.
Proof.
  intros Hne. unfold RateLimit, getLimiter. destruct (vs !! ip) as [v|].
  - destruct (Allow now (limiter v)) as [l ok]. cbn [fst snd]. by rewrite !lookup_insert_ne.
  - destruct (Allow now NewLimiter) as [l ok]. cbn [fst snd]. by rewrite !lookup_insert_ne.
Qed.

Lemma cleanup_lookup now vs ip :
  cleanup now vs !! ip = v ← vs !! ip; if decide (3 * Minute < now - lastSeen v) then None else Some v.
Proof.
  unfold cleanup. rewrite map_lookup_filter. destruct (vs !! ip) as [v|]; [|done]. cbn.
  by repeat case_guard || case_decide.
Qed.

(** What an address sees depends on its own visitor only. *)
Lemma run_concerns ip es vs1 vs2 : vs1 !! ip = vs2 !! ip ->
  filter (fun o => o.1 = ip) (run es vs1).2 = (run (filter (concerns ip) es) vs2).2.
Proof.
  revert vs1 vs2. induction es as [|[ip' now|now] es IH]; intros vs1 vs2 HV; [done| |].
  - rewrite filter_cons. cbn [run concerns]. destruct (RateLimit ip' now vs1) as [w1 ok1] eqn:E1.
    specialize (IH w1). destruct (run es w1) as [x1 out1] eqn:R1. cbn [snd]. rewrite filter_cons.
    destruct (decide (ip' = ip)) as [->|Hne].
    + rewrite !decide_True by done. cbn [run].
      pose proof (RateLimit_self ip now vs1) as [H1 H2]. pose proof (RateLimit_self ip now vs2) as [H3 H4].
      rewrite E1 in H1, H2. destruct (RateLimit ip now vs2) as [w2 ok2] eqn:E2.
      cbn [fst snd] in *. rewrite HV in H1, H2. specialize (IH w2 ltac:(congruence)).
      destruct (run (filter _ es) w2) as [x2 out2]. cbn [snd] in *. congruence.
    + rewrite !decide_False by done. apply IH.
      pose proof (RateLimit_other ip' ip now vs1 Hne) as H1. rewrite E1 in H1. cbn in H1. congruence.
  - rewrite filter_cons. cbn [concerns]. rewrite decide_True by done. cbn [run].
    apply IH. rewrite !cleanup_lookup. by rewrite HV.
Qed.

End ratelimit.

Lemma with_cookie_user r : r_UserID (with_cookie r) = r_UserID r.
Proof. unfold with_cookie. by repeat case_match. Qed.

(** The token is one of the configured keys. *)
Definition has_key (apiKeys : list string) (r : Request) : Prop :=
  extractToken r <> "" /\ Exists (fun k => TrimSpace k = extractToken r) apiKeys.

Lemma validKeys_spec apiKeys r : has_key apiKeys r <-> extractToken r ∈ validKeys apiKeys.
Proof.
  unfold has_key, validKeys. rewrite elem_of_list_to_set, list_elem_of_filter, list_elem_of_fmap.
  rewrite Exists_exists. naive_solver.
Qed.

(** How authentication ends, for a request nobody has been put on yet. *)
Lemma AuthMiddleware_cases apiKeys lua r : r_UserID r = "" ->
  let q := with_cookie r in
  let public := r_Method r = "GET" /\ r_Path r = "/config" in
  let accepted := exists authorize, lua = Some authorize /\ authorize q = Ok true in
  match AuthMiddleware apiKeys lua r with
  | Ok r' => (public /\ r' = r) \/ (~ public /\ has_key apiKeys q /\ r' = with_user "api-key" q) \/
             (~ public /\ ~ has_key apiKeys q /\ accepted /\ r' = with_user "lua-auth" q)
  | Err resp => ~ public /\ ~ has_key apiKeys q /\ ~ accepted /\
                (w_Status resp = 401 \/ w_Status resp = 403)
  end.
Proof.
  intros HU q public accepted. unfold AuthMiddleware. destruct (decide (public)) as [HP|HP].
    { destruct HP as [HP1 HP2]. rewrite !bool_decide_eq_true_2 by done. by left. }
    replace (bool_decide (r_Method r = "GET") && bool_decide (r_Path r = "/config")) with false.
    2:{ symmetry. apply not_true_iff_false. intros ?. go_bools. by apply HP. }
    fold q. destruct (decide (has_key apiKeys q)) as [HK|HK].
    { pose proof (proj1 (validKeys_spec _ _) HK) as Hin. rewrite (bool_decide_eq_true_2 _ Hin).
      rewrite bool_decide_eq_false_2 by apply HK. right. left. by split_and!. }
    replace (negb _ && bool_decide (extractToken q ∈ validKeys apiKeys)) with false.
    2:{ symmetry. apply not_true_iff_false. intros ?. go_bools. apply HK. by apply validKeys_spec. }
    assert (HR : forall (b : bool) (P : Prop), P -> match (if b then Err (writeAuthError 403 "Authentication failed")
        else Err (writeAuthError 401 "Authentication required") : result Response Request) with
        | Ok r' => (public /\ r' = r) \/ (~ public /\ has_key apiKeys q /\ r' = with_user "api-key" q) \/
           (~ public /\ ~ has_key apiKeys q /\ accepted /\ r' = with_user "lua-auth" q)
        | Err resp => ~ public /\ ~ has_key apiKeys q /\ P /\ (w_Status resp = 401 \/ w_Status resp = 403)
        end) by (intros [] P HPx; cbn; auto).
    destruct lua as [authorize|]; [|apply HR; by intros (? & ? & ?)].
    destruct (authorize q) as [[|]|] eqn:HA.
    - right. right. split_and!; [done|done|by exists authorize|done].
    - apply HR. intros (a & [= <-] & ?). congruence.
    - split_and!; [done|done| |by left]. intros (a & [= <-] & ?). congruence.
Qed.

Lemma AuthMiddleware_Ok apiKeys lua r r' : r_UserID r = "" -> AuthMiddleware apiKeys lua r = Ok r' ->
  ((r_Method r = "GET" /\ r_Path r = "/config") /\ r' = r) \/
  (~ (r_Method r = "GET" /\ r_Path r = "/config") /\ has_key apiKeys (with_cookie r) /\
     r' = with_user "api-key" (with_cookie r)) \/
  (~ (r_Method r = "GET" /\ r_Path r = "/config") /\ ~ has_key apiKeys (with_cookie r) /\
     (exists authorize, lua = Some authorize /\ authorize (with_cookie r) = Ok true) /\
     r' = with_user "lua-auth" (with_cookie r)).
Proof. intros HU HE. pose proof (AuthMiddleware_cases apiKeys lua r HU) as HM. by rewrite HE in HM. Qed.

(** ** Properties *)

(** Nothing but [GET /config] gets past authentication without a credential:
    a request is handed on as the platform's exactly when its token - the bearer
    token, or the session cookie's when it has no Authorization header, or else the
    API key header, or else a query token - is one of the configured keys; as a
    session's when it is not and the script accepts it; anything else is refused
    with 401 or 403.  Only a key makes the platform. *)
Theorem authentication_sound apiKeys lua r : r_UserID r = "" ->
  let q := with_cookie r in
  let public := r_Method r = "GET" /\ r_Path r = "/config" in
  let accepted := exists authorize, lua = Some authorize /\ authorize q = Ok true in
  match AuthMiddleware apiKeys lua r with
  | Ok r' => (public /\ r' = r) \/ (~ public /\ has_key apiKeys q /\ r' = with_user "api-key" q) \/
             (~ public /\ ~ has_key apiKeys q /\ accepted /\ r' = with_user "lua-auth" q)
  | Err resp => ~ public /\ ~ has_key apiKeys q /\ ~ accepted /\
                (w_Status resp = 401 \/ w_Status resp = 403)
  end /\
  (forall r', AuthMiddleware apiKeys lua r = Ok r' -> r_UserID r' = "api-key" -> has_key apiKeys q).
Proof.
  intros HU q public accepted. pose proof (AuthMiddleware_cases apiKeys lua r HU) as HM.
  cbv zeta in HM. fold q public accepted in HM.
  split; [exact HM|]. intros r' HE HI. rewrite HE in HM.
  destruct HM as [[_ ->]|[(_ & HK & _)|(_ & _ & _ & ->)]]; [congruence|done|done].
Qed.

(** One address cannot spend another's allowance: in any interleaving of
    requests from anywhere and clean-up rounds, an address gets the verdicts it
    would get if the others had sent nothing. *)
Theorem rate_limit_per_address `{Limiter} ip es :
  filter (fun o => o.1 = ip) (run es ∅).2 = (run (filter (concerns ip) es) ∅).2.
Proof. by apply run_concerns. Qed.

(** * Examples *)

Module Toy.

(** A viewer with the session cookie alone; the script knows one session. *)
Definition cookie_request : Request :=
  mkRequest "GET" "/file/link/7" [] ∅ {[ mediaTokenCookie := " s3ss10n " ]} "".
Definition session_script : script :=
  Some (fun r => Ok (bool_decide (extractToken r = "s3ss10n"))).

Lemma authentication_sound_witness :
  (fun r' => (r_UserID r', extractToken r')) <$>
    AuthMiddleware [" key "; ""] session_script cookie_request = Ok ("lua-auth", "s3ss10n") /\
  ~ (exists r', AuthMiddleware [" key "; ""] session_script cookie_request = Ok r' /\
       r_UserID r' = "api-key").
Proof.
  split; [by_vm|]. intros (r' & HE & HU).
  pose proof (proj2 (authentication_sound [" key "; ""] session_script cookie_request eq_refl) r' HE HU)
    as [_ HX]. revert HX. by_dec.
Defined.

End Toy.

End Middleware.
