(* ===== verification/LuaAuth.v ===== *)
(** [internal/auth]: the Lua provider of [internal/auth/lua], with what its
    sandbox lets a script reach, and the provider of [internal/auth/static].

    The Lua interpreter is the interface [LuaVM]: a compiled script, run on a
    request table, is a tree of its calls to the registered libraries.  The
    network and the process environment are the interface [Outside]; [Do] of
    [net/http] is modelled as far as it decides which addresses are requested. *)

From Stdlib Require Import ZifyBool.
From S2P Require Export Net Middleware.

Local Open Scope Z_scope.

Module LuaAuth.
Import Http Net.

(** ** [request.go]: addresses a script may not request *)

Definition privateRanges : list IPNet := [
  cidr [10; 0; 0; 0] 8;
  cidr [172; 16; 0; 0] 12;
  cidr [192; 168; 0; 0] 16;
  cidr [127; 0; 0; 0] 8;
  cidr [169; 254; 0; 0] 16;
  cidr [0; 0; 0; 0; 0; 0; 0; 0; 0; 0; 0; 0; 0; 0; 0; 1] 128;
  cidr [252; 0; 0; 0; 0; 0; 0; 0; 0; 0; 0; 0; 0; 0; 0; 0] 7;
  cidr [254; 128; 0; 0; 0; 0; 0; 0; 0; 0; 0; 0; 0; 0; 0; 0] 10
].

Definition isPrivateIP (ip : IP) : bool := existsb (fun n => Contains n ip) privateRanges.

(** ** The provider *)

(** What a script sees of a request. *)
Record ReqTable := mkReqTable {
  t_method : string;
  t_path : string;
  t_headers : gmap string string;
  t_query : gmap string string;
  t_remote_addr : string
}.

(** [opts] of a call, as [LVAsString] reads it; the headers in the order of
    [ForEach]. *)
Record Opts := mkOpts { o_headers : list (string * string); o_body : string }.

Record HttpReq := mkHttpReq {
  q_method : string;
  q_url : string;
  q_headers : gmap string string;
  q_body : string
}.

Record HttpResp := mkHttpResp {
  s_StatusCode : Z;
  s_Header : list (string * list string);
  s_body : string        (* what [ReadAll] reads before the end or an error *)
}.

(** [respToTable] *)
Record Reply := mkReply { p_status : Z; p_body : string; p_headers : gmap string string }.

(** How the chunk and the call of [authorize] end. *)
Inductive Outcome :=
| ChunkFailed
| NoAuthorize
| CallFailed
| Returned (v : option bool).   (* [None]: not a boolean *)

(** A script running: its next call to a library and what it does with the
    answer, where a blocked address is raised as a Lua error; a call of [request] by
    the name of its field. *)
Inductive Script :=
| Finished (o : Outcome)
| RequestCall (name rawURL : string) (opts : Opts) (k : option Reply -> Script) (raised : Script)
| EnvGet (key : string) (k : option string -> Script).

(** The libraries a VM is given; [json] computes and is part of the script. *)
Class LuaVM := {
  proto : Type;
  Compile : string -> option proto;
  Run : proto -> ReqTable -> Script
}.

(** What happened outside so far: names looked up and requests sent. *)
Inductive event := Looked (host : string) | Sent (req : HttpReq).

Class Outside := {
  Getenv : string -> string;
  LookupIP : list event -> string -> option (list IP);
  RoundTrip : list event -> HttpReq -> option HttpResp;
  (** The request [net/http] makes of a redirect it follows. *)
  redirected : HttpReq -> HttpResp -> option HttpReq;
  (** The deadline of the call has passed. *)
  Expired : list event -> bool
}.

Section provider.
Context `{LuaVM}.

Record Provider := mkProvider {
  p_script : string;
  timeoutMs : Z;
  envWhitelist : option (gmap string string);
  p_proto : option proto          (* [None]: [compileErr], or no script *)
}.

(** The optional arguments of [NewProvider]: a number or a whitelist. *)
Inductive arg := ArgInt (n : Z) | ArgMap (m : gmap string string).

Definition NewProvider (script : string) (timeout : Z) (args : list arg) : Provider :=
  mkProvider script (if timeout <=? 0 then 3000 else timeout)
    (foldl (fun w a => match a with ArgMap m => Some m | ArgInt _ => w end) None args)
    (if bool_decide (script = "") then None else Compile script).

Definition Enabled (p : Provider) : bool := negb (bool_decide (p_script p = "")).

(** [buildReqTable]: the last value of each header and query parameter. *)
Definition last_values (m : list (string * list string)) : gmap string string :=
  list_to_map (omap (fun kv => pair kv.1 <$> last kv.2) m).

Definition buildReqTable (r : Request) (header : list (string * list string)) (remoteAddr : string) : ReqTable :=
  mkReqTable (r_Method r) (r_Path r) (last_values header) (last_values (r_Query r)) remoteAddr.

Definition isTrustedAuthHost (p : Provider) (host : string) : bool :=
  match envWhitelist p with
  | None => false
  | Some w =>
      let authURL := default "" (w !! "AUTH_SERVICE_URL") in
      if bool_decide (authURL = "") then false else
      match Parse_Hostname authURL with
      | None => false
      | Some h => bool_decide (h = host)
      end
  end.

(** [env.get] *)
Definition env_get `{Outside} (p : Provider) (key : string) : option string :=
  match default ∅ (envWhitelist p) !! key with
  | None => None
  | Some val =>
      if negb (bool_decide (val = "")) then Some val
      else let v := Getenv key in if negb (bool_decide (v = "")) then Some v else None
  end.

Section outside.
Context `{Outside}.

(** Whether the address is let through, and the lookup it made. *)
Definition validateURL (p : Provider) (rawURL : string) (past : list event) : bool * list event :=
  match Parse_Hostname rawURL with
  | None => (false, past)
  | Some host =>
      if bool_decide (host = "") then (false, past)
      else if bool_decide (host = "169.254.169.254") then (false, past)
      else if isTrustedAuthHost p host then (true, past)
      else
        match LookupIP past host with
        | None => (false, past ++ [Looked host])
        | Some ips => (negb (existsb isPrivateIP ips), past ++ [Looked host])
        end
  end.

(** [http.Client.Do] with the default policy: ten requests at most. *)
Fixpoint Do (hops : nat) (req : HttpReq) (past : list event) : option HttpResp * list event :=
  match hops with
  | O => (None, past)
  | S hops' =>
      let past' := past ++ [Sent req] in
      match RoundTrip past req with
      | None => (None, past')
      | Some resp =>
          match redirected req resp with
          | Some req' => Do hops' req' past'
          | None => (Some resp, past')
          end
      end
  end.

(** [textproto.CanonicalMIMEHeaderKey] *)
Definition header_byte (c : ascii) : bool :=
  Url.is_letter c || is_digit c ||
  bool_decide (c ∈ ["!"; "#"; "$"; "%"; "&"; "'"; "*"; "+"; "-"; "."; "^"; "_"; "`"; "|"; "~"]%char).
Definition upper (c : ascii) : ascii :=
  let n := nat_of_ascii c in if ((97 <=? n) && (n <=? 122))%nat then chr (n - 32) else c.
Definition lower (c : ascii) : ascii := lower_ascii c.
Fixpoint canonical_from (first : bool) (s : string) : string :=
  match s with
  | EmptyString => ""
  | String c s' =>
      String (if first then upper c else lower c) (canonical_from (bool_decide (c = "-"%char)) s')
  end.
Definition CanonicalHeaderKey (k : string) : string :=
  if forallb header_byte (chars k) then canonical_from true k else k.

(** [NewRequestWithContext], which parses the address as [validateURL] did, with
    the headers and the body of the call. *)
Definition newRequest (method rawURL : string) (opts : Opts) : HttpReq :=
  mkHttpReq method rawURL
    (foldl (fun h kv => <[CanonicalHeaderKey kv.1 := kv.2]> h) ∅ (o_headers opts))
    (if bool_decide (o_body opts = "nil") then "" else o_body opts).

Definition doRequest (method rawURL : string) (opts : Opts) (past : list event)
  : option HttpResp * list event :=
  match Parse_Hostname rawURL with
  | None => (None, past)
  | Some _ => Do 10 (newRequest method rawURL opts) past
  end.

Definition respToTable (resp : HttpResp) : Reply :=
  mkReply (s_StatusCode resp) (s_body resp) (last_values (s_Header resp)).

(** [registerRequestLib]: the fields of [request]. *)
Definition methods : gmap string string :=
  {[ "get" := "GET"; "post" := "POST"; "put" := "PUT"; "del" := "DELETE" ]}.

(** Running a script; a field [request] does not have is nil, and calling it an error.
    At every call the deadline may have passed, which ends the
    run whatever the script does about errors. *)
Fixpoint exec (p : Provider) (s : Script) (past : list event) : Outcome * list event :=
  if Expired past then (CallFailed, past) else
  match s with
  | Finished o => (o, past)
  | RequestCall name rawURL opts k raised =>
      match methods !! name with
      | None => exec p raised past
      | Some method =>
          match validateURL p rawURL past with
          | (false, past) => exec p raised past
          | (true, past) =>
              let '(resp, past) := doRequest method rawURL opts past in
              exec p (k (respToTable <$> resp)) past
          end
      end
  | EnvGet key k => exec p (k (env_get p key)) past
  end.

(** The verdict, or an error; and what the run did outside. *)
Definition Authorize (p : Provider) (t : ReqTable) (past : list event) : result string bool * list event :=
  if negb (Enabled p) then (Ok false, past) else
  match p_proto p with
  | None => (Err "lua script error", past)
  | Some proto =>
      match exec p (Run proto t) past with
      | (ChunkFailed, past) => (Err "lua script error", past)
      | (NoAuthorize, past) => (Err "lua script must define authorize(req) function", past)
      | (CallFailed, past) => (Err "lua authorize() error", past)
      | (Returned None, past) => (Err "lua authorize() must return boolean", past)
      | (Returned (Some b), past) => (Ok b, past)
      end
  end.

End outside.
End provider.

(** ** [internal/auth/static] *)

Module Static.

Inductive error := errNoToken | errInvalidToken.

(** [auth.Result]: the role; the provider sets no user. *)
Record Result := mkResult { UserID : Z; Role : string }.

Definition Provider : Type := gset string.

Definition New (keys : list string) : Provider :=
  list_to_set (filter (fun t => t <> "") (TrimSpace <$> keys)).

Definition extractToken (headers : gmap string string) : string :=
  let key := default "" (headers !! "X-Api-Key") in
  if negb (bool_decide (key = "")) then key else
  let v := default "" (headers !! "Authorization") in
  if HasPrefix v "Bearer " then TrimPrefix v "Bearer " else "".

Definition Authorize (p : Provider) (headers : gmap string string) : result error Result :=
  let token := extractToken headers in
  if bool_decide (token = "") then Err errNoToken
  else if bool_decide (token ∈ p) then Ok (mkResult 0 "api-key") else Err errInvalidToken.

End Static.

(** ** [main]: the whitelist of the environment *)

Definition env_whitelist (getenv : string -> string) (list : string) : gmap string string :=
  foldl (fun w key => let k := TrimSpace key in
                      if bool_decide (k = "") then w else <[k := getenv k]> w)
    ∅ (Split list ","%char).

(** * Specification *)

(** The ranges as a reader knows them: an IPv4 address, written in four bytes or
    mapped into IPv6, and any other IPv6 address. *)
Definition private4 (ip : list Z) : Prop :=
  match ip with
  | [a; b; _; _] =>
      a = 10 \/ (a = 172 /\ 16 <= b <= 31) \/ (a = 192 /\ b = 168) \/ a = 127 \/ (a = 169 /\ b = 254)
  | _ => False
  end.
Definition private6 (ip : list Z) : Prop :=
  ip = repeat 0 15 ++ [1] \/
  match ip with
  | a :: b :: _ => 252 <= a <= 253 \/ (a = 254 /\ 128 <= b <= 191)
  | _ => False
  end.
Definition private (ip : IP) : Prop :=
  match To4 ip with Some ip4 => private4 ip4 | None => private6 ip end.

(** An address the script may request after [past]: not the metadata address, and
    the authentication service's host or a name that was just looked up and only
    has public addresses. *)
Definition allowed `{LuaVM} `{Outside} (p : Provider) (past : list event) (rawURL : string) : Prop :=
  exists host, Parse_Hostname rawURL = Some host /\ host <> "" /\ host <> "169.254.169.254" /\
    (isTrustedAuthHost p host = true \/
     exists before ips, past = before ++ [Looked host] /\ LookupIP before host = Some ips /\
       Forall (fun ip => ~ private ip) ips).

(** A request that answers the redirect of the one before it. *)
Definition follows `{Outside} (past : list event) (req : HttpReq) : Prop :=
  exists before prev resp, past = before ++ [Sent prev] /\ RoundTrip before prev = Some resp /\
    redirected prev resp = Some req.

(** Every request among [new] was allowed, or is the redirect of one before it. *)
Definition sandboxed `{LuaVM} `{Outside} (p : Provider) (past new : list event) : Prop :=
  forall before req after, new = before ++ Sent req :: after ->
    allowed p (past ++ before) (q_url req) \/ follows (past ++ before) req.

(** Two worlds a script cannot tell apart unless it reads a variable that is not
    whitelisted. *)
Record same_outside `{LuaVM} (p : Provider) (o1 o2 : Outside) : Prop := {
  so_env k : is_Some (default ∅ (envWhitelist p) !! k) -> @Getenv o1 k = @Getenv o2 k;
  so_lookup h n : @LookupIP o1 h n = @LookupIP o2 h n;
  so_trip h r : @RoundTrip o1 h r = @RoundTrip o2 h r;
  so_redirect r s : @redirected o1 r s = @redirected o2 r s;
  so_expired h : @Expired o1 h = @Expired o2 h
}.

(** ** Ranges *)

Lemma byte_case (f : Z -> bool) b : forallb (fun n => f (Z.of_nat n)) (seq 0 256) = true ->
  0 <= b < 256 -> f b = true.
Proof.
  intros Hf Hb. rewrite forallb_forall in Hf. specialize (Hf (Z.to_nat b)).
  rewrite Z2Nat.id in Hf by lia. apply Hf, in_seq. lia.
Qed.

Lemma land_0 b : 0 <= b < 256 -> Z.land b 0 = 0.
Proof. intros _. apply Z.land_0_r. Qed.
Lemma land_255 b : 0 <= b < 256 -> Z.land b 255 = b.
Proof. intros Hb. apply Z.eqb_eq. by apply (byte_case (fun b => Z.land b 255 =? b)). Qed.
Lemma land_240 b : 0 <= b < 256 -> Z.land b 240 = 16 <-> 16 <= b <= 31.
Proof.
  intros Hb. pose proof (byte_case (fun b => Bool.eqb (Z.land b 240 =? 16) ((16 <=? b) && (b <=? 31))) b
    ltac:(by vm_compute) Hb) as HE. apply eqb_prop in HE. lia.
Qed.
Lemma land_254 b : 0 <= b < 256 -> Z.land b 254 = 252 <-> 252 <= b <= 253.
Proof.
  intros Hb. pose proof (byte_case (fun b => Bool.eqb (Z.land b 254 =? 252) ((252 <=? b) && (b <=? 253))) b
    ltac:(by vm_compute) Hb) as HE. apply eqb_prop in HE. lia.
Qed.
Lemma land_192 b : 0 <= b < 256 -> Z.land b 192 = 128 <-> 128 <= b <= 191.
Proof.
  intros Hb. pose proof (byte_case (fun b => Bool.eqb (Z.land b 192 =? 128) ((128 <=? b) && (b <=? 191))) b
    ltac:(by vm_compute) Hb) as HE. apply eqb_prop in HE. lia.
Qed.

(** What a network asks of an address of its own family. *)
Definition in_net (nm : list Z * list Z) (ip : IP) : Prop :=
  length ip = length nm.1 /\ zip_with Z.land nm.1 nm.2 = zip_with Z.land ip nm.2.

Lemma Contains_in_net n nm ip : networkNumberAndMask n = Some nm ->
  Contains n ip = true <-> in_net nm (default ip (To4 ip)).
Proof.
  intros HN. unfold Contains, in_net. rewrite HN. destruct nm as [nn m]. cbn.
  rewrite andb_true_iff, Nat.eqb_eq, bool_decide_eq_true. tauto.
Qed.

Definition ranges : list (list Z * list Z) := omap networkNumberAndMask privateRanges.

Lemma isPrivateIP_nets ip : isPrivateIP ip = true <-> Exists (fun nm => in_net nm (default ip (To4 ip))) ranges.
Proof.
  unfold isPrivateIP, ranges. rewrite existsb_exists.
  assert (HR : Forall (fun n => is_Some (networkNumberAndMask n)) privateRanges)
    by (repeat constructor; by eexists).
  induction HR as [|n l [nm HN] HR IH]; [split; [by intros (? & [] & _)|by intros ?%Exists_nil]|].
  cbn [omap list_omap]. rewrite HN, Exists_cons, <- IH, <- (Contains_in_net n nm ip HN).
  split; [intros (x & [<-|Hx] & HC); [by left|right; eauto]|].
  intros [HC|(x & Hx & HC)]; [exists n|exists x]; (split; [|done]); [by left|by right].
Qed.

Lemma To4_length ip ip4 : To4 ip = Some ip4 -> length ip4 = 4%nat.
Proof.
  unfold To4. destruct (length ip =? 4)%nat eqn:E4; [by intros [= <-]; apply Nat.eqb_eq|].
  destruct (length ip =? 16)%nat eqn:E; [|done]. apply Nat.eqb_eq in E. cbn [andb].
  destruct (bool_decide _); [|done]. intros [= <-]. rewrite length_drop. lia.
Qed.

Lemma To4_None ip : address ip -> To4 ip = None -> length ip = 16%nat.
Proof.
  intros [_ [Hl|Hl]] HT; [|done]. unfold To4 in HT. by rewrite Hl in HT.
Qed.

(** The two families, at the constants of the code. *)
Ltac in_ranges :=
  let r := eval vm_compute in ranges in change ranges with r;
  repeat match goal with
  | |- context [Exists _ []] => rewrite Exists_nil
  | |- context [Exists _ (_ :: _)] => rewrite Exists_cons
  end; unfold in_net; cbn [length fst snd zip_with];
  repeat match goal with
  | |- context [Z.land (Zpos ?x) (Zpos ?y)] =>
      let v := eval vm_compute in (Z.land (Zpos x) (Zpos y)) in change (Z.land (Zpos x) (Zpos y)) with v
  | |- context [Z.land 0 (Zpos ?y)] => change (Z.land 0 (Zpos y)) with 0
  end.

Lemma ranges4 a b c d : 0 <= a < 256 -> 0 <= b < 256 ->
  Exists (fun nm => in_net nm [a; b; c; d]) ranges <-> private4 [a; b; c; d].
Proof.
  intros Ha Hb. in_ranges. rewrite !(land_255 a), !(land_255 b), !Z.land_0_r by done.
  pose proof (land_240 b Hb) as H240. unfold private4. split.
  - intros HE. repeat destruct HE as [[? HE]|HE]; simplify_eq; try tauto.
    right; left. split; [done|]. by apply H240.
  - intros [->|[[-> HB]|[[-> ->]|[->|[-> ->]]]]]; try tauto.
    right; left. split; [done|]. apply H240 in HB. by rewrite HB.
Qed.

Lemma ranges6 ip : address ip -> length ip = 16%nat ->
  Exists (fun nm => in_net nm ip) ranges <-> private6 ip.
Proof.
  intros [HF _] Hl. unfold private6.
  do 16 (destruct ip as [|? ip]; [done|]). destruct ip; [|done].
  repeat match type of HF with Forall _ (_ :: _) => apply Forall_cons in HF as [? HF] end.
  in_ranges. rewrite !land_255, !Z.land_0_r by done.
  match goal with |- context [Z.land ?a 254] => pose proof (land_254 a ltac:(done)) as H254 end.
  match goal with |- context [Z.land ?b 192] => pose proof (land_192 b ltac:(done)) as H192 end.
  split.
  - intros HE. repeat destruct HE as [[? HE]|HE]; simplify_eq; try tauto.
    + right; left. by apply H254.
    + right; right. split; [done|]. by apply H192.
  - cbn [repeat app]. intros [HE|[HA|[-> HB]]]; [simplify_eq; tauto| |].
    + apply H254 in HA. rewrite HA. tauto.
    + apply H192 in HB. rewrite HB. tauto.
Qed.

Lemma isPrivateIP_spec ip : address ip -> isPrivateIP ip = true <-> private ip.
Proof.
  intros HA. rewrite isPrivateIP_nets. unfold private. destruct (To4 ip) as [ip4|] eqn:HT.
  - pose proof (To4_length _ _ HT) as Hl. cbn [default].
    assert (HF : Forall (fun b => 0 <= b < 256) ip4).
    { unfold To4 in HT. destruct HA as [HF _]. repeat case_match; simplify_eq; [done|]. by apply Forall_drop. }
    do 4 (destruct ip4 as [|? ip4]; [done|]). destruct ip4; [|done].
    apply Forall_cons in HF as [? [? _]%Forall_cons]. by apply ranges4.
  - cbn [default]. apply ranges6; [done|]. by apply To4_None.
Qed.

(** ** Running a script *)

Section running.
Context `{LuaVM} `{Outside}.
(** A resolver answers with addresses. *)
Context (HR : forall h n ips, LookupIP h n = Some ips -> Forall address ips).

Lemma validateURL_true p url past past' : validateURL p url past = (true, past') ->
  allowed p past' url /\ (past' = past \/ exists host, past' = past ++ [Looked host]).
Proof.
  unfold validateURL. destruct (Parse_Hostname url) as [host|] eqn:HP; [|done].
  case_bool_decide as He; [done|]. case_bool_decide as Hm; [done|].
  destruct (isTrustedAuthHost p host) eqn:HT.
  { intros [= <-]. split; [|by left]. exists host. auto. }
  destruct (LookupIP past host) as [ips|] eqn:HL; [|done]. intros [= Hn%negb_true_iff <-].
  split; [|by right; exists host]. exists host. split_and!; [done..|]. right. exists past, ips.
  split_and!; [done..|]. rewrite Forall_forall. intros ip Hip Hpriv.
  apply HR in HL. rewrite Forall_forall in HL. apply isPrivateIP_spec in Hpriv; [|by apply HL].
  apply not_true_iff_false in Hn. apply Hn, existsb_exists. exists ip. split; [by apply list_elem_of_In|done].
Qed.

Lemma validateURL_false p url past past' : validateURL p url past = (false, past') ->
  past' = past \/ exists host, past' = past ++ [Looked host].
Proof.
  unfold validateURL. intros HV. repeat (case_match; simplify_eq); eauto.
Qed.

Lemma sandboxed_nil p past : sandboxed p past [].
Proof. intros [|? ?] req after; discriminate. Qed.

Lemma sandboxed_app p past l1 l2 : sandboxed p past l1 -> sandboxed p (past ++ l1) l2 ->
  sandboxed p past (l1 ++ l2).
Proof.
  intros H1 H2 before req after HE. apply app_eq_inv in HE as [(k & -> & Hk)|(k & -> & ->)].
  - destruct k as [|e k]; [|injection Hk as <- ->; by eapply H1].
    rewrite app_nil_r in *. cbn in Hk. specialize (H2 [] req after). rewrite app_nil_r in H2. auto.
  - rewrite app_assoc. by eapply H2.
Qed.

Lemma sandboxed_looked p past host : sandboxed p past [Looked host].
Proof. intros [|? [|? ?]] req after; discriminate. Qed.

Lemma Do_sandboxed p n req past : (allowed p past (q_url req) \/ follows past req) ->
  exists l, (Do n req past).2 = past ++ l /\ sandboxed p past l.
Proof.
  revert req past. induction n as [|n IH]; intros req past HA.
  { exists []. rewrite app_nil_r. split; [done|apply sandboxed_nil]. }
  assert (H1 : sandboxed p past [Sent req]).
  { intros [|? [|? ?]] r after HE; simplify_eq/=. rewrite app_nil_r. exact HA. }
  cbn [Do]. destruct (RoundTrip past req) as [resp|] eqn:ET; [|by exists [Sent req]].
  destruct (redirected req resp) as [req'|] eqn:EF; [|by exists [Sent req]].
  destruct (IH req' (past ++ [Sent req])) as (l & -> & Hl).
  { right. by exists past, req, resp. }
  exists (Sent req :: l). rewrite <- app_assoc. split; [done|]. by apply (sandboxed_app p past [Sent req] l).
Qed.

(** The past is only added to. *)
Lemma Do_extends n req past : exists l, (Do (S n) req past).2 = past ++ Sent req :: l.
Proof.
  revert req past. induction n as [|n IH]; intros req past; cbn [Do];
    (destruct (RoundTrip past req) as [resp|]; [|by exists []]);
    (destruct (redirected req resp) as [req'|]; [|by exists []]); [by exists []|].
  destruct (IH req' (past ++ [Sent req])) as [l HL]. cbn [Do] in HL. rewrite HL, <- app_assoc.
  by eexists.
Qed.

Lemma Do_redirect n req past resp req' : RoundTrip past req = Some resp -> redirected req resp = Some req' ->
  exists l, (Do (S (S n)) req past).2 = past ++ [Sent req; Sent req'] ++ l.
Proof.
  intros HT HF. destruct (Do_extends n req' (past ++ [Sent req])) as [l HL]. exists l.
  change (Do (S (S n)) req past) with
    (match RoundTrip past req with
     | None => (None, past ++ [Sent req])
     | Some resp => match redirected req resp with
                    | Some req' => Do (S n) req' (past ++ [Sent req])
                    | None => (Some resp, past ++ [Sent req])
                    end
     end).
  by rewrite HT, HF, HL, <- app_assoc.
Qed.

Lemma exec_extends p s past : exists l, (exec p s past).2 = past ++ l.
Proof.
  assert (HN : forall past : list event, exists l, past = past ++ l) by (intros h; exists []; by rewrite app_nil_r).
  revert past. induction s as [o|name url opts k IHk raised IHr|key k IHk]; intros past; cbn [exec];
    (destruct (Expired past); [apply HN|]); [apply HN| |apply IHk].
  destruct (methods !! name) as [method|]; [|apply IHr].
  assert (HV : exists l, (validateURL p url past).2 = past ++ l).
  { unfold validateURL. repeat case_match; cbn [snd]; first [apply HN|by eexists]. }
  destruct HV as [l1 HV]. destruct (validateURL p url past) as [[] past1]; cbn [snd] in HV; subst past1.
  - assert (HD : exists l, (doRequest method url opts (past ++ l1)).2 = (past ++ l1) ++ l).
    { unfold doRequest. destruct (Parse_Hostname url); [|apply HN].
      destruct (Do_extends 9 (newRequest method url opts) (past ++ l1)) as [l ->]. by eexists. }
    destruct HD as [l2 HD]. destruct (doRequest _ _ _ _) as [resp past2]. cbn [snd] in HD. subst past2.
    destruct (IHk (respToTable <$> resp) ((past ++ l1) ++ l2)) as [l3 ->]. rewrite <- !app_assoc. by eexists.
  - destruct (IHr (past ++ l1)) as [l ->]. rewrite <- app_assoc. by eexists.
Qed.

Lemma exec_sandboxed p s past : exists l, (exec p s past).2 = past ++ l /\ sandboxed p past l.
Proof.
  assert (HN : forall past, exists l, past = past ++ l /\ sandboxed p past l).
  { intros h. exists []. rewrite app_nil_r. split; [done|apply sandboxed_nil]. }
  revert past. induction s as [o|name url opts k IHk raised IHr|key k IHk]; intros past; cbn [exec];
    (destruct (Expired past); [apply HN|]); [apply HN| |apply IHk].
  destruct (methods !! name) as [method|]; [|apply IHr].
  destruct (validateURL p url past) as [[] past1] eqn:EV.
  - apply validateURL_true in EV as [HA HX].
    assert (HE : exists l1, past1 = past ++ l1 /\ sandboxed p past l1).
    { destruct HX as [->|[host ->]]; [apply HN|]. exists [Looked host]. split; [done|apply sandboxed_looked]. }
    destruct HE as (l1 & -> & Hl1). unfold doRequest.
    destruct (Parse_Hostname url) eqn:EP.
    2:{ destruct (IHk (respToTable <$> (None : option HttpResp)) (past ++ l1)) as (l2 & HE2 & Hl2).
        exists (l1 ++ l2). rewrite app_assoc. split; [exact HE2|by apply sandboxed_app]. }
    destruct (Do_sandboxed p 10 (newRequest method url opts) (past ++ l1)) as (l2 & HE2 & Hl2); [by left|].
    destruct (Do 10 _ _) as [resp past2]. cbn [snd] in HE2. subst past2.
    destruct (IHk (respToTable <$> resp) ((past ++ l1) ++ l2)) as (l3 & HE3 & Hl3).
    exists (l1 ++ l2 ++ l3). rewrite HE3, !app_assoc. split; [done|].
    rewrite <- app_assoc. apply sandboxed_app; [done|]. by apply sandboxed_app.
  - destruct (IHr past1) as (l2 & HE2 & Hl2). apply validateURL_false in EV as [->|[host ->]].
    + by exists l2.
    + exists (Looked host :: l2). rewrite HE2, <- app_assoc. split; [done|].
      apply (sandboxed_app p past [Looked host] l2); [apply sandboxed_looked|done].
Qed.

End running.

Section same.
Context `{LuaVM} (p : Provider) (o1 o2 : Outside) (HO : same_outside p o1 o2).

Lemma env_get_same key : @env_get _ o1 p key = @env_get _ o2 p key.
Proof.
  unfold env_get. destruct (_ !! key) eqn:E; [|done]. rewrite (so_env _ _ _ HO key) by (by rewrite E). done.
Qed.

Lemma validateURL_same url past : @validateURL _ o1 p url past = @validateURL _ o2 p url past.
Proof. unfold validateURL. destruct (Parse_Hostname url); [|done]. by rewrite (so_lookup _ _ _ HO). Qed.

Lemma Do_same n req past : @Do o1 n req past = @Do o2 n req past.
Proof.
  revert req past. induction n as [|n IH]; intros req past; [done|]. cbn [Do].
  rewrite (so_trip _ _ _ HO). destruct (RoundTrip past req) as [resp|]; [|done].
  rewrite (so_redirect _ _ _ HO). destruct (redirected req resp); [apply IH|done].
Qed.

Lemma exec_same s past : @exec _ o1 p s past = @exec _ o2 p s past.
Proof.
  revert past. induction s as [o|name url opts k IHk raised IHr|key k IHk]; intros past; cbn [exec];
    rewrite (so_expired _ _ _ HO); (destruct (Expired past); [done|]); [done| |].
  - destruct (methods !! name) as [method|]; [|apply IHr]. rewrite validateURL_same. destruct (validateURL p url past) as [[] past1]; [|apply IHr].
    unfold doRequest. destruct (Parse_Hostname url); [|apply IHk]. rewrite Do_same.
    destruct (Do 10 _ past1) as [resp past2]. apply IHk.
  - rewrite env_get_same. apply IHk.
Qed.

Lemma Authorize_same t past : @Authorize _ o1 p t past = @Authorize _ o2 p t past.
Proof.
  unfold Authorize. destruct (negb (Enabled p)); [done|]. destruct (p_proto p) as [proto|]; [|done].
  by rewrite exec_same.
Qed.

End same.

(** ** Properties *)

(** C16. What an authorisation script can do outside, whatever it is: every request
    sent on its behalf goes to an address it was allowed - never written as the
    metadata address, and either on the authentication service's host or under a
    name whose addresses were just resolved and are all public - or answers the
    redirect of the request before it; of the environment it can only tell
    apart what the whitelist names; and without a script nothing is accepted. *)
Theorem script_sandboxed `{LuaVM} `{o : Outside} p t past :
  (forall h n ips, LookupIP h n = Some ips -> Forall address ips) ->
  let '(verdict, after) := Authorize p t past in
  (exists new, after = past ++ new /\ sandboxed p past new) /\
  (forall o' : Outside, same_outside p o o' -> @Authorize _ o' p t past = (verdict, after)) /\
  (Enabled p = false -> verdict = Ok false /\ after = past).
Proof.
  intros HR. destruct (Authorize p t past) as [verdict after] eqn:EA. split_and!.
  - unfold Authorize in EA.
    assert (HN : exists new, past = past ++ new /\ sandboxed p past new).
    { exists []. rewrite app_nil_r. split; [done|apply sandboxed_nil]. }
    destruct (negb (Enabled p)); [by simplify_eq|]. destruct (p_proto p) as [proto|]; [|by simplify_eq].
    destruct (exec_sandboxed HR p (Run proto t) past) as (l & Hl & HS).
    destruct (exec p (Run proto t) past) as [out past']. cbn in Hl. subst past'.
    exists l. split; [|done]. by repeat case_match; simplify_eq.
  - intros o' HO. rewrite <- (Authorize_same p o o' HO). exact EA.
  - intros HE. unfold Authorize in EA. rewrite HE in EA. injection EA as <- <-. done.
Qed.

(** The addresses a script is kept from are exactly the private, loopback and
    link-local ranges of the list, for IPv4 in either of its forms and for IPv6;
    the unspecified addresses, which reach the machine itself, are not among them. *)
Theorem private_ranges_exact ip : address ip ->
  (isPrivateIP ip = true <-> private ip) /\
  isPrivateIP [0; 0; 0; 0] = false /\ isPrivateIP (repeat 0 16) = false.
Proof. intros HA. split; [by apply isPrivateIP_spec|]. by split; vm_compute. Qed.

(** A redirect leaves the sandbox: when an address a script may request answers
    with a redirect, the address it names is requested next without any check,
    the cloud's metadata service and private addresses included. *)
Theorem redirect_unchecked `{LuaVM} `{Outside} p name method url opts k raised past past1 resp req' :
  Expired past = false -> methods !! name = Some method -> validateURL p url past = (true, past1) ->
  RoundTrip past1 (newRequest method url opts) = Some resp ->
  redirected (newRequest method url opts) resp = Some req' ->
  exists rest, (exec p (RequestCall name url opts k raised) past).2 =
    past1 ++ [Sent (newRequest method url opts); Sent req'] ++ rest.
Proof.
  intros HX HMe HV HT HF. cbn [exec]. rewrite HX, HMe, HV. unfold doRequest.
  assert (HP : is_Some (Parse_Hostname url)).
  { revert HV. unfold validateURL. by destruct (Parse_Hostname url). }
  destruct HP as [host ->]. destruct (Do_redirect 8 _ _ _ _ HT HF) as [l HL].
  destruct (Do 10 _ past1) as [r past2]. cbn [snd] in HL. subst past2.
  destruct (exec_extends p (k (respToTable <$> r)) (past1 ++ [Sent (newRequest method url opts); Sent req'] ++ l))
    as [l' ->]. exists (l ++ l'). by rewrite <- !app_assoc.
Qed.

(** * Examples *)

Module Toy.

(** A script that asks the authentication service about the session and accepts it
    on status 200; the service answers, or sends the caller elsewhere. *)
#[local] Instance vm : LuaVM := {
  proto := unit;
  Compile _ := Some tt;
  Run _ t :=
    EnvGet "AUTH_SERVICE_URL" (fun base =>
      RequestCall "get" (default "" base +:+ "/session") (mkOpts [("authorization", default "" (t_headers t !! "Authorization"))] "")
        (fun reply => Finished (Returned (Some (bool_decide ((p_status <$> reply) = Some 200)))))
        (Finished CallFailed))
}.

Definition metadata : HttpReq := mkHttpReq "GET" "http://169.254.169.254/latest/meta-data" ∅ "".

Definition outside (redirects : bool) : Outside := {|
  Getenv k := if bool_decide (k = "AUTH_SERVICE_URL") then "https://auth.example:8443" else "secret";
  LookupIP _ host := if bool_decide (host = "auth.example") then Some [[93; 184; 216; 34]] else None;
  RoundTrip _ req := Some (mkHttpResp (if redirects && bool_decide (q_url req <> q_url metadata) then 302 else 200) [] "");
  redirected req resp := if s_StatusCode resp =? 302 then Some metadata else None;
  Expired past := (20 <? Z.of_nat (length past))
|}.

Definition provider : Provider :=
  NewProvider "return true" 0 [ArgInt 16; ArgMap (env_whitelist (@Getenv (outside false)) " AUTH_SERVICE_URL, ,HOME")].
Definition table : ReqTable :=
  mkReqTable "GET" "/file/x" {[ "Authorization" := "Bearer s" ]} ∅ "203.0.113.7:999".

#[local] Instance calm : Outside := outside false.

Lemma outside_addresses b h n ips : @LookupIP (outside b) h n = Some ips -> Forall address ips.
Proof.
  cbn. case_bool_decide; [|done]. intros [= <-]. repeat constructor; lia.
Qed.

Lemma script_sandboxed_witness :
  (Authorize provider table []).1 = Ok true /\
  exists new, (Authorize provider table []).2 = new /\ sandboxed provider [] new /\
    (Sent <$> [newRequest "GET" "https://auth.example:8443/session" (mkOpts [("authorization", "Bearer s")] "")]) = new.
Proof.
  split; [by_vm|].
  pose proof (script_sandboxed (o := calm) provider table [] (outside_addresses false)) as HT.
  destruct (Authorize provider table []) as [v after] eqn:E. destruct HT as ((new & HN & HS) & _ & _).
  exists new. split; [done|]. split; [done|]. cbn [app] in HN. subst new.
  change after with (v, after).2. rewrite <- E. by_vm.
Defined.

Lemma private_ranges_exact_witness :
  address (v4InV6Prefix ++ [169; 254; 169; 254]) /\ isPrivateIP (v4InV6Prefix ++ [169; 254; 169; 254]) = true.
Proof.
  assert (HA : address (v4InV6Prefix ++ [169; 254; 169; 254])).
  { split; [repeat constructor; lia|by right]. }
  split; [exact HA|]. apply (private_ranges_exact _ HA). vm_compute. tauto.
Defined.

#[local] Instance hostile : Outside := outside true.

Lemma redirect_unchecked_witness :
  exists rest, (Authorize (H0 := hostile) provider table []).2 =
    [Sent (newRequest "GET" "https://auth.example:8443/session" (mkOpts [("authorization", "Bearer s")] ""));
     Sent metadata] ++ rest.
Proof.
  pose proof (redirect_unchecked (H0 := hostile) provider "get" "GET" "https://auth.example:8443/session"
    (mkOpts [("authorization", "Bearer s")] "")
    (fun reply => Finished (Returned (Some (bool_decide ((p_status <$> reply) = Some 200)))))
    (Finished CallFailed) [] [] (mkHttpResp 302 [] "") metadata eq_refl ltac:(by_vm) ltac:(by_vm) ltac:(by_vm) eq_refl) as [rest HE].
  exists rest. etransitivity; [|exact HE]. by_vm.
Defined.

End Toy.

End LuaAuth.
