(* ===== verification/ManifestCache.v ===== *)
(** [internal/handler/manifest_cache.go]: the shared LRU of decoded bundle
    manifests, bounded by a byte budget and an entry count. *)

From S2P Require Export Manifest GoList.

Local Open Scope Z_scope.

Module ManifestCache.

Record cachedManifest := mkCached { cid : string; value : Manifest; cbytes : Z }.

(** [entries] maps a CID to its list element, as in the source. *)
Record manifestCache := mkCache {
  entries : gmap string nat;
  lru : glist cachedManifest;
  bytes : Z;
  limit : Z
}.

Definition newManifestCache (lim : Z) : option manifestCache :=
  if bool_decide (lim <= 0) then None
  else Some {| entries := ∅; lru := New; bytes := 0; limit := lim |}.

Definition slen (s : string) : Z := Z.of_nat (String.length s).

Definition assetCost (a : Asset) : Z :=
  256 + slen (a_CID a) + slen (a_Path a) + slen (a_BundlePath a) + slen (a_Format a)
      + slen (a_ContentType a).

Definition manifestCost (m : Manifest) : Z :=
  let n := 512 + 2 * slen (m_CID m) + slen (m_Name m) + slen (m_Type m)
           + assetCost (m_Original m) in
  let n := map_fold (fun k a n => n + (slen k + assetCost a)) n (m_Variants m) in
  map_fold (fun k v n => n + (128 + slen k + slen v)) n (m_Metadata m).

(** [get]: a hit moves the element to the front. *)
Definition get (k : string) (c : manifestCache) : manifestCache * option Manifest :=
  match entries c !! k with
  | None => (c, None)
  | Some e =>
      match Value e (lru c) with
      | None => (c, None)
      | Some cm =>
          ({| entries := entries c; lru := MoveToFront e (lru c); bytes := bytes c;
              limit := limit c |}, Some (value cm))
      end
  end.

(** One round of the eviction loop.  [None] is the nil dereference of
    [c.lru.Back().Value] on an empty list. *)
Definition evict_one (c : manifestCache) : option manifestCache :=
  match Back (lru c) with
  | None => None
  | Some (e, old) =>
      Some {| entries := delete (cid old) (entries c); lru := Remove e (lru c);
              bytes := bytes c - cbytes old; limit := limit c |}
  end.

Definition over (cost : Z) (c : manifestCache) : bool :=
  bool_decide (limit c < bytes c + cost) || (1024 <=? size (entries c))%nat.

(** The loop; [fuel] counts rounds and [None] is a panic or no fuel left. *)
Fixpoint evict_loop (fuel : nat) (cost : Z) (c : manifestCache) : option manifestCache :=
  if over cost c then
    match fuel with
    | O => None
    | S n => match evict_one c with Some c' => evict_loop n cost c' | None => None end
    end
  else Some c.

Definition push (k : string) (m : Manifest) (cost : Z) (c : manifestCache) : manifestCache :=
  let (e, l) := PushFront {| cid := k; value := m; cbytes := cost |} (lru c) in
  {| entries := <[k := e]> (entries c); lru := l; bytes := bytes c + cost; limit := limit c |}.

Definition put (k : string) (m : Manifest) (c : manifestCache) : option manifestCache :=
  let cost := manifestCost m in
  if bool_decide (limit c < cost) || bool_decide (256 * 1024 < cost) then Some c
  else match entries c !! k with
       | Some _ => Some c
       | None => push k m cost <$> evict_loop (Len (lru c)) cost c
       end.

(** ** [load]

    The errors of a context and of a fetch, told apart the way [errors.Is]
    does in the retry condition. *)
Inductive loadErr :=
| Canceled
| DeadlineExceeded
| FetchErr (e : string)
| CachePanic.

(** The function run inside the flight: look again, fetch, cache.  [ctxErr] is
    [ctx.Err()] of the caller that runs it once its fetch returned. *)
Definition flight (k : string) (ctxErr : option loadErr) (fetched : result loadErr Manifest)
  (c : manifestCache) : manifestCache * result loadErr Manifest :=
  match get k c with
  | (c', Some m) => (c', Ok m)
  | (c', None) =>
      match fetched with
      | Ok m => match put k m c' with Some c2 => (c2, Ok m) | None => (c', Err CachePanic) end
      | Err e => (c', Err (match ctxErr with Some e' => e' | None => e end))
      end
  end.

(** What one iteration of [load]'s loop observes of its environment: the cache
    as the other goroutines left it ([r_cache]), [ctx.Err()] at the top of the
    loop, whether the [select] saw [ctx.Done()], and otherwise the flight's
    result: the error or manifest, whether it was shared with other callers
    ([singleflight.Result.Shared]), and [ctx.Err()] at that point. *)
Record round := mkRound {
  r_cache : manifestCache;
  r_ctx : option loadErr;
  r_done : option loadErr;
  r_val : result loadErr Manifest;
  r_shared : bool;
  r_ctx' : option loadErr
}.

Definition retriable (e : loadErr) : bool :=
  match e with Canceled | DeadlineExceeded => true | _ => false end.

(** One iteration: [None] continues the loop, [Some] returns. *)
Definition load_round (k : string) (r : round) : option (result loadErr Manifest) :=
  match r_ctx r with
  | Some e => Some (Err e)
  | None =>
      match (get k (r_cache r)).2 with
      | Some m => Some (Ok m)
      | None =>
          match r_done r with
          | Some e => Some (Err e)
          | None =>
              match r_val r with
              | Err e => if r_shared r && bool_decide (r_ctx' r = None) && retriable e
                         then None else Some (Err e)
              | Ok m => Some (Ok m)
              end
          end
      end
  end.

(** The loop over the rounds the environment offers; [None]: still waiting.
    Without a cache the manifest is fetched directly. *)
Fixpoint load (k : string) (rs : list round) : option (result loadErr Manifest) :=
  match rs with
  | [] => None
  | r :: rs' => match load_round k r with None => load k rs' | res => res end
  end.

(** ** Concurrent use

    The atomic operations on a shared cache are the two locked regions. *)
Inductive op :=
| OpGet (k : string)
| OpPut (k : string) (m : Manifest).

Inductive step : manifestCache -> op -> manifestCache -> Prop :=
| step_get k c : step c (OpGet k) (get k c).1
| step_put k m c c' : put k m c = Some c' -> step c (OpPut k m) c'.

(** ** Invariant *)

(** Every list element is indexed under its CID and nothing else is; the byte
    count is the sum of the recorded costs; both bounds hold. *)
Record inv (c : manifestCache) : Prop := mkInv {
  inv_wf : wf (lru c);
  inv_index : indexed cid (entries c) (lru c);
  inv_bytes : bytes c = zsum (fun p => cbytes p.2) (gl_elems (lru c));
  inv_cost : forall e cm, (e, cm) ∈ gl_elems (lru c) -> cbytes cm = manifestCost (value cm);
  inv_limit : bytes c <= limit c;
  inv_count : (size (entries c) <= 1024)%nat
}.

(** The same operations run in order, for concrete executions. *)
Fixpoint run (ops : list op) (c : manifestCache) : option manifestCache :=
  match ops with
  | [] => Some c
  | OpGet k :: ops' => run ops' (get k c).1
  | OpPut k m :: ops' => match put k m c with Some c' => run ops' c' | None => None end
  end.

(** ** Abstract specification

    What the cache promises: a list of manifests, most recently used first.  A
    hit moves to the front; an insertion keeps the longest prefix that fits. *)
Definition abs (c : manifestCache) : list (string * Manifest) :=
  (fun p => (cid p.2, value p.2)) <$> gl_elems (lru c).

Definition spec_get (k : string) (l : list (string * Manifest))
  : list (string * Manifest) * option Manifest :=
  match list_find (fun p => p.1 = k) l with
  | Some (_, (_, m)) => ((k, m) :: filter (fun p => p.1 <> k) l, Some m)
  | None => (l, None)
  end.

Fixpoint fit (budget : Z) (room : nat) (l : list (string * Manifest)) : list (string * Manifest) :=
  match l, room with
  | x :: l', S n => if bool_decide (manifestCost x.2 <= budget)
                    then x :: fit (budget - manifestCost x.2) n l' else []
  | _, _ => []
  end.

Definition spec_put (lim : Z) (k : string) (m : Manifest) (l : list (string * Manifest))
  : list (string * Manifest) :=
  if bool_decide (lim < manifestCost m) || bool_decide (256 * 1024 < manifestCost m) then l
  else if bool_decide (k ∈ l.*1) then l
  else (k, m) :: fit (lim - manifestCost m) 1023 l.

(** * Theorems *)

Lemma slen_nonneg s : 0 <= slen s.
Proof. unfold slen. lia. Qed.

Lemma assetCost_pos a : 256 <= assetCost a.
Proof. unfold assetCost. pose proof slen_nonneg. repeat match goal with
  | |- context [slen ?s] => lazymatch goal with
      | H : 0 <= slen s |- _ => fail | _ => pose proof (slen_nonneg s) end end. lia. Qed.

Lemma fold_ge {A} (f : string -> A -> Z) (m : gmap string A) z :
  (forall k a, 0 <= f k a) -> z <= map_fold (fun k a n => n + f k a) z m.
Proof.
  intros Hf. apply (map_fold_weak_ind (fun r _ => z <= r)); [lia|].
  intros k a m' r _ IH. specialize (Hf k a). lia.
Qed.

Lemma manifestCost_pos m : 768 <= manifestCost m.
Proof.
  unfold manifestCost. etrans; [|apply fold_ge].
  2:{ intros. pose proof (slen_nonneg k). pose proof (slen_nonneg a). lia. }
  etrans; [|apply fold_ge].
  2:{ intros. pose proof (slen_nonneg k). pose proof (assetCost_pos a). lia. }
  pose proof (slen_nonneg (m_CID m)). pose proof (slen_nonneg (m_Name m)).
  pose proof (slen_nonneg (m_Type m)). pose proof (assetCost_pos (m_Original m)). lia.
Qed.

Lemma inv_new lim c : newManifestCache lim = Some c -> inv c.
Proof.
  unfold newManifestCache. case_bool_decide; [done|]. intros [= <-].
  split; simpl.
  - apply wf_New.
  - apply indexed_empty.
  - done.
  - intros e cm H1. by apply not_elem_of_nil in H1.
  - lia.
  - rewrite map_size_empty. lia.
Qed.

Lemma get_inv k c : inv c -> inv (get k c).1.
Proof.
  intros HI. unfold get. destruct (entries c !! k) as [e|]; [|done].
  destruct (Value e (lru c)) as [cm|] eqn:HV; [|done].
  pose proof (MoveToFront_perm e (lru c) (inv_wf c HI)) as HP.
  destruct HI as [Hwf Hix Hb Hc Hl Hn]. split; simpl; auto with storage.
  - by eapply indexed_perm.
  - rewrite Hb. by apply zsum_perm.
  - intros e' cm' H'. apply (Hc e'). by rewrite <- HP.
Qed.

Lemma evict_one_inv c c' : inv c -> evict_one c = Some c' ->
  inv c' /\ Len (lru c) = S (Len (lru c')) /\ limit c' = limit c /\
  (forall k, entries c !! k = None -> entries c' !! k = None).
Proof.
  intros HI. unfold evict_one. destruct (Back (lru c)) as [[e old]|] eqn:HB; [|done].
  intros [= <-]. apply Back_elem in HB. pose proof HI as [Hwf Hix Hb Hc Hl Hn].
  pose proof (Remove_perm e old (lru c) Hwf HB) as HP.
  assert (Hpos : 0 <= cbytes old).
  { rewrite (Hc e old HB). pose proof (manifestCost_pos (value old)). lia. }
  split_and!.
  - split; simpl; auto with storage.
    + by apply indexed_Remove.
    + rewrite Hb, (zsum_perm _ _ _ HP). simpl. lia.
    + intros e' cm' [Hin _]%elem_of_Remove. by eapply Hc.
    + lia.
    + etrans; [|exact Hn]. apply map_subseteq_size, delete_subseteq.
  - simpl. by eapply Remove_length.
  - done.
  - simpl. intros k Hk. apply lookup_delete_None. by right.
Qed.

Lemma entries_empty c : inv c -> gl_elems (lru c) = [] -> size (entries c) = 0%nat.
Proof.
  intros HI Hnil. apply map_size_empty_iff, map_empty. intros k.
  destruct (entries c !! k) as [e|] eqn:E; [|done].
  apply (inv_index c HI) in E as (cm & Hin & _). rewrite Hnil in Hin.
  by apply not_elem_of_nil in Hin.
Qed.

(** With a cost that fits the budget the loop ends before the list is empty. *)
Lemma evict_loop_ok fuel cost c :
  inv c -> cost <= limit c -> (Len (lru c) <= fuel)%nat ->
  exists c', evict_loop fuel cost c = Some c' /\ inv c' /\ limit c' = limit c /\
    over cost c' = false /\ (forall k, entries c !! k = None -> entries c' !! k = None).
Proof.
  revert c. induction fuel as [|fuel IH]; intros c HI Hcost Hf; simpl.
  - assert (Hnil : gl_elems (lru c) = []) by (apply length_zero_iff_nil; unfold Len in Hf; lia).
    assert (Hov : over cost c = false).
    { unfold over. rewrite (entries_empty c HI Hnil).
      rewrite (inv_bytes c HI), Hnil. simpl. rewrite bool_decide_eq_false_2 by lia. done. }
    rewrite Hov. eauto 10.
  - destruct (over cost c) eqn:Hov; [|eauto 10].
    destruct (evict_one c) as [c1|] eqn:HE.
    + destruct (evict_one_inv c c1 HI HE) as (HI1 & Hlen & Hlim & Hk).
      destruct (IH c1 HI1 ltac:(lia) ltac:(lia)) as (c' & H1 & H2 & H3 & H4 & H5).
      exists c'. split_and!; auto; [congruence].
    + exfalso. unfold evict_one in HE. destruct (Back (lru c)) as [[e o]|] eqn:HB; [done|].
      apply Back_None in HB. unfold over in Hov. rewrite (entries_empty c HI HB) in Hov.
      rewrite (inv_bytes c HI), HB in Hov. simpl in Hov.
      rewrite bool_decide_eq_false_2 in Hov by lia. done.
Qed.

Lemma push_inv k m c :
  inv c -> entries c !! k = None -> over (manifestCost m) c = false ->
  inv (push k m (manifestCost m) c).
Proof.
  intros HI Hk Hov. pose proof HI as [Hwf Hix Hb Hc Hl Hn].
  unfold over in Hov. go_bools. destruct (wf_PushFront (mkCached k m (manifestCost m)) _ Hwf) as [HN HB].
  split; simpl in *; [by split| | | |lia|].
  - by apply (indexed_PushFront cid _ (mkCached k m (manifestCost m))).
  - lia.
  - intros e cm [Heq|Hin]%elem_of_cons; [by simplify_eq|eauto].
  - rewrite map_size_insert_None by done. lia.
Qed.

Lemma put_ok k m c : inv c ->
  exists c', put k m c = Some c' /\ inv c' /\ limit c' = limit c.
Proof.
  intros HI. unfold put. destruct (_ || _) eqn:Hbig; [eauto|]. go_bools.
  destruct (entries c !! k) eqn:Hk; [eauto|].
  destruct (evict_loop_ok (Len (lru c)) (manifestCost m) c HI ltac:(lia) ltac:(lia))
    as (c1 & -> & HI1 & Hl1 & Hov & Hk1). simpl. eexists. split_and!; [done| |done].
  apply push_inv; auto.
Qed.

Lemma step_inv c o c' : inv c -> step c o c' -> inv c'.
Proof.
  intros HI HS. destruct HS as [k c|k m c c' Hp]; [by apply get_inv|].
  destruct (put_ok k m c HI) as (c2 & Hp2 & HI2 & _). congruence.
Qed.

Lemma step_limit c o c' : inv c -> step c o c' -> limit c' = limit c.
Proof.
  intros HI HS. destruct HS as [k c|k m c c' Hp].
  - unfold get. by repeat case_match.
  - destruct (put_ok k m c HI) as (c2 & Hp2 & _ & Hl). congruence.
Qed.

Lemma run_steps ops c c' : run ops c = Some c' -> steps step c ops c'.
Proof.
  revert c. induction ops as [|[k|k m] ops IH]; intros c; simpl.
  - intros [= ->]. constructor.
  - intros H. econstructor; [apply step_get|by apply IH].
  - destruct (put k m c) as [c1|] eqn:Hp; [|done]. intros H.
    econstructor; [by apply step_put|by apply IH].
Qed.

(** *** Refinement *)

Lemma entries_size c : inv c -> size (entries c) = Len (lru c).
Proof. intros HI. eapply indexed_size; apply HI. Qed.

Lemma evict_one_last c c' : inv c -> evict_one c = Some c' ->
  exists p, gl_elems (lru c) = gl_elems (lru c') ++ [p].
Proof.
  intros HI. unfold evict_one. destruct (Back (lru c)) as [[e o]|] eqn:HB; [|done].
  intros [= <-]. exists (e, o). simpl. apply Back_Remove; [apply HI|done].
Qed.

Lemma over_false cost c : inv c ->
  over cost c = false <->
  zsum (fun p => cbytes p.2) (gl_elems (lru c)) <= limit c - cost /\
  (length (gl_elems (lru c)) <= 1023)%nat.
Proof.
  intros HI. unfold over. rewrite (entries_size c HI), (inv_bytes c HI). unfold Len.
  rewrite orb_false_iff, bool_decide_eq_false, Nat.leb_gt. lia.
Qed.

Lemma abs_cost c : inv c ->
  zsum (fun p => cbytes p.2) (gl_elems (lru c)) = zsum (fun p => manifestCost p.2) (abs c).
Proof.
  intros HI. pose proof (inv_cost c HI) as Hc. unfold abs.
  induction (gl_elems (lru c)) as [|[e cm] l IH]; [done|]. simpl.
  rewrite (Hc e cm (list_elem_of_here _ _)). rewrite IH; [done|].
  intros. eapply Hc. by apply list_elem_of_further.
Qed.

(** The greedy prefix is the only prefix that fits and cannot be extended. *)
Lemma fit_unique b n p r :
  0 <= b -> zsum (fun x : string * Manifest => manifestCost x.2) p <= b -> (length p <= n)%nat ->
  (forall x r', r = x :: r' ->
     b < zsum (fun x => manifestCost x.2) (p ++ [x]) \/ (n < length (p ++ [x]))%nat) ->
  fit b n (p ++ r) = p.
Proof.
  revert b n. induction p as [|x p IH]; intros b n Hb Hs Hn Hr; simpl in *.
  - destruct r as [|x r]; [by destruct n|]. destruct n as [|n]; [done|]. simpl in *.
    destruct (Hr x r eq_refl) as [H|H]; [|lia].
    by rewrite bool_decide_eq_false_2 by lia.
  - destruct n as [|n]; [lia|].
    assert (0 <= zsum (fun x : string * Manifest => manifestCost x.2) p).
    { apply zsum_nonneg. intros a _. pose proof (manifestCost_pos a.2). lia. }
    pose proof (manifestCost_pos x.2). cbn [fit app].
    rewrite bool_decide_eq_true_2 by lia. f_equal. apply IH; [lia..|].
    intros y r' Hy. destruct (Hr y r' Hy); [left|right]; lia.
Qed.

#[local] Arguments fit : simpl never.

Lemma evict_loop_prefix fuel cost c c' :
  inv c -> evict_loop fuel cost c = Some c' ->
  inv c' /\ limit c' = limit c /\
  exists r, gl_elems (lru c) = gl_elems (lru c') ++ r /\
  (forall x r', r = x :: r' ->
       limit c - cost < zsum (fun p => cbytes p.2) (gl_elems (lru c') ++ [x]) \/
       (1023 < length (gl_elems (lru c') ++ [x]))%nat).
Proof.
  revert c. induction fuel as [|fuel IH]; intros c HI; simpl.
  - destruct (over cost c); [done|]. intros [= <-]. split_and!; [done..|].
    exists []. rewrite app_nil_r. split; [done|]. by intros.
  - destruct (over cost c) eqn:Hov.
    2:{ intros [= <-]. split_and!; [done..|].
        exists []. rewrite app_nil_r. split; [done|]. by intros. }
    destruct (evict_one c) as [c1|] eqn:HE; [|done]. intros HL.
    destruct (evict_one_inv c c1 HI HE) as (HI1 & _ & Hlim & _).
    destruct (evict_one_last c c1 HI HE) as [p Hp].
    destruct (IH c1 HI1 HL) as (HI' & Hl' & r & Hr & Hmax).
    split_and!; [done|congruence|]. exists (r ++ [p]). rewrite Hp, Hr, app_assoc. split; [done|].
    intros x r' Hx. destruct r as [|y r].
    + simpl in Hx. simplify_eq. rewrite app_nil_r in Hr. rewrite <- Hr, <- Hp.
      destruct (decide (limit c - cost < zsum (fun p => cbytes p.2) (gl_elems (lru c)))); [by left|].
      destruct (decide (1023 < length (gl_elems (lru c)))%nat); [by right|].
      rewrite (proj2 (over_false cost c HI)) in Hov by lia. done.
    + simpl in Hx. simplify_eq. rewrite <- Hlim. by apply (Hmax x r).
Qed.

Lemma abs_keys c : (abs c).*1 = cid <$> (gl_elems (lru c)).*2.
Proof. unfold abs. rewrite <- !list_fmap_compose. done. Qed.

Lemma entries_key k c : inv c -> is_Some (entries c !! k) <-> k ∈ (abs c).*1.
Proof.
  intros HI. rewrite abs_keys, list_elem_of_fmap. unfold is_Some.
  setoid_rewrite (inv_index c HI k). split.
  - intros (e & cm & Hin & <-). exists cm. split; [done|]. apply list_elem_of_fmap. by exists (e, cm).
  - intros (cm & -> & Hin). apply list_elem_of_fmap in Hin as ([e cm'] & -> & Hin). eauto.
Qed.

Lemma put_refines k m c c' : inv c -> put k m c = Some c' ->
  abs c' = spec_put (limit c) k m (abs c).
Proof.
  intros HI. unfold put, spec_put. destruct (_ || _) eqn:Hbig; [by intros [= <-]|].
  destruct (entries c !! k) as [e|] eqn:Hk.
  { intros [= <-]. rewrite bool_decide_eq_true_2; [done|]. apply entries_key; [done|]. by eexists. }
  rewrite bool_decide_eq_false_2.
  2:{ rewrite <- entries_key by done. intros [? ?]. congruence. }
  rewrite fmap_Some. intros (c1 & HL & ->). go_bools.
  destruct (evict_loop_ok (Len (lru c)) (manifestCost m) c HI ltac:(lia) ltac:(lia))
    as (c2 & HL2 & _ & _ & Hov & _). assert (c2 = c1) as -> by congruence.
  destruct (evict_loop_prefix _ _ c c1 HI HL) as (HI1 & Hl1 & r & Hr & Hmax).
  apply (over_false _ c1 HI1) in Hov as [Ho1 Ho2].
  unfold push. simpl. unfold abs at 1. simpl. f_equal.
  change ((fun p => (cid p.2, value p.2)) <$> gl_elems (lru c1)) with (abs c1).
  assert (Habs : abs c = abs c1 ++ ((fun p : nat * cachedManifest => (cid p.2, value p.2)) <$> r)).
  { unfold abs. by rewrite Hr, fmap_app. }
  rewrite Habs, fit_unique; [done|lia|by rewrite <- abs_cost; [lia|]|by unfold abs; rewrite length_fmap|].
  intros x r' Hx. destruct r as [|[e y] r2]; [done|]. simpl in Hx. simplify_eq.
  destruct (Hmax _ _ eq_refl) as [Hx|Hx]; [left|right].
  - rewrite zsum_app in Hx. rewrite zsum_app, <- abs_cost by done. simpl in *.
    rewrite (inv_cost c HI e y) in Hx; [lia|]. rewrite Hr. set_solver.
  - unfold abs. rewrite length_app in Hx. rewrite length_app, length_fmap. done.
Qed.

Lemma filter_abs e x c : inv c -> (e, x) ∈ gl_elems (lru c) ->
  (fun p => (cid p.2, value p.2)) <$> gl_elems (Remove e (lru c)) =
  filter (fun p : string * Manifest => p.1 <> cid x) (abs c).
Proof.
  intros HI Hin. unfold abs, Remove. simpl.
  assert (Hu : forall e' y, (e', y) ∈ gl_elems (lru c) -> e' = e <-> cid y = cid x).
  { intros e' y Hy. split; [intros ->; by rewrite (wf_unique e x y (lru c) (inv_wf c HI) Hin Hy)|].
    intros Hc. by eapply (indexed_unique cid _ _ _ _ _ _ (inv_index c HI)). }
  clear HI Hin. induction (gl_elems (lru c)) as [|[e' y] l IH]; [done|].
  rewrite fmap_cons. specialize (IH ltac:(intros; apply Hu; by apply list_elem_of_further)).
  pose proof (Hu e' y (list_elem_of_here _ _)) as He.
  destruct (decide (e' = e)) as [->|Hne].
  - rewrite filter_cons_False by (simpl; tauto). rewrite filter_cons_False by (simpl; tauto). done.
  - rewrite filter_cons_True by done. rewrite fmap_cons, filter_cons_True by (simpl; tauto).
    by rewrite IH.
Qed.

Lemma get_refines k c : inv c ->
  abs (get k c).1 = (spec_get k (abs c)).1 /\ (get k c).2 = (spec_get k (abs c)).2.
Proof.
  intros HI. unfold get, spec_get.
  destruct (entries c !! k) as [e|] eqn:Hk.
  - pose proof Hk as (cm & Hin & Hcid)%(inv_index c HI).
    rewrite (proj2 (Value_Some e cm (lru c) (inv_wf c HI)) Hin). simpl.
    assert (Hf : exists i, list_find (fun p => p.1 = k) (abs c) = Some (i, (k, value cm))).
    { pose proof (indexed_keys_nodup cid _ _ (inv_wf c HI) (inv_index c HI)) as HN. rewrite <- abs_keys in HN.
      assert (Hin' : (k, value cm) ∈ abs c).
      { apply list_elem_of_fmap. exists (e, cm). split; [|done]. simpl. by rewrite Hcid. }
      destruct (list_elem_of_lookup_1 _ _ Hin') as [i Hi]. exists i.
      apply list_find_Some. split_and!; [done..|]. intros j y Hj Hlt Heq.
      assert (i = j); [|lia]. apply (NoDup_lookup _ i j k HN); rewrite list_lookup_fmap.
      - by rewrite Hi.
      - rewrite Hj. simpl. by rewrite Heq. }
    destruct Hf as [i Hf]. rewrite Hf. split; [|done]. simpl.
    unfold MoveToFront. rewrite (proj2 (Value_Some e cm (lru c) (inv_wf c HI)) Hin).
    unfold abs at 1. simpl lru. simpl gl_elems. rewrite fmap_cons. simpl fst. simpl snd.
    rewrite Hcid. f_equal. rewrite <- Hcid. by apply filter_abs.
  - assert (Hf : list_find (fun p => p.1 = k) (abs c) = None).
    { apply list_find_None, Forall_forall. intros x Hx Heq.
      assert (is_Some (entries c !! k)) as [? ?]; [|congruence].
      apply entries_key; [done|]. apply list_elem_of_fmap. by exists x. }
    by rewrite Hf.
Qed.

Lemma reachable_inv lim c0 ops c :
  newManifestCache lim = Some c0 -> steps step c0 ops c -> inv c /\ limit c = lim.
Proof.
  intros H0 HS. pose proof (inv_new _ _ H0) as HI0.
  assert (Hl0 : limit c0 = lim).
  { unfold newManifestCache in H0. case_bool_decide; [done|]. by simplify_eq. }
  clear H0. induction HS as [|s l s1 ls s2 Hs HS IH]; [done|].
  apply IH; [by eapply step_inv|]. rewrite <- Hl0. by eapply step_limit.
Qed.

(** ** Properties *)

(** Whatever interleaving of lookups and insertions the callers run on a
    new cache, the byte counter is exactly the sum of the costs of the cached
    manifests, it never exceeds the configured budget, at most 1024 manifests
    are kept, and the eviction loop never dereferences an empty list: every
    insertion returns. *)
Theorem manifest_cache_bounded lim c0 ops c :
  newManifestCache lim = Some c0 -> steps step c0 ops c ->
  bytes c = zsum (fun p => manifestCost (value p.2)) (gl_elems (lru c)) /\
  bytes c <= lim /\ (size (entries c) <= 1024)%nat /\ size (entries c) = Len (lru c) /\
  forall k m, exists c', put k m c = Some c'.
Proof.
  intros H0 HS. destruct (reachable_inv _ _ _ _ H0 HS) as [HI <-].
  split_and!; try apply HI; [|by apply entries_size|].
  - rewrite (inv_bytes c HI), (abs_cost c HI). unfold abs.
    induction (gl_elems (lru c)) as [|p l IH]; [done|]. simpl. f_equal. exact IH.
  - intros k m. destruct (put_ok k m c HI) as (c' & H & _). eauto.
Qed.

(** C31. The map, the element pointers and the linked list implement the
    abstract cache: a list of manifests in recency order where a hit moves the
    manifest to the front and an insertion keeps the longest prefix of the
    others that fits the byte budget and the entry count. *)
Theorem manifest_cache_refines lim c0 ops c k :
  newManifestCache lim = Some c0 -> steps step c0 ops c ->
  abs (get k c).1 = (spec_get k (abs c)).1 /\ (get k c).2 = (spec_get k (abs c)).2 /\
  forall m, exists c', put k m c = Some c' /\ abs c' = spec_put lim k m (abs c).
Proof.
  intros H0 HS. destruct (reachable_inv _ _ _ _ H0 HS) as [HI <-].
  destruct (get_refines k c HI) as [H1 H2]. split_and!; [done..|]. intros m.
  destruct (put_ok k m c HI) as (c' & Hp & _). exists c'. split; [done|].
  by apply put_refines.
Qed.

(** A caller of [load] is handed a cancellation or a deadline only for its
    own sake: its own context had ended, or the failed flight was its own and
    shared with nobody.  The cancellation of another caller only makes the loop
    go round again. *)
Theorem load_cancellation_is_own k rs e :
  load k rs = Some (Err e) -> retriable e = true ->
  exists r, r ∈ rs /\ (r_ctx r = Some e \/ r_done r = Some e \/
    (r_val r = Err e /\ (r_shared r = false \/ r_ctx' r <> None))).
Proof.
  intros HL He. induction rs as [|r rs IH]; simpl in HL; [done|].
  destruct (load_round k r) as [res|] eqn:HR.
  - exists r. split; [apply list_elem_of_here|]. simplify_eq.
    unfold load_round in HR. destruct (r_ctx r); [simplify_eq; auto|].
    destruct (get k (r_cache r)).2; [done|]. destruct (r_done r); [simplify_eq; auto|].
    destruct (r_val r) as [m|e']; [done|].
    destruct (r_shared r) eqn:Hsh; simpl in HR; [|simplify_eq; auto].
    case_bool_decide as Hc; simpl in HR; [|simplify_eq; auto].
    destruct (retriable e') eqn:Hr; [done|]. congruence.
  - destruct (IH HL) as (r' & Hr & H). exists r'. split; [by apply list_elem_of_further|done].
Qed.

(** ** Witnesses *)

Definition sample (c : string) : Manifest :=
  Finalize c (NewFileManifest "photo.jpg" "image/jpeg" "jpeg" 10).

Definition sample_ops : list op :=
  [OpPut "a" (sample "a"); OpPut "b" (sample "b"); OpGet "a"; OpPut "c" (sample "c")].
Definition cache_of (lim : Z) : manifestCache :=
  {| entries := ∅; lru := New; bytes := 0; limit := lim |}.
Definition after (lim : Z) (ops : list op) : manifestCache :=
  default (cache_of lim) (run ops (cache_of lim)).

Lemma manifest_cache_bounded_witness :
  steps step (cache_of 2000) sample_ops (after 2000 sample_ops) /\
  (abs (after 2000 sample_ops)).*1 = ["c"; "a"] /\ bytes (after 2000 sample_ops) <= 2000.
Proof.
  assert (HS : steps step (cache_of 2000) sample_ops (after 2000 sample_ops))
    by (apply run_steps; vm_compute; reflexivity).
  split_and!; [exact HS|vm_compute; reflexivity|].
  apply (manifest_cache_bounded 2000 (cache_of 2000) _ _ eq_refl HS).
Defined.

Lemma manifest_cache_refines_witness :
  steps step (cache_of 4096) sample_ops (after 4096 sample_ops) /\
  abs (get "b" (after 4096 sample_ops)).1 = (spec_get "b" (abs (after 4096 sample_ops))).1.
Proof.
  assert (HS : steps step (cache_of 4096) sample_ops (after 4096 sample_ops))
    by (apply run_steps; vm_compute; reflexivity).
  split; [exact HS|].
  apply (manifest_cache_refines 4096 (cache_of 4096) _ _ "b" eq_refl HS).
Defined.

Lemma load_cancellation_is_own_witness :
  let c := {| entries := ∅; lru := New; bytes := 0; limit := 1000 |} in
  let other := mkRound c None None (Err Canceled) true None in
  let own := mkRound c None (Some DeadlineExceeded) (Err Canceled) true None in
  load "a" [other; own] = Some (Err DeadlineExceeded) /\
  exists r, r ∈ [other; own] /\ (r_ctx r = Some DeadlineExceeded \/
    r_done r = Some DeadlineExceeded \/
    (r_val r = Err DeadlineExceeded /\ (r_shared r = false \/ r_ctx' r <> None))).
Proof.
  intros c other own. split; [reflexivity|].
  apply (load_cancellation_is_own "a" [other; own] DeadlineExceeded); reflexivity.
Defined.

End ManifestCache.
