(* ===== verification/ManifestSharing.v ===== *)
(** The maps inside cached manifests ([cloneManifest] of
    [internal/handler/manifest_cache.go], [Finalize] of [internal/bundle/manifest.go]).
    A Go map is a reference: what the cache holds, what a flight hands to everyone who
    waits for it and what a caller is given are structs whose maps may be one and the
    same.  [ManifestCache] treats manifests as values; here the maps are on a heap, and
    copying them on the way out is what makes that right. *)

From S2P Require Export ManifestCache.

Local Open Scope Z_scope.

Module ManifestSharing.

(** ** The heap *)

Record heap := mkHeap {
  h_variants : gmap positive (gmap string Asset);
  h_metadata : gmap positive (gmap string string)
}.

(** A manifest as the program holds it: the fields, whose maps are left empty, and the
    two maps, either of which may be nil. *)
Record ref := mkRef {
  r_fields : Manifest;
  r_variants : option positive;
  r_metadata : option positive
}.

Section maps.
Context {X : Type}.
Implicit Type h : gmap positive (gmap string X).

(** Reading through a reference; a nil map reads like an empty one. *)
Definition get_map (l : option positive) h : gmap string X := default ∅ (l ≫= fun p => h !! p).

(** A new map. *)
Definition new_map (m : gmap string X) h : gmap positive (gmap string X) * option positive :=
  let p := fresh (dom h) in (<[p := m]> h, Some p).

(** [maps.Clone] *)
Definition clone_map (l : option positive) h : gmap positive (gmap string X) * option positive :=
  match l with None => (h, None) | Some _ => new_map (get_map l h) h end.

(** Writing a map in place. *)
Definition write_map (f : gmap string X -> gmap string X) (l : option positive) h
  : gmap positive (gmap string X) :=
  match l with None => h | Some p => alter f p h end.
End maps.

(** The manifest a reference stands for. *)
Definition deref (h : heap) (r : ref) : Manifest :=
  let m := r_fields r in
  mkManifest (m_CID m) (m_Name m) (m_Type m) (m_Version m) (m_Size m) (m_Original m)
    (get_map (r_variants r) (h_variants h)) (get_map (r_metadata r) (h_metadata h)).

Definition cloneManifest (r : ref) (h : heap) : heap * ref :=
  let '(vs, v) := clone_map (r_variants r) (h_variants h) in
  let '(md, d) := clone_map (r_metadata r) (h_metadata h) in
  (mkHeap vs md, mkRef (r_fields r) v d).

(** What [json.Decode] builds: new maps. *)
Definition decoded (m : Manifest) (h : heap) : heap * ref :=
  let '(vs, v) := new_map (m_Variants m) (h_variants h) in
  let '(md, d) := new_map (m_Metadata m) (h_metadata h) in
  (mkHeap vs md, mkRef m v d).

(** [Finalize] through a pointer: the map of variants is written where it is. *)
Definition Finalize_at (rootCID : string) (r : ref) (h : heap) : heap * ref :=
  let m := r_fields r in
  let renamed := map_imap (fun key variant =>
    Some (set_Path ("/file/" +:+ rootCID +:+ "/" +:+ key) variant)) in
  (mkHeap (write_map renamed (r_variants r) (h_variants h)) (h_metadata h),
   mkRef (mkManifest rootCID (m_Name m) (m_Type m) (m_Version m) (m_Size m)
     (set_Path ("/file/" +:+ rootCID) (m_Original m)) ∅ ∅) (r_variants r) (r_metadata r)).

(** ** Concurrent use

    The shared cache, the flights under way, and the manifests callers were given. *)
Record state := mkState {
  mem : heap;
  cached : gmap string ref;
  flying : gmap string ref;
  owned : list ref
}.

Inductive action := Internal | Given (cid : string) (m : Manifest).

(** [content] is what the bundles' manifests hold, which are immutable. *)
Inductive step (content : string -> Manifest) : state -> action -> state -> Prop :=
(** the flight's function: fetch, finalise *)
| step_fetch s cid h1 r1 h2 r2 :
    decoded (content cid) (mem s) = (h1, r1) -> Finalize_at cid r1 h1 = (h2, r2) ->
    step content s Internal (mkState h2 (cached s) (<[cid := r2]> (flying s)) (owned s))
(** or a hit of its own look into the cache *)
| step_found s cid r : cached s !! cid = Some r ->
    step content s Internal (mkState (mem s) (cached s) (<[cid := r]> (flying s)) (owned s))
(** [put] *)
| step_put s cid r : flying s !! cid = Some r -> cached s !! cid = None ->
    step content s Internal (mkState (mem s) (<[cid := r]> (cached s)) (flying s) (owned s))
| step_evict s cid : step content s Internal (mkState (mem s) (delete cid (cached s)) (flying s) (owned s))
| step_land s cid : step content s Internal (mkState (mem s) (cached s) (delete cid (flying s)) (owned s))
(** [load] returns, from the cache or from the flight *)
| step_hit s cid r h r' : cached s !! cid = Some r -> cloneManifest r (mem s) = (h, r') ->
    step content s (Given cid (deref h r')) (mkState h (cached s) (flying s) (r' :: owned s))
| step_give s cid r h r' : flying s !! cid = Some r -> cloneManifest r (mem s) = (h, r') ->
    step content s (Given cid (deref h r')) (mkState h (cached s) (flying s) (r' :: owned s))
(** a caller writes into what it was given *)
| step_variants s r f : r ∈ owned s ->
    step content s Internal
      (mkState (mkHeap (write_map f (r_variants r) (h_variants (mem s))) (h_metadata (mem s)))
         (cached s) (flying s) (owned s))
| step_metadata s r f : r ∈ owned s ->
    step content s Internal
      (mkState (mkHeap (h_variants (mem s)) (write_map f (r_metadata r) (h_metadata (mem s))))
         (cached s) (flying s) (owned s)).

Definition idle : state := mkState (mkHeap ∅ ∅) ∅ ∅ [].

(** * Lemmas *)

Section map_lemmas.
Context {X : Type}.
Implicit Type h : gmap positive (gmap string X).

(** The map is there, unless it is nil. *)
Definition valid (l : option positive) h : Prop := forall p, l = Some p -> is_Some (h !! p).

(** One heap after another: every map that was there is there, unchanged. *)
Definition extends h h' : Prop := forall p m, h !! p = Some m -> h' !! p = Some m.

Lemma extends_refl h : extends h h.
Proof. by intros p m. Qed.

Lemma extends_get l h h' : extends h h' -> valid l h -> get_map l h' = get_map l h.
Proof.
  intros HE HV. destruct l as [p|]; [|done]. destruct (HV p eq_refl) as [m Hm].
  unfold get_map. cbn. by rewrite Hm, (HE p m Hm).
Qed.

Lemma extends_valid l h h' : extends h h' -> valid l h -> valid l h'.
Proof. intros HE HV p ->. destruct (HV p eq_refl) as [m Hm]. exists m. by apply HE. Qed.

Lemma new_map_spec m h : let '(h', l) := new_map m h in
  extends h h' /\ valid l h' /\ get_map l h' = m /\ forall p, l = Some p -> h !! p = None.
Proof.
  unfold new_map. pose proof (is_fresh (dom h)) as HF. rewrite not_elem_of_dom in HF. split_and!.
  - intros p x Hx. rewrite lookup_insert_ne; [done|]. intros E. congruence.
  - intros p [= <-]. rewrite lookup_insert_eq. by eexists.
  - unfold get_map. cbn. by rewrite lookup_insert_eq.
  - by intros p [= <-].
Qed.

Lemma clone_map_spec l h : let '(h', l') := clone_map l h in
  extends h h' /\ valid l' h' /\ get_map l' h' = get_map l h /\ forall p, l' = Some p -> h !! p = None.
Proof. destruct l as [p|]; [apply new_map_spec|]. split_and!; [apply extends_refl|by intros ? [=]|done|by intros ? [=]]. Qed.

Lemma write_map_get f l l' h : (forall p, l = Some p -> l' <> Some p) -> get_map l' (write_map f l h) = get_map l' h.
Proof.
  intros HD. destruct l as [p|], l' as [q|]; [|done..]. cbn. unfold get_map. cbn.
  rewrite lookup_alter_ne; [done|]. intros ->. by destruct (HD q eq_refl).
Qed.

Lemma write_map_valid f l l' h : valid l' h -> valid l' (write_map f l h).
Proof. intros HV p Hp. destruct l as [q|]; [|by apply HV]. cbn. by rewrite lookup_alter_is_Some; apply HV. Qed.

Lemma write_map_own f p h m : h !! p = Some m -> get_map (Some p) (write_map f (Some p) h) = f m.
Proof. intros Hm. unfold get_map. cbn. by rewrite lookup_alter_eq, Hm. Qed.
End map_lemmas.

(** A reference whose maps are there; two that share no map. *)
Definition held (h : heap) (r : ref) : Prop := valid (r_variants r) (h_variants h) /\ valid (r_metadata r) (h_metadata h).
Definition apart (r1 r2 : ref) : Prop :=
  (forall p, r_variants r1 = Some p -> r_variants r2 <> Some p) /\
  (forall p, r_metadata r1 = Some p -> r_metadata r2 <> Some p).
Definition heap_extends (h h' : heap) : Prop :=
  extends (h_variants h) (h_variants h') /\ extends (h_metadata h) (h_metadata h').

Lemma deref_extends h h' r : heap_extends h h' -> held h r -> deref h' r = deref h r /\ held h' r.
Proof.
  intros [HE1 HE2] [HV1 HV2]. unfold deref. rewrite (extends_get _ _ _ HE1 HV1), (extends_get _ _ _ HE2 HV2).
  split; [done|]. by split; eapply extends_valid.
Qed.

(** New maps are apart from every reference that was held. *)
Definition newly (h : heap) (r : ref) : Prop :=
  (forall p, r_variants r = Some p -> h_variants h !! p = None) /\ (forall p, r_metadata r = Some p -> h_metadata h !! p = None).

Lemma newly_apart h r r' : newly h r -> held h r' -> apart r r'.
Proof.
  intros [N1 N2] [V1 V2]. split; intros p Hp E; [destruct (V1 p E) as [x Hx]; specialize (N1 p Hp)|
    destruct (V2 p E) as [x Hx]; specialize (N2 p Hp)]; congruence.
Qed.

Lemma cloneManifest_spec r h h' r' : cloneManifest r h = (h', r') ->
  heap_extends h h' /\ held h' r' /\ deref h' r' = deref h r /\ newly h r'.
Proof.
  unfold cloneManifest. pose proof (clone_map_spec (r_variants r) (h_variants h)) as HV.
  pose proof (clone_map_spec (r_metadata r) (h_metadata h)) as HM.
  destruct (clone_map (r_variants r) _) as [vs v]. destruct (clone_map (r_metadata r) _) as [md d].
  intros [= <- <-]. destruct HV as (? & ? & HGv & ?), HM as (? & ? & HGm & ?). split_and!; try done.
  unfold deref. cbn [r_fields r_variants r_metadata h_variants h_metadata]. by rewrite HGv, HGm.
Qed.

Lemma fetched_spec cid m h h1 r1 h2 r2 : decoded m h = (h1, r1) -> Finalize_at cid r1 h1 = (h2, r2) ->
  heap_extends h h2 /\ held h2 r2 /\ deref h2 r2 = Finalize cid m /\ newly h r2.
Proof.
  unfold decoded. pose proof (new_map_spec (m_Variants m) (h_variants h)) as HV.
  pose proof (new_map_spec (m_Metadata m) (h_metadata h)) as HM. unfold new_map in *.
  set (p := fresh (dom (h_variants h))) in *. set (q := fresh (dom (h_metadata h))) in *.
  destruct HV as (E1 & V1 & _ & N1), HM as (E2 & V2 & G2 & N2). intros [= <- <-]. unfold Finalize_at. intros [= <- <-]. split_and!.
  - split; [|exact E2]. intros x y Hxy. cbn. rewrite lookup_alter_ne; [by apply E1|].
    intros <-. by rewrite (N1 _ eq_refl) in Hxy.
  - split; [|exact V2]. cbn. by apply (write_map_valid _ (Some p)).
  - unfold deref, Finalize. cbn. f_equal; [|exact G2]. unfold get_map. cbn.
    by rewrite lookup_alter_eq, lookup_insert_eq.
  - by split.
Qed.

(** The invariant: what is shared is right and held, and apart from what is owned. *)
Record inv (content : string -> Manifest) (s : state) : Prop := {
  inv_shared cid r : cached s !! cid = Some r \/ flying s !! cid = Some r ->
    held (mem s) r /\ deref (mem s) r = Finalize cid (content cid);
  inv_apart cid r r' : cached s !! cid = Some r \/ flying s !! cid = Some r -> r' ∈ owned s -> apart r' r;
  inv_owned r : r ∈ owned s -> held (mem s) r
}.

Lemma apart_sym r1 r2 : apart r1 r2 -> apart r2 r1.
Proof. intros [H1 H2]. split; intros p Hp E; [by apply (H1 p)|by apply (H2 p)]. Qed.

(** More heap changes nothing. *)
Lemma inv_extends content s h : inv content s -> heap_extends (mem s) h ->
  inv content (mkState h (cached s) (flying s) (owned s)).
Proof.
  intros [HSh HAp HOw] HE. split; cbn [mem cached flying owned].
  - intros cid r Hr. destruct (HSh cid r Hr) as [Hh Hd].
    destruct (deref_extends _ _ _ HE Hh) as [-> ?]. done.
  - exact HAp.
  - intros r Hr. by apply (deref_extends _ _ _ HE), HOw.
Qed.

(** A caller may be given what shares no map with what is shared. *)
Lemma inv_give content s r : inv content s -> held (mem s) r ->
  (forall cid r', cached s !! cid = Some r' \/ flying s !! cid = Some r' -> apart r r') ->
  inv content (mkState (mem s) (cached s) (flying s) (r :: owned s)).
Proof.
  intros [HSh HAp HOw] Hh HA. split; cbn [mem cached flying owned]; [done| |].
  - intros cid r1 r2 H1 [->|H2]%elem_of_cons; [by eapply HA|by eapply HAp].
  - intros r2 [->|H2]%elem_of_cons; [done|by apply HOw].
Qed.

(** A manifest may be shared that is right and apart from what callers have. *)
Lemma inv_share content s cid r (b : bool) : inv content s ->
  held (mem s) r -> deref (mem s) r = Finalize cid (content cid) -> (forall r', r' ∈ owned s -> apart r' r) ->
  inv content (mkState (mem s) (if b then <[cid := r]> (cached s) else cached s)
                 (if b then flying s else <[cid := r]> (flying s)) (owned s)).
Proof.
  intros [HSh HAp HOw] Hh Hd HA.
  assert (HCs : forall c r', (if b then <[cid := r]> (cached s) else cached s) !! c = Some r' \/
      (if b then flying s else <[cid := r]> (flying s)) !! c = Some r' ->
    (c = cid /\ r' = r) \/ (cached s !! c = Some r' \/ flying s !! c = Some r')).
  { intros c r' Hc. destruct b; destruct Hc as [Hc|Hc]; auto; apply lookup_insert_Some in Hc as [[<- <-]|[_ Hc]]; auto. }
  split; cbn [mem cached flying owned]; [| |done].
  - intros c r' [[-> ->]|Hc]%HCs; [done|by apply HSh].
  - intros c r' r2 [[-> ->]|Hc]%HCs H2; [by apply HA|by eapply HAp].
Qed.

(** Loads: a clone of something shared. *)
Lemma inv_load content s cid r h r' : inv content s -> cached s !! cid = Some r \/ flying s !! cid = Some r ->
  cloneManifest r (mem s) = (h, r') ->
  inv content (mkState h (cached s) (flying s) (r' :: owned s)) /\ deref h r' = Finalize cid (content cid).
Proof.
  intros HI Hr HC. apply cloneManifest_spec in HC as (HE & Hh & Hd & HN).
  split; [|rewrite Hd; by apply (inv_shared _ _ HI)].
  apply (inv_give content (mkState h (cached s) (flying s) (owned s))); [by apply inv_extends|done|].
  cbn [cached flying]. intros c r2 H2. eapply newly_apart; [done|]. by eapply (inv_shared _ _ HI).
Qed.

(** Writing what a caller has leaves what is shared. *)
Lemma inv_write content s r h : inv content s -> r ∈ owned s ->
  (forall r', apart r r' -> held (mem s) r' -> deref h r' = deref (mem s) r') ->
  (forall r', held (mem s) r' -> held h r') -> inv content (mkState h (cached s) (flying s) (owned s)).
Proof.
  intros [HSh HAp HOw] Hr Hd Hh. split; cbn [mem cached flying owned]; [|done|by auto].
  intros cid r' Hr'. destruct (HSh cid r' Hr') as [Hh' Hd']. split; [by apply Hh|].
  rewrite Hd; [done| |done]. by eapply HAp.
Qed.

Lemma sharing_step_inv content s a s' : inv content s -> step content s a s' ->
  inv content s' /\ forall cid m, a = Given cid m -> m = Finalize cid (content cid).
Proof.
  intros HI HS. destruct HS as [s cid h1 r1 h2 r2 H1 H2|s cid r Hr|s cid r Hr _|s cid|s cid|s cid r h r' Hr HC|
    s cid r h r' Hr HC|s r f Hr|s r f Hr].
  - split; [|done]. destruct (fetched_spec _ _ _ _ _ _ _ H1 H2) as (HE & Hh & Hd & HN).
    apply (inv_share content (mkState h2 (cached s) (flying s) (owned s)) cid r2 false); [by apply inv_extends|done..|].
    cbn [owned]. intros r' Hr'. apply apart_sym. eapply newly_apart; [done|]. by apply (inv_owned _ _ HI).
  - split; [|done]. destruct (inv_shared _ _ HI cid r (or_introl Hr)) as [Hh Hd].
    apply (inv_share content s cid r false); [done..|]. intros r' Hr'. eapply (inv_apart _ _ HI); [by left|done].
  - split; [|done]. destruct (inv_shared _ _ HI cid r (or_intror Hr)) as [Hh Hd].
    apply (inv_share content s cid r true); [done..|]. intros r' Hr'. eapply (inv_apart _ _ HI); [by right|done].
  - split; [|done]. destruct HI as [HSh HAp HOw].
    assert (HD : forall c r, delete cid (cached s) !! c = Some r -> cached s !! c = Some r)
      by (intros c r Hc; by apply lookup_delete_Some in Hc as [_ Hc]).
    split; cbn [mem cached flying owned]; [|..|done].
    + intros c r [Hc|Hc]; apply (HSh c); [left; by apply HD|by right].
    + intros c r r' [Hc|Hc]; apply (HAp c); [left; by apply HD|by right].
  - split; [|done]. destruct HI as [HSh HAp HOw].
    assert (HD : forall c r, delete cid (flying s) !! c = Some r -> flying s !! c = Some r)
      by (intros c r Hc; by apply lookup_delete_Some in Hc as [_ Hc]).
    split; cbn [mem cached flying owned]; [|..|done].
    + intros c r [Hc|Hc]; apply (HSh c); [by left|right; by apply HD].
    + intros c r r' [Hc|Hc]; apply (HAp c); [by left|right; by apply HD].
  - destruct (inv_load content s cid r h r' HI (or_introl Hr) HC) as [HI' HD]. split; [done|]. by intros ? ? [= <- <-].
  - destruct (inv_load content s cid r h r' HI (or_intror Hr) HC) as [HI' HD]. split; [done|]. by intros ? ? [= <- <-].
  - split; [|done]. eapply inv_write; [done..| |].
    + intros r' [HA _] _. unfold deref. cbn [h_variants h_metadata]. by rewrite write_map_get.
    + intros r' [H1 H2]. split; [by apply write_map_valid|done].
  - split; [|done]. eapply inv_write; [done..| |].
    + intros r' [_ HA] _. unfold deref. cbn [h_variants h_metadata]. by rewrite write_map_get.
    + intros r' [H1 H2]. split; [done|by apply write_map_valid].
Qed.

Lemma idle_inv content : inv content idle.
Proof.
  split; cbn [idle mem cached flying owned].
  - intros cid r [Hr|Hr]; by rewrite lookup_empty in Hr.
  - intros cid r r' _ Hr. by apply not_elem_of_nil in Hr.
  - intros r Hr. by apply not_elem_of_nil in Hr.
Qed.

(** ** Properties *)

(** C30. Sharing manifests is invisible: in any interleaving of flights, cache hits,
    evictions and callers who write whatever they like into the manifests they were
    given, every manifest the cache holds or gives out is the bundle's. *)
Theorem sharing_is_invisible content acts s : steps (step content) idle acts s ->
  (forall cid m, Given cid m ∈ acts -> m = Finalize cid (content cid)) /\
  forall cid r, cached s !! cid = Some r -> deref (mem s) r = Finalize cid (content cid).
Proof.
  intros HS. assert (HG : forall s0, inv content s0 -> steps (step content) s0 acts s ->
    inv content s /\ forall cid m, Given cid m ∈ acts -> m = Finalize cid (content cid)).
  { clear HS. intros s0 HI HS. induction HS as [s|s a s1 acts s2 Hst HS IH].
    - split; [done|]. intros ? ? Hin. by apply not_elem_of_nil in Hin.
    - apply sharing_step_inv in Hst as [HI1 HM]; [|done]. destruct (IH HI1) as [HI2 HM2]. split; [done|].
      intros cid m [<-|Hin]%elem_of_cons; [by apply HM|by apply HM2]. }
  destruct (HG idle (idle_inv content) HS) as [HI HM]. split; [done|].
  intros cid r Hr. by apply (inv_shared _ _ HI cid r (or_introl Hr)).
Qed.

(** ** Witnesses *)
Module Toy.

Definition content (_ : string) : Manifest :=
  mkManifest "" "me.jpg" "image" 1 9 (mkAsset "" "" OriginalFilename "jpeg" "image/jpeg" 10 10 9)
    {[ "blur" := mkAsset "" "" "blur.jpg" "jpeg" "image/jpeg" 10 10 4 ]} ∅.

(** One flight, a hit, a caller who empties his variants, and a hit after that. *)
Definition vandal (_ : gmap string Asset) : gmap string Asset := ∅.
Definition fetched : heap * ref := let '(h, r) := decoded (content "c") (mem idle) in Finalize_at "c" r h.
Definition s1 : state := mkState fetched.1 ∅ {[ "c" := fetched.2 ]} [].
Definition s2 : state := mkState (mem s1) {[ "c" := fetched.2 ]} (flying s1) [].
Definition first : heap * ref := cloneManifest fetched.2 (mem s2).
Definition s3 : state := mkState first.1 (cached s2) (flying s2) [first.2].
Definition s4 : state :=
  mkState (mkHeap (write_map vandal (r_variants first.2) (h_variants (mem s3))) (h_metadata (mem s3)))
    (cached s3) (flying s3) (owned s3).
Definition second : heap * ref := cloneManifest fetched.2 (mem s4).
Definition s5 : state := mkState second.1 (cached s4) (flying s4) (second.2 :: owned s4).
Definition acts : list action :=
  [Internal; Internal; Given "c" (deref first.1 first.2); Internal; Given "c" (deref second.1 second.2)].

Lemma sharing_is_invisible_witness :
  deref (mem s4) first.2 <> Finalize "c" (content "c") /\ deref second.1 second.2 = Finalize "c" (content "c").
Proof.
  assert (HS : steps (step content) idle acts s5).
  { unfold acts. apply steps_cons with s1.
    { apply (step_fetch content idle "c" (decoded (content "c") (mem idle)).1 (decoded (content "c") (mem idle)).2); by_vm. }
    apply steps_cons with s2; [apply (step_put content s1 "c" fetched.2); by_vm|].
    apply steps_cons with s3; [apply (step_hit content s2 "c" fetched.2); by_vm|].
    apply steps_cons with s4; [apply (step_variants content s3 first.2); apply list_elem_of_here|].
    apply steps_cons with s5; [apply (step_hit content s4 "c" fetched.2); by_vm|constructor]. }
  split; [intros HE; by vm_compute in HE|].
  apply (proj1 (sharing_is_invisible content acts s5 HS)). unfold acts. do 4 right. apply list_elem_of_here.
Defined.
End Toy.

End ManifestSharing.
