(* ===== verification/FileCache.v ===== *)
(** [internal/handler/file_cache.go]: the disk cache of completed immutable file
    reads.  The state is the cache behind its mutex, the blobs in its directory
    and the readers and writers that are open; the transitions are the locked
    regions and the calls of one reader or writer, each with the outcomes of the
    file-system calls it makes. *)

From S2P Require Export GoStrings GoList.

Local Open Scope Z_scope.

Module FileCache.

Record fileEntry := mkEntry { key : string; size : Z; readers : Z }.

Record fileCache := mkCache {
  limit : Z;
  bytes : Z;
  objectLimit : Z;
  active : Z;
  entries : gmap string nat;
  lru : glist fileEntry
}.

(** A [cacheHit] that is not closed: the element of its entry, and the length of
    the file it opened. *)
Record cacheHit := mkHit { h_entry : nat; h_len : Z }.

(** A [cacheFill] whose [file] is not nil: the cache key, [r.size], and the
    length of the partial file. *)
Record cacheFill := mkFill { f_key : string; f_size : Z; f_written : Z }.

(** [blobs] holds the [.blob] files of the directory with their lengths; closed
    readers and finished writers leave [hits] and [fills]; [stray] are the lengths of
    the partial files that could not be removed, which nothing counts and only the
    next start clears. *)
Record state := mkState {
  cache : fileCache;
  blobs : gmap string Z;
  hits : gmap nat cacheHit;
  fills : gmap nat cacheFill;
  fresh : nat;
  stray : list Z
}.

(** ** [newFileCache] *)

Definition is_hex (c : ascii) : bool :=
  is_digit c || ((97 <=? nat_of_ascii c)%nat && (nat_of_ascii c <=? 102)%nat).

(** The expression [^(?:[a-f0-9]{64}\.blob|partial-[0-9]+)$]. *)
Definition owned (name : string) : bool :=
  match CutSuffix ".blob" name with
  | Some r => (String.length r =? 64)%nat && forallb is_hex (chars r)
  | None => false
  end ||
  match CutPrefix "partial-" name with
  | Some r => negb (bool_decide (r = "")) && forallb is_digit (chars r)
  | None => false
  end.

Definition newCache (lim : Z) : fileCache :=
  {| limit := lim; bytes := 0; objectLimit := Z.min lim (2 * 2 ^ 20); active := 0;
     entries := ∅; lru := New |}.

(** [mkdir] and [readdir] are the outcomes of [os.MkdirAll] and [os.ReadDir] (names
    with [IsDir]), [rm] that of each [os.Remove].  [Ok None] is the nil cache; the
    list returned beside a cache is the directory it leaves. *)
Fixpoint clear_owned (rm : string -> bool) (paths : list (string * bool))
  : option (list (string * bool)) :=
  match paths with
  | [] => Some []
  | (name, isDir) :: ps =>
      if negb isDir && owned name then (if rm name then clear_owned rm ps else None)
      else match clear_owned rm ps with Some l => Some ((name, isDir) :: l) | None => None end
  end.

Definition newFileCache (lim : Z) (mkdir : bool) (readdir : option (list (string * bool)))
  (rm : string -> bool) : result string (option (fileCache * list (string * bool))) :=
  if bool_decide (lim <= 0) then Ok None
  else if negb mkdir then Err "mkdir"
  else match readdir with
       | None => Err "readdir"
       | Some paths =>
           match clear_owned rm paths with
           | None => Err "remove"
           | Some rest => Ok (Some (newCache lim, rest))
           end
       end.

(** ** Removal and eviction *)

Definition set_cache (c : fileCache) (b : gmap string Z) (s : state) : state :=
  {| cache := c; blobs := b; hits := hits s; fills := fills s; fresh := fresh s; stray := stray s |}.

(** [os.Remove] of the blob of [k]: a missing file counts as removed. *)
Definition os_remove (ok : bool) (k : string) (b : gmap string Z) : option (gmap string Z) :=
  match b !! k with
  | None => Some b
  | Some _ => if ok then Some (delete k b) else None
  end.

Definition remove (rm : string -> bool) (e : nat) (s : state) : option state :=
  let c := cache s in
  match Value e (lru c) with
  | None => None
  | Some v =>
      match os_remove (rm (key v)) (key v) (blobs s) with
      | None => None
      | Some b =>
          Some (set_cache {| limit := limit c; bytes := bytes c - size v;
                             objectLimit := objectLimit c; active := active c;
                             entries := delete (key v) (entries c);
                             lru := Remove e (lru c) |} b s)
      end
  end.

(** From the back of the list: the first unread entry whose file can go. *)
Fixpoint evict_scan (rm : string -> bool) (l : list (nat * fileEntry)) (s : state) : option state :=
  match l with
  | [] => None
  | (e, v) :: l' =>
      if readers v =? 0 then
        match remove rm e s with Some s' => Some s' | None => evict_scan rm l' s end
      else evict_scan rm l' s
  end.

Definition evict (rm : string -> bool) (s : state) : option state :=
  evict_scan rm (rev (gl_elems (lru (cache s)))) s.

(** ** [open], first locked region *)

Definition open_lookup (k : string) (openOk : bool) (rm : string -> bool) (s : state)
  : state * option nat :=
  let c := cache s in
  match entries c !! k with
  | None => (s, None)
  | Some e =>
      match (if openOk then blobs s !! k else None) with
      | Some len =>
          let l := Update (fun v => mkEntry (key v) (size v) (readers v + 1)) e
                     (MoveToFront e (lru c)) in
          ({| cache := {| limit := limit c; bytes := bytes c; objectLimit := objectLimit c;
                          active := active c; entries := entries c; lru := l |};
              blobs := blobs s; hits := <[fresh s := mkHit e len]> (hits s);
              fills := fills s; fresh := S (fresh s); stray := stray s |}, Some (fresh s))
      | None =>
          match Value e (lru c) with
          | Some v => if readers v =? 0
                      then (default s (remove rm e s), None) else (s, None)
          | None => (s, None)
          end
      end
  end.

(** ** [open], second locked region *)

Definition over (c : fileCache) : bool :=
  (limit c <? int64 (bytes c + int64 ((active c + 1) * objectLimit c))) ||
  (4096 <=? Z.of_nat (Len (lru c)) + active c).

(** [Some (s, true)]: room was made; [Some (s, false)]: nothing could be evicted;
    [None]: out of fuel. *)
Fixpoint reserve_loop (fuel : nat) (rm : nat -> string -> bool) (s : state)
  : option (state * bool) :=
  if over (cache s) then
    match evict (rm fuel) s with
    | None => Some (s, false)
    | Some s' => match fuel with O => None | S n => reserve_loop n rm s' end
    end
  else Some (s, true).

Definition open_reserve (k : string) (rm : nat -> string -> bool) (createOk : bool) (s : state)
  : option (state * option nat) :=
  let c := cache s in
  if (8 <=? active c) || (limit c <? int64 ((active c + 1) * objectLimit c)) then Some (s, None)
  else
    match reserve_loop (Len (lru c)) rm s with
    | None => None
    | Some (s1, false) => Some (s1, None)
    | Some (s1, true) =>
        if createOk then
          let c1 := cache s1 in
          Some ({| cache := {| limit := limit c1; bytes := bytes c1; objectLimit := objectLimit c1;
                               active := active c1 + 1; entries := entries c1; lru := lru c1 |};
                   blobs := blobs s1; hits := hits s1;
                   fills := <[fresh s1 := mkFill k 0 0]> (fills s1); fresh := S (fresh s1);
                   stray := stray s1 |},
                Some (fresh s1))
        else Some (s1, None)
    end.

(** ** The writer *)

(** The outcomes of the calls [finish] makes; that of [os.Remove] is ignored. *)
Record finishEnv := mkFin { closeOk : bool; ctxOk : bool; renameOk : bool; removeOk : bool }.

Definition finish (commit : bool) (env : finishEnv) (h : nat) (s : state) : state :=
  match fills s !! h with
  | None => s
  | Some f =>
      let c := cache s in
      let commit := commit && closeOk env in
      let fs := delete h (fills s) in
      if commit && ctxOk env && bool_decide (entries c !! f_key f = None) && renameOk env then
        let (e, l) := PushFront (mkEntry (f_key f) (f_size f) 0) (lru c) in
        {| cache := {| limit := limit c; bytes := bytes c + f_size f; objectLimit := objectLimit c;
                       active := active c - 1; entries := <[f_key f := e]> (entries c); lru := l |};
           blobs := <[f_key f := f_written f]> (blobs s); hits := hits s; fills := fs;
           fresh := fresh s; stray := stray s |}
      else
        {| cache := {| limit := limit c; bytes := bytes c; objectLimit := objectLimit c;
                       active := active c - 1; entries := entries c; lru := lru c |};
           blobs := blobs s; hits := hits s; fills := fs; fresh := fresh s;
           stray := if removeOk env then stray s else f_written f :: stray s |}
  end.

Inductive readErr := NoErr | EOF | OtherErr.

Definition set_fill (h : nat) (f : cacheFill) (s : state) : state :=
  {| cache := cache s; blobs := blobs s; hits := hits s; fills := <[h := f]> (fills s);
     fresh := fresh s; stray := stray s |}.

(** [Read]: the source returned [n] bytes and [err]; [wrote] is the outcome of
    [r.file.Write(p[:n])], the number of bytes it wrote and whether it erred. *)
Definition fill_read (h : nat) (n : Z) (err : readErr) (wrote : Z * bool) (env : finishEnv)
  (s : state) : state :=
  match fills s !! h with
  | None => s
  | Some f =>
      let f1 := mkFill (f_key f) (int64 (f_size f + n)) (f_written f) in
      let s1 := set_fill h f1 s in
      let s2 :=
        if objectLimit (cache s) <? f_size f1 then finish false env h s1
        else if 0 <? n then
          let s' := set_fill h (mkFill (f_key f1) (f_size f1) (f_written f1 + wrote.1)) s1 in
          if wrote.2 || negb (wrote.1 =? n) then finish false env h s' else s'
        else s1 in
      match err with
      | NoErr => s2
      | EOF => finish true env h s2
      | OtherErr => finish false env h s2
      end
  end.

Definition fill_close (h : nat) (env : finishEnv) (s : state) : state := finish false env h s.

(** ** [cacheHit.Close] *)

Definition hit_close (h : nat) (s : state) : state :=
  match hits s !! h with
  | None => s
  | Some r =>
      let c := cache s in
      {| cache := {| limit := limit c; bytes := bytes c; objectLimit := objectLimit c;
                     active := active c; entries := entries c;
                     lru := Update (fun v => mkEntry (key v) (size v) (readers v - 1))
                              (h_entry r) (lru c) |};
         blobs := blobs s; hits := delete h (hits s); fills := fills s; fresh := fresh s; stray := stray s |}
  end.

(** [setCachedFileLength]: the [Content-Length] of a hit. *)
Definition contentLength (h : nat) (s : state) : option Z :=
  match hits s !! h with
  | Some r => size <$> Value (h_entry r) (lru (cache s))
  | None => None
  end.

(** ** The transition system *)

Inductive label :=
| LLookup (k : string) (openOk : bool) (rm : string -> bool)
| LReserve (k : string) (rm : nat -> string -> bool) (createOk : bool)
| LRead (h : nat) (n : Z) (err : readErr) (wrote : Z * bool) (env : finishEnv)
| LFillClose (h : nat) (env : finishEnv)
| LHitClose (h : nat)
| LVanish (k : string).

(** [LVanish] is a blob deleted behind the cache's back.  The side conditions of
    [LRead] are the contract of [io.Reader] and [io.Writer]. *)
Inductive step : state -> label -> state -> Prop :=
| step_lookup k o rm s : step s (LLookup k o rm) (open_lookup k o rm s).1
| step_reserve k rm cr s s' r : open_reserve k rm cr s = Some (s', r) ->
    step s (LReserve k rm cr) s'
| step_read h n err w env s : 0 <= n < 2 ^ 62 -> 0 <= w.1 <= n ->
    step s (LRead h n err w env) (fill_read h n err w env s)
| step_fill_close h env s : step s (LFillClose h env) (fill_close h env s)
| step_hit_close h s : step s (LHitClose h) (hit_close h s)
| step_vanish k s : step s (LVanish k)
    {| cache := cache s; blobs := delete k (blobs s); hits := hits s; fills := fills s;
       fresh := fresh s; stray := stray s |}.

Definition init (lim : Z) : state :=
  {| cache := newCache lim; blobs := ∅; hits := ∅; fills := ∅; fresh := O; stray := [] |}.

(** The bytes on disk the cache knows of - its blobs and the partial files it has
    open - and all that are there. *)
Definition disk_usage (s : state) : Z :=
  map_sum id (blobs s) + map_sum f_written (fills s).
Definition on_disk (s : state) : Z := disk_usage s + zsum id (stray s).

(** How many steps of a run could not remove a partial file they gave up. *)
Definition kept_partial (l : label) : bool :=
  match l with LRead _ _ _ _ env | LFillClose _ env => negb (removeOk env) | _ => false end.
Definition failed_removals (ls : list label) : Z :=
  Z.of_nat (length (filter (fun l => kept_partial l = true) ls)).

(** The open readers of an entry. *)
Definition openOn (e : nat) (hs : gmap nat cacheHit) : Z :=
  Z.of_nat (base.size (filter (fun p : nat * cacheHit => h_entry p.2 = e) hs)).

Record inv (s : state) : Prop := mkInv {
  i_limit : 0 < objectLimit (cache s) <= limit (cache s) /\ limit (cache s) < 2 ^ 62 /\
            objectLimit (cache s) <= 2 ^ 21;
  i_wf : wf (lru (cache s));
  i_index : indexed key (entries (cache s)) (lru (cache s));
  i_bytes : bytes (cache s) = zsum (fun p => size p.2) (gl_elems (lru (cache s)));
  i_size : forall e v, (e, v) ∈ gl_elems (lru (cache s)) ->
             0 <= size v <= objectLimit (cache s);
  i_active : active (cache s) = Z.of_nat (base.size (fills s)) /\ active (cache s) <= 8;
  i_budget : bytes (cache s) + active (cache s) * objectLimit (cache s) <= limit (cache s);
  i_count : Z.of_nat (Len (lru (cache s))) + active (cache s) <= 4096;
  i_readers : forall e v, (e, v) ∈ gl_elems (lru (cache s)) -> readers v = openOn e (hits s);
  i_hits : forall h r, hits s !! h = Some r ->
             (h < fresh s)%nat /\
             exists v, (h_entry r, v) ∈ gl_elems (lru (cache s)) /\ size v = h_len r;
  i_blobs : forall k n, blobs s !! k = Some n ->
             exists e v, (e, v) ∈ gl_elems (lru (cache s)) /\ key v = k /\ size v = n;
  i_fills : forall h f, fills s !! h = Some f ->
             (h < fresh s)%nat /\ f_written f = f_size f /\
             0 <= f_size f <= objectLimit (cache s);
  i_stray : Forall (fun n => 0 <= n <= objectLimit (cache s)) (stray s)
}.

(** * Lemmas *)

Abbreviation elems s := (gl_elems (lru (cache s))).

Lemma openOn_insert e h r hs :
  hs !! h = None ->
  openOn e (<[h := r]> hs) = openOn e hs + (if decide (h_entry r = e) then 1 else 0).
Proof.
  intros Hh. unfold openOn. case_decide as Hr.
  - rewrite map_filter_insert_True by done. rewrite map_size_insert_None; [lia|].
    apply map_lookup_filter_None. by left.
  - rewrite map_filter_insert_False by done. rewrite delete_id by done. lia.
Qed.

Lemma openOn_delete e h r hs :
  hs !! h = Some r ->
  openOn e (delete h hs) = openOn e hs - (if decide (h_entry r = e) then 1 else 0).
Proof.
  intros Hh. rewrite <- (insert_id hs h r Hh) at 2. rewrite <- insert_delete_eq.
  rewrite openOn_insert by apply lookup_delete_eq. lia.
Qed.

Lemma openOn_pos e h r hs : hs !! h = Some r -> h_entry r = e -> 0 < openOn e hs.
Proof.
  intros Hh <-. pose proof (openOn_delete (h_entry r) h r hs Hh) as H.
  rewrite decide_True in H by done. unfold openOn in *. lia.
Qed.

Lemma openOn_zero e hs : (forall h r, hs !! h = Some r -> h_entry r <> e) -> openOn e hs = 0.
Proof.
  intros H. unfold openOn.
  replace (filter _ hs) with (∅ : gmap nat cacheHit); [done|].
  symmetry. apply map_empty_filter_2. intros h r Hh. by apply H in Hh.
Qed.

Lemma bytes_nonneg s : inv s -> 0 <= bytes (cache s).
Proof.
  intros HI. rewrite (i_bytes s HI). apply zsum_nonneg.
  intros [e v] Hin. simpl. by eapply (i_size s HI).
Qed.

Lemma active_nonneg s : inv s -> 0 <= active (cache s).
Proof. intros HI. destruct (i_active s HI). lia. Qed.

Lemma file_over_false s : inv s ->
  over (cache s) = false <->
  bytes (cache s) + (active (cache s) + 1) * objectLimit (cache s) <= limit (cache s) /\
  Z.of_nat (Len (lru (cache s))) + active (cache s) < 4096.
Proof.
  intros HI. pose proof (bytes_nonneg s HI). pose proof (active_nonneg s HI).
  destruct (i_active s HI) as [_ Ha]. destruct (i_limit s HI) as (? & ? & ?).
  pose proof (i_budget s HI).
  assert (0 <= (active (cache s) + 1) * objectLimit (cache s) <= 9 * 2 ^ 21) by nia.
  unfold over. rewrite !int64_id by (unfold in_int64; try rewrite int64_id by (unfold in_int64; lia); nia).
  rewrite orb_false_iff, Z.ltb_ge, Z.leb_gt. done.
Qed.

(** What a locked region leaves alone. *)
Definition framed (s s' : state) : Prop :=
  hits s' = hits s /\ fills s' = fills s /\ fresh s' = fresh s /\
  limit (cache s') = limit (cache s) /\ objectLimit (cache s') = objectLimit (cache s) /\
  active (cache s') = active (cache s).

Lemma remove_ok rm e v s s' :
  inv s -> (e, v) ∈ elems s -> readers v = 0 -> remove rm e s = Some s' ->
  inv s' /\ framed s s' /\ Len (lru (cache s)) = S (Len (lru (cache s'))) /\
  (forall p, p ∈ elems s' <-> p ∈ elems s /\ p.1 <> e).
Proof.
  intros HI Hin Hr. pose proof HI as [Hlim Hwf Hix Hby Hsz Hac Hbu Hco Hrd Hhi Hbl Hfi Hst].
  unfold remove. rewrite (proj2 (Value_Some e v _ Hwf) Hin).
  destruct (os_remove _ _ _) as [b|] eqn:Hos; [|done]. intros [= <-].
  pose proof (Remove_perm e v _ Hwf Hin) as HP.
  pose proof (Remove_length e v _ Hwf Hin) as HL.
  pose proof (Hsz e v Hin) as Hv.
  assert (Hb : forall k n, b !! k = Some n -> blobs s !! k = Some n /\ k <> key v).
  { intros k n Hk. unfold os_remove in Hos. repeat case_match; simplify_eq.
    - apply lookup_delete_Some in Hk as [? ?]. split; congruence.
    - split; congruence. }
  split_and!; [split; simpl; auto with storage| |done|intros p; apply elem_of_Remove].
  - by apply indexed_Remove.
  - rewrite Hby, (zsum_perm _ _ _ HP). simpl. lia.
  - intros e' v' [Hi _]%elem_of_Remove. eauto.
  - lia.
  - lia.
  - intros e' v' [Hi _]%elem_of_Remove. eauto.
  - intros h r Hh. destruct (Hhi h r Hh) as (Hlt & v' & Hi & Hs). split; [done|].
    exists v'. split; [|done]. apply elem_of_Remove. split; [done|]. simpl. intros He.
    subst e. pose proof (openOn_pos _ h r (hits s) Hh eq_refl) as Hp.
    rewrite <- (Hrd _ _ Hin) in Hp. lia.
  - intros k n Hk. apply Hb in Hk as [Hk Hne]. destruct (Hbl k n Hk) as (e' & v' & Hi & <- & Hs).
    exists e', v'. split_and!; [|done..]. apply elem_of_Remove. split; [done|]. simpl. intros ->.
    apply Hne. by rewrite (wf_unique e v v' _ Hwf Hin Hi).
  - unfold framed. simpl. done.
Qed.

Lemma evict_scan_ok rm l s s' :
  inv s -> (forall p, p ∈ l -> p ∈ elems s) -> evict_scan rm l s = Some s' ->
  inv s' /\ framed s s' /\ Len (lru (cache s)) = S (Len (lru (cache s'))) /\
  (forall p, p ∈ elems s' -> p ∈ elems s).
Proof.
  intros HI. induction l as [|[e v] l IH]; intros Hl; simpl; [done|].
  assert (Hl' : forall p, p ∈ l -> p ∈ elems s) by (intros; apply Hl; by apply list_elem_of_further).
  destruct (readers v =? 0) eqn:Hr; [|by apply IH]. go_bools.
  destruct (remove rm e s) as [s1|] eqn:HR; [|by apply IH].
  intros [= <-]. destruct (remove_ok rm e v s s1 HI) as (H1 & H2 & H3 & H4);
    [apply Hl, list_elem_of_here|done..|].
  split_and!; try done. intros p Hp. by apply H4 in Hp as [? _].
Qed.

Lemma evict_ok rm s s' :
  inv s -> evict rm s = Some s' ->
  inv s' /\ framed s s' /\ Len (lru (cache s)) = S (Len (lru (cache s'))) /\
  (forall p, p ∈ elems s' -> p ∈ elems s).
Proof.
  intros HI. unfold evict. apply evict_scan_ok; [done|].
  intros p Hp. rewrite list_elem_of_In in Hp |- *. by apply in_rev.
Qed.

Lemma framed_refl s : framed s s.
Proof. unfold framed. done. Qed.

Lemma framed_trans s1 s2 s3 : framed s1 s2 -> framed s2 s3 -> framed s1 s3.
Proof. unfold framed. intros (?&?&?&?&?&?) (?&?&?&?&?&?). split_and!; congruence. Qed.

(** The eviction loop always ends: with the list empty there is room. *)
Lemma reserve_loop_ok fuel rm s :
  inv s -> (active (cache s) + 1) * objectLimit (cache s) <= limit (cache s) ->
  active (cache s) < 8 -> (Len (lru (cache s)) <= fuel)%nat ->
  exists s' b, reserve_loop fuel rm s = Some (s', b) /\ inv s' /\ framed s s' /\
    (forall p, p ∈ elems s' -> p ∈ elems s) /\ (b = true -> over (cache s') = false).
Proof.
  revert s. induction fuel as [|fuel IH]; intros s HI Hroom Ha Hf; simpl.
  - assert (Hnil : elems s = []) by (apply length_zero_iff_nil; unfold Len in Hf; lia).
    assert (Hov : over (cache s) = false).
    { apply file_over_false; [done|]. rewrite (i_bytes s HI). unfold Len. rewrite Hnil. simpl. lia. }
    rewrite Hov. eexists _, _. split_and!; eauto using framed_refl.
  - destruct (over (cache s)) eqn:Hov.
    2:{ eexists _, _. split_and!; eauto using framed_refl. }
    destruct (evict (rm (S fuel)) s) as [s1|] eqn:HE.
    2:{ eexists _, _. split_and!; eauto using framed_refl. }
    destruct (evict_ok _ _ _ HI HE) as (HI1 & HF1 & HL1 & Hs1).
    pose proof HF1 as (_ & _ & _ & HlimE & HobE & HacE).
    destruct (IH s1 HI1) as (s' & b & HR & HI' & HF' & Hs' & Hb);
      [rewrite HlimE, HobE, HacE; done|lia|lia|].
    exists s', b. split_and!; eauto using framed_trans.
Qed.

(** Split the invariant of an updated state into its clauses. *)
Ltac inv_split :=
  split; cbn [cache blobs hits fills fresh stray limit bytes objectLimit active entries lru set_fill fst snd];
  auto with storage.

Lemma bump_elem e v l p :
  wf l -> (e, v) ∈ gl_elems l ->
  p ∈ gl_elems (Update (fun v => mkEntry (key v) (size v) (readers v + 1)) e (MoveToFront e l)) <->
  exists q, q ∈ gl_elems l /\
    p = if decide (q.1 = e) then (q.1, mkEntry (key q.2) (size q.2) (readers q.2 + 1)) else q.
Proof.
  intros HW Hin. rewrite elem_of_Update. pose proof (MoveToFront_perm e l HW) as HP.
  by setoid_rewrite HP.
Qed.

Lemma zsum_Update (g : fileEntry -> fileEntry) e l :
  (forall v, size (g v) = size v) ->
  zsum (fun p => size p.2) (gl_elems (Update g e l)) = zsum (fun p => size p.2) (gl_elems l).
Proof.
  intros Hg. unfold Update. simpl. induction (gl_elems l) as [|[e' v] l' IH]; [done|].
  rewrite fmap_cons. cbn [zsum]. rewrite IH. case_decide; simpl; rewrite ?Hg; done.
Qed.

Lemma open_hit_inv k e len s :
  inv s -> entries (cache s) !! k = Some e -> blobs s !! k = Some len ->
  inv (open_lookup k true (fun _ => true) s).1.
Proof.
  intros HI He Hb. pose proof HI as [Hlim Hwf Hix Hby Hsz Hac Hbu Hco Hrd Hhi Hbl Hfi Hst].
  pose proof He as (v & Hin & Hk)%Hix.
  destruct (Hbl k len Hb) as (e2 & v2 & Hin2 & Hk2 & Hs2).
  assert (e2 = e) as -> by (eapply (indexed_unique key); eauto; congruence).
  pose proof (wf_unique e v v2 _ Hwf Hin Hin2) as <-.
  assert (Hfr : hits s !! fresh s = None).
  { destruct (hits s !! fresh s) as [r|] eqn:E; [|done]. destruct (Hhi _ _ E). lia. }
  unfold open_lookup. rewrite He, Hb.
  pose proof (MoveToFront_perm e _ Hwf) as HP.
  pose proof (fun p => bump_elem e v (lru (cache s)) p Hwf Hin) as Hbump.
  inv_split.
  - apply (indexed_Update key); [done|]. by eapply indexed_perm.
  - rewrite zsum_Update by done. rewrite Hby. symmetry. by apply zsum_perm.
  - intros e' v' (q & Hq & Heq)%Hbump. destruct q as [e3 v3]. simpl in Heq.
    case_decide; simplify_eq/=; eauto.
  - unfold Len. rewrite <- (length_fmap fst), Update_fst, length_fmap, HP. exact Hco.
  - intros e' v' (q & Hq & Heq)%Hbump. destruct q as [e3 v3].
    rewrite openOn_insert by done. simpl in *.
    destruct (decide (e3 = e)); simplify_eq/=; rewrite (Hrd _ _ Hq).
    + by rewrite decide_True.
    + rewrite decide_False by congruence. lia.
  - intros h r [[<- <-]|[Hne Hh]]%lookup_insert_Some; simpl.
    + split; [lia|]. exists (mkEntry (key v) (size v) (readers v + 1)). split; [|done].
      apply Hbump. exists (e, v). split; [done|]. by rewrite decide_True.
    + destruct (Hhi h r Hh) as (Hlt & v' & Hi & Hs). split; [lia|].
      destruct (decide (h_entry r = e)) as [E|E].
      * eexists. split; [apply Hbump; exists (h_entry r, v');
          split; [done|]; simpl; by rewrite decide_True|]. done.
      * exists v'. split; [|done]. apply Hbump. exists (h_entry r, v').
        split; [done|]. simpl. by rewrite decide_False.
  - intros k' n Hk'. destruct (Hbl k' n Hk') as (e' & v' & Hi & Hkk & Hs).
    destruct (decide (e' = e)) as [E|E].
    + eexists _, _. split; [apply Hbump; exists (e', v');
        split; [done|]; simpl; by rewrite decide_True|]. done.
    + exists e', v'. split; [|done]. apply Hbump. exists (e', v').
      split; [done|]. simpl. by rewrite decide_False.
  - intros h f Hh. destruct (Hfi h f Hh). split; [lia|done].
Qed.

Lemma open_lookup_inv k o rm s : inv s -> inv (open_lookup k o rm s).1.
Proof.
  intros HI. destruct (entries (cache s) !! k) as [e|] eqn:He.
  2:{ unfold open_lookup. by rewrite He. }
  destruct (if o then blobs s !! k else None) as [len|] eqn:Hb.
  - destruct o; [|done].
    replace (open_lookup k true rm s) with (open_lookup k true (fun _ => true) s).
    { by eapply open_hit_inv. }
    unfold open_lookup. by rewrite He, Hb.
  - unfold open_lookup. rewrite He, Hb. destruct (Value e _) as [v|] eqn:HV; [|done].
    apply (Value_Some e v _ (i_wf s HI)) in HV.
    destruct (readers v =? 0) eqn:Hr; [|done]. go_bools. simpl.
    destruct (remove rm e s) as [s'|] eqn:HR; [|done]. simpl.
    by destruct (remove_ok rm e v s s' HI HV Hr HR).
Qed.

Lemma open_reserve_inv k rm cr s s' r :
  inv s -> open_reserve k rm cr s = Some (s', r) -> inv s'.
Proof.
  intros HI. unfold open_reserve. destruct (_ || _) eqn:Hg; [by intros [= <- <-]|]. go_bools.
  destruct (i_limit s HI) as (? & ? & ?). pose proof (active_nonneg s HI).
  rewrite int64_id in * by (unfold in_int64; nia).
  destruct (reserve_loop_ok (Len (lru (cache s))) rm s HI) as (s1 & b & -> & HI1 & HF & _ & Hov);
    [done..|].
  destruct b; [|by intros [= <- <-]]. destruct cr; [|by intros [= <- <-]]. intros [= <- <-].
  pose proof (Hov eq_refl) as Hov'. apply (file_over_false s1 HI1) in Hov' as [Ho1 Ho2].
  pose proof HF as (_ & _ & _ & HlimE & HobE & HacE).
  pose proof HI1 as [Hlim Hwf Hix Hby Hsz Hac Hbu Hco Hrd Hhi Hbl Hfi Hst].
  assert (Hfr : fills s1 !! fresh s1 = None).
  { destruct (fills s1 !! fresh s1) as [f|] eqn:E; [|done]. destruct (Hfi _ _ E). lia. }
  inv_split.
  - rewrite map_size_insert_None by done. lia.
  - lia.
  - intros h r' Hh. destruct (Hhi h r' Hh). split; [lia|done].
  - intros h f [[<- <-]|[Hne Hh]]%lookup_insert_Some; simpl; [lia|].
    destruct (Hfi h f Hh). split; [lia|done].
Qed.

Lemma finish_none c env h s : fills s !! h = None -> finish c env h s = s.
Proof. unfold finish. by intros ->. Qed.

Lemma finish_fills c env h s : fills (finish c env h s) = delete h (fills s).
Proof.
  unfold finish. destruct (fills s !! h) eqn:E; [by case_match|]. by rewrite delete_id.
Qed.

Lemma finish_twice c c' env h s : finish c env h (finish c' env h s) = finish c' env h s.
Proof. apply finish_none. rewrite finish_fills. apply lookup_delete_eq. Qed.

Lemma set_fill_twice h f f' s : set_fill h f' (set_fill h f s) = set_fill h f' s.
Proof. unfold set_fill. simpl. by rewrite insert_insert_eq. Qed.

Lemma set_fill_inv h f f' s :
  inv s -> fills s !! h = Some f -> f_written f' = f_size f' ->
  0 <= f_size f' <= objectLimit (cache s) -> inv (set_fill h f' s).
Proof.
  intros [Hlim Hwf Hix Hby Hsz Hac Hbu Hco Hrd Hhi Hbl Hfi Hst] Hh Hw Hs.
  inv_split.
  - rewrite map_size_insert_Some; [done|by eexists].
  - intros h' f2 [[<- <-]|[Hne Hh']]%lookup_insert_Some; [|by apply Hfi].
    destruct (Hfi h f Hh). done.
Qed.

(** A writer that is given up, whatever it has written by then. *)
Lemma finish_abort_inv env h f f' s : inv s -> fills s !! h = Some f ->
  0 <= f_written f' <= objectLimit (cache s) -> inv (finish false env h (set_fill h f' s)).
Proof.
  intros HI Hh Hw. pose proof HI as [Hlim Hwf Hix Hby Hsz Hac Hbu Hco Hrd Hhi Hbl Hfi Hst].
  unfold finish, set_fill. cbn [fills]. rewrite lookup_insert_eq. cbn [andb cache].
  rewrite delete_insert_eq.
  assert (Hsize : base.size (delete h (fills s)) = Nat.pred (base.size (fills s)))
    by (apply map_size_delete_Some; by eexists).
  assert (Hpos : (0 < base.size (fills s))%nat).
  { destruct (base.size (fills s)) eqn:E; [|lia]. apply map_size_empty_inv in E.
    rewrite E, lookup_empty in Hh. done. }
  split; simpl in *; auto; [lia|nia|lia| |by destruct (removeOk env); [|constructor]].
  intros h' f2 [Hne Hh']%lookup_delete_Some. by apply Hfi.
Qed.

Lemma set_fill_same h f s : fills s !! h = Some f -> set_fill h f s = s.
Proof. intros Hh. unfold set_fill. rewrite insert_id by done. by destruct s. Qed.

Lemma finish_inv c env h s : inv s -> inv (finish c env h s).
Proof.
  intros HI. unfold finish. destruct (fills s !! h) as [f|] eqn:Hh; [|done].
  pose proof HI as [Hlim Hwf Hix Hby Hsz Hac Hbu Hco Hrd Hhi Hbl Hfi Hst].
  destruct (Hfi h f Hh) as (Hlt & Hw & Hs).
  assert (Hsize : base.size (delete h (fills s)) = Nat.pred (base.size (fills s)))
    by (apply map_size_delete_Some; by eexists).
  assert (Hpos : (0 < base.size (fills s))%nat).
  { destruct (base.size (fills s)) eqn:E; [|lia]. apply map_size_empty_inv in E.
    rewrite E, lookup_empty in Hh. done. }
  destruct (_ && renameOk env) eqn:Hc.
  - go_bools. rename select (entries (cache s) !! f_key f = None) into Hnone.
    pose proof (indexed_PushFront key _ (mkEntry (f_key f) (f_size f) 0) _ Hix Hnone) as Hix'.
    pose proof (wf_PushFront (mkEntry (f_key f) (f_size f) 0) _ Hwf) as Hwf'.
    assert (Hnew : forall v, (gl_next (lru (cache s)), v) ∉ elems s).
    { intros v Hv. destruct Hwf as [_ HB]. specialize (HB (gl_next (lru (cache s)))).
      apply Nat.lt_irrefl with (gl_next (lru (cache s))). apply HB.
      apply list_elem_of_fmap. by exists (gl_next (lru (cache s)), v). }
    split; simpl in *; auto.
    + lia.
    + intros e v [Heq|Hin]%elem_of_cons; [by simplify_eq/=|eauto].
    + lia.
    + nia.
    + unfold Len in *. simpl. lia.
    + intros e v [Heq|Hin]%elem_of_cons; [|by apply Hrd]. simplify_eq/=. symmetry.
      apply openOn_zero. intros h' r Hr He. destruct (Hhi h' r Hr) as (_ & v' & Hi & _).
      rewrite He in Hi. by apply Hnew in Hi.
    + intros h' r Hr. destruct (Hhi h' r Hr) as (? & v' & Hi & ?). split; [done|].
      exists v'. split; [by apply list_elem_of_further|done].
    + intros k n [[<- <-]|[Hne Hk]]%lookup_insert_Some.
      * eexists _, _. split; [apply list_elem_of_here|]. done.
      * destruct (Hbl k n Hk) as (e & v & Hi & ?). exists e, v.
        split; [by apply list_elem_of_further|done].
    + intros h' f' [Hne Hh']%lookup_delete_Some. by apply Hfi.
  - assert (HE : finish c env h s = finish false env h (set_fill h f s)).
    { rewrite (set_fill_same h f s Hh). unfold finish. rewrite Hh. cbv zeta. by rewrite Hc. }
    unfold finish in HE at 1. rewrite Hh in HE. cbv zeta in HE. rewrite Hc in HE. rewrite HE.
    apply (finish_abort_inv env h f); [done..|lia].
Qed.

Lemma fill_read_inv h n err w env s :
  inv s -> 0 <= n < 2 ^ 62 -> 0 <= w.1 <= n -> inv (fill_read h n err w env s).
Proof.
  intros HI Hn Hw. unfold fill_read. destruct (fills s !! h) as [f|] eqn:Hh; [|done].
  destruct (i_fills s HI h f Hh) as (_ & Hwr & Hs). destruct (i_limit s HI) as (? & ? & ?).
  rewrite int64_id by (unfold in_int64; lia). simpl.
  assert (Hfin : forall c s2, inv s2 -> inv (finish c env h s2)) by (intros; by apply finish_inv).
  match goal with |- context [if _ <? _ then finish false env h ?a else ?b] =>
    assert (Hs2 : inv (if objectLimit (cache s) <? f_size f + n then finish false env h a else b))
  end.
  { destruct (objectLimit (cache s) <? f_size f + n) eqn:Hbig; go_bools.
    - apply (finish_abort_inv _ _ f); [done..|simpl; lia].
    - destruct (0 <? n) eqn:Hn0; go_bools.
      + rewrite set_fill_twice. destruct (_ || _) eqn:Hbad; go_bools.
        * apply (finish_abort_inv _ _ f); [done..|simpl; lia].
        * eapply set_fill_inv; [done..| |]; simpl; lia.
      + eapply set_fill_inv; [done..| |]; simpl; lia. }
  destruct err; auto.
Qed.

Lemma hit_close_inv h s : inv s -> inv (hit_close h s).
Proof.
  intros HI. unfold hit_close. destruct (hits s !! h) as [r|] eqn:Hh; [|done].
  pose proof HI as [Hlim Hwf Hix Hby Hsz Hac Hbu Hco Hrd Hhi Hbl Hfi Hst].
  inv_split.
  - by rewrite zsum_Update.
  - intros e v ([e' v'] & Hq & Heq)%elem_of_Update. simpl in Heq. case_decide; simplify_eq/=; eauto.
  - by rewrite Update_length.
  - intros e v ([e' v'] & Hq & Heq)%elem_of_Update. simpl in Heq.
    rewrite (openOn_delete _ h r) by done.
    destruct (decide (e' = h_entry r)); simplify_eq/=; rewrite (Hrd _ _ Hq).
    + by rewrite decide_True.
    + rewrite decide_False by congruence. lia.
  - intros h' r' [Hne Hh']%lookup_delete_Some. destruct (Hhi h' r' Hh') as (? & v' & Hi & ?).
    split; [done|].
    exists (if decide (h_entry r' = h_entry r)
            then mkEntry (key v') (size v') (readers v' - 1) else v'). split.
    + apply elem_of_Update. exists (h_entry r', v'). split; [done|]. simpl. by case_decide.
    + by case_decide.
  - intros k n Hk. destruct (Hbl k n Hk) as (e & v & Hi & ? & ?).
    exists e, (if decide (e = h_entry r) then mkEntry (key v) (size v) (readers v - 1) else v).
    split.
    + apply elem_of_Update. exists (e, v). split; [done|]. simpl. by case_decide.
    + by case_decide.
Qed.

Lemma file_step_inv s l s' : inv s -> step s l s' -> inv s'.
Proof.
  intros HI HS. destruct HS.
  - by apply open_lookup_inv.
  - by eapply open_reserve_inv.
  - by apply fill_read_inv.
  - by apply finish_inv.
  - by apply hit_close_inv.
  - destruct HI. inv_split. intros k' n [_ Hk]%lookup_delete_Some. eauto.
Qed.

Lemma init_inv lim : 0 < lim < 2 ^ 62 -> inv (init lim).
Proof.
  intros Hlim. inv_split; cbn [init newCache cache blobs hits fills fresh stray limit bytes objectLimit active entries lru].
  all: try (intros ? ? H; by rewrite lookup_empty in H);
       try (intros e v H; by apply not_elem_of_nil in H); try done; try lia; auto with storage.
Qed.

Lemma file_reachable_inv lim ls s : 0 < lim < 2 ^ 62 -> steps step (init lim) ls s -> inv s.
Proof. intros Hlim. apply steps_invariant; [apply file_step_inv|by apply init_inv]. Qed.

(** *** What a step can change *)

Lemma sub_entries s s' k e :
  inv s -> inv s' -> (forall p, p ∈ elems s' -> p ∈ elems s) ->
  entries (cache s') !! k = Some e -> entries (cache s) !! k = Some e.
Proof.
  intros HI HI' Hsub (v & Hin & Hk)%(i_index s' HI'). apply (i_index s HI). eauto.
Qed.

Lemma open_lookup_frame k o rm s : inv s ->
  limit (cache (open_lookup k o rm s).1) = limit (cache s) /\
  objectLimit (cache (open_lookup k o rm s).1) = objectLimit (cache s) /\
  fills (open_lookup k o rm s).1 = fills s /\
  forall k' e, entries (cache (open_lookup k o rm s).1) !! k' = Some e ->
    entries (cache s) !! k' = Some e.
Proof.
  intros HI. unfold open_lookup. destruct (entries _ !! k) as [e|]; [|done].
  destruct (if o then _ else _); [done|]. destruct (Value e _) as [v|] eqn:HV; [|done].
  apply (Value_Some e v _ (i_wf s HI)) in HV.
  destruct (readers v =? 0) eqn:Hr; [|done]. go_bools.
  destruct (remove rm e s) as [s'|] eqn:HR; [|done]. simpl.
  destruct (remove_ok rm e v s s' HI HV Hr HR) as (HI' & (_ & HF & _ & HL & HO & _) & _ & Hel).
  split_and!; [done..|]. intros k' e'. apply sub_entries; [done..|]. intros p Hp. by apply Hel.
Qed.

Lemma open_reserve_ok k rm cr s : inv s ->
  exists s' r, open_reserve k rm cr s = Some (s', r) /\
  limit (cache s') = limit (cache s) /\ objectLimit (cache s') = objectLimit (cache s) /\
  (forall k' e, entries (cache s') !! k' = Some e -> entries (cache s) !! k' = Some e) /\
  (forall h, r = Some h -> h = fresh s /\ fills s' = <[h := mkFill k 0 0]> (fills s)).
Proof.
  intros HI. unfold open_reserve.
  destruct (_ || _) eqn:Hg; [by exists s, None|]. go_bools.
  destruct (i_limit s HI) as (? & ? & ?). pose proof (active_nonneg s HI).
  rewrite int64_id in * by (unfold in_int64; nia).
  destruct (reserve_loop_ok (Len (lru (cache s))) rm s HI)
    as (s1 & b & -> & HI1 & (_ & HFi & HFr & HL & HO & _) & Hsub & _); [done..|].
  assert (Hent : forall k' e, entries (cache s1) !! k' = Some e -> entries (cache s) !! k' = Some e)
    by (intros k' e; by apply sub_entries).
  destruct b, cr; eexists _, _; (split; [reflexivity|]); split_and!; try done.
  intros h [= <-]. simpl. by rewrite HFi, HFr.
Qed.

Lemma finish_frame c env h s :
  limit (cache (finish c env h s)) = limit (cache s) /\
  objectLimit (cache (finish c env h s)) = objectLimit (cache s) /\
  hits (finish c env h s) = hits s.
Proof. unfold finish. by repeat case_match. Qed.

Lemma finish_abort_entries env h s : entries (cache (finish false env h s)) = entries (cache s).
Proof. unfold finish. by repeat case_match. Qed.

Lemma fill_read_frame h n err w env s :
  limit (cache (fill_read h n err w env s)) = limit (cache s) /\
  objectLimit (cache (fill_read h n err w env s)) = objectLimit (cache s).
Proof.
  assert (HF : forall c s1, limit (cache (finish c env h s1)) = limit (cache s1) /\
    objectLimit (cache (finish c env h s1)) = objectLimit (cache s1))
    by (intros c s1; destruct (finish_frame c env h s1) as (? & ? & _); done).
  unfold fill_read. destruct (fills s !! h) as [f|]; [|done]. cbv zeta.
  set (s1 := set_fill _ _ s). set (s2 := if _ <? _ then _ else _).
  assert (H2 : limit (cache s2) = limit (cache s) /\ objectLimit (cache s2) = objectLimit (cache s)).
  { unfold s2. by repeat case_match; rewrite ?(proj1 (HF _ _)), ?(proj2 (HF _ _)). }
  by destruct err; rewrite ?(proj1 (HF _ _)), ?(proj2 (HF _ _)).
Qed.

Lemma step_frame s l s' : inv s -> step s l s' ->
  limit (cache s') = limit (cache s) /\ objectLimit (cache s') = objectLimit (cache s).
Proof.
  intros HI HS. destruct HS as [k o rm s0|k rm cr s0 s2 r HR|h n err w env s0 _ _|h env s0|h s0|k s0].
  - by destruct (open_lookup_frame k o rm s0 HI) as (? & ? & _).
  - destruct (open_reserve_ok k rm cr s0 HI) as (s3 & r' & HR' & HL & HO & _).
    by simplify_eq.
  - apply fill_read_frame.
  - by destruct (finish_frame false env h s0) as (? & ? & _).
  - unfold hit_close. by case_match.
  - done.
Qed.

Lemma reachable lim ls s : 0 < lim < 2 ^ 62 -> steps step (init lim) ls s ->
  inv s /\ limit (cache s) = lim /\ objectLimit (cache s) = Z.min lim (2 ^ 21).
Proof.
  intros Hlim. apply (steps_invariant step (fun s =>
    inv s /\ limit (cache s) = lim /\ objectLimit (cache s) = Z.min lim (2 ^ 21))).
  - intros a l b (HI & HL & HO) Hst. destruct (step_frame a l b HI Hst) as [-> ->].
    split; [by eapply file_step_inv|done].
  - split; [by apply init_inv|done].
Qed.

(** A step leaves at most one partial file behind, and only when it could not
    remove it. *)
Lemma finish_stray c env h s : stray (finish c env h s) = stray s \/
  removeOk env = false /\ exists f, stray (finish c env h s) = f :: stray s.
Proof.
  unfold finish. destruct (fills s !! h) as [f|]; [|by left]. case_match; [by left|]. cbn.
  destruct (removeOk env); [by left|]. right. split; [done|eauto].
Qed.

Lemma fill_read_stray h n err w env s : stray (fill_read h n err w env s) = stray s \/
  removeOk env = false /\ exists f, stray (fill_read h n err w env s) = f :: stray s.
Proof.
  unfold fill_read. destruct (fills s !! h) as [f|]; [|by left]. cbv zeta.
  set (f1 := mkFill _ _ _). set (s1 := set_fill h f1 s).
  assert (HA : forall s2, stray s2 = stray s -> let y := finish false env h s2 in
    stray match err with NoErr => y | EOF => finish true env h y | OtherErr => finish false env h y end = stray y).
  { intros s2 _ y. unfold y. destruct err; by rewrite ?finish_twice. }
  assert (HF : forall c s2, stray s2 = stray s -> stray (finish c env h s2) = stray s \/
    removeOk env = false /\ exists f, stray (finish c env h s2) = f :: stray s).
  { intros c s2 <-. apply finish_stray. }
  assert (HB : forall s2, stray s2 = stray s -> let P x := stray x = stray s \/ removeOk env = false /\ exists f, stray x = f :: stray s in
    P match err with NoErr => s2 | EOF => finish true env h s2 | OtherErr => finish false env h s2 end).
  { intros s2 E P. unfold P. destruct err; [by left|by apply HF..]. }
  destruct (_ <? _); [rewrite HA by done; by apply HF|]. destruct (0 <? n); [|by apply HB].
  destruct (_ || _); [rewrite HA by done; by apply HF|by apply HB].
Qed.

Lemma remove_stray rm e s s' : remove rm e s = Some s' -> stray s' = stray s.
Proof. unfold remove. intros H. by repeat case_match; simplify_eq. Qed.

Lemma evict_stray rm s s' : evict rm s = Some s' -> stray s' = stray s.
Proof.
  unfold evict. induction (rev _) as [|[e v] l IH]; [done|]. cbn [evict_scan]. destruct (_ =? 0); [|done].
  destruct (remove rm e s) as [s1|] eqn:HR; [|done]. intros [= <-]. by apply remove_stray in HR.
Qed.

Lemma reserve_loop_stray fuel rm s s' b : reserve_loop fuel rm s = Some (s', b) -> stray s' = stray s.
Proof.
  revert s. induction fuel as [|fuel IH]; intros s; cbn [reserve_loop]; (destruct (over _); [|by intros [= <- _]]);
    (destruct (evict _ s) as [s1|] eqn:HE; [|by intros [= <- _]]); [done|].
  intros ->%IH. by apply evict_stray in HE.
Qed.

Lemma step_stray s l s' : step s l s' ->
  stray s' = stray s \/ kept_partial l = true /\ exists f, stray s' = f :: stray s.
Proof.
  intros HS. destruct HS as [k o rm s|k rm cr s s2 r HR|h n err w env s _ _|h env s|h s|k s]; cbn [kept_partial].
  - left. unfold open_lookup. destruct (entries _ !! k) as [e|]; [|done].
    destruct (if o then _ else _); [done|]. destruct (Value e _) as [v|]; [|done].
    destruct (_ =? 0); [|done]. cbn. destruct (remove rm e s) as [s'|] eqn:E; [|done]. by apply remove_stray in E.
  - left. unfold open_reserve in HR. destruct (_ || _); [by injection HR as <-|].
    destruct (reserve_loop _ _ s) as [[s1 b]|] eqn:E; [|done]. apply reserve_loop_stray in E.
    destruct b, cr; by injection HR as <- _.
  - rewrite negb_true_iff. apply fill_read_stray.
  - rewrite negb_true_iff. apply finish_stray.
  - left. unfold hit_close. by case_match.
  - by left.
Qed.

Lemma run_stray lim ls s : steps step (init lim) ls s -> Z.of_nat (length (stray s)) <= failed_removals ls.
Proof.
  revert ls s. apply steps_ind_r; [done|]. intros ls s1 l s2 _ IH HS. unfold failed_removals in *.
  rewrite filter_app, length_app, filter_cons. apply step_stray in HS as [->|(Hl & f & ->)]; [lia|].
  rewrite decide_True by done. cbn [length filter list_filter]. lia.
Qed.

Lemma stray_bound (l : list Z) m : Forall (fun n => 0 <= n <= m) l -> 0 <= zsum id l <= Z.of_nat (length l) * m.
Proof. induction 1 as [|n l Hn _ IH]; cbn [zsum length]; unfold id in *; lia. Qed.

Lemma disk_usage_bound s : inv s ->
  disk_usage s <= bytes (cache s) + active (cache s) * objectLimit (cache s).
Proof.
  intros HI. unfold disk_usage. rewrite (i_bytes s HI), (proj1 (i_active s HI)).
  assert (map_sum id (blobs s) <= zsum (fun p => size p.2) (elems s)).
  { apply (map_sum_le id _ (fun p : nat * fileEntry => key p.2)).
    - intros [e v] Hin. by eapply (i_size s HI).
    - intros k n Hk. destruct (i_blobs s HI k n Hk) as (e & v & Hin & Hkv & Hs).
      by exists (e, v). }
  assert (map_sum f_written (fills s) <= Z.of_nat (base.size (fills s)) * objectLimit (cache s)).
  { apply map_sum_bound. intros h f Hh. destruct (i_fills s HI h f Hh). lia. }
  lia.
Qed.

(** What a read hands to [finish true], when it does not abort. *)
Lemma fill_read_commit h n err w env s f k e :
  inv s -> fills s !! h = Some f -> 0 <= n < 2 ^ 62 ->
  entries (cache (fill_read h n err w env s)) !! k = Some e ->
  entries (cache s) !! k <> Some e ->
  err = EOF /\ f_size f + n <= objectLimit (cache s) /\ (0 < n -> w = (n, false)) /\
  fill_read h n err w env s =
    finish true env h (set_fill h (mkFill (f_key f) (f_size f + n) (f_size f + n)) s).
Proof.
  intros HI Hh Hn. destruct (i_fills s HI h f Hh) as (_ & Hw & Hs).
  destruct (i_limit s HI) as (? & ? & ?).
  unfold fill_read. rewrite Hh. cbv zeta. rewrite int64_id by (unfold in_int64; lia).
  cbn [f_size f_key f_written].
  assert (Habort : forall b s1, entries (cache (finish b env h (finish false env h s1))) =
    entries (cache s1)) by (intros; by rewrite finish_twice, finish_abort_entries).
  destruct (objectLimit (cache s) <? f_size f + n) eqn:Hbig; go_bools.
  { destruct err; rewrite ?Habort, ?finish_abort_entries; done. }
  destruct (0 <? n) eqn:Hn0; go_bools.
  - destruct (_ || _) eqn:Hbad; go_bools.
    { destruct err; rewrite ?Habort, ?finish_abort_entries; done. }
    rewrite set_fill_twice. destruct w as [wn werr]. simpl in *. subst.
    destruct err; rewrite ?finish_abort_entries; [done| |done]. by rewrite Hw.
  - assert (n = 0) as -> by lia. rewrite Z.add_0_r.
    destruct err; rewrite ?finish_abort_entries; [done| |done]. intros _ _.
    split_and!; [done|lia|lia|]. by rewrite Hw.
Qed.

Lemma finish_commit env h s f k e :
  inv s -> fills s !! h = Some f ->
  entries (cache (finish true env h s)) !! k = Some e -> entries (cache s) !! k <> Some e ->
  f_key f = k /\ closeOk env = true /\ ctxOk env = true /\ renameOk env = true /\
  entries (cache s) !! k = None /\ blobs (finish true env h s) !! k = Some (f_written f).
Proof.
  intros HI Hh. unfold finish. rewrite Hh. cbv zeta.
  destruct (_ && renameOk env) eqn:Hc; [|done]. go_bools. simpl.
  intros [[<- _]|[_ ?]]%lookup_insert_Some; [|done]. intros _.
  split_and!; try done. apply lookup_insert_eq.
Qed.

(** ** Properties *)

(** C25. The file cache keeps its budget: in every state reached by any interleaving
    of lookups, reservations, reads, closes and file-system failures, the bytes of
    the committed blobs and of the partial files it has open stay within the configured
    limit even if every open writer grows to the object limit, at most eight
    writers are open and at most 4096 objects are kept; all that is on disk exceeds the
    limit by no more than one object for every partial file the system refused to
    remove, so not at all while removing works; and making room for the next
    writer always ends. *)
Theorem file_cache_budget lim ls s :
  0 < lim < 2 ^ 62 -> steps step (init lim) ls s ->
  bytes (cache s) = zsum (fun p => size p.2) (elems s) /\
  bytes (cache s) + active (cache s) * Z.min lim (2 ^ 21) <= lim /\
  disk_usage s <= lim /\
  on_disk s <= lim + failed_removals ls * Z.min lim (2 ^ 21) /\
  0 <= active (cache s) <= 8 /\ active (cache s) = Z.of_nat (base.size (fills s)) /\
  Z.of_nat (Len (lru (cache s))) + active (cache s) <= 4096 /\
  forall k rm cr, exists s' r, open_reserve k rm cr s = Some (s', r).
Proof.
  intros Hlim HS. destruct (reachable _ _ _ Hlim HS) as (HI & HL & HO). pose proof (run_stray _ _ _ HS) as HSt.
  pose proof (disk_usage_bound s HI). pose proof (i_budget s HI) as Hb.
  pose proof (stray_bound _ _ (i_stray s HI)) as Hz.
  rewrite HL, HO in *. pose proof (active_nonneg s HI).
  split_and!; try apply HI; try done; [lia|unfold on_disk; nia|].
  intros k rm cr. destruct (open_reserve_ok k rm cr s HI) as (s' & r & HR & _). eauto.
Qed.

(** A cached file that is being served stays served: whatever else happens,
    the entry behind every open reader is still listed and indexed with a
    positive reader count, so eviction skips it, and the [Content-Length] sent
    for it is the length of the file the reader opened. *)
Theorem file_cache_hit_integrity lim ls s h r :
  0 < lim < 2 ^ 62 -> steps step (init lim) ls s -> hits s !! h = Some r ->
  contentLength h s = Some (h_len r) /\
  exists v, (h_entry r, v) ∈ elems s /\ entries (cache s) !! key v = Some (h_entry r) /\
    0 < readers v /\ readers v = openOn (h_entry r) (hits s).
Proof.
  intros Hlim HS Hh. destruct (reachable _ _ _ Hlim HS) as (HI & _ & _).
  destruct (i_hits s HI h r Hh) as (_ & v & Hin & Hs). split.
  - unfold contentLength. rewrite Hh, (proj2 (Value_Some _ v _ (i_wf s HI)) Hin). simpl. by rewrite Hs.
  - exists v. split_and!; [done| | |by apply (i_readers s HI)].
    + apply (i_index s HI). eauto.
    + rewrite (i_readers s HI _ _ Hin). by eapply openOn_pos.
Qed.

(** Only complete objects enter the cache: an entry can appear for a key only
    through the read that returned [io.EOF] on a writer of that key, after the
    partial file held every byte read, within the object limit, was closed
    without error and renamed under a live context; the blob then has exactly
    the length read.  Truncated, cancelled, failed and oversized transfers
    never become visible. *)
Theorem commit_only_complete lim ls s l s' k e :
  0 < lim < 2 ^ 62 -> steps step (init lim) ls s -> step s l s' ->
  entries (cache s') !! k = Some e -> entries (cache s) !! k <> Some e ->
  exists h f n w env, l = LRead h n EOF w env /\ fills s !! h = Some f /\ f_key f = k /\
    f_written f = f_size f /\ (0 < n -> w = (n, false)) /\
    f_size f + n <= Z.min lim (2 ^ 21) /\
    closeOk env = true /\ ctxOk env = true /\ renameOk env = true /\
    entries (cache s) !! k = None /\ blobs s' !! k = Some (f_size f + n).
Proof.
  intros Hlim HS Hst. destruct (reachable _ _ _ Hlim HS) as (HI & _ & HO). clear HS. intros He Hno.
  destruct Hst as [k' o rm s0|k' rm cr s0 s2 r HR|h n err w env s0 Hn Hw|h env s0|h s0|k' s0].
  - by apply (open_lookup_frame k' o rm s0 HI) in He.
  - destruct (open_reserve_ok k' rm cr s0 HI) as (s3 & r' & HR' & _ & _ & Hsub & _).
    simplify_eq. by apply Hsub in He.
  - destruct (fills s0 !! h) as [f|] eqn:Hh.
    2:{ unfold fill_read in He. by rewrite Hh in He. }
    destruct (i_fills s0 HI h f Hh) as (_ & Hwr & Hs).
    destruct (fill_read_commit h n err w env s0 f k e HI Hh Hn He Hno)
      as (-> & Hle & Hw' & Heq). rewrite Heq in He |- *.
    set (s1 := set_fill h _ s0) in *.
    assert (HI1 : inv s1) by (eapply set_fill_inv; [done..|simpl; lia]).
    destruct (finish_commit env h s1 _ k e HI1 (lookup_insert_eq _ _ _) He Hno)
      as (Hk & ? & ? & ? & Hnone & Hblob).
    rewrite HO in Hle. exists h, f, n, w, env. split_and!; done.
  - unfold fill_close in He. by rewrite finish_abort_entries in He.
  - unfold hit_close in He. by case_match.
  - done.
Qed.

(** ** Witnesses *)

Definition ok_env : finishEnv := mkFin true true true true.
Definition exec1 (l : label) (s : state) : option state :=
  match l with
  | LLookup k o rm => Some (open_lookup k o rm s).1
  | LReserve k rm cr => fst <$> open_reserve k rm cr s
  | LRead h n err w env =>
      if (0 <=? n) && (n <? 2 ^ 62) && (0 <=? w.1) && (w.1 <=? n)
      then Some (fill_read h n err w env s) else None
  | LFillClose h env => Some (fill_close h env s)
  | LHitClose h => Some (hit_close h s)
  | LVanish k => Some {| cache := cache s; blobs := delete k (blobs s); hits := hits s;
                         fills := fills s; fresh := fresh s; stray := stray s |}
  end.
Definition exec (ls : list label) (s : state) : option state :=
  foldl (fun o l => o ≫= exec1 l) (Some s) ls.

Lemma exec_steps ls s s' : exec ls s = Some s' -> steps step s ls s'.
Proof.
  unfold exec. revert s. induction ls as [|l ls IH]; intros s; simpl.
  - intros [= ->]. constructor.
  - destruct (exec1 l s) as [s1|] eqn:H1.
    + intros H. eapply steps_cons; [|by apply IH].
      destruct l; simpl in H1; simplify_eq; try by constructor.
      * destruct (open_reserve k rm createOk s) as [[s2 r]|] eqn:HR; [|done]. simplify_eq/=.
        by econstructor.
      * destruct (_ && _) eqn:Hc; [|done]. go_bools. simplify_eq. by constructor.
    + intros H. exfalso. clear -H. by induction ls as [|l' ls IHl]; simpl in H; [|apply IHl].
Qed.

Definition demo : list label :=
  [LReserve "a" (fun _ _ => true) true; LReserve "b" (fun _ _ => true) true;
   LRead 0 700 NoErr (700, false) ok_env; LRead 1 300 EOF (300, false) ok_env;
   LRead 0 50 EOF (50, false) ok_env; LFillClose 0 ok_env;
   LLookup "a" true (fun _ => true); LReserve "c" (fun _ _ => true) true].
Definition demo_state : state := default (init 5000000) (exec demo (init 5000000)).

(** A writer given up on a disk that does not let its file go: 900 bytes stay. *)
Definition stuck_state : state :=
  default (init 5000000) (exec (demo ++ [LRead 3 900 OtherErr (900, false) (mkFin true true true false)]) (init 5000000)).

Lemma file_cache_budget_witness :
  bytes (cache demo_state) = 1050 /\ disk_usage demo_state <= 5000000 /\
  active (cache demo_state) = 1 /\ on_disk demo_state <= 5000000 /\
  stray stuck_state = [900] /\ on_disk stuck_state = 1950.
Proof.
  assert (HS : steps step (init 5000000) demo demo_state)
    by (apply exec_steps; vm_compute; reflexivity).
  destruct (file_cache_budget 5000000 demo demo_state ltac:(lia) HS) as (_ & _ & H & HD & _).
  split_and!; [vm_compute; reflexivity|exact H|vm_compute; reflexivity|exact HD|vm_compute; reflexivity..].
Defined.

Lemma file_cache_hit_integrity_witness :
  exists r, hits demo_state !! 2%nat = Some r /\ contentLength 2 demo_state = Some (h_len r) /\
    h_len r = 750.
Proof.
  assert (HS : steps step (init 5000000) demo demo_state)
    by (apply exec_steps; vm_compute; reflexivity).
  exists (mkHit 1 750). split; [vm_compute; reflexivity|]. split; [|reflexivity].
  apply (file_cache_hit_integrity 5000000 demo demo_state 2%nat (mkHit 1 750) ltac:(lia) HS).
  vm_compute. reflexivity.
Defined.

Lemma commit_only_complete_witness :
  let pre := default (init 5000000) (exec (take 4 demo) (init 5000000)) in
  let post := fill_read 0 50 EOF (50, false) ok_env pre in
  entries (cache pre) !! "a" = None /\ blobs post !! "a" = Some 750 /\
  exists h f n w env, LRead 0 50 EOF (50, false) ok_env = LRead h n EOF w env /\
    fills pre !! h = Some f /\ f_key f = "a" /\
    f_written f = f_size f /\ (0 < n -> w = (n, false)) /\
    f_size f + n <= Z.min 5000000 (2 ^ 21) /\
    closeOk env = true /\ ctxOk env = true /\ renameOk env = true /\
    entries (cache pre) !! "a" = None /\ blobs post !! "a" = Some (f_size f + n).
Proof.
  intros pre post. split; [vm_compute; reflexivity|]. split; [vm_compute; reflexivity|].
  apply (commit_only_complete 5000000 (take 4 demo) pre
           (LRead 0 50 EOF (50, false) ok_env) post "a" 1%nat ltac:(lia)).
  - apply exec_steps. vm_compute. reflexivity.
  - constructor; simpl; lia.
  - vm_compute. reflexivity.
  - vm_compute. discriminate.
Defined.

End FileCache.
