(* ===== verification/FileCacheContent.v ===== *)
(** What the disk cache of [FileCache] holds and hands out, byte for byte: the
    transitions of [FileCache] with the contents of the files beside their lengths.
    A cached file is the whole of something the storage answered for its key. *)

From S2P Require Export FileCache GoIO.

Local Open Scope Z_scope.

Module FileCacheContent.
Import FileCache.

(** The content of each blob; of each partial file, with what its source has left; and of
    each file a reader has open, with the key it was opened for (a file that is removed
    stays readable through it). *)
Record contents := mkContents {
  blob_data : gmap string string;
  fill_data : gmap nat (string * string);
  hit_data : gmap nat (string * string)
}.
Definition cstate : Type := state * contents.

(** The files that are still in the directory. *)
Definition present (b : gmap string Z) (d : gmap string string) : gmap string string :=
  filter (fun p => is_Some (b !! p.1)) d.

(** ** The operations of [FileCache] on contents *)

Definition open_lookup_c (k : string) (openOk : bool) (rm : string -> bool) (x : cstate) : cstate * option nat :=
  let '(s, g) := x in
  let '(s', r) := open_lookup k openOk rm s in
  ((s', mkContents (present (blobs s') (blob_data g)) (fill_data g)
          (match r with Some h => <[h := (k, default "" (blob_data g !! k))]> (hit_data g) | None => hit_data g end)), r).

(** [data] is what the reader that [fetch] returned has to give. *)
Definition open_reserve_c (k : string) (rm : nat -> string -> bool) (createOk : bool) (data : string) (x : cstate)
  : option (cstate * option nat) :=
  let '(s, g) := x in
  match open_reserve k rm createOk s with
  | None => None
  | Some (s', r) =>
      Some ((s', mkContents (present (blobs s') (blob_data g))
                   (match r with Some h => <[h := ("", data)]> (fill_data g) | None => fill_data g end) (hit_data g)), r)
  end.

Definition fill_of (h : nat) (g : contents) : string * string := default ("", "") (fill_data g !! h).

Definition finish_c (commit : bool) (env : finishEnv) (h : nat) (x : cstate) : cstate :=
  let '(s, g) := x in
  (finish commit env h s,
   match fills s !! h with
   | None => g
   | Some f =>
       mkContents
         (if commit && closeOk env && ctxOk env && bool_decide (entries (cache s) !! f_key f = None) && renameOk env
          then <[f_key f := (fill_of h g).1]> (blob_data g) else blob_data g)
         (delete h (fill_data g)) (hit_data g)
   end).

Definition set_fill_c (h : nat) (f : cacheFill) (d : string * string) (x : cstate) : cstate :=
  (set_fill h f x.1, mkContents (blob_data x.2) (<[h := d]> (fill_data x.2)) (hit_data x.2)).

(** [p] is what the source put into the buffer. *)
Definition fill_read_c (h : nat) (p : string) (err : readErr) (wrote : Z * bool) (env : finishEnv) (x : cstate) : cstate :=
  let '(s, g) := x in
  match fills s !! h with
  | None => x
  | Some f =>
      let n := Z.of_nat (String.length p) in
      let '(w, rest) := fill_of h g in
      let rest := GoIO.rest_of (String.length p) rest in
      let f1 := mkFill (f_key f) (int64 (f_size f + n)) (f_written f) in
      let x1 := set_fill_c h f1 (w, rest) x in
      let x2 :=
        if objectLimit (cache s) <? f_size f1 then finish_c false env h x1
        else if 0 <? n then
          let x' := set_fill_c h (mkFill (f_key f1) (f_size f1) (f_written f1 + wrote.1))
                      (w +:+ GoIO.prefix_of (Z.to_nat wrote.1) p, rest) x1 in
          if wrote.2 || negb (wrote.1 =? n) then finish_c false env h x' else x'
        else x1 in
      match err with
      | NoErr => x2
      | EOF => finish_c true env h x2
      | OtherErr => finish_c false env h x2
      end
  end.

Definition hit_close_c (h : nat) (x : cstate) : cstate :=
  let '(s, g) := x in (hit_close h s, mkContents (blob_data g) (fill_data g) (delete h (hit_data g))).

(** [copyCachedFile]: what is sent of a hit, or of any other reader. *)
Inductive sent_reader := Hit (h : nat) | Plain (rest : string).
Definition copyCachedFile (r : sent_reader) (x : cstate) : option string :=
  match r with
  | Hit h =>
      size ← contentLength h x.1;
      d ← hit_data x.2 !! h;
      Some (GoIO.prefix_of (Z.to_nat size) d.2)
  | Plain rest => Some rest
  end.

(** What a lookup of a key that is in the cache has sent to its reader. *)
Definition cached (k : string) (x : cstate) : option string :=
  match open_lookup_c k true (fun _ => true) x with
  | (x', Some h) => copyCachedFile (Hit h) x'
  | (_, None) => None
  end.

(** A fill that nothing disturbs: the source comes in the pieces [ps], then is at its end. *)
Definition undisturbed : finishEnv := mkFin true true true true.
Definition fill_piece (h : nat) (x : cstate) (p : string) : cstate :=
  fill_read_c h p NoErr (Z.of_nat (String.length p), false) undisturbed x.
Definition fill_all (h : nat) (ps : list string) (x : cstate) : cstate :=
  fill_read_c h "" EOF (0, false) undisturbed (foldl (fill_piece h) x ps).

(** ** The transition system *)

Inductive clabel :=
| CLookup (k : string) (openOk : bool) (rm : string -> bool)
| CReserve (k : string) (rm : nat -> string -> bool) (createOk : bool) (data : string)
| CRead (h : nat) (p : string) (err : readErr) (wrote : Z * bool) (env : finishEnv)
| CFillClose (h : nat) (env : finishEnv)
| CHitClose (h : nat)
| CVanish (k : string).

Definition erase (l : clabel) : label :=
  match l with
  | CLookup k ok rm => LLookup k ok rm
  | CReserve k rm cr _ => LReserve k rm cr
  | CRead h p err wrote env => LRead h (Z.of_nat (String.length p)) err wrote env
  | CFillClose h env => LFillClose h env
  | CHitClose h => LHitClose h
  | CVanish k => LVanish k
  end.

Section steps.
(** What a fetch for a key may answer. *)
Context (source : string -> string -> Prop).

(** A source gives its content in order, and [EOF] only at the end of it; the other side
    conditions are those of [FileCache.step]. *)
Inductive cstep : cstate -> clabel -> cstate -> Prop :=
| cstep_lookup k o rm x : cstep x (CLookup k o rm) (open_lookup_c k o rm x).1
| cstep_reserve k rm cr data x x' r : source k data -> open_reserve_c k rm cr data x = Some (x', r) ->
    cstep x (CReserve k rm cr data) x'
| cstep_read h p err w env x rest : Z.of_nat (String.length p) < 2 ^ 62 -> 0 <= w.1 <= Z.of_nat (String.length p) ->
    (fill_of h x.2).2 = p +:+ rest -> (err = EOF -> rest = "") ->
    cstep x (CRead h p err w env) (fill_read_c h p err w env x)
| cstep_fill_close h env x : cstep x (CFillClose h env) (finish_c false env h x)
| cstep_hit_close h x : cstep x (CHitClose h) (hit_close_c h x)
| cstep_vanish k x : cstep x (CVanish k)
    ({| cache := cache x.1; blobs := delete k (blobs x.1); hits := hits x.1; fills := fills x.1; fresh := fresh x.1;
       stray := stray x.1 |},
     mkContents (delete k (blob_data x.2)) (fill_data x.2) (hit_data x.2)).

Definition cinit (lim : Z) : cstate := (init lim, mkContents ∅ ∅ ∅).

(** ** The invariant *)
Record cinv (x : cstate) : Prop := mkCinv {
  ci_inv : inv x.1;
  ci_blobs k n : blobs x.1 !! k = Some n ->
    exists d, blob_data x.2 !! k = Some d /\ source k d /\ n = Z.of_nat (String.length d);
  ci_fills h f : fills x.1 !! h = Some f ->
    exists w rest, fill_data x.2 !! h = Some (w, rest) /\ source (f_key f) (w +:+ rest) /\
      f_written f = Z.of_nat (String.length w);
  ci_hits h r : hits x.1 !! h = Some r ->
    exists k d, hit_data x.2 !! h = Some (k, d) /\ source k d /\ h_len r = Z.of_nat (String.length d)
}.

(** * Lemmas *)

(** ** Contents are only beside the cache *)

Lemma set_fill_c_fst h f d x : (set_fill_c h f d x).1 = set_fill h f x.1.
Proof. done. Qed.

Lemma finish_c_fst commit env h x : (finish_c commit env h x).1 = finish commit env h x.1.
Proof. by destruct x. Qed.

Lemma fill_read_c_fst h p err w env x :
  (fill_read_c h p err w env x).1 = fill_read h (Z.of_nat (String.length p)) err w env x.1.
Proof.
  destruct x as [s g]. unfold fill_read_c, fill_read. cbn [fst]. destruct (fills s !! h) as [f|]; [|done].
  destruct (fill_of h g) as [a b]. cbn [f_size f_key f_written].
  destruct (objectLimit (cache s) <? _); [by destruct err; rewrite ?finish_c_fst|].
  destruct (0 <? _); [|by destruct err; rewrite ?finish_c_fst].
  by destruct (_ || _); destruct err; rewrite ?finish_c_fst.
Qed.

Lemma cstep_erase x l x' : cstep x l x' -> step x.1 (erase l) x'.1.
Proof.
  intros HS. destruct HS as [k o rm x|k rm cr data x x' r _ HR|h p err w env x rest Hp Hw _ _|h env x|h x|k x]; cbn [erase].
  - unfold open_lookup_c. destruct x as [s g]. destruct (open_lookup k o rm s) as [s' r] eqn:E. cbn.
    replace s' with (open_lookup k o rm s).1 by by rewrite E. constructor.
  - destruct x as [s g]. unfold open_reserve_c in HR. destruct (open_reserve k rm cr s) as [[s' r']|] eqn:E; [|done].
    injection HR as <- _. by econstructor.
  - rewrite fill_read_c_fst. constructor; [lia|lia].
  - rewrite finish_c_fst. constructor.
  - destruct x as [s g]. constructor.
  - constructor.
Qed.

(** ** The files that go *)

Lemma remove_blobs rm e s s' : remove rm e s = Some s' -> blobs s' ⊆ blobs s.
Proof.
  unfold remove, os_remove. destruct (Value e _) as [v|]; [|done].
  destruct (blobs s !! key v); [destruct (rm (key v)); [|done]|]; intros [= <-]; cbn; [apply delete_subseteq|done].
Qed.

Lemma evict_scan_blobs rm l s s' : evict_scan rm l s = Some s' -> blobs s' ⊆ blobs s.
Proof.
  induction l as [|[e v] l IH]; [done|]. cbn [evict_scan]. destruct (_ =? 0); [|done].
  destruct (remove rm e s) as [s1|] eqn:HR; [|done]. intros [= <-]. by apply remove_blobs in HR.
Qed.

Lemma reserve_loop_blobs fuel rm s s' b : reserve_loop fuel rm s = Some (s', b) -> blobs s' ⊆ blobs s.
Proof.
  revert s. induction fuel as [|fuel IH]; intros s; cbn [reserve_loop]; (destruct (over _); [|by intros [= <- _]]);
    (destruct (evict _ s) as [s1|] eqn:HE; [|by intros [= <- _]]); [done|].
  intros HL%IH. etrans; [exact HL|]. by apply evict_scan_blobs in HE.
Qed.

Lemma open_lookup_effect k o rm s s' r : open_lookup k o rm s = (s', r) ->
  match r with
  | Some h => exists e n, h = fresh s /\ blobs s !! k = Some n /\ hits s' = <[h := mkHit e n]> (hits s) /\ blobs s' = blobs s
  | None => hits s' = hits s /\ blobs s' ⊆ blobs s
  end /\ fills s' = fills s.
Proof.
  unfold open_lookup. destruct (entries _ !! k) as [e|]; [|by intros [= <- <-]].
  destruct (if o then _ else _) as [n|] eqn:Hb.
  { intros [= <- <-]. split; [|done]. exists e, n. cbn. split_and!; try done. by destruct o. }
  destruct (Value e _) as [v|]; [|by intros [= <- <-]]. destruct (_ =? 0); [|by intros [= <- <-]].
  destruct (remove rm e s) as [s1|] eqn:HR; intros [= <- <-]; [|done]. cbn. split; [split; [|by apply remove_blobs in HR]|];
    unfold remove in HR; repeat case_match; by simplify_eq.
Qed.

Lemma open_reserve_effect k rm cr s s' r : inv s -> open_reserve k rm cr s = Some (s', r) ->
  hits s' = hits s /\ blobs s' ⊆ blobs s /\
  fills s' = match r with Some h => <[h := mkFill k 0 0]> (fills s) | None => fills s end.
Proof.
  intros HI. unfold open_reserve. destruct (_ || _) eqn:Hg; [by intros [= <- <-]|]. go_bools.
  destruct (i_limit s HI) as (? & ? & ?). pose proof (active_nonneg s HI). rewrite int64_id in * by (unfold in_int64; nia).
  destruct (reserve_loop_ok (Len (lru (cache s))) rm s HI) as (s1 & b & HL & _ & (F1 & F2 & F3 & _) & _); [done..|].
  rewrite HL. apply reserve_loop_blobs in HL. destruct b, cr; intros [= <- <-]; cbn; by rewrite ?F1, ?F2, ?F3.
Qed.

(** ** The invariant is kept *)

Lemma present_lookup b d k v : present b d !! k = Some v <-> d !! k = Some v /\ is_Some (b !! k).
Proof. unfold present. by rewrite map_lookup_filter_Some. Qed.

Lemma blobs_sub s s' g k n : cinv (s, g) -> blobs s' ⊆ blobs s -> blobs s' !! k = Some n ->
  exists d, present (blobs s') (blob_data g) !! k = Some d /\ source k d /\ n = Z.of_nat (String.length d).
Proof.
  intros HC HS Hk. pose proof (lookup_weaken _ _ _ _ Hk HS) as Hk'. apply (ci_blobs _ HC) in Hk' as (d & Hd & Hs & Hn).
  exists d. split; [|done]. apply present_lookup. split; [done|by eexists].
Qed.

Lemma abort_cinv env h f f' d x : cinv x -> fills x.1 !! h = Some f ->
  0 <= f_written f' <= objectLimit (cache x.1) -> cinv (finish_c false env h (set_fill_c h f' d x)).
Proof.
  destruct x as [s g]. cbn [fst]. intros HC Hf Hw.
  assert (HE : finish_c false env h (set_fill_c h f' d (s, g)) =
    (finish false env h (set_fill h f' s), mkContents (blob_data g) (delete h (fill_data g)) (hit_data g))).
  { unfold finish_c, set_fill_c. cbn [fst snd]. f_equal. cbn. rewrite lookup_insert_eq. cbn.
    by rewrite delete_insert_eq. }
  rewrite HE. split; cbn [fst snd blob_data fill_data hit_data].
  - by apply (finish_abort_inv env h f f' s (ci_inv _ HC)).
  - unfold finish, set_fill. cbn. rewrite lookup_insert_eq. cbn. apply (ci_blobs _ HC).
  - intros h' f2. rewrite finish_fills. cbn. rewrite delete_insert_eq. intros [Hne Hf2]%lookup_delete_Some.
    rewrite lookup_delete_ne by done. by apply (ci_fills _ HC).
  - destruct (finish_frame false env h (set_fill h f' s)) as (_ & _ & ->). apply (ci_hits _ HC).
Qed.

Lemma set_fill_c_twice h f f' d d' x : set_fill_c h f' d' (set_fill_c h f d x) = set_fill_c h f' d' x.
Proof. unfold set_fill_c. cbn. by rewrite set_fill_twice, insert_insert_eq. Qed.

Lemma finish_c_twice c env h x : finish_c c env h (finish_c false env h x) = finish_c false env h x.
Proof.
  destruct x as [s g]. unfold finish_c. rewrite finish_twice, finish_fills, lookup_delete_eq. done.
Qed.

Lemma set_fill_cinv h f f' w rest x : cinv x -> fills x.1 !! h = Some f -> f_key f' = f_key f -> f_written f' = f_size f' ->
  0 <= f_size f' <= objectLimit (cache x.1) -> source (f_key f) (w +:+ rest) -> f_written f' = Z.of_nat (String.length w) ->
  cinv (set_fill_c h f' (w, rest) x).
Proof.
  intros HC Hf HK0 Hw Hs Hsrc Hl. split; cbn.
  - by apply (set_fill_inv h f f' x.1 (ci_inv _ HC)).
  - apply (ci_blobs _ HC).
  - intros h' f''. destruct (decide (h' = h)) as [->|Hne].
    + rewrite !lookup_insert_eq. intros [= <-]. exists w, rest. by rewrite HK0.
    + rewrite !lookup_insert_ne by done. apply (ci_fills _ HC).
  - apply (ci_hits _ HC).
Qed.

Lemma finish_cinv commit env h x : cinv x -> (commit = true -> (fill_of h x.2).2 = "") -> cinv (finish_c commit env h x).
Proof.
  destruct x as [s g]. intros HC Hr. split; rewrite ?finish_c_fst; [by apply finish_inv, (ci_inv _ HC)|..]; cbn [fst snd finish_c].
  - intros k n. unfold finish. destruct (fills s !! h) as [f|] eqn:Hf; [|apply (ci_blobs _ HC)].
    destruct (_ && renameOk env) eqn:Hc; [|apply (ci_blobs _ HC)]. cbn.
    destruct (decide (f_key f = k)) as [<-|Hne]; [|rewrite !lookup_insert_ne by done; apply (ci_blobs _ HC)].
    rewrite !lookup_insert_eq. intros [= <-]. destruct (ci_fills _ HC h f Hf) as (w & rest & Hd & Hs & Hw). cbn in Hd.
    assert (commit = true) as -> by (by destruct commit). specialize (Hr eq_refl). cbn in Hr.
    unfold fill_of in *. rewrite Hd in *. cbn in *. subst rest. rewrite append_nil_r in Hs. by exists w.
  - intros h' f' Hf'. rewrite finish_fills in Hf'. apply lookup_delete_Some in Hf' as [Hne Hf'].
    destruct (fills s !! h) as [f|]; [|by apply (ci_fills _ HC)]. cbn. rewrite lookup_delete_ne by done. by apply (ci_fills _ HC).
  - destruct (finish_frame commit env h s) as (_ & _ & ->). intros h' r Hr'. apply (ci_hits _ HC) in Hr'.
    by destruct (fills s !! h).
Qed.

Lemma fill_read_cinv h p err w env x rest : cinv x ->
  Z.of_nat (String.length p) < 2 ^ 62 -> 0 <= w.1 <= Z.of_nat (String.length p) ->
  (fill_of h x.2).2 = p +:+ rest -> (err = EOF -> rest = "") -> cinv (fill_read_c h p err w env x).
Proof.
  intros HC Hp Hw Hrest Heof. destruct (fills x.1 !! h) as [f|] eqn:Hf; [|destruct x; unfold fill_read_c; cbn in Hf; by rewrite Hf].
  destruct (ci_fills _ HC h f Hf) as (a & b & Hd & Hs & Ha). destruct (i_fills _ (ci_inv _ HC) h f Hf) as (_ & Hws & Hsz).
  destruct (i_limit _ (ci_inv _ HC)) as (? & ? & ?).
  unfold fill_of in Hrest. rewrite Hd in Hrest. cbn in Hrest. subst b.
  set (n := Z.of_nat (String.length p)) in *.
  assert (HA : forall c f' d, 0 <= f_written f' <= objectLimit (cache x.1) -> let y := finish_c false env h (set_fill_c h f' d x) in
    cinv (match err with NoErr => y | EOF => finish_c c env h y | OtherErr => finish_c false env h y end)).
  { intros c f' d Hf' y. unfold y. destruct err; rewrite ?finish_c_twice; by apply (abort_cinv env h f). }
  assert (HB : forall f', f_key f' = f_key f -> f_written f' = f_size f' -> 0 <= f_size f' <= objectLimit (cache x.1) ->
    f_written f' = Z.of_nat (String.length (a +:+ p)) -> let y := set_fill_c h f' (a +:+ p, rest) x in
    cinv (match err with NoErr => y | EOF => finish_c true env h y | OtherErr => finish_c false env h y end)).
  { intros f' K1 K2 K3 K4 y. assert (HY : cinv y) by (apply (set_fill_cinv h f); try done; by rewrite append_assoc).
    destruct err; [done| |by apply finish_cinv]. apply finish_cinv; [done|]. intros _. unfold y, fill_of. cbn.
    rewrite lookup_insert_eq. cbn. by apply Heof. }
  destruct x as [s g]. cbn [fst snd] in *. unfold fill_read_c. rewrite Hf. unfold fill_of. rewrite Hd. cbn [default fst snd].
  fold n. cbn [f_size f_key f_written]. unfold from_option, id. rewrite GoIO.rest_of_prefix. rewrite int64_id by (unfold in_int64; lia).
  destruct (Z.ltb_spec (objectLimit (cache s)) (f_size f + n)).
  { apply HA. cbn. lia. }
  destruct (Z.ltb_spec 0 n) as [Hn|Hn].
  - rewrite set_fill_c_twice. destruct (w.2 || negb (w.1 =? n)) eqn:Hbad; [apply HA; cbn; lia|].
    go_bools. assert (HP : GoIO.prefix_of (Z.to_nat w.1) p = p) by (apply GoIO.prefix_of_all; lia). rewrite HP.
    apply HB; cbn; [done|lia|lia|rewrite length_append; lia].
  - assert (p = "") as -> by (destruct p; [done|cbn in *; lia]). rewrite append_nil_r in HB.
    apply HB; cbn; [done|subst n; cbn; lia|subst n; cbn; lia|done].
Qed.

Lemma open_lookup_cinv k o rm x : cinv x -> cinv (open_lookup_c k o rm x).1.
Proof.
  destruct x as [s g]. intros HC. pose proof (open_lookup_inv k o rm s (ci_inv _ HC)) as HI. unfold open_lookup_c.
  destruct (open_lookup k o rm s) as [s' r] eqn:HE. apply open_lookup_effect in HE as [HE HF]. cbn [fst] in *.
  assert (HB : blobs s' ⊆ blobs s) by (destruct r; [destruct HE as (? & ? & _ & _ & _ & ->)|apply HE]; done).
  split; cbn [fst snd blob_data fill_data hit_data]; [done| |rewrite HF; apply (ci_fills _ HC)|].
  - intros k' n. by apply (blobs_sub s).
  - intros h q. destruct r as [h0|]; [|destruct HE as [-> _]; apply (ci_hits _ HC)].
    destruct HE as (e & n & -> & Hk & -> & _). destruct (decide (h = fresh s)) as [->|Hne].
    + rewrite !lookup_insert_eq. intros [= <-]. apply (ci_blobs _ HC) in Hk as (d & Hd & Hs & Hn). cbn in Hd. rewrite Hd.
      by exists k, d.
    + rewrite !lookup_insert_ne by done. apply (ci_hits _ HC).
Qed.

Lemma open_reserve_cinv k rm cr data x x' r : cinv x -> source k data ->
  open_reserve_c k rm cr data x = Some (x', r) -> cinv x'.
Proof.
  destruct x as [s g]. intros HC Hsrc HR. unfold open_reserve_c in HR.
  destruct (open_reserve k rm cr s) as [[s' r']|] eqn:HE; [|done]. injection HR as <- <-.
  pose proof (open_reserve_inv _ _ _ _ _ _ (ci_inv _ HC) HE) as HI.
  destruct (open_reserve_effect _ _ _ _ _ _ (ci_inv _ HC) HE) as (Hh & HB & HF).
  split; cbn [fst snd blob_data fill_data hit_data]; [done| | |rewrite Hh; apply (ci_hits _ HC)].
  - intros k' n. by apply (blobs_sub s).
  - intros h f. rewrite HF. destruct r' as [h0|]; [|apply (ci_fills _ HC)]. destruct (decide (h = h0)) as [->|Hne].
    + rewrite !lookup_insert_eq. intros [= <-]. by exists "", data.
    + rewrite !lookup_insert_ne by done. apply (ci_fills _ HC).
Qed.

Lemma hit_close_cinv h x : cinv x -> cinv (hit_close_c h x).
Proof.
  destruct x as [s g]. intros HC. pose proof (hit_close_inv h s (ci_inv _ HC)) as HI. unfold hit_close_c.
  assert (HE : blobs (hit_close h s) = blobs s /\ fills (hit_close h s) = fills s /\ hits (hit_close h s) = delete h (hits s)).
  { unfold hit_close. destruct (hits s !! h) eqn:Hh; [done|]. by rewrite delete_id. }
  destruct HE as (HB & HF & HH). split; cbn [fst snd blob_data fill_data hit_data]; [done|..].
  - rewrite HB. apply (ci_blobs _ HC).
  - rewrite HF. apply (ci_fills _ HC).
  - rewrite HH. intros h' q [Hne Hq]%lookup_delete_Some. rewrite lookup_delete_ne by done. by apply (ci_hits _ HC).
Qed.

Lemma cstep_cinv x l x' : cinv x -> cstep x l x' -> cinv x'.
Proof.
  intros HC HS. pose proof (file_step_inv _ _ _ (ci_inv _ HC) (cstep_erase _ _ _ HS)) as HI.
  destruct HS as [k o rm x|k rm cr data x x' r Hsrc HR|h p err w env x rest Hp Hw Hrest Heof|h env x|h x|k x].
  - by apply open_lookup_cinv.
  - by eapply open_reserve_cinv.
  - by eapply fill_read_cinv.
  - by apply finish_cinv.
  - by apply hit_close_cinv.
  - split; cbn [fst snd blob_data fill_data hit_data]; [done| |apply (ci_fills _ HC)|apply (ci_hits _ HC)].
    cbn [blobs]. intros k' n [Hne Hn]%lookup_delete_Some. rewrite lookup_delete_ne by done. by apply (ci_blobs _ HC).
Qed.

Lemma cinit_cinv lim : 0 < lim < 2 ^ 62 -> cinv (cinit lim).
Proof. intros Hlim. split; [by apply init_inv|..]; intros h r Hr; cbn in Hr; by rewrite lookup_empty in Hr. Qed.

(** A hit sends the whole file. *)
Lemma copy_hit h x r : cinv x -> hits x.1 !! h = Some r -> exists k d, hit_data x.2 !! h = Some (k, d) /\
  source k d /\ contentLength h x.1 = Some (Z.of_nat (String.length d)) /\ copyCachedFile (Hit h) x = Some d.
Proof.
  intros HC Hr. destruct (ci_hits _ HC h r Hr) as (k & d & Hd & Hs & Hl).
  destruct (i_hits _ (ci_inv _ HC) h r Hr) as (_ & v & Hin & Hv).
  assert (HL : contentLength h x.1 = Some (Z.of_nat (String.length d))).
  { unfold contentLength. rewrite Hr, (proj2 (Value_Some _ v _ (i_wf _ (ci_inv _ HC))) Hin). cbn. by rewrite Hv, Hl. }
  exists k, d. do 3 (split; [done|]). unfold copyCachedFile. rewrite HL, Hd. cbn. by rewrite GoIO.prefix_of_all by lia.
Qed.

Lemma cached_source k x d : cinv x -> cached k x = Some d -> source k d.
Proof.
  intros HC HK. unfold cached in HK. pose proof (open_lookup_cinv k true (fun _ => true) x HC) as HC'.
  destruct x as [s g]. unfold open_lookup_c in *.
  destruct (open_lookup k true (fun _ => true) s) as [s' [h|]] eqn:HE; [|done]. cbn [fst] in *.
  apply open_lookup_effect in HE as [(e & n & -> & Hn & Hh & _) _].
  destruct (copy_hit (fresh s) _ (mkHit e n) HC') as (k' & d' & Hd & Hs & _ & Hc); [cbn; by rewrite Hh, lookup_insert_eq|].
  rewrite Hc in HK. injection HK as <-. cbn in Hd. rewrite lookup_insert_eq in Hd. by injection Hd as -> _.
Qed.

End steps.

(** The invariant does not look at how a content came to be the key's. *)
Lemma cinv_mono (P Q : string -> string -> Prop) x : (forall k d, P k d -> Q k d) -> cinv P x -> cinv Q x.
Proof.
  intros HPQ HC. split; [apply HC|..].
  - intros k n Hn. destruct (ci_blobs _ _ HC k n Hn) as (d & ? & ? & ?). exists d. auto.
  - intros h f Hf. destruct (ci_fills _ _ HC h f Hf) as (w & rest & ? & ? & ?). exists w, rest. auto.
  - intros h r Hr. destruct (ci_hits _ _ HC h r Hr) as (k & d & ? & ? & ?). exists k, d. auto.
Qed.

(** ** A fill that goes through *)

(** What the fill [h] of [k] has written, and what it still has to read. *)
Record filling (h : nat) (k w rest : string) (x : cstate) : Prop := {
  fi_fill : fills x.1 !! h = Some (mkFill k (Z.of_nat (String.length w)) (Z.of_nat (String.length w)));
  fi_data : fill_data x.2 !! h = Some (w, rest);
  fi_free : entries (cache x.1) !! k = None;
  fi_room : Z.of_nat (String.length (w +:+ rest)) <= objectLimit (cache x.1) <= 2 ^ 21
}.

Lemma filling_piece h k w p rest x : filling h k w (p +:+ rest) x -> filling h k (w +:+ p) rest (fill_piece h x p).
Proof.
  destruct x as [s g]. intros [HF HD HE HR]. unfold fill_piece, fill_read_c. cbn [fst snd] in *. rewrite HF. unfold fill_of.
  rewrite HD. cbn [default from_option id f_size f_key f_written fst snd]. rewrite GoIO.rest_of_prefix. unfold id.
  rewrite !length_append, !Nat2Z.inj_add in HR. rewrite int64_id by (unfold in_int64; lia).
  destruct (Z.ltb_spec (objectLimit (cache s)) (Z.of_nat (String.length w) + Z.of_nat (String.length p))); [lia|].
  assert (HL : Z.of_nat (String.length (w +:+ p)) = Z.of_nat (String.length w) + Z.of_nat (String.length p))
    by (rewrite length_append; lia).
  destruct (Z.ltb_spec 0 (Z.of_nat (String.length p))) as [Hp|Hp].
  - rewrite Z.eqb_refl. cbn [negb orb]. rewrite set_fill_c_twice, GoIO.prefix_of_all by lia.
    split; cbn; [by rewrite lookup_insert_eq, HL|by rewrite lookup_insert_eq|done|].
    rewrite !length_append. lia.
  - assert (p = "") as -> by (destruct p; [done|cbn in *; lia]). rewrite append_nil_r in HL |- *.
    split; cbn; [by rewrite lookup_insert_eq, Z.add_0_r|by rewrite lookup_insert_eq|done|]. rewrite length_append. lia.
Qed.

Lemma filling_pieces h k ps w rest x : filling h k w (foldr String.append "" ps +:+ rest) x ->
  filling h k (w +:+ foldr String.append "" ps) rest (foldl (fill_piece h) x ps).
Proof.
  revert w x. induction ps as [|p ps IH]; intros w x HF; cbn [foldr foldl] in *.
  - by rewrite append_nil_r.
  - rewrite <- append_assoc. apply IH, filling_piece. by rewrite append_assoc in HF.
Qed.

(** A key that is in the cache, with its file, is sent the file. *)
Lemma cached_blob source k x e n d : cinv source x -> entries (cache x.1) !! k = Some e -> blobs x.1 !! k = Some n ->
  blob_data x.2 !! k = Some d -> cached k x = Some d.
Proof.
  intros HC He Hn Hd. pose proof (open_lookup_cinv source k true (fun _ => true) x HC) as HC'.
  unfold cached. destruct x as [s g]. cbn [fst snd] in *. unfold open_lookup_c in *.
  assert (HO : exists s', open_lookup k true (fun _ => true) s = (s', Some (fresh s)) /\ hits s' = <[fresh s := mkHit e n]> (hits s)).
  { unfold open_lookup. rewrite He, Hn. eexists. by split. }
  destruct HO as (s' & HO & Hh). rewrite HO in *. cbn [fst] in HC'.
  destruct (copy_hit source (fresh s) _ (mkHit e n) HC') as (k' & d' & Hd' & _ & _ & ->); [cbn; by rewrite Hh, lookup_insert_eq|].
  cbn in Hd'. rewrite lookup_insert_eq, Hd in Hd'. by injection Hd' as _ ->.
Qed.

Lemma filling_ends source h k w x : cinv source x -> filling h k w "" x ->
  cached k (fill_read_c h "" EOF (0, false) undisturbed x) = Some w.
Proof.
  intros HC [HF HD HE HR]. assert (HC' : cinv source (fill_read_c h "" EOF (0, false) undisturbed x)).
  { apply (fill_read_cinv source h "" EOF (0, false) undisturbed x "" HC); [done|done| |done]. unfold fill_of. by rewrite HD. }
  rewrite append_nil_r in HR.
  assert (HN : exists e, entries (cache (fill_read_c h "" EOF (0, false) undisturbed x).1) !! k = Some e /\
      blobs (fill_read_c h "" EOF (0, false) undisturbed x).1 !! k = Some (Z.of_nat (String.length w)) /\
      blob_data (fill_read_c h "" EOF (0, false) undisturbed x).2 !! k = Some w).
  { destruct x as [s g]. cbn [fst snd] in *. unfold fill_read_c. rewrite HF. unfold fill_of. rewrite HD.
    cbn [default from_option f_size f_key f_written fst snd]. change (Z.of_nat (String.length "")) with 0.
    rewrite Z.add_0_r, int64_id by (unfold in_int64; lia).
    destruct (Z.ltb_spec (objectLimit (cache s)) (Z.of_nat (String.length w))); [lia|]. cbn [Z.ltb Z.compare].
    unfold finish_c, set_fill_c, finish, set_fill, fill_of. cbn. rewrite !lookup_insert_eq. cbn. rewrite HE. cbn.
    eexists. by rewrite !lookup_insert_eq. }
  destruct HN as (e & He & Hn & Hd). by eapply cached_blob.
Qed.

Lemma fill_pieces_cinv source h k ps w rest x : cinv source x -> filling h k w (foldr String.append "" ps +:+ rest) x ->
  Forall (fun p => Z.of_nat (String.length p) < 2 ^ 62) ps -> cinv source (foldl (fill_piece h) x ps).
Proof.
  revert w x. induction ps as [|p ps IH]; intros w x HC HF HP; [done|]. cbn [foldr foldl] in *.
  apply Forall_cons in HP as [Hp HP]. rewrite append_assoc in HF.
  eapply IH; [|by apply filling_piece|done].
  apply (fill_read_cinv source h p NoErr (Z.of_nat (String.length p), false) undisturbed x (foldr String.append "" ps +:+ rest) HC);
    [done|cbn; lia| |done]. unfold fill_of. by rewrite (fi_data _ _ _ _ _ HF).
Qed.

Lemma pieces_short ps n : Z.of_nat (String.length (foldr String.append "" ps)) <= n ->
  Forall (fun p => Z.of_nat (String.length p) <= n) ps.
Proof.
  induction ps as [|p ps IH]; cbn [foldr]; [constructor|]. rewrite length_append. intros Hn.
  apply Forall_cons. split; [lia|apply IH; lia].
Qed.

Lemma steps_erase source ls x x' : steps (cstep source) x ls x' -> steps step x.1 (erase <$> ls) x'.1.
Proof.
  induction 1 as [x|x l x1 ls x2 HS _ IH]; [constructor|]. rewrite fmap_cons.
  eapply steps_cons; [by eapply cstep_erase|exact IH].
Qed.

Lemma reserve_filling source k rm data x x1 h : cinv source x -> entries (cache x.1) !! k = None ->
  Z.of_nat (String.length data) <= objectLimit (cache x.1) ->
  open_reserve_c k rm true data x = Some (x1, Some h) -> filling h k "" data x1.
Proof.
  intros HC HE HL HR. destruct (open_reserve_ok k rm true x.1 (ci_inv _ _ HC)) as (s' & r & HO & _ & HOl & Hsub & Hnew).
  destruct x as [s g]. cbn [fst snd] in *. unfold open_reserve_c in HR. rewrite HO in HR. injection HR as <- ->.
  destruct (Hnew h eq_refl) as [_ HF]. destruct (i_limit _ (ci_inv _ _ HC)) as (_ & _ & Hmax). cbn [fst] in Hmax.
  split; cbn [fst snd fill_data]; [by rewrite HF, lookup_insert_eq|by rewrite lookup_insert_eq| |rewrite append_nil_l, HOl; lia].
  destruct (entries (cache s') !! k) as [e|] eqn:He; [|done]. apply Hsub in He. congruence.
Qed.

(** ** Properties *)

(** C26. A hit is whole: whatever the callers do with the cache at the same time - reads
    that fail, writers that give up, files that are evicted or that vanish under an open
    reader - a reader that got a cached file is sent exactly the bytes of one answer the
    storage gave for the key it was opened for, and is told exactly their number; and a
    file within the limits that is read to its end, in whatever pieces, is what the next
    reader gets. *)
Theorem hit_is_whole source lim ls x : 0 < lim < 2 ^ 62 -> steps (cstep source) (cinit lim) ls x ->
  (forall h r, hits x.1 !! h = Some r ->
    exists k d, hit_data x.2 !! h = Some (k, d) /\ source k d /\
      contentLength h x.1 = Some (Z.of_nat (String.length d)) /\ copyCachedFile (Hit h) x = Some d) /\
  (forall k rm ps x1 h, let data := foldr String.append "" ps in
    source k data -> entries (cache x.1) !! k = None -> Z.of_nat (String.length data) <= Z.min lim (2 ^ 21) ->
    open_reserve_c k rm true data x = Some (x1, Some h) -> cached k (fill_all h ps x1) = Some data).
Proof.
  intros Hlim HS. assert (HC : cinv source x).
  { revert HS. apply steps_invariant; [apply cstep_cinv|by apply cinit_cinv]. }
  split; [intros h r; by apply copy_hit|]. intros k rm ps x1 h data Hs HE HL HR.
  destruct (reachable _ _ _ Hlim (steps_erase _ _ _ _ HS)) as (_ & _ & HO).
  assert (HF : filling h k "" (data +:+ "") x1).
  { rewrite append_nil_r. eapply reserve_filling; [done|done|by rewrite HO|done]. }
  apply (filling_ends source).
  - apply (fill_pieces_cinv source h k ps "" "" x1); [by eapply open_reserve_cinv|done|].
    eapply Forall_impl; [apply (pieces_short ps _ HL)|]. cbn. intros p Hp. lia.
  - by apply (filling_pieces h k ps "" "").
Qed.

(** ** Witnesses *)

Module Toy.

Definition answers (k d : string) : Prop := k = "a" /\ d = "hello world".
Definition always (_ : nat) (_ : string) : bool := true.
Definition whole (k : string) : bool := true.
Definition demo : list clabel :=
  [CReserve "a" always true "hello world"; CRead 0 "hello " NoErr (6, false) ok_env;
   CRead 0 "world" EOF (5, false) ok_env; CLookup "a" true whole; CVanish "a"; CLookup "a" true whole].
Definition do (x : cstate) (l : clabel) : cstate :=
  match l with
  | CLookup k o rm => (open_lookup_c k o rm x).1
  | CReserve k rm cr d => (default (x, None) (open_reserve_c k rm cr d x)).1
  | CRead h p err w env => fill_read_c h p err w env x
  | CFillClose h env => finish_c false env h x
  | CHitClose h => hit_close_c h x
  | CVanish k => ({| cache := cache x.1; blobs := delete k (blobs x.1); hits := hits x.1; fills := fills x.1; fresh := fresh x.1;
       stray := stray x.1 |},
                  mkContents (delete k (blob_data x.2)) (fill_data x.2) (hit_data x.2))
  end.
Definition at_ (n : nat) : cstate := foldl do (cinit 5000000) (take n demo).

Lemma demo_steps : steps (cstep answers) (cinit 5000000) demo (at_ 6).
Proof.
  apply (steps_cons _ _ _ (at_ 1)).
  { apply (cstep_reserve answers "a" always true "hello world" (cinit 5000000) (at_ 1) (Some 0%nat)); [done|by_vm]. }
  apply (steps_cons _ _ _ (at_ 2)).
  { apply (cstep_read answers 0 "hello " NoErr (6, false) ok_env (at_ 1) "world"); [done|done|by_vm|done]. }
  apply (steps_cons _ _ _ (at_ 3)).
  { apply (cstep_read answers 0 "world" EOF (5, false) ok_env (at_ 2) ""); [done|done|by_vm|done]. }
  apply (steps_cons _ _ _ (at_ 4)); [apply (cstep_lookup answers "a" true whole (at_ 3))|].
  apply (steps_cons _ _ _ (at_ 5)); [apply (cstep_vanish answers "a" (at_ 4))|].
  apply (steps_cons _ _ _ (at_ 6)); [apply (cstep_lookup answers "a" true whole (at_ 5))|constructor].
Qed.

(** The reader that opened the file before it vanished still gets all of it; a later
    lookup does not. *)
Lemma hit_is_whole_witness :
  cached "a" (at_ 4) = Some "hello world" /\ cached "a" (at_ 6) = None /\
  exists k d x1, answers k d /\ copyCachedFile (Hit 1) (at_ 6) = Some d /\
    open_reserve_c "a" always true "hello world" (cinit 5000000) = Some (x1, Some 0%nat) /\
    cached "a" (fill_all 0 ["hello"; ""; " world"] x1) = Some "hello world".
Proof.
  split; [by_vm|]. split; [by_vm|]. assert (Hr : hits (at_ 6).1 !! 1%nat = Some (mkHit 0 11)) by by_vm.
  destruct (proj1 (hit_is_whole answers 5000000 demo (at_ 6) ltac:(lia) demo_steps) 1%nat _ Hr) as (k & d & _ & Hs & _ & Hc).
  assert (HR : open_reserve_c "a" always true "hello world" (cinit 5000000) = Some (at_ 1, Some 0%nat)) by by_vm.
  exists k, d, (at_ 1). do 2 (split; [assumption|]). split; [exact HR|].
  apply (proj2 (hit_is_whole answers 5000000 [] (cinit 5000000) ltac:(lia) (steps_nil _ _))
    "a" always ["hello"; ""; " world"] (at_ 1) 0%nat); [split; by_vm|by_vm|clear; by vm_compute|exact HR].
Defined.

End Toy.
End FileCacheContent.
