(* ===== verification/Grant.v ===== *)
(** [internal/mediagrant/grant.go]: sealed download capabilities.  The AEAD and
    the hash are the interface [Crypto]; the base-64 framing, the claims and
    their validation are modelled. *)

From S2P Require Export Base64.

Local Open Scope Z_scope.

Module Grant.

Inductive grantErr :=
| ErrInvalid
| ErrExpired
| ErrRevoked
| ErrOther (msg : string).

#[export] Instance grantErr_eq : EqDecision grantErr.
Proof. solve_decision. Defined.

Record Claims := mkClaims {
  Version : Z;
  Session : string;
  LinkID : Z;
  AssetID : Z;
  SourceCID : string;
  Video : bool;
  PosterCID : string;
  Crop : string;
  Mode : string;
  Purpose : string;
  Operations : list string;
  IssuedAt : Z;
  ExpiresAt : Z;
  Epoch : string;
  AssetVersion : string;
  FileVersion : string
}.

(** The zero value [Claims{}]. *)
Definition noClaims : Claims :=
  mkClaims 0 "" 0 0 "" false "" "" "" "" [] 0 0 "" "" "".

(** Durations in nanoseconds, as [time.Duration]. *)
Definition Second : Z := 1000000000.
Definition Minute : Z := 60 * Second.
Definition MaxTTL : Z := 60 * Minute.

(** [crypto/aes], [crypto/cipher], [crypto/sha256] and the JSON form of claims. *)
Class Crypto := {
  AEAD : Type;
  newGCM : string -> option AEAD;
  NonceSize : AEAD -> nat;
  Overhead : AEAD -> nat;
  aead_seal : AEAD -> string -> string -> string -> string;
  aead_open : AEAD -> string -> string -> string -> option string;
  sha256 : string -> string;
  json_marshal : Claims -> option string;
  json_unmarshal : string -> option Claims
}.

(** What [cipher.AEAD] documents: opening undoes sealing under the same nonce and
    additional data, accepts nothing else, and sealing adds [Overhead] bytes.  A
    decoded [int64] field is in range. *)
Class CryptoLaws `{Crypto} := {
  open_seal a n p d : String.length n = NonceSize a ->
    aead_open a n (aead_seal a n p d) d = Some p;
  open_tidy a n c d p : aead_open a n c d = Some p -> c = aead_seal a n p d;
  seal_length a n p d :
    String.length (aead_seal a n p d) = (String.length p + Overhead a)%nat;
  sha256_length s : String.length (sha256 s) = 32%nat;
  json_int64 s c : json_unmarshal s = Some c ->
    in_int64 (IssuedAt c) /\ in_int64 (ExpiresAt c)
}.

Section grant.
Context `{Crypto}.

Definition slen (s : string) : Z := Z.of_nat (String.length s).

(** ** [validate], [Allows], [Session] *)

Definition purpose_ttl (p : string) : option Z :=
  if bool_decide (p ∈ ["gallery"; "post"; "story"; "library"]) then Some (5 * Minute)
  else if bool_decide (p ∈ ["avatar"; "cover"]) then Some MaxTTL
  else if bool_decide (p ∈ ["verification"; "internal"]) then Some Minute
  else None.

Definition operation_ok (c : Claims) (operation : string) : bool :=
  if bool_decide (operation = "image") then negb (Video c)
  else if bool_decide (operation = "poster") then Video c
  else if bool_decide (operation = "stream") then Video c && bool_decide (Mode c = "original")
  else false.

Definition cid_stop : string := "/\?# " +:+ bytes [9; 13; 10]%nat.

(** [now] is [now.Unix()]; [None] accepts. *)
Definition validate (c : Claims) (now : Z) : option grantErr :=
  if negb (Version c =? 1) || (LinkID c <=? 0) || (AssetID c <=? 0) ||
     negb (slen (Session c) =? 64) || bool_decide (Epoch c = "") ||
     bool_decide (AssetVersion c = "") || bool_decide (FileVersion c = "")
  then Some ErrInvalid else
  if bool_decide (SourceCID c = "") || (256 <? slen (SourceCID c)) ||
     ContainsAny (SourceCID c) cid_stop
  then Some ErrInvalid else
  if bool_decide (Mode c <> "original") && bool_decide (Mode c <> "blur") &&
     bool_decide (Mode c <> "blur_faces")
  then Some ErrInvalid else
  match purpose_ttl (Purpose c) with
  | None => Some ErrInvalid
  | Some ttl =>
      if (IssuedAt c <=? 0) || (now <? IssuedAt c) || (ExpiresAt c <=? IssuedAt c) ||
         (Z.quot ttl Second <? int64 (ExpiresAt c - IssuedAt c))
      then Some ErrInvalid else
      if ExpiresAt c <=? now then Some ErrExpired else
      if (length (Operations c) =? 0)%nat || (3 <? length (Operations c))%nat
      then Some ErrInvalid else
      if forallb (operation_ok c) (Operations c) then None else Some ErrInvalid
  end.

Definition Allows (c : Claims) (operation : string) : bool :=
  existsb (fun allowed => bool_decide (allowed = operation)) (Operations c).

Definition SessionOf (token : string) : string := Base64.hex_encode (sha256 token).

(** ** [Codec] *)

Record Codec := mkCodec { active : string; audience : string; keys : gmap string AEAD }.

Definition id_stop : string := ". /\" +:+ bytes [9; 13; 10]%nat.

(** [New]: the list is the key ring in the order [range keys] visits it. *)
Fixpoint add_keys (ring : list (string * string)) (c : Codec) : result string Codec :=
  match ring with
  | [] => Ok c
  | (id, encoded) :: ring' =>
      if bool_decide (id = "") || (32 <? slen id) || ContainsAny id id_stop
      then Err "invalid media grant key ID" else
      match Base64.DecodeString Base64.StdEncoding encoded with
      | None => Err ("media grant key " +:+ id +:+ " must contain 32 bytes")
      | Some key =>
          if negb (slen key =? 32)
          then Err ("media grant key " +:+ id +:+ " must contain 32 bytes") else
          match newGCM key with
          | None => Err "cipher"
          | Some a => add_keys ring' {| active := active c; audience := audience c;
                                        keys := <[id := a]> (keys c) |}
          end
      end
  end.

Definition New (act aud : string) (ring : list (string * string)) : result string Codec :=
  if bool_decide (aud = "") || (256 <? slen aud)
  then Err "media grant audience is required" else
  match add_keys ring {| active := act; audience := aud; keys := ∅ |} with
  | Err e => Err e
  | Ok c => match keys c !! act with
            | None => Err "active media grant key is missing"
            | Some _ => Ok c
            end
  end.

Definition aad (c : Codec) (id : string) : string :=
  "iamfree-media-grant:v1:" +:+ audience c +:+ ":" +:+ id.

(** [Seal]: [nonce] is what [io.ReadFull(rand.Reader, nonce)] produced. *)
Definition Seal (c : Codec) (claims : Claims) (now : Z) (nonce : option string)
  : result grantErr string :=
  match validate claims now with
  | Some e => Err e
  | None =>
      match json_marshal claims with
      | None => Err (ErrOther "json")
      | Some plain =>
          match keys c !! active c with
          | None => Err (ErrOther "nil pointer dereference")
          | Some a =>
              match nonce with
              | None => Err (ErrOther "rand")
              | Some nonce =>
                  let sealed := nonce +:+ aead_seal a nonce plain (aad c (active c)) in
                  Ok (active c +:+ "." +:+
                      Base64.EncodeToString Base64.RawURLEncoding sealed)
              end
          end
      end
  end.

(** [s[:n]] and [s[n:]] *)
Fixpoint split_at (n : nat) (s : string) : string * string :=
  match n, s with
  | S n', String c s' => let '(a, b) := split_at n' s' in (String c a, b)
  | _, _ => ("", s)
  end.

Definition Open (c : Codec) (encoded token : string) (now : Z) : result grantErr Claims :=
  if bool_decide (token = "") || (4096 <? slen encoded) then Err ErrInvalid else
  match Cut encoded "." with
  | None => Err ErrInvalid
  | Some (id, body) =>
      match keys c !! id with
      | None => Err ErrInvalid
      | Some a =>
          match Base64.DecodeString Base64.RawURLEncoding body with
          | None => Err ErrInvalid
          | Some sealed =>
              if slen sealed <? Z.of_nat (NonceSize a + Overhead a) then Err ErrInvalid else
              let '(nonce, box) := split_at (NonceSize a) sealed in
              match aead_open a nonce box (aad c id) with
              | None => Err ErrInvalid
              | Some plain =>
                  match json_unmarshal plain with
                  | None => Err ErrInvalid
                  | Some claims =>
                      if bool_decide (Session claims <> SessionOf token) then Err ErrInvalid else
                      match validate claims now with
                      | Some e => Err e
                      | None => Ok claims
                      end
                  end
              end
          end
      end
  end.

(** * Lemmas *)

Lemma split_at_app a b : split_at (String.length a) (a +:+ b) = (a, b).
Proof.
  induction a as [|c a IH]; [by destruct b|].
  rewrite append_String. cbn [String.length split_at]. by rewrite IH.
Qed.

Lemma split_at_join n s a b : split_at n s = (a, b) -> s = a +:+ b.
Proof.
  revert s a b. induction n as [|n IH]; intros s a b; simpl; [by intros [= <- <-]|].
  destruct s as [|c s]; [by intros [= <- <-]|].
  destruct (split_at n s) as [a' b'] eqn:E. intros [= <- <-].
  rewrite append_String. f_equal. by apply IH.
Qed.

Lemma split_at_length n s a b : split_at n s = (a, b) -> (n <= String.length s)%nat ->
  String.length a = n.
Proof.
  revert s a b. induction n as [|n IH]; intros s a b; simpl; [by intros [= <- <-]|].
  destruct s as [|c s]; simpl; [lia|]. destruct (split_at n s) as [a' b'] eqn:E.
  intros [= <- <-] Hn. simpl. by rewrite (IH _ _ _ E) by lia.
Qed.

Lemma Cut_key id body : "."%char ∉ chars id -> Cut (id +:+ "." +:+ body) "." = Some (id, body).
Proof. apply Cut_first. Qed.

(** Keys that [New] accepted. *)
Definition good_id (id : string) : Prop :=
  id <> "" /\ slen id <= 32 /\ "."%char ∉ chars id.

Lemma ContainsAny_false s set x : ContainsAny s set = false -> x ∈ chars set -> x ∉ chars s.
Proof.
  unfold ContainsAny. intros HC Hx Hs.
  assert (existsb (fun c => bool_decide (c ∈ chars set)) (chars s) = true); [|congruence].
  apply existsb_exists. exists x. split; [by apply list_elem_of_In|by apply bool_decide_eq_true].
Qed.

Lemma add_keys_ok ring c c' :
  add_keys ring c = Ok c' -> map_Forall (fun id _ => good_id id) (keys c) ->
  active c' = active c /\ audience c' = audience c /\
  map_Forall (fun id _ => good_id id) (keys c').
Proof.
  revert c. induction ring as [|[id encoded] ring IH]; intros c; simpl; [by intros [= ->]|].
  destruct (_ || _) eqn:Hid; [done|]. go_bools.
  destruct (Base64.DecodeString _ _) as [key|]; [|done]. destruct (negb _); [done|].
  destruct (newGCM key) as [a|]; [|done]. intros HA HF. apply IH in HA; [done|].
  apply map_Forall_insert_2; [|done]. split_and!; [done..|].
  by apply (ContainsAny_false _ id_stop); [|apply list_elem_of_here].
Qed.

Lemma New_ok act aud ring c : New act aud ring = Ok c ->
  active c = act /\ audience c = aud /\ is_Some (keys c !! act) /\
  map_Forall (fun id _ => good_id id) (keys c).
Proof.
  unfold New. destruct (_ || _); [done|]. destruct (add_keys _ _) as [c1|] eqn:HA; [|done].
  destruct (keys c1 !! act) eqn:Hk; [|done]. intros [= <-].
  apply add_keys_ok in HA as (? & ? & ?); [|apply map_Forall_empty]. by rewrite Hk.
Qed.

(** The facts a successful [validate] establishes. *)
Lemma validate_None c now : validate c now = None ->
  slen (Session c) = 64 /\ Epoch c <> "" /\ AssetVersion c <> "" /\ FileVersion c <> "" /\
  SourceCID c <> "" /\ slen (SourceCID c) <= 256 /\ Mode c ∈ ["original"; "blur"; "blur_faces"] /\
  0 < IssuedAt c <= now /\ now < ExpiresAt c /\
  (exists ttl, purpose_ttl (Purpose c) = Some ttl /\
     int64 (ExpiresAt c - IssuedAt c) <= Z.quot ttl Second) /\
  Operations c <> [] /\ (length (Operations c) <= 3)%nat /\
  (forall o, o ∈ Operations c -> operation_ok c o = true).
Proof.
  unfold validate. go_if H1. go_if H2. go_if H3. destruct (purpose_ttl _) as [ttl|]; [|done].
  go_if H4. go_if H5. go_if H6. go_if H7. intros _. go_bools.
  assert (Hm : Mode c ∈ ["original"; "blur"; "blur_faces"]).
  { apply andb_false_iff in H3 as [H3|H3]; [apply andb_false_iff in H3 as [H3|H3]|];
      go_bools; apply dec_stable in H3; rewrite H3; set_solver. }
  split_and!; try done; try lia.
  - eexists. split; [done|lia].
  - by destruct (Operations c).
  - intros o Ho. rewrite forallb_forall in H7. by apply H7, list_elem_of_In.
Qed.

Lemma purpose_ttl_max p ttl : purpose_ttl p = Some ttl -> Z.quot ttl Second <= 3600.
Proof. unfold purpose_ttl. repeat case_bool_decide; intros [= <-]; by vm_compute. Qed.

Lemma Allows_elem c o : Allows c o = true <-> o ∈ Operations c.
Proof.
  unfold Allows. rewrite existsb_exists. setoid_rewrite bool_decide_eq_true.
  setoid_rewrite <- list_elem_of_In.
  split; [by intros (x & ? & ->)|eauto].
Qed.

Lemma Open_Ok c encoded token now claims : Open c encoded token now = Ok claims ->
  exists id body a nonce box plain,
    token <> "" /\ slen encoded <= 4096 /\ encoded = id +:+ "." +:+ body /\
    keys c !! id = Some a /\
    Base64.DecodeString Base64.RawURLEncoding body = Some (nonce +:+ box) /\
    String.length nonce = NonceSize a /\
    aead_open a nonce box (aad c id) = Some plain /\ json_unmarshal plain = Some claims /\
    Session claims = SessionOf token /\ validate claims now = None.
Proof.
  unfold Open. destruct (_ || _) eqn:H1; [done|]. go_bools.
  destruct (Cut encoded ".") as [[id body]|] eqn:HC; [|done].
  destruct (keys c !! id) as [a|] eqn:Hk; [|done].
  destruct (Base64.DecodeString _ body) as [sealed|] eqn:HD; [|done].
  destruct (_ <? _) eqn:HL; [done|]. destruct (split_at _ sealed) as [nonce box] eqn:HS.
  destruct (aead_open a nonce box _) as [plain|] eqn:HO; [|done].
  destruct (json_unmarshal plain) as [cl|] eqn:HJ; [|done].
  destruct (bool_decide _) eqn:Hse; [done|]. destruct (validate cl now) eqn:HV; [done|].
  intros [= <-]. go_bools. apply dec_stable in Hse. unfold slen in HL.
  exists id, body, a, nonce, box, plain.
  split_and!; try done.
  - by apply Cut_sound in HC.
  - by apply split_at_join in HS as <-.
  - eapply split_at_length; [done|lia].
Qed.

(** ** Properties *)

(** Grants are bound to this deployment: whatever [Open] accepts decodes to a
    nonce followed by exactly the sealing, under a key of this ring, of the
    accepted claims' JSON with additional data naming this codec's audience and
    the key's own identifier.  Nothing else opens. *)
Lemma open_authentic `{!CryptoLaws} c encoded token now claims :
  Open c encoded token now = Ok claims ->
  exists id body a nonce plain,
    encoded = id +:+ "." +:+ body /\ keys c !! id = Some a /\
    String.length nonce = NonceSize a /\ json_unmarshal plain = Some claims /\
    Base64.DecodeString Base64.RawURLEncoding body =
      Some (nonce +:+ aead_seal a nonce plain
              ("iamfree-media-grant:v1:" +:+ audience c +:+ ":" +:+ id)).
Proof.
  intros HO. apply Open_Ok in HO
    as (id & body & a & nonce & box & plain & _ & _ & He & Hk & HD & HN & Hop & HJ & _).
  exists id, body, a, nonce, plain. split_and!; [done..|].
  by rewrite HD, (open_tidy _ _ _ _ _ Hop).
Qed.

(** C17. What an opened grant entitles to: [Open] returns claims only when what was
    presented is a sealing of exactly these claims, under a key of this ring, for
    this audience and under the key's own name; only for the session whose token was
    presented, inside the claims' own time window, which is never longer than an hour
    and never longer than the purpose allows; and every operation the claims allow is
    one of the three known ones and fits the resource: pictures for images, posters
    for videos, and streaming only for a video granted in its original form. *)
Theorem open_capability `{!CryptoLaws} c encoded token now claims :
  Open c encoded token now = Ok claims ->
  (exists id body a nonce plain,
    encoded = id +:+ "." +:+ body /\ keys c !! id = Some a /\
    String.length nonce = NonceSize a /\ json_unmarshal plain = Some claims /\
    Base64.DecodeString Base64.RawURLEncoding body =
      Some (nonce +:+ aead_seal a nonce plain
              ("iamfree-media-grant:v1:" +:+ audience c +:+ ":" +:+ id))) /\
  token <> "" /\ Session claims = SessionOf token /\
  0 < IssuedAt claims <= now /\ now < ExpiresAt claims <= IssuedAt claims + 3600 /\
  (exists ttl, purpose_ttl (Purpose claims) = Some ttl /\
     ExpiresAt claims - IssuedAt claims <= Z.quot ttl Second) /\
  forall o, Allows claims o = true ->
    o = "image" /\ Video claims = false \/
    o = "poster" /\ Video claims = true \/
    o = "stream" /\ Video claims = true /\ Mode claims = "original".
Proof.
  intros HO. split; [by apply (open_authentic c encoded token now)|]. apply Open_Ok in HO
    as (id & body & a & nonce & box & plain & Ht & _ & _ & _ & _ & _ & _ & HJ & HS & HV).
  apply validate_None in HV as (_ & _ & _ & _ & _ & _ & _ & Hi & He & (ttl & Hp & Hd) & _ & _ & Hop).
  destruct (json_int64 plain claims HJ) as [Hi1 Hi2]. unfold in_int64 in *.
  rewrite int64_id in Hd by (unfold in_int64; lia). pose proof (purpose_ttl_max _ _ Hp).
  split_and!; [done..|lia|lia|lia|lia|eauto|].
  intros o Ho%Allows_elem%Hop. unfold operation_ok in Ho.
  repeat case_bool_decide; go_bools; try done; auto 6.
Qed.

(** C18. A sealed grant opens again: for a key ring that [New] accepted, a token
    that [Seal] produced is opened, under the session token it was sealed for,
    to the very same claims, at every later moment before it expires. *)
Theorem seal_open `{!CryptoLaws} act aud ring c claims now now' nonce plain encoded token :
  New act aud ring = Ok c -> Seal c claims now (Some nonce) = Ok encoded ->
  (forall a, keys c !! act = Some a -> String.length nonce = NonceSize a) ->
  json_marshal claims = Some plain -> json_unmarshal plain = Some claims ->
  slen encoded <= 4096 -> token <> "" -> Session claims = SessionOf token ->
  now <= now' < ExpiresAt claims ->
  Open c encoded token now' = Ok claims.
Proof.
  intros HN HS Hnonce HM HU Hlen Htok Hses Hnow.
  apply New_ok in HN as (<- & _ & [a Ha] & Hids). unfold Seal in HS.
  destruct (validate claims now) eqn:HV; [done|]. rewrite HM, Ha in HS. simplify_eq/=.
  destruct (Hids _ _ Ha) as (_ & _ & Hdot). specialize (Hnonce a Ha).
  unfold Open. rewrite bool_decide_eq_false_2 by done.
  replace (4096 <? _) with false by (symmetry; apply Z.ltb_ge; done). cbn [orb].
  rewrite Cut_key by done. rewrite Ha, Base64.decode_encode by (vm_compute; reflexivity).
  unfold slen at 1. rewrite length_append, seal_length, Hnonce.
  replace (_ <? _) with false by (symmetry; apply Z.ltb_ge; lia).
  rewrite <- Hnonce, split_at_app, open_seal, HU by done.
  rewrite bool_decide_eq_false_2 by (rewrite Hses; auto).
  replace (validate claims now') with (@None grantErr); [done|].
  symmetry. revert HV. unfold validate. go_if H1. go_if H2. go_if H3.
  destruct (purpose_ttl _) as [z|]; [|done]. go_if H4. go_bools.
  rewrite (proj2 (Z.leb_gt (IssuedAt claims) 0)), (proj2 (Z.ltb_ge now' (IssuedAt claims))),
    (proj2 (Z.leb_gt (ExpiresAt claims) (IssuedAt claims))), (proj2 (Z.leb_gt (ExpiresAt claims) now')),
    (proj2 (Z.ltb_ge (Z.quot z Second) (int64 (ExpiresAt claims - IssuedAt claims)))) by lia. simpl.
  by destruct (_ <=? now).
Qed.

End grant.
(** ** Witnesses

    A stand-in for the cryptography with the documented laws: a checksum of the
    nonce and the additional data as the tag, and a JSON form of one claim. *)
Module Toy.

Definition sample : Claims :=
  mkClaims 1 (Base64.hex_encode "tokentokentokentokentokentoken12") 7 9
    "QmVideo" true "" "" "original" "gallery" ["poster"; "stream"] 1000 1300 "e" "av" "fv".

Definition checksum (s : string) : ascii :=
  Base64.chrZ (zsum Base64.byteZ (chars s)).
Definition tag (n d : string) : string := String (checksum (n +:+ d)) "xxxxxxxxxxxxxxx".
Definition pad32 (s : string) : string :=
  (split_at 32 (s +:+ "00000000000000000000000000000000")).1.

#[local] Instance crypto : Crypto := {|
  AEAD := string;
  newGCM key := Some key;
  NonceSize _ := 12%nat;
  Overhead _ := 16%nat;
  aead_seal _ n p d := p +:+ tag n d;
  aead_open _ n c d := CutSuffix (tag n d) c;
  sha256 := pad32;
  json_marshal _ := Some "{sample}";
  json_unmarshal _ := Some sample
|}.

#[local] Instance crypto_laws : CryptoLaws.
Proof.
  split.
  - intros a n p d _. by apply CutSuffix_Some.
  - intros a n c d p. by intros ->%CutSuffix_Some.
  - intros a n p d. unfold aead_seal, Overhead. simpl. by rewrite length_append.
  - intros s. unfold sha256. simpl. unfold pad32.
    destruct (split_at 32 _) as [x y] eqn:E. apply split_at_length in E; [done|].
    rewrite length_append. simpl. lia.
  - intros s c [= <-]. unfold in_int64. simpl. lia.
Qed.

Definition key64 : string :=
  Base64.EncodeToString Base64.StdEncoding "0123456789abcdef0123456789abcdef".
Definition codec : Codec :=
  {| active := "k1"; audience := "files";
     keys := {[ "k1" := "0123456789abcdef0123456789abcdef" ]} |}.
Definition token : string := "tokentokentokentokentokentoken12".
Definition grant : string :=
  match Seal codec sample 1000 (Some "nonce-nonce-") with Ok e => e | Err _ => "" end.

Lemma seal_open_witness : Open codec grant token 1100 = Ok sample.
Proof.
  apply (seal_open "k1" "files" [("k1", key64)] codec sample 1000 1100 "nonce-nonce-"
           "{sample}" grant token); try by_vm.
  - intros a _. reflexivity.
  - vm_compute. discriminate.
  - discriminate.
  - vm_compute. split; [discriminate|reflexivity].
Defined.

Lemma open_capability_witness : Open codec grant token 1100 = Ok sample /\
  (exists id body (a : AEAD) nonce plain,
    grant = id +:+ "." +:+ body /\ keys codec !! id = Some a /\
    Base64.DecodeString Base64.RawURLEncoding body =
      Some (nonce +:+ aead_seal a nonce plain ("iamfree-media-grant:v1:files:" +:+ id))) /\
  1100 < ExpiresAt sample <= IssuedAt sample + 3600.
Proof.
  assert (HO : Open codec grant token 1100 = Ok sample) by by_vm.
  split; [exact HO|]. destruct (open_capability codec grant token 1100 sample HO)
    as ((id & body & a & nonce & plain & H1 & H2 & _ & _ & H3) & _ & _ & _ & HT & _).
  split; [exists id, body, a, nonce, plain; exact (conj H1 (conj H2 H3))|exact HT].
Defined.

Lemma open_authentic_witness : exists id body (a : AEAD) nonce plain,
  grant = id +:+ "." +:+ body /\ keys codec !! id = Some a /\
  String.length nonce = NonceSize a /\ json_unmarshal plain = Some sample /\
  Base64.DecodeString Base64.RawURLEncoding body =
    Some (nonce +:+ aead_seal a nonce plain ("iamfree-media-grant:v1:files:" +:+ id)).
Proof.
  apply (open_authentic codec grant token 1100 sample). by_vm.
Defined.

(** The wrong session, a late presentation and another audience are refused. *)
Example open_refusals :
  Open codec grant "other" 1100 = Err ErrInvalid /\
  Open codec grant token 1300 = Err ErrExpired /\
  Open {| active := "k1"; audience := "other"; keys := keys codec |} grant token 1100 = Err ErrInvalid.
Proof. vm_compute. done. Qed.

End Toy.
End Grant.
