(* ===== verification/Cid.v ===== *)
(** Content identifiers.  The library [go-cid] is the interface [CidLib]; here
    are the service's own uses of it: [sameMediaCID] of
    [internal/handler/media_resource.go] and [FileResource] of
    [internal/mediagrant/state.go], and the syntactic test [validateCID] of
    [internal/handler/video_handler.go]. *)

From S2P Require Export Grant.

Module Cid.

(** [cid.Decode] with [Type()] and [Hash()] of the result, and
    [cid.NewCidV1(t, h).String()]. *)
Class CidLib := {
  Decode : string -> option (Z * string);
  V1String : Z -> string -> string
}.

(** The string form of a version-1 identifier decodes to its parts. *)
Class CidLaws `{CidLib} := {
  decode_v1 s t h : Decode s = Some (t, h) -> Decode (V1String t h) = Some (t, h)
}.

Section cid.
Context `{CidLib}.

Definition sameMediaCID (left right : string) : bool :=
  if bool_decide (left = right) then true
  else match Decode left with
       | None => false
       | Some (t, h) =>
           match Decode right with
           | None => false
           | Some (t', h') => bool_decide (t = t') && bool_decide (h = h')
           end
       end.

Context `{Grant.Crypto}.

Definition FileResource (value : string) : string :=
  let value := match Decode value with Some (t, h) => V1String t h | None => value end in
  "file:" +:+ Grant.SessionOf value.

(** Every spelling of the same content names the same resource. *)
Lemma FileResource_same a b : sameMediaCID a b = true -> FileResource a = FileResource b.
Proof.
  unfold sameMediaCID, FileResource. case_bool_decide as Hab; [by subst|].
  destruct (Decode a) as [[t h]|]; [|done]. destruct (Decode b) as [[t' h']|]; [|done].
  intros. go_bools. by subst.
Qed.

Lemma sameMediaCID_refl a : sameMediaCID a a = true.
Proof. unfold sameMediaCID. by rewrite bool_decide_eq_true_2. Qed.

Lemma sameMediaCID_sym a b : sameMediaCID a b = true -> sameMediaCID b a = true.
Proof.
  unfold sameMediaCID. case_bool_decide; [subst; by rewrite bool_decide_eq_true_2|].
  rewrite bool_decide_eq_false_2 by done.
  destruct (Decode a) as [[t h]|], (Decode b) as [[t' h']|]; try done.
  intros. go_bools. subst. by rewrite !bool_decide_eq_true_2.
Qed.
End cid.

(** ** [validateCID]

    The expressions [^Qm[A-Za-z0-9]{44}$] and [^baf[a-z0-9]{50,}$]. *)
Definition between (lo hi : nat) (c : ascii) : bool :=
  (lo <=? nat_of_ascii c)%nat && (nat_of_ascii c <=? hi)%nat.
Definition lower_alnum (c : ascii) : bool := between 97 122 c || is_digit c.
Definition alnum (c : ascii) : bool := lower_alnum c || between 65 90 c.

Definition cidV0 (s : string) : bool :=
  match CutPrefix "Qm" s with
  | Some r => (String.length r =? 44)%nat && forallb alnum (chars r)
  | None => false
  end.
Definition cidV1 (s : string) : bool :=
  match CutPrefix "baf" s with
  | Some r => (50 <=? String.length r)%nat && forallb lower_alnum (chars r)
  | None => false
  end.
Definition validateCID (s : string) : bool := cidV0 s || cidV1 s.

Lemma alnum_lower c : lower_alnum c = true -> alnum c = true.
Proof. unfold alnum. by intros ->. Qed.

(** A valid identifier is made of ASCII letters and digits only. *)
Lemma validateCID_chars s c : validateCID s = true -> c ∈ chars s -> alnum c = true.
Proof.
  intros HV Hc. unfold validateCID, cidV0, cidV1 in HV. apply orb_true_iff in HV as [HV|HV].
  - destruct (CutPrefix "Qm" s) as [r|] eqn:E; [|done]. apply CutPrefix_Some in E as ->. go_bools.
    rewrite forallb_forall in *. rewrite chars_append in Hc. apply elem_of_app in Hc as [Hc|Hc].
    + repeat (apply elem_of_cons in Hc as [->|Hc]; [done|]). by apply not_elem_of_nil in Hc.
    + by apply H0, list_elem_of_In.
  - destruct (CutPrefix "baf" s) as [r|] eqn:E; [|done]. apply CutPrefix_Some in E as ->. go_bools.
    rewrite forallb_forall in *. rewrite chars_append in Hc. apply elem_of_app in Hc as [Hc|Hc].
    + repeat (apply elem_of_cons in Hc as [->|Hc]; [done|]). by apply not_elem_of_nil in Hc.
    + by apply alnum_lower, H0, list_elem_of_In.
Qed.

(** A stand-in for the library, for concrete evaluations: two spellings, [Qm] and
    [b], of the same hash. *)
Module Toy.
Definition decode (s : string) : option (Z * string) :=
  match CutPrefix "Qm" s with
  | Some h => Some (112%Z, h)
  | None => match CutPrefix "b" s with Some h => Some (112%Z, h) | None => None end
  end.
#[local] Instance cidlib : CidLib := {| Decode := decode; V1String _ h := "b" +:+ h |}.
#[local] Instance cidlaws : CidLaws.
Proof.
  split. intros s t h. simpl. unfold decode. intros Hs.
  assert (t = 112%Z) as -> by (repeat case_match; congruence).
  destruct (CutPrefix "Qm" ("b" +:+ h)) as [x|] eqn:E.
  - apply CutPrefix_Some in E. discriminate E.
  - by rewrite CutPrefix_app.
Qed.
End Toy.

End Cid.
