(* ===== verification/GrantState.v ===== *)
(** [internal/mediagrant/state.go]: the revocation state of grants, kept in Redis
    and changed by atomic scripts.  The database is the key-value store the
    scripts address; each script is one transition, so any interleaving of
    issuers, downloaders and writers is a sequence of transitions. *)

From S2P Require Export Cid.

Local Open Scope Z_scope.

Module GrantState.
Import Grant.

(** [GET], [SET], [DEL] and [EXISTS] on string keys. *)
Abbreviation db := (gmap string string).

Inductive stateErr :=
| EpochMissing
| RandFailed
| NotNoEviction
| BeingChanged
| GuardLost
| Revoked.

#[export] Instance stateErr_eq : EqDecision stateErr.
Proof. solve_decision. Defined.

(** [State.prefix] for a namespace, and [NewState]'s check of it. *)
Definition ns_stop : string := "{} " +:+ bytes [9; 13; 10]%nat.
Definition namespace_ok (namespace : string) : bool :=
  negb (bool_decide (namespace = "")) && negb (ContainsAny namespace ns_stop).
Definition prefix_of (namespace : string) : string := "media-grants:{" +:+ namespace +:+ "}:".

(** [hex.EncodeToString] of the 16 bytes [rand.Read] delivers, if it does. *)
Definition randomVersion (value : option string) : option string := Base64.hex_encode <$> value.

Record Snapshot := mkSnapshot {
  s_Epoch : string;
  Versions : gmap string string;
  Blocked : gmap string string
}.

Section state.
Context (prefix : string).

Definition epoch_key : string := prefix +:+ "epoch".
Definition version_key (resource : string) : string := prefix +:+ resource +:+ ":version".
Definition guard_key (resource : string) : string := prefix +:+ resource +:+ ":guard".

(** [SETNX] of a fresh epoch, after the eviction policy was read. *)
Definition Initialize (policy : string) (rand : option string) (d : db) : result stateErr db :=
  if bool_decide (policy <> "noeviction") then Err NotNoEviction else
  match randomVersion rand with
  | None => Err RandFailed
  | Some value =>
      Ok (match d !! epoch_key with Some _ => d | None => <[epoch_key := value]> d end)
  end.

(** The script's reply: the epoch, then two values per resource. *)
Definition snapshotScript (resources : list string) (d : db) : result stateErr (list string) :=
  match d !! epoch_key with
  | None => Err EpochMissing
  | Some epoch =>
      Ok (epoch :: flat_map (fun r => [default "0" (d !! version_key r);
                                       default "" (d !! guard_key r)]) resources)
  end.

(** The maps are filled in the order of the resources from the flat reply. *)
Fixpoint unflatten (resources values : list string) (s : Snapshot) : Snapshot :=
  match resources, values with
  | r :: resources', v :: b :: values' =>
      unflatten resources' values'
        (mkSnapshot (s_Epoch s) (<[r := v]> (Versions s)) (<[r := b]> (Blocked s)))
  | _, _ => s
  end.

Definition TakeSnapshot (resources : list string) (d : db) : result stateErr Snapshot :=
  match snapshotScript resources d with
  | Err e => Err e
  | Ok [] => Err EpochMissing
  | Ok (epoch :: values) => Ok (unflatten resources values (mkSnapshot epoch ∅ ∅))
  end.

Definition AssetResource (id : Z) : string := "asset:" +:+ Itoa id.

(** A map read gives the zero value for a missing key. *)
Definition get (m : gmap string string) (k : string) : string := default "" (m !! k).

Context `{Crypto, Cid.CidLib}.

(** [None]: the grant stands. *)
Definition Check (c : Claims) (d : db) : option stateErr :=
  let asset := AssetResource (AssetID c) in
  let file := Cid.FileResource (SourceCID c) in
  match TakeSnapshot [asset; file] d with
  | Err e => Some e
  | Ok state =>
      if bool_decide (get (Blocked state) asset <> "") ||
         bool_decide (get (Blocked state) file <> "") ||
         bool_decide (s_Epoch state <> Epoch c) ||
         bool_decide (get (Versions state) asset <> AssetVersion c) ||
         bool_decide (get (Versions state) file <> FileVersion c)
      then Some Revoked else None
  end.

Definition beginScript (resource v : string) (d : db) : result stateErr (db * Z) :=
  match d !! epoch_key with
  | None => Err EpochMissing
  | Some _ =>
      match d !! guard_key resource with
      | Some _ => Ok (d, 0)
      | None => Ok (<[version_key resource := v]> (<[guard_key resource := v]> d), 1)
      end
  end.

(** [Begin]: the token it returns is the version its [finish] closure holds. *)
Definition Begin (resource : string) (rand : option string) (d : db)
  : result stateErr (db * string) :=
  match randomVersion rand with
  | None => Err RandFailed
  | Some v =>
      match beginScript resource v d with
      | Err e => Err e
      | Ok (d', n) => if n =? 1 then Ok (d', v) else Err BeingChanged
      end
  end.

Definition finishScript (resource v next : string) (d : db) : db * Z :=
  if bool_decide (d !! guard_key resource = Some v)
  then (delete (guard_key resource) (<[version_key resource := next]> d), 1)
  else (d, 0).

Definition finish (resource v : string) (rand : option string) (d : db) : result stateErr db :=
  match randomVersion rand with
  | None => Err RandFailed
  | Some next =>
      let (d', n) := finishScript resource v next d in
      if n =? 1 then Ok d' else Err GuardLost
  end.

Definition Revoke (resource : string) (rand : option string) (d : db) : result stateErr db :=
  match randomVersion rand with
  | None => Err RandFailed
  | Some v =>
      match d !! epoch_key with
      | None => Err EpochMissing
      | Some _ => Ok (<[guard_key resource := "deleted"]> (<[version_key resource := v]> d))
      end
  end.

(** ** Transitions

    [rand] is the 16 bytes the operation drew.  A failed operation leaves the
    database as it was. *)
Inductive label :=
| LInitialize (policy : string) (rand : string)
| LBegin (resource rand : string)
| LFinish (resource v rand : string)
| LRevoke (resource rand : string).

Definition rand_of (l : label) : string :=
  match l with
  | LInitialize _ r | LBegin _ r | LFinish _ _ r | LRevoke _ r => r
  end.

Definition exec (l : label) (d : db) : db :=
  match l with
  | LInitialize p r => match Initialize p (Some r) d with Ok d' => d' | Err _ => d end
  | LBegin res r => match Begin res (Some r) d with Ok (d', _) => d' | Err _ => d end
  | LFinish res v r => match finish res v (Some r) d with Ok d' => d' | Err _ => d end
  | LRevoke res r => match Revoke res (Some r) d with Ok d' => d' | Err _ => d end
  end.

(** [rand.Read] fills 16 bytes, and a [finish] closure holds a version drawn the
    same way, 32 hexadecimal digits. *)
Definition token_ok (l : label) : Prop :=
  match l with LFinish _ v _ => String.length v = 32%nat | _ => True end.

Inductive step : db -> label -> db -> Prop :=
| step_exec l d : String.length (rand_of l) = 16%nat -> token_ok l -> step d l (exec l d).

(** * Lemmas *)

(** The keys of the state never collide. *)
Lemma snoc_ne (a b x y : string) c d :
  c <> d -> a +:+ x +:+ String c "" <> b +:+ y +:+ String d "".
Proof. intros Hne. rewrite <- !append_assoc. by intros [_ ?]%append_snoc_inj. Qed.

Lemma version_ne_guard r r' : version_key r <> guard_key r'.
Proof. intros E%append_inj_l. by apply (snoc_ne r r' ":versio" ":guar" "n" "d"). Qed.

Lemma epoch_ne_version r : epoch_key <> version_key r.
Proof. intros E%append_inj_l. by apply (snoc_ne "" r "epoc" ":versio" "h" "n"). Qed.

Lemma epoch_ne_guard r : epoch_key <> guard_key r.
Proof. intros E%append_inj_l. by apply (snoc_ne "" r "epoc" ":guar" "h" "d"). Qed.

Lemma version_key_inj r r' : version_key r = version_key r' -> r = r'.
Proof. by intros ?%append_inj_l%append_inj_r. Qed.

Lemma guard_key_inj r r' : guard_key r = guard_key r' -> r = r'.
Proof. by intros ?%append_inj_l%append_inj_r. Qed.

Hint Resolve version_ne_guard epoch_ne_version epoch_ne_guard not_eq_sym : core.

Lemma asset_ne_file id value : AssetResource id <> Cid.FileResource value.
Proof. done. Qed.

(** [Check] spelled out on the database. *)
Lemma Check_None c d :
  Check c d = None <->
  d !! epoch_key = Some (Epoch c) /\
  (forall r v, (r, v) ∈ [(AssetResource (AssetID c), AssetVersion c);
                         (Cid.FileResource (SourceCID c), FileVersion c)] ->
     default "" (d !! guard_key r) = "" /\ default "0" (d !! version_key r) = v).
Proof.
  unfold Check, TakeSnapshot, snapshotScript. pose proof (asset_ne_file (AssetID c) (SourceCID c)) as Hne.
  set (A := AssetResource (AssetID c)) in *. set (F := Cid.FileResource (SourceCID c)) in *.
  destruct (d !! epoch_key) as [e|]; [|split; [done|by intros [? _]]].
  cbn [flat_map app unflatten s_Epoch Versions Blocked]. unfold get.
  rewrite !lookup_insert_eq, !(lookup_insert_ne _ F A), !lookup_insert_eq by congruence.
  split.
  - destruct (_ || _) eqn:H1; [done|]. intros _. go_bools.
    repeat match goal with H : ~ _ <> _ |- _ => apply dec_stable in H end. subst. split; [done|].
    intros r v [[= -> ->]|[[= -> ->]|Hn%not_elem_of_nil]%elem_of_cons]%elem_of_cons; done.
  - intros [[= ->] HR].
    destruct (HR A (AssetVersion c) ltac:(by left)) as [-> ->].
    destruct (HR F (FileVersion c) ltac:(by right; left)) as [-> ->].
    by rewrite !bool_decide_eq_false_2 by (intros ?; done).
Qed.

(** The resources a grant depends on. *)
Definition depends (c : Claims) (r ver : string) : Prop :=
  (r, ver) ∈ [(AssetResource (AssetID c), AssetVersion c);
              (Cid.FileResource (SourceCID c), FileVersion c)].

Lemma Check_guard c d r ver g :
  depends c r ver -> d !! guard_key r = Some g -> g <> "" -> Check c d <> None.
Proof.
  intros Hd Hg Hne [_ HC]%Check_None. apply HC in Hd as [Hd _]. by rewrite Hg in Hd.
Qed.

Lemma Check_version c d r ver v :
  depends c r ver -> d !! version_key r = Some v -> v <> ver -> Check c d <> None.
Proof.
  intros Hd Hg Hne [_ HC]%Check_None. apply HC in Hd as [_ Hd]. by rewrite Hg in Hd.
Qed.

(** What each transition does to the three keys of a resource. *)
Lemma hex16 r : String.length r = 16%nat -> String.length (Base64.hex_encode r) = 32%nat.
Proof. intros H1. rewrite Base64.hex_encode_length. lia. Qed.

Lemma exec_epoch l d e : d !! epoch_key = Some e -> exec l d !! epoch_key = Some e.
Proof.
  intros He. destruct l; unfold exec, Initialize, Begin, beginScript, finish, finishScript, Revoke;
    simpl; rewrite ?He.
  - case_bool_decide; [done|]. by rewrite He.
  - destruct (d !! guard_key _); [done|]. simpl. by rewrite !lookup_insert_ne by auto.
  - case_bool_decide; [|done]. simpl. rewrite lookup_delete_ne, lookup_insert_ne; auto.
  - by rewrite !lookup_insert_ne by auto.
Qed.

Lemma exec_guard l d r g :
  token_ok l -> d !! guard_key r = Some g ->
  exec l d !! guard_key r = Some g \/
  (exists rand, l = LFinish r g rand) \/ (exists rand, l = LRevoke r rand /\
     exec l d !! guard_key r = Some "deleted").
Proof.
  intros Ht Hg. destruct l as [p x|res x|res v x|res x];
    unfold exec, Initialize, Begin, beginScript, finish, finishScript, Revoke; simpl.
  - left. case_bool_decide; [done|]. destruct (d !! epoch_key); [done|].
    by rewrite lookup_insert_ne by auto.
  - left. destruct (d !! epoch_key); [|done]. destruct (d !! guard_key res) eqn:E; [done|]. simpl.
    rewrite !lookup_insert_ne; [done| |auto]. intros ->%guard_key_inj. congruence.
  - case_bool_decide as E; [|by left]. simpl. destruct (decide (res = r)) as [->|Hne].
    + right. left. exists x. congruence.
    + left. rewrite lookup_delete_ne by (by intros ->%guard_key_inj).
      by rewrite lookup_insert_ne by auto.
  - destruct (d !! epoch_key); [|by left]. destruct (decide (res = r)) as [->|Hne].
    + right. right. exists x. by rewrite lookup_insert_eq.
    + left. rewrite lookup_insert_ne by (by intros ->%guard_key_inj).
      by rewrite lookup_insert_ne by auto.
Qed.

Lemma exec_version l d r :
  exec l d !! version_key r = d !! version_key r \/
  exec l d !! version_key r = Some (Base64.hex_encode (rand_of l)).
Proof.
  destruct l as [p x|res x|res v x|res x];
    unfold exec, Initialize, Begin, beginScript, finish, finishScript, Revoke; simpl.
  - left. case_bool_decide; [done|]. destruct (d !! epoch_key); [done|].
    by rewrite lookup_insert_ne by auto.
  - destruct (d !! epoch_key); [|by left]. destruct (d !! guard_key res) eqn:E; [by left|]. simpl.
    destruct (decide (res = r)) as [->|Hne]; [right; by rewrite lookup_insert_eq|left].
    rewrite lookup_insert_ne by (by intros ->%version_key_inj). by rewrite lookup_insert_ne by auto.
  - case_bool_decide as E; [|by left]. simpl. rewrite lookup_delete_ne by auto.
    destruct (decide (res = r)) as [->|Hne]; [right; by rewrite lookup_insert_eq|left].
    by rewrite lookup_insert_ne by (by intros ->%version_key_inj).
  - destruct (d !! epoch_key); [|by left]. rewrite lookup_insert_ne by auto.
    destruct (decide (res = r)) as [->|Hne]; [right; by rewrite lookup_insert_eq|left].
    by rewrite lookup_insert_ne by (by intros ->%version_key_inj).
Qed.

Lemma hex16_ne s r : String.length r = 16%nat -> String.length s <> 32%nat ->
  Base64.hex_encode r <> s.
Proof. intros Hr Hs <-. by rewrite hex16 in Hs. Qed.

Lemma Revoke_Ok r rand d d' : Revoke r rand d = Ok d' ->
  d' !! guard_key r = Some "deleted" /\ is_Some (d' !! epoch_key).
Proof.
  unfold Revoke. destruct (randomVersion rand); [|done].
  destruct (d !! epoch_key) as [e|] eqn:He; [|done]. intros [= <-]. split; [by rewrite lookup_insert_eq|].
  rewrite !lookup_insert_ne by auto. by eexists.
Qed.

Lemma Begin_Ok r rand d d1 v : Begin r (Some rand) d = Ok (d1, v) ->
  v = Base64.hex_encode rand /\ d1 !! guard_key r = Some v /\ d1 !! version_key r = Some v /\
  is_Some (d1 !! epoch_key) /\ d !! guard_key r = None.
Proof.
  unfold Begin, beginScript. simpl. destruct (d !! epoch_key) eqn:He; [|done].
  destruct (d !! guard_key r) eqn:Hg; [done|]. simpl. intros [= <- <-]. split_and!; try done.
  - by rewrite lookup_insert_ne, lookup_insert_eq by auto.
  - by rewrite lookup_insert_eq.
  - rewrite !lookup_insert_ne by auto. by eexists.
Qed.

Lemma steps_epoch d ls d' e : steps step d ls d' -> d !! epoch_key = Some e ->
  d' !! epoch_key = Some e.
Proof. induction 1 as [|? ? ? ? ? []]; [done|]. intros He. by apply IHsteps, exec_epoch. Qed.

(** ** Properties *)

(** C23. A physically deleted file stays withdrawn: once [Revoke] succeeded, no
    sequence of initialisations, mutations, finishes and further revocations by
    any service clears the guard, so every later check of every grant for that
    asset or file fails, and no later mutation of it can begin. *)
Theorem revoke_is_permanent r rand d d1 ls d2 :
  Revoke r rand d = Ok d1 -> steps step d1 ls d2 ->
  d2 !! guard_key r = Some "deleted" /\
  (forall c ver, depends c r ver -> Check c d2 <> None) /\
  (forall rand', exists e, Begin r rand' d2 = Err e).
Proof.
  intros HR HS. apply Revoke_Ok in HR as [Hg _].
  assert (Hg2 : d2 !! guard_key r = Some "deleted").
  { induction HS as [|? ? ? ? ? [l d0 Hr Ht] HS IH]; [done|]. apply IH.
    destruct (exec_guard l d0 r _ Ht Hg) as [E|[[x ->]|(x & -> & E)]]; [done| |done].
    simpl in Ht. done. }
  split_and!; [done| |].
  - intros c ver Hd. by eapply Check_guard.
  - intros [x|]; unfold Begin, beginScript; simpl; [|eauto].
    destruct (d2 !! epoch_key); [|eauto]. rewrite Hg2. simpl. eauto.
Qed.

(** C24. A mutation holds its resource alone: from a successful [Begin] until its
    own [finish] (or a revocation), whatever the other services do, the guard
    still carries the version it drew, a second [Begin] is refused, a finish with
    any other version is refused, and every grant for the resource is refused. *)
Theorem mutation_exclusive r rand d d1 v ls d2 :
  Begin r (Some rand) d = Ok (d1, v) -> String.length rand = 16%nat -> steps step d1 ls d2 ->
  (forall l, l ∈ ls -> forall x, l <> LFinish r v x /\ l <> LRevoke r x) ->
  d2 !! guard_key r = Some v /\
  (forall rand', Begin r (Some rand') d2 = Err BeingChanged) /\
  (forall v' rand', v' <> v -> finish r v' (Some rand') d2 = Err GuardLost) /\
  (forall c ver, depends c r ver -> Check c d2 <> None).
Proof.
  intros HB Hlen HS Hls. apply Begin_Ok in HB as (-> & Hg & _ & [e He] & _).
  pose proof (steps_epoch _ _ _ _ HS He) as He2.
  assert (Hg2 : d2 !! guard_key r = Some (Base64.hex_encode rand)).
  { clear He2 He. induction HS as [|? ? ? ? ? [l d0 Hr Ht] HS IH]; [done|].
    apply IH; [|intros; by apply Hls, list_elem_of_further].
    destruct (Hls l (list_elem_of_here _ _) "") as [_ _].
    destruct (exec_guard l d0 r _ Ht Hg) as [E|[[x ->]|(x & -> & E)]]; [done| |];
      by destruct (Hls _ (list_elem_of_here _ _) x). }
  split_and!; [done| | |].
  - intros x. unfold Begin, beginScript. simpl. by rewrite He2, Hg2.
  - intros v' x Hne. unfold finish, finishScript. simpl.
    rewrite bool_decide_eq_false_2; [done|]. rewrite Hg2. congruence.
  - intros c ver Hd. eapply Check_guard; [done..|]. by apply hex16_ne.
Qed.

(** A change invalidates every grant issued before it, for good: after a
    successful [Begin], a grant carrying an older version of that resource is
    refused in every later state, finished or not, provided the random versions
    drawn since are not the old one again. *)
Theorem mutation_invalidates r rand d d1 v ls d2 c ver :
  Begin r (Some rand) d = Ok (d1, v) -> steps step d1 ls d2 -> depends c r ver ->
  Base64.hex_encode rand <> ver ->
  (forall l, l ∈ ls -> Base64.hex_encode (rand_of l) <> ver) ->
  Check c d2 <> None.
Proof.
  intros HB HS Hd Hv Hls. apply Begin_Ok in HB as (-> & _ & Hver & _ & _).
  assert (HV : exists w, d2 !! version_key r = Some w /\ w <> ver).
  { assert (H1 : exists w, d1 !! version_key r = Some w /\ w <> ver) by eauto. clear Hver.
    induction HS as [|? ? ? ? ? [l d0 Hr Ht] HS IH]; [done|].
    apply IH; [intros; by apply Hls, list_elem_of_further|].
    destruct H1 as (w & Hw & Hne). destruct (exec_version l d0 r) as [->| ->]; [eauto|].
    eexists. split; [done|]. by apply Hls, list_elem_of_here. }
  destruct HV as (w & Hw & Hne). by eapply Check_version.
Qed.

(** Losing the state loses every grant: from an empty database, with any
    services running and initialising it again under new epochs, a grant of the
    old epoch never passes, and without an epoch nothing passes or begins. *)
Theorem lost_state_fails_closed ls d c :
  steps step ∅ ls d ->
  (forall p x, LInitialize p x ∈ ls -> Base64.hex_encode x <> Epoch c) ->
  Check c d <> None /\
  (d !! epoch_key = None ->
     forall c' r x, Check c' d = Some EpochMissing /\
       Begin r (Some x) d = Err EpochMissing /\ Revoke r (Some x) d = Err EpochMissing).
Proof.
  intros HS Hls. split.
  - assert (He : forall e, d !! epoch_key = Some e -> e <> Epoch c); [|by intros [?%He _]%Check_None].
    assert (H1 : forall e, (∅ : db) !! epoch_key = Some e -> e <> Epoch c)
      by (intros e He; by rewrite lookup_empty in He).
    revert H1. generalize (∅ : db) HS. clear HS. intros d0 HS.
    induction HS as [|? ? ? ? ? [l d0 Hr Ht] HS IH]; intros H1; [done|].
    apply IH; [intros; eapply Hls; by apply list_elem_of_further|]. intros e He.
    destruct (d0 !! epoch_key) as [e0|] eqn:E0.
    + rewrite (exec_epoch _ _ _ E0) in He. simplify_eq. auto.
    + destruct l as [p x|res x|res w x|res x]; unfold exec, Initialize, Begin, beginScript,
        finish, finishScript, Revoke in He; simpl in He; rewrite ?E0 in He; try congruence.
      * case_bool_decide; [congruence|]. rewrite lookup_insert_eq in He. simplify_eq.
        eapply Hls, list_elem_of_here.
      * case_bool_decide; simpl in He; [|congruence].
        rewrite lookup_delete_ne, lookup_insert_ne in He by auto. congruence.
  - intros E c' r x. unfold Check, TakeSnapshot, snapshotScript, Begin, beginScript, Revoke. simpl.
    by rewrite E.
Qed.

(** A grant issued from a snapshot that shows its two resources unblocked,
    with the epoch and versions of that snapshot, passes the check until the
    state changes: in every state that agrees on the five keys it depends on. *)
Theorem issued_grant_passes c d s d' :
  let asset := AssetResource (AssetID c) in
  let file := Cid.FileResource (SourceCID c) in
  TakeSnapshot [asset; file] d = Ok s ->
  get (Blocked s) asset = "" -> get (Blocked s) file = "" ->
  Epoch c = s_Epoch s -> AssetVersion c = get (Versions s) asset ->
  FileVersion c = get (Versions s) file ->
  (forall k, k ∈ [epoch_key; version_key asset; guard_key asset; version_key file; guard_key file] ->
     d' !! k = d !! k) ->
  Check c d' = None.
Proof.
  intros asset file HS Hb1 Hb2 He Hv1 Hv2 Hk.
  assert (HC : Check c d = None).
  { unfold Check. fold asset file. rewrite HS.
    rewrite Hb1, Hb2, <- He, <- Hv1, <- Hv2. by rewrite !bool_decide_eq_false_2 by (intros ?; done). }
  apply Check_None in HC as [HE HR]. apply Check_None.
  split; [rewrite Hk by left; done|].
  intros r v Hin. rewrite !Hk; [by apply HR| |].
  - apply elem_of_cons in Hin as [[= -> ->]|Hin]; [do 1 right; by left|].
    apply elem_of_cons in Hin as [[= -> ->]|Hn%not_elem_of_nil]; [|done]. do 3 right. by left.
  - apply elem_of_cons in Hin as [[= -> ->]|Hin]; [do 2 right; by left|].
    apply elem_of_cons in Hin as [[= -> ->]|Hn%not_elem_of_nil]; [|done]. do 4 right. by left.
Qed.

End state.
(** ** Witnesses *)
Module Toy.
#[local] Existing Instance Grant.Toy.crypto.
#[local] Existing Instance Cid.Toy.cidlib.

Definition pre : string := prefix_of "prod".
Definition r1 : string := "0123456789abcdef".
Definition r2 : string := "ABCDEFGHIJKLMNOP".
Definition r3 : string := "qrstuvwxyzQRSTUV".
Definition r4 : string := "0000000000000000".

(** Steps and their result, run by [exec]. *)
Fixpoint run (ls : list label) (d : db) : db :=
  match ls with [] => d | l :: ls' => run ls' (exec pre l d) end.

Lemma grant_run_steps ls d :
  Forall (fun l => String.length (rand_of l) = 16%nat /\ token_ok l) ls -> steps (step pre) d ls (run ls d).
Proof.
  intros HF. revert d. induction HF as [|l ls [? ?] HF IH]; intros d; simpl; [constructor|].
  eapply steps_cons; [by constructor|apply IH].
Qed.

Definition d0 : db := run [LInitialize "noeviction" r1] ∅.
Definition claims : Claims :=
  mkClaims 1 "" 7 9 "QmFile" false "" "" "blur" "gallery" ["image"] 1000 1300
    (Base64.hex_encode r1) "0" "0".
Definition file : string := Cid.FileResource "bFile".

Ltac ok := repeat constructor.

Lemma revoke_is_permanent_witness :
  exists d1, Check pre claims d0 = None /\ Revoke pre file (Some r2) d0 = Ok d1 /\
    let d2 := run [LBegin file r3; LInitialize "noeviction" r4; LFinish file (Base64.hex_encode r3) r4] d1 in
    Check pre claims d2 <> None.
Proof.
  eexists. split; [by_vm|]. split; [reflexivity|]. intros d2.
  eapply (revoke_is_permanent pre file (Some r2) d0).
  - reflexivity.
  - apply grant_run_steps. ok.
  - apply list_elem_of_further, list_elem_of_here.
Defined.

Lemma mutation_exclusive_witness :
  let d1 := run [LBegin "asset:9" r2] d0 in
  let d2 := run [LBegin file r3; LBegin "asset:9" r4; LFinish file (Base64.hex_encode r3) r4] d1 in
  d2 !! guard_key pre "asset:9" = Some (Base64.hex_encode r2).
Proof.
  intros d1 d2.
  eapply (mutation_exclusive pre "asset:9" r2 d0 d1).
  - reflexivity.
  - reflexivity.
  - apply grant_run_steps. ok.
  - intros l Hl x. repeat (apply elem_of_cons in Hl as [->|Hl]; [by split|]).
    by apply not_elem_of_nil in Hl.
Defined.

Lemma mutation_invalidates_witness :
  let d1 := run [LBegin "asset:9" r2] d0 in
  let d2 := run [LFinish "asset:9" (Base64.hex_encode r2) r3] d1 in
  d2 !! guard_key pre "asset:9" = None /\ Check pre claims d2 <> None.
Proof.
  intros d1 d2. split; [by_vm|].
  eapply (mutation_invalidates pre "asset:9" r2 d0 d1 _ [LFinish "asset:9" (Base64.hex_encode r2) r3]
            d2 claims "0").
  - reflexivity.
  - apply grant_run_steps. ok.
  - apply list_elem_of_here.
  - discriminate.
  - intros l Hl. apply elem_of_cons in Hl as [->|Hl%not_elem_of_nil]; [discriminate|done].
Defined.

Lemma lost_state_fails_closed_witness :
  Check pre claims d0 = None /\ Check pre claims (run [LInitialize "noeviction" r2] ∅) <> None.
Proof.
  split; [by_vm|].
  eapply (lost_state_fails_closed pre [LInitialize "noeviction" r2]).
  - apply grant_run_steps. ok.
  - intros p x Hl. apply elem_of_cons in Hl as [[= -> ->]|Hl%not_elem_of_nil]; [discriminate|done].
Defined.

Lemma issued_grant_passes_witness : Check pre claims d0 = None.
Proof.
  eapply (issued_grant_passes pre claims d0); try reflexivity.
Defined.

End Toy.
End GrantState.
