(* ===== verification/Playlist.v ===== *)
(** The playlist functions of [internal/handler/video_handler.go] and
    [internal/handler/media_resource.go]: references inside an HLS playlist, the
    opaque indexed form given to browsers, and the poster lines of a master. *)

From S2P Require Export GoUrl Cid.

Local Open Scope Z_scope.

Module Playlist.
Import Cid.

(** The attribute name [URI=] and its opening double quote. *)
Definition marker : string := "URI=" +:+ dquote.

(** The text before the marker, the quoted part and the text after its closing
    quote: the two [strings.Index] calls of the source. *)
Definition uri_parts (line : string) : option (string * string * string) :=
  match Cut line marker with
  | None => None
  | Some (before, r) =>
      match Cut r dquote with
      | None => None
      | Some (uri, after) => Some (before, uri, after)
      end
  end.

Definition playlistURI (line : string) : option string :=
  match uri_parts line with Some (_, uri, _) => Some uri | None => None end.

Definition replacePlaylistURI (line replacement : string) : option string :=
  match uri_parts line with
  | Some (before, _, after) => Some (before +:+ marker +:+ replacement +:+ dquote +:+ after)
  | None => None
  end.

Definition lines_of (content : string) : list string := Split content newline.
Definition unlines (l : list string) : string := Join l (String newline "").

Definition linkedStreamIndex (value extension : string) : option Z :=
  if negb (bool_decide (extension = "")) && negb (HasSuffix value extension) then None else
  match Atoi (if bool_decide (extension = "") then value else TrimSuffix value extension) with
  | Some index => if index <? 0 then None else Some index
  | None => None
  end.

Section playlist.
Context `{Url.Authority}.

(** The identifier and the extension a reference names. *)
Definition playlistReferenceCID (value : string) : option (string * string) :=
  match Url.Parse_Path (TrimSpace value) with
  | None => None
  | Some path =>
      let filename := Base path in
      let extension := Ext filename in
      let cid := TrimSuffix filename extension in
      if validateCID cid then Some (cid, extension) else None
  end.

(** ** Indexed playlists

    The loops carry the running index. *)
Fixpoint rewriteMaster_from (lines : list string) (authSuffix : string) (playlistIndex : Z)
  : option (list string) :=
  match lines with
  | [] => Some []
  | line :: rest =>
      let trimmed := TrimSpace line in
      if bool_decide (trimmed = "") then cons line <$> rewriteMaster_from rest authSuffix playlistIndex
      else if HasPrefix trimmed "#" then
        if Contains trimmed marker then
          match replacePlaylistURI line ("poster.jpg" +:+ authSuffix) with
          | None => None
          | Some rewritten => cons rewritten <$> rewriteMaster_from rest authSuffix playlistIndex
          end
        else cons line <$> rewriteMaster_from rest authSuffix playlistIndex
      else
        match playlistReferenceCID trimmed with
        | Some (_, extension) =>
            if bool_decide (extension = ".m3u8") then
              cons ("playlist/" +:+ Itoa playlistIndex +:+ ".m3u8" +:+ authSuffix)
                <$> rewriteMaster_from rest authSuffix (playlistIndex + 1)
            else None
        | None => None
        end
  end.
Definition rewriteLinkedMasterPlaylist (content authSuffix : string) : option string :=
  unlines <$> rewriteMaster_from (lines_of content) authSuffix 0.

(** The relative address of an asset of a variant. *)
Definition segment_url (playlistIndex assetIndex : Z) (extension authSuffix : string) : string :=
  "../segment/" +:+ Itoa playlistIndex +:+ "/" +:+ Itoa assetIndex +:+ extension +:+ authSuffix.

Fixpoint rewriteVariant_from (lines : list string) (playlistIndex : Z) (authSuffix : string)
  (assetIndex : Z) : option (list string) :=
  match lines with
  | [] => Some []
  | line :: rest =>
      let trimmed := TrimSpace line in
      if bool_decide (trimmed = "") then
        cons line <$> rewriteVariant_from rest playlistIndex authSuffix assetIndex
      else if HasPrefix trimmed "#" then
        if Contains trimmed marker then
          match playlistURI line with
          | None => None
          | Some uri =>
              match playlistReferenceCID uri with
              | None => None
              | Some (_, extension) =>
                  match replacePlaylistURI line
                          (segment_url playlistIndex assetIndex extension authSuffix) with
                  | None => None
                  | Some rewritten =>
                      cons rewritten
                        <$> rewriteVariant_from rest playlistIndex authSuffix (assetIndex + 1)
                  end
              end
          end
        else cons line <$> rewriteVariant_from rest playlistIndex authSuffix assetIndex
      else
        match playlistReferenceCID trimmed with
        | None => None
        | Some (_, extension) =>
            cons (segment_url playlistIndex assetIndex extension authSuffix)
              <$> rewriteVariant_from rest playlistIndex authSuffix (assetIndex + 1)
        end
  end.
Definition rewriteLinkedVariantPlaylist (content : string) (playlistIndex : Z) (authSuffix : string)
  : option string :=
  unlines <$> rewriteVariant_from (lines_of content) playlistIndex authSuffix 0.

Fixpoint masterCID_from (lines : list string) (wanted index : Z) : option string :=
  match lines with
  | [] => None
  | line :: rest =>
      let trimmed := TrimSpace line in
      if bool_decide (trimmed = "") || HasPrefix trimmed "#" then masterCID_from rest wanted index
      else
        match playlistReferenceCID trimmed with
        | Some (cid, extension) =>
            if bool_decide (extension <> ".m3u8") then None
            else if index =? wanted then Some cid else masterCID_from rest wanted (index + 1)
        | None => None
        end
  end.
Definition linkedMasterPlaylistCID (content : string) (wanted : Z) : option string :=
  masterCID_from (lines_of content) wanted 0.

Fixpoint assetCID_from (lines : list string) (wanted index : Z) : option (string * string) :=
  match lines with
  | [] => None
  | line :: rest =>
      let trimmed := TrimSpace line in
      if bool_decide (trimmed = "") then assetCID_from rest wanted index
      else
        match (if HasPrefix trimmed "#" then playlistURI line else Some trimmed) with
        | None => assetCID_from rest wanted index
        | Some value =>
            match playlistReferenceCID value with
            | None => None
            | Some r => if index =? wanted then Some r else assetCID_from rest wanted (index + 1)
            end
        end
  end.
Definition linkedVariantAssetCID (content : string) (wanted : Z) : option (string * string) :=
  assetCID_from (lines_of content) wanted 0.

(** ** Poster lines *)

Record poster := mkPoster { p_cid : string; p_size : string; p_variant : string }.

Definition poster_prefix : string := "#EXT-X-IAMFREE-POSTER:".

(** The attributes of a line, the last of each kind. *)
Definition poster_attr (p : poster) (attr : string) : poster :=
  let p := match CutPrefix "SIZE=" attr with
           | Some v => mkPoster (p_cid p) v (p_variant p) | None => p end in
  match CutPrefix "VARIANT=" attr with
  | Some v => mkPoster (p_cid p) (p_size p) v | None => p end.

(** One line: [Ok None] is not a poster line, [Err] denies the request. *)
Definition poster_line (line : string) : result unit (option poster) :=
  let line := TrimSpace line in
  if negb (HasPrefix line poster_prefix) then Ok None else
  match playlistURI line with
  | None => Err tt
  | Some uri =>
      match playlistReferenceCID uri with
      | Some (cid, ext) =>
          if bool_decide (ext <> ".jpg") then Err tt else
          let p := foldl poster_attr (mkPoster cid "" "")
                     (Split (TrimPrefix line poster_prefix) ","%char) in
          if bool_decide (p_size p = "") then Err tt else Ok (Some p)
      | None => Err tt
      end
  end.

Fixpoint posters_of (lines : list string) : result unit (list poster) :=
  match lines with
  | [] => Ok []
  | line :: rest =>
      match poster_line line with
      | Err e => Err e
      | Ok None => posters_of rest
      | Ok (Some p) => cons p <$> posters_of rest
      end
  end.

Context `{CidLib}.

(** The first protected rendition of a poster's size. *)
Definition protected_poster (posters : list poster) (size mode : string) : option poster :=
  match list_find (fun p => p_size p = size /\ p_variant p = mode) posters with
  | Some (_, p) => Some p
  | None => None
  end.

Fixpoint select_poster (candidates posters : list poster) (requested mode : string) : option string :=
  match candidates with
  | [] => None
  | original :: rest =>
      if negb (bool_decide (p_variant original = "")) ||
         (negb (bool_decide (requested = "")) && negb (sameMediaCID (p_cid original) requested))
      then select_poster rest posters requested mode
      else if bool_decide (mode = "original") then Some (p_cid original)
      else match protected_poster posters (p_size original) mode with
           | Some p => Some (p_cid p)
           | None => select_poster rest posters requested mode
           end
  end.

Definition videoPosterCID (master requested mode : string) : option string :=
  match posters_of (lines_of master) with
  | Err _ => None
  | Ok posters => select_poster posters posters requested mode
  end.

End playlist.

(** ** Authorisation suffixes *)

Definition playlistAuthSuffix (query : Url.Values) : string :=
  let values : Url.Values := [] in
  let grant := Url.Get query "grant" in
  let values := if bool_decide (grant = "") then values else Url.Set_ values "grant" grant in
  let root := Url.Get query "media_root" in
  let values := if bool_decide (root = "") then values else Url.Set_ values "media_root" root in
  let '(key, token) :=
    if bool_decide (Url.Get query "token" = "")
    then ("access_token", Url.Get query "access_token") else ("token", Url.Get query "token") in
  let values := if bool_decide (token = "") then values else Url.Set_ values key token in
  let mediaLink := Url.Get query "media_link" in
  let values := if bool_decide (mediaLink = "") then values
                else Url.Set_ values "media_link" mediaLink in
  match values with [] => "" | _ => "?" +:+ Url.Encode values end.

Definition appendURIAuth (line authSuffix : string) : string :=
  match uri_parts line with
  | None => line
  | Some (before, uri, after) =>
      if Contains uri "?" then line
      else before +:+ marker +:+ uri +:+ authSuffix +:+ dquote +:+ after
  end.

Definition append_line (authSuffix line : string) : string :=
  let trimmed := TrimSpace line in
  if bool_decide (trimmed = "") then line
  else if HasPrefix trimmed "#" && Contains trimmed marker then appendURIAuth line authSuffix
  else if HasPrefix trimmed "#" || Contains trimmed "?" then line
  else line +:+ authSuffix.

Definition appendPlaylistAuth (content authSuffix : string) : string :=
  unlines (append_line authSuffix <$> lines_of content).

(** [writePlaylist]: what is written for the bytes read, if they could be. *)
Definition writePlaylist (data : option string) (authSuffix : string) : string :=
  match data with
  | None => ""
  | Some content =>
      if bool_decide (authSuffix = "") then content else appendPlaylistAuth content authSuffix
  end.

Definition streamSegmentContentType (path : string) : string :=
  let ext := ToLower (Ext path) in
  if bool_decide (ext = ".m3u8") then "application/vnd.apple.mpegurl"
  else if bool_decide (ext ∈ [".jpg"; ".jpeg"]) then "image/jpeg"
  else if bool_decide (ext = ".png") then "image/png"
  else if bool_decide (ext = ".webp") then "image/webp"
  else "video/mp4".

(** [videoPosterAliases]: the protected renditions of each original poster.  Two
    sizes with one original file would write the same cell, in the order the map
    is iterated. *)
Definition videoPosterAliases (posters : gmap string string)
  (privacy : gmap string (gmap string string)) : gmap string (gmap string string) :=
  map_fold (fun size original aliases =>
    if bool_decide (original = "") then aliases
    else map_fold (fun variant values aliases =>
           let cid := default "" (values !! size) in
           if bool_decide (cid = "") then aliases
           else <[original := <[variant := cid]> (default ∅ (aliases !! original))]> aliases)
         aliases privacy) ∅ posters.

(** * Specification

    The references of a playlist, and the playlist with its references replaced
    one by one. *)

(** The reference a line holds: a quoted URI in a tag, or a whole line. *)
Definition line_reference (line : string) : option string :=
  let trimmed := TrimSpace line in
  if bool_decide (trimmed = "") then None
  else if HasPrefix trimmed "#" then playlistURI line else Some trimmed.

Definition put_reference (line url : string) : string :=
  if HasPrefix (TrimSpace line) "#" then default line (replacePlaylistURI line url) else url.

(** The lines with the references replaced by the given ones, in order. *)
Fixpoint place (lines urls : list string) : list string :=
  match lines with
  | [] => []
  | line :: rest =>
      match line_reference line, urls with
      | Some _, u :: us => put_reference line u :: place rest us
      | _, _ => line :: place rest urls
      end
  end.

(** The references of a master that name playlists: its plain lines. *)
Definition plain_line (line : string) : bool :=
  negb (bool_decide (TrimSpace line = "")) && negb (HasPrefix (TrimSpace line) "#").

(** * Lemmas *)

Lemma uri_parts_contains line : uri_parts line <> None -> Contains (TrimSpace line) marker = true.
Proof.
  intros HU. apply (Contains_TrimSpace _ _ "U" ("RI=" +:+ dquote) (chr 34) "URI="); try reflexivity.
  apply Contains_true. unfold uri_parts in HU. destruct (Cut line marker) as [[a b]|]; [eauto|done].
Qed.

Lemma replace_some line u url : playlistURI line = Some u -> is_Some (replacePlaylistURI line url).
Proof.
  unfold playlistURI, replacePlaylistURI. destruct (uri_parts line) as [[[? ?] ?]|]; [|done]. by eexists.
Qed.

Section laws.
Context `{Url.Authority}.

Lemma assetCID_from_lookup lines pairs w i :
  Forall2 (fun r p => playlistReferenceCID r = Some p) (omap line_reference lines) pairs ->
  (0 <= i)%Z ->
  assetCID_from lines w i = if (i <=? w)%Z then pairs !! Z.to_nat (w - i) else None.
Proof.
  revert pairs i. induction lines as [|line lines IH]; intros pairs i HF Hi.
  - inversion HF; subst. simpl. by case_match.
  - cbn [assetCID_from]. cbn in HF. unfold line_reference in HF at 1.
    case_bool_decide as Hb; [by apply IH|].
    destruct (if HasPrefix _ _ then _ else _) as [value|]; [|by apply IH].
    inversion HF as [|? p ? pairs' Hp HF' E1 E2]; subst. rewrite Hp.
    destruct (i =? w)%Z eqn:E.
    + apply Z.eqb_eq in E as ->. rewrite Z.leb_refl, Z.sub_diag. done.
    + apply Z.eqb_neq in E. rewrite (IH pairs') by (done || lia).
      destruct (i <=? w)%Z eqn:Hle.
      * apply Z.leb_le in Hle. rewrite (proj2 (Z.leb_le _ _)) by lia.
        by replace (Z.to_nat (w - i)) with (S (Z.to_nat (w - (i + 1)))) by lia.
      * apply Z.leb_gt in Hle. by rewrite (proj2 (Z.leb_gt _ _)) by lia.
Qed.

(** The addresses the rewriting numbers from [i] on. *)
Definition segment_urls (playlistIndex : Z) (auth : string) (i : Z) (pairs : list (string * string))
  : list string :=
  imap (fun k p => segment_url playlistIndex (i + Z.of_nat k) p.2 auth) pairs.

Lemma segment_urls_cons pi auth i p pairs :
  segment_urls pi auth i (p :: pairs) =
  segment_url pi i p.2 auth :: segment_urls pi auth (i + 1) pairs.
Proof.
  unfold segment_urls. rewrite imap_cons. f_equal; [f_equal; lia|].
  apply imap_ext. intros k q _. simpl. f_equal. lia.
Qed.

Lemma rewriteVariant_from_spec lines pi auth i out :
  rewriteVariant_from lines pi auth i = Some out ->
  exists pairs, Forall2 (fun r p => playlistReferenceCID r = Some p) (omap line_reference lines) pairs /\
    out = place lines (segment_urls pi auth i pairs).
Proof.
  revert i out. induction lines as [|line lines IH]; intros i out.
  - intros [= <-]. exists []. split; [constructor|done].
  - cbn [rewriteVariant_from]. cbn [place]. cbn [omap list_omap]. unfold line_reference.
    assert (Hskip : forall o, cons line <$> rewriteVariant_from lines pi auth i = Some o ->
      exists pairs, Forall2 (fun r p => playlistReferenceCID r = Some p) (omap line_reference lines) pairs /\
        o = line :: place lines (segment_urls pi auth i pairs)).
    { intros o (l & Hl & ->)%fmap_Some. apply IH in Hl as (pairs & HF & ->). eauto. }
    assert (Htake : forall ref p line' o,
      playlistReferenceCID ref = Some p ->
      put_reference line (segment_url pi i p.2 auth) = line' ->
      cons line' <$> rewriteVariant_from lines pi auth (i + 1) = Some o ->
      exists pairs, Forall2 (fun r p => playlistReferenceCID r = Some p)
          (ref :: omap line_reference lines) pairs /\
        o = match segment_urls pi auth i pairs with
            | u :: us => put_reference line u :: place lines us
            | [] => line :: place lines (segment_urls pi auth i pairs)
            end).
    { intros ref p line' o Hp <- (l & Hl & ->)%fmap_Some. apply IH in Hl as (pairs & HF & ->).
      exists (p :: pairs). split; [by constructor|]. by rewrite segment_urls_cons. }
    case_bool_decide; [apply Hskip|].
    destruct (HasPrefix (TrimSpace line) "#") eqn:HH.
    + destruct (Contains (TrimSpace line) marker) eqn:HC.
      * destruct (playlistURI line) as [uri|] eqn:HU; [|done].
        destruct (playlistReferenceCID uri) as [[cid ext]|] eqn:HR; [|done].
        destruct (replacePlaylistURI line _) as [line'|] eqn:HP; [|done].
        intros HX. destruct (Htake uri (cid, ext) line' out HR) as (pairs & HF & HE);
          [by unfold put_reference; rewrite HH; simpl; rewrite HP|exact HX|]. exists pairs. by split.
      * destruct (playlistURI line) as [uri|] eqn:HU; [|apply Hskip]. exfalso.
        unfold playlistURI in HU. rewrite uri_parts_contains in HC; [done|].
        by destruct (uri_parts line).
    + destruct (playlistReferenceCID (TrimSpace line)) as [[cid ext]|] eqn:HR; [|done].
      intros HX. destruct (Htake (TrimSpace line) (cid, ext) (segment_url pi i ext auth) out HR) as (pairs & HF & HE);
        [by unfold put_reference; rewrite HH|exact HX|]. exists pairs. by split.
Qed.

(** The master: plain lines are numbered, quoted URIs become the poster. *)
Fixpoint place_master (lines : list string) (auth : string) (i : Z) : list string :=
  match lines with
  | [] => []
  | line :: rest =>
      if plain_line line then
        ("playlist/" +:+ Itoa i +:+ ".m3u8" +:+ auth) :: place_master rest auth (i + 1)
      else match line_reference line with
           | Some _ => put_reference line ("poster.jpg" +:+ auth) :: place_master rest auth i
           | None => line :: place_master rest auth i
           end
  end.

Lemma rewriteMaster_from_spec lines auth i out :
  rewriteMaster_from lines auth i = Some out -> (0 <= i)%Z ->
  out = place_master lines auth i /\
  exists cids, Forall2 (fun line c => playlistReferenceCID (TrimSpace line) = Some (c, ".m3u8"))
      (filter (fun l => plain_line l = true) lines) cids /\
    forall w, masterCID_from lines w i = if (i <=? w)%Z then cids !! Z.to_nat (w - i) else None.
Proof.
  revert i out. induction lines as [|line lines IH]; intros i out.
  - intros [= <-] _. split; [done|]. exists []. split; [constructor|]. intros w. by case_match.
  - cbn [rewriteMaster_from place_master masterCID_from]. unfold line_reference. intros HR Hi.
    assert (Hrest : plain_line line = false -> forall l, rewriteMaster_from lines auth i = Some l ->
      l = place_master lines auth i /\
      exists cids, Forall2 (fun line c => playlistReferenceCID (TrimSpace line) = Some (c, ".m3u8"))
        (filter (fun l => plain_line l = true) (line :: lines)) cids /\
        forall w, masterCID_from lines w i = if (i <=? w)%Z then cids !! Z.to_nat (w - i) else None).
    { intros HPL l Hl. rewrite filter_cons_False by congruence. by apply IH. }
    case_bool_decide as Hb; cbn [orb].
    { assert (HPL : plain_line line = false) by (unfold plain_line; by rewrite bool_decide_eq_true_2).
      rewrite HPL. apply fmap_Some in HR as (l & Hl & ->).
      apply Hrest in Hl as (-> & Hc); done. }
    unfold put_reference. destruct (HasPrefix (TrimSpace line) "#") eqn:HH.
    + assert (HPL : plain_line line = false) by (unfold plain_line; by rewrite HH, andb_false_r).
      specialize (Hrest HPL). rewrite HPL.
      destruct (Contains (TrimSpace line) marker) eqn:HC.
      * destruct (replacePlaylistURI line _) as [line'|] eqn:HP; [|done].
        apply fmap_Some in HR as (l & Hl & ->). apply Hrest in Hl as (-> & Hc). split; [|done].
        destruct (playlistURI line) as [uri|] eqn:HU; [done|]. exfalso.
        unfold playlistURI in HU. unfold replacePlaylistURI in HP.
        by destruct (uri_parts line) as [[[? ?] ?]|].
      * apply fmap_Some in HR as (l & Hl & ->). apply Hrest in Hl as (-> & Hc). split; [|done].
        destruct (playlistURI line) as [uri|] eqn:HU; [|done]. exfalso.
        unfold playlistURI in HU. rewrite uri_parts_contains in HC; [done|].
        by destruct (uri_parts line).
    + assert (HPL : plain_line line = true)
        by (unfold plain_line; by rewrite HH, bool_decide_eq_false_2).
      rewrite HPL, filter_cons_True by done.
      destruct (playlistReferenceCID (TrimSpace line)) as [[cid ext]|] eqn:HP; [|done].
      case_bool_decide; [|done]. subst ext. apply fmap_Some in HR as (l & Hl & ->).
      apply IH in Hl as (-> & cids & HF & Hw); [|lia]. split; [done|]. exists (cid :: cids).
      split; [by constructor|]. intros w.
      rewrite bool_decide_eq_false_2 by auto. destruct (i =? w)%Z eqn:E.
      * apply Z.eqb_eq in E as ->. by rewrite Z.leb_refl, Z.sub_diag.
      * apply Z.eqb_neq in E. rewrite Hw. destruct (i <=? w)%Z eqn:Hle.
        -- apply Z.leb_le in Hle. rewrite (proj2 (Z.leb_le _ _)) by lia.
           by replace (Z.to_nat (w - i)) with (S (Z.to_nat (w - (i + 1)))) by lia.
        -- apply Z.leb_gt in Hle. by rewrite (proj2 (Z.leb_gt _ _)) by lia.
Qed.

(** ** Properties *)

(** Browser addresses and lookups agree: when a variant playlist is rewritten,
    its references - plain lines and quoted URIs alike - are replaced, in order,
    by addresses carrying the index of each, nothing else of the playlist
    changes, and looking an index up in the stored playlist gives exactly the
    identifier and extension of the reference that was given that index. *)
Theorem linked_variant_indexes content pi auth out :
  rewriteLinkedVariantPlaylist content pi auth = Some out ->
  exists pairs,
    Forall2 (fun r p => playlistReferenceCID r = Some p)
      (omap line_reference (lines_of content)) pairs /\
    out = unlines (place (lines_of content) (segment_urls pi auth 0 pairs)) /\
    forall w, linkedVariantAssetCID content w = if (0 <=? w)%Z then pairs !! Z.to_nat w else None.
Proof.
  intros (l & Hl & ->)%fmap_Some. apply rewriteVariant_from_spec in Hl as (pairs & HF & ->).
  exists pairs. split_and!; [done..|]. intros w. unfold linkedVariantAssetCID.
  rewrite (assetCID_from_lookup _ pairs) by done. by rewrite Z.sub_0_r.
Qed.

(** The same for masters: the plain lines, all playlists, are replaced by
    indexed addresses and every quoted URI by the poster's, and looking a
    playlist index up gives the identifier of the line that was given it. *)
Theorem linked_master_indexes content auth out :
  rewriteLinkedMasterPlaylist content auth = Some out ->
  out = unlines (place_master (lines_of content) auth 0) /\
  exists cids,
    Forall2 (fun line c => playlistReferenceCID (TrimSpace line) = Some (c, ".m3u8"))
      (filter (fun l => plain_line l = true) (lines_of content)) cids /\
    forall w, linkedMasterPlaylistCID content w = if (0 <=? w)%Z then cids !! Z.to_nat w else None.
Proof.
  intros (l & Hl & ->)%fmap_Some. apply rewriteMaster_from_spec in Hl as (-> & cids & HF & Hw); [|done].
  split; [done|]. exists cids. split; [done|]. intros w. unfold linkedMasterPlaylistCID.
  rewrite Hw. by rewrite Z.sub_0_r.
Qed.

Context `{CidLib}.

Lemma posters_of_valid lines ps : posters_of lines = Ok ps ->
  forall p, p ∈ ps -> validateCID (p_cid p) = true /\ p_size p <> "".
Proof.
  assert (Hcid : forall l p, p_cid (foldl poster_attr p l) = p_cid p).
  { induction l as [|a l IH]; intros p; [done|]. simpl. rewrite IH. unfold poster_attr.
    by destruct (CutPrefix "SIZE=" a), (CutPrefix "VARIANT=" a). }
  revert ps. induction lines as [|line lines IH]; intros ps; simpl.
  - intros [= <-] p ?%not_elem_of_nil. done.
  - destruct (poster_line line) as [[p0|]|] eqn:HL; [|apply IH|done].
    destruct (posters_of lines) as [ps'|]; [|done]. simpl. intros [= <-] p.
    intros [->|Hp]%elem_of_cons; [|by apply (IH ps')].
    unfold poster_line in HL. destruct (negb _); [done|].
    destruct (playlistURI _) as [uri|]; [|done].
    destruct (playlistReferenceCID uri) as [[cid ext]|] eqn:HR; [|done].
    case_bool_decide; [done|]. case_bool_decide as Hsz; [done|]. injection HL as <-.
    rewrite Hcid. split; [|done]. simpl. unfold playlistReferenceCID in HR.
    destruct (Url.Parse_Path _); [|done]. destruct (validateCID _) eqn:HV; [|done].
    by injection HR as <- _.
Qed.

(** The poster a viewer gets is the one his permission names: whatever the
    master says, a poster is chosen only through an original poster of that
    master (the requested one, if one was requested); with full access it is that
    original, otherwise it is a rendition of the same size marked with exactly
    the viewer's mode, never an unmarked original. *)
Theorem video_poster_protected master requested mode c :
  videoPosterCID master requested mode = Some c ->
  validateCID c = true /\
  exists ps original, posters_of (lines_of master) = Ok ps /\ original ∈ ps /\
    p_variant original = "" /\
    (requested <> "" -> sameMediaCID (p_cid original) requested = true) /\
    (mode = "original" /\ c = p_cid original \/
     mode <> "original" /\ exists p, p ∈ ps /\ p_variant p = mode /\
       p_size p = p_size original /\ c = p_cid p).
Proof.
  unfold videoPosterCID. destruct (posters_of _) as [ps|] eqn:HP; [|done].
  assert (HS : forall cands, (forall p, p ∈ cands -> p ∈ ps) ->
    select_poster cands ps requested mode = Some c ->
    exists original, original ∈ ps /\ p_variant original = "" /\
      (requested <> "" -> sameMediaCID (p_cid original) requested = true) /\
      (mode = "original" /\ c = p_cid original \/
       mode <> "original" /\ exists p, p ∈ ps /\ p_variant p = mode /\
         p_size p = p_size original /\ c = p_cid p)).
  { induction cands as [|o cands IH]; intros Hsub; [done|]. simpl.
    assert (Hsub' : forall p, p ∈ cands -> p ∈ ps)
      by (intros p Hp; by apply Hsub, list_elem_of_further).
    go_if Hskip; [by apply IH|]. apply orb_false_iff in Hskip as [Hv Hr].
    assert (Hreq : requested <> "" -> sameMediaCID (p_cid o) requested = true).
    { intros Hne. rewrite bool_decide_eq_false_2 in Hr by done. simpl in Hr. by go_bools. }
    clear Hr. go_bools. case_bool_decide as Hm.
    - intros Hc. injection Hc as Hc. exists o.
      split_and!; [apply Hsub, list_elem_of_here|done..|by left].
    - unfold protected_poster. destruct (list_find _ ps) as [[k p]|] eqn:HF; [|by apply IH].
      intros Hc. injection Hc as Hc. apply list_find_Some in HF as (Hk & [Hsz Hva] & _).
      exists o. split_and!; [apply Hsub, list_elem_of_here|done..|]. right. split; [done|].
      exists p. split_and!; [by eapply list_elem_of_lookup_2|done..]. }
  intros Hsel. destruct (HS ps (fun _ H => H) Hsel) as (o & Ho & Hv & Hr & Hc). split.
  - destruct Hc as [[_ ->]|(_ & p & Hp & _ & _ & ->)]; by eapply posters_of_valid.
  - exists ps, o. done.
Qed.

End laws.

(** ** Witnesses *)
Module Toy.
#[local] Instance authority : Url.Authority := fun _ => true.
#[local] Existing Instance Cid.Toy.cidlib.

Definition cidA : string := "QmYwAPJzv5CZsnA625s3Xf2nemtYgPpHdWEz79ojWKPbdA".
Definition cidB : string := "QmYwAPJzv5CZsnA625s3Xf2nemtYgPpHdWEz79ojWKPbdB".
Definition cidC : string := "QmYwAPJzv5CZsnA625s3Xf2nemtYgPpHdWEz79ojWKPbdC".

Definition variant_sample : string :=
  unlines ["#EXTM3U"; "#EXT-X-MAP:URI=" +:+ dquote +:+ "/stream/segment/" +:+ cidA +:+ ".mp4" +:+ dquote;
           "#EXTINF:6.0,"; "/stream/segment/" +:+ cidB +:+ ".m4s"; ""].
Definition master_sample : string :=
  unlines ["#EXTM3U";
    "#EXT-X-IAMFREE-POSTER:SIZE=640,URI=" +:+ dquote +:+ "/stream/segment/" +:+ cidA +:+ ".jpg" +:+ dquote;
    "#EXT-X-IAMFREE-POSTER:SIZE=640,VARIANT=blur,URI=" +:+ dquote +:+ "/stream/segment/" +:+ cidB +:+ ".jpg" +:+ dquote;
    "#EXT-X-STREAM-INF:BANDWIDTH=1"; "/stream/segment/" +:+ cidC +:+ ".m3u8"; ""].

Lemma linked_variant_indexes_witness :
  exists out, rewriteLinkedVariantPlaylist variant_sample 2 "?token=t" = Some out /\
    lines_of out !! 3%nat = Some "../segment/2/1.m4s?token=t" /\
    exists pairs,
      Forall2 (fun r p => playlistReferenceCID r = Some p)
        (omap line_reference (lines_of variant_sample)) pairs /\
      out = unlines (place (lines_of variant_sample) (segment_urls 2 "?token=t" 0 pairs)) /\
      forall w, linkedVariantAssetCID variant_sample w =
        if (0 <=? w)%Z then pairs !! Z.to_nat w else None.
Proof.
  eexists. split; [vm_compute; reflexivity|]. split; [vm_compute; reflexivity|].
  apply linked_variant_indexes. vm_compute. reflexivity.
Defined.

Lemma linked_master_indexes_witness :
  exists out, rewriteLinkedMasterPlaylist master_sample "" = Some out /\
    linkedMasterPlaylistCID master_sample 0 = Some cidC /\
    out = unlines (place_master (lines_of master_sample) "" 0).
Proof.
  eexists. split; [vm_compute; reflexivity|]. split; [vm_compute; reflexivity|].
  eapply (linked_master_indexes master_sample ""). vm_compute. reflexivity.
Defined.

Lemma video_poster_protected_witness :
  videoPosterCID master_sample cidA "blur" = Some cidB /\ validateCID cidB = true.
Proof.
  split; [vm_compute; reflexivity|].
  apply (video_poster_protected master_sample cidA "blur" cidB). vm_compute. reflexivity.
Defined.
End Toy.

End Playlist.
