(* ===== verification/Player.v ===== *)
(** What a player reads of the playlists it is answered: the addresses that
    [rewriteLinkedMasterPlaylist] and [rewriteLinkedVariantPlaylist] write are the
    references of the text they make. *)

From S2P Require Export Playlist.

Local Open Scope Z_scope.

Module Player.
Import Cid Playlist.

(** * Specification *)

(** The files a player finds in the playlist of a variant, and the playlists it finds in
    a master. *)
Definition references (body : string) : list string := omap line_reference (lines_of body).
Definition variants (body : string) : list string := filter (fun l => plain_line l = true) (lines_of body).

Definition playlist_url (i : Z) (auth : string) : string := "playlist/" +:+ Itoa i +:+ ".m3u8" +:+ auth.

(** Addresses: text that survives in a line and between quotes. *)
Definition address_byte (c : ascii) : bool :=
  Url.plain_byte c || bool_decide (c ∈ ["?"; "&"; "="; "%"; "+"; "~"]%char).
Definition address (s : string) : Prop := Forall (fun c => address_byte c = true) (chars s).

(** * Lemmas *)

Lemma address_byte_spec c : address_byte c = true ->
  solid_byte c = true /\ c <> chr 34 /\ c <> newline /\ c <> "#"%char.
Proof. destruct c as [[] [] [] [] [] [] [] []]; vm_compute; intros ?; (discriminate || (repeat split; discriminate)). Qed.

Lemma address_append s t : address s -> address t -> address (s +:+ t).
Proof. unfold address. rewrite chars_append, Forall_app. done. Qed.

Lemma address_const s : forallb address_byte (chars s) = true -> address s.
Proof. intros HF. apply Forall_forall. intros c Hc%list_elem_of_In. rewrite forallb_forall in HF. by apply HF. Qed.

Lemma address_no s c : address s -> address_byte c = false -> c ∉ chars s.
Proof. intros HF Hc Hin. unfold address in HF. rewrite Forall_forall in HF. apply HF in Hin. congruence. Qed.

Lemma address_solid s : address s -> TrimSpace s = s.
Proof.
  intros HF. apply TrimSpace_solid, solid_all. eapply Forall_impl; [exact HF|]. intros c Hc. by apply address_byte_spec.
Qed.

Lemma address_plain s : Url.plain s -> address s.
Proof. intros HF. eapply Forall_impl; [exact HF|]. intros c Hc. unfold address_byte. cbn in Hc. by rewrite Hc. Qed.

Lemma Itoa_address z : 0 <= z -> address (Itoa z).
Proof.
  intros Hz. eapply Forall_impl; [by apply Itoa_digits|]. intros c Hc. cbn in Hc. unfold address_byte, Url.plain_byte.
  by rewrite Hc, orb_true_r.
Qed.

Lemma QueryEscape_address s : address (Url.QueryEscape s).
Proof.
  apply Forall_forall. intros c [Hc|[-> | ->]]%Url.QueryEscape_chars; [|done..].
  unfold Url.unreserved in Hc. unfold address_byte, Url.plain_byte.
  apply orb_true_iff in Hc as [Hc|Hc]; [by rewrite Hc|]. apply bool_decide_eq_true in Hc.
  repeat (apply elem_of_cons in Hc as [->|Hc]; [done|]). by apply not_elem_of_nil in Hc.
Qed.

Lemma Join_address l sep : Forall address l -> address sep -> address (Join l sep).
Proof.
  intros HF Hs. induction HF as [|x l Hx HF IH]; [constructor|]. destruct l as [|y l]; [done|].
  rewrite Join_cons by done. by repeat apply address_append.
Qed.

Lemma auth_address q : address (playlistAuthSuffix q).
Proof.
  assert (HE : forall v : Url.Values, address (Url.Encode v)).
  { intros v. apply Join_address; [|by apply address_const]. unfold Url.encode_pairs. apply Forall_forall.
    intros x Hx%list_elem_of_In%in_flat_map. destruct Hx as (p & _ & Hx%list_elem_of_In).
    apply list_elem_of_fmap in Hx as (y & -> & _).
    apply address_append; [apply QueryEscape_address|]. apply (address_append "="); [by apply address_const|apply QueryEscape_address]. }
  unfold playlistAuthSuffix. destruct (if bool_decide (Url.Get q "token" = "") then _ else _) as [key token].
  assert (HS : forall v : Url.Values, address (match v with [] => "" | _ => "?" +:+ Url.Encode v end)).
  { intros [|p v]; [constructor|]. apply (address_append "?"); [by apply address_const|apply HE]. }
  apply HS.
Qed.

(** ** Lines *)

Lemma tag_trim line : HasPrefix line "#" = true -> HasPrefix (TrimSpace line) "#" = true /\ TrimSpace line <> "".
Proof.
  intros HP. assert (HT : HasPrefix (TrimSpace line) "#" = true) by (by apply (HasPrefix_TrimSpace _ _ "#"%char "" "#"%char "")).
  split; [done|]. intros E. by rewrite E in HT.
Qed.

Lemma address_line u : address u -> u <> "" -> plain_line u = true /\ line_reference u = Some u.
Proof.
  intros Hu Hne. unfold plain_line, line_reference. rewrite (address_solid u Hu), bool_decide_eq_false_2 by done.
  destruct (HasPrefix u "#") eqn:E; [|done]. apply HasPrefix_true in E as [r ->]. apply Forall_cons in Hu as [Hu _].
  by vm_compute in Hu.
Qed.

(** A tag that is given another address. *)
Lemma put_tag line r u : HasPrefix line "#" = true -> playlistURI line = Some r -> address u ->
  let line' := put_reference line u in
  HasPrefix line' "#" = true /\ line_reference line' = Some u /\ ((newline ∉ chars line) -> newline ∉ chars line').
Proof.
  intros HH HU Hu line'. destruct (tag_trim line HH) as [HT _]. unfold playlistURI in HU.
  destruct (uri_parts line) as [[[b r'] a]|] eqn:E; [|done]. injection HU as ->.
  assert (HE : line' = b +:+ marker +:+ u +:+ dquote +:+ a) by (unfold line', put_reference, replacePlaylistURI; by rewrite HT, E).
  clearbody line'. subst line'. unfold uri_parts in E. destruct (Cut line marker) as [[x y]|] eqn:EC; [|done].
  destruct (Cut y dquote) as [[x' y']|] eqn:EQ; [|done]. injection E as -> -> ->.
  apply Cut_sound in EQ. subst y. pose proof (Cut_sound _ _ _ _ EC) as EL. subst line.
  set (line' := b +:+ marker +:+ u +:+ dquote +:+ a).
  assert (HH' : HasPrefix line' "#" = true).
  { apply HasPrefix_true in HH as [s HH]. destruct b as [|c b]; [discriminate HH|]. rewrite !append_String in HH.
    injection HH as -> _. apply HasPrefix_true. unfold line'. eexists. by rewrite append_String. }
  split; [done|]. split.
  - unfold line_reference. destruct (tag_trim line' HH') as [-> Hne]. rewrite bool_decide_eq_false_2 by done.
    unfold playlistURI, uri_parts, line'. rewrite (Cut_shift b marker (r +:+ dquote +:+ a)) by done.
    change dquote with (String (chr 34) ""). by rewrite (Cut_first (chr 34) "" u a) by by apply address_no.
  - unfold line'. rewrite !chars_append, !elem_of_app. intros Hn Hin. assert (newline ∉ chars u) by by apply address_no. tauto.
Qed.

(** ** The playlist of a variant *)

Section shown.
Context `{Url.Authority}.

(** A line that is rewritten: its reference, when it has one, names an asset. *)
Definition neat (line : string) : Prop :=
  (newline ∉ chars line) /\
  match line_reference line with
  | Some r => (exists c e, playlistReferenceCID r = Some (c, e) /\ address e) /\
      (HasPrefix (TrimSpace line) "#" = true -> HasPrefix line "#" = true)
  | None => Contains (TrimSpace line) marker = false
  end.

Lemma neat_rewrites lines pi auth i : Forall neat lines -> is_Some (rewriteVariant_from lines pi auth i).
Proof.
  intros HF. revert i. induction HF as [|line lines [_ Hl] _ IH]; intros i; [by eexists|]. cbn [rewriteVariant_from].
  unfold line_reference in Hl. destruct (bool_decide (TrimSpace line = "")); [apply fmap_is_Some, IH|].
  destruct (HasPrefix (TrimSpace line) "#").
  - destruct (playlistURI line) as [r|] eqn:HU; [|rewrite Hl; apply fmap_is_Some, IH].
    assert (HM : Contains (TrimSpace line) marker = true).
    { apply uri_parts_contains. unfold playlistURI in HU. by destruct (uri_parts line). }
    rewrite HM. destruct Hl as [(c & e & -> & _) _].
    destruct (replace_some line r (segment_url pi i e auth) HU) as [l' ->]. apply fmap_is_Some, IH.
  - destruct Hl as [(c & e & -> & _) _]. apply fmap_is_Some, IH.
Qed.

Lemma place_reads lines urls : Forall neat lines -> Forall (fun u => address u /\ u <> "") urls ->
  length urls = length (omap line_reference lines) ->
  omap line_reference (place lines urls) = urls /\ Forall (fun l => newline ∉ chars l) (place lines urls) /\
  length (place lines urls) = length lines.
Proof.
  intros HF. revert urls. induction HF as [|line lines [Hn Hl] _ IH]; intros urls HU HL.
  { destruct urls; [|done]. by repeat constructor. }
  cbn [place]. cbn [omap list_omap] in HL. destruct (line_reference line) as [r|] eqn:HR.
  - destruct urls as [|u urls]; [done|]. apply Forall_cons in HU as [[Hu Hne] HU]. injection HL as HL.
    destruct (IH urls HU HL) as (I1 & I2 & I3). destruct Hl as [_ Htag].
    assert (HP : line_reference (put_reference line u) = Some u /\ newline ∉ chars (put_reference line u)).
    { unfold put_reference. destruct (HasPrefix (TrimSpace line) "#") eqn:HH.
      - unfold line_reference in HR. rewrite HH in HR. destruct (bool_decide _); [done|].
        destruct (put_tag line r u (Htag eq_refl) HR Hu) as (_ & P1 & P2). unfold put_reference in *. rewrite HH in *. auto.
      - split; [by apply address_line|by apply address_no]. }
    destruct HP as [P1 P2]. split_and!; [|by constructor|by cbn; rewrite I3]. cbn [omap list_omap]. by rewrite P1, I1.
  - destruct (IH urls HU HL) as (I1 & I2 & I3). split_and!; [|by constructor|by cbn; rewrite I3].
    cbn [omap list_omap]. by rewrite HR, I1.
Qed.

(** What the playlist of a variant shows: the numbered address of each of its assets. *)
Lemma variant_shown content pi auth : Forall neat (lines_of content) -> 0 <= pi -> address auth ->
  exists body, rewriteLinkedVariantPlaylist content pi auth = Some body /\
    forall w c e, 0 <= w -> linkedVariantAssetCID content w = Some (c, e) ->
      references body !! Z.to_nat w = Some (segment_url pi w e auth).
Proof.
  intros HF Hpi Ha. destruct (neat_rewrites (lines_of content) pi auth 0 HF) as [l Hl].
  unfold rewriteLinkedVariantPlaylist. rewrite Hl. exists (unlines l). split; [done|].
  apply rewriteVariant_from_spec in Hl as (pairs & HR & ->).
  assert (HE : Forall (fun p => address p.2) pairs).
  { clear -HF HR. revert pairs HR. induction HF as [|line lines [_ Hl] _ IH]; intros pairs HR; cbn in HR; [by inversion HR|].
    destruct (line_reference line) as [r|]; [|by apply IH]. inversion HR as [|? p ? pairs' Hp HR']; subst.
    destruct Hl as [(c & e & Hr & He) _]. assert (p = (c, e)) as -> by congruence. constructor; [done|by apply IH]. }
  set (urls := segment_urls pi auth 0 pairs).
  assert (HU : Forall (fun u => address u /\ u <> "") urls).
  { apply Forall_lookup. intros k u Hk. unfold urls, segment_urls in Hk.
    apply list_lookup_imap_Some in Hk as (p & Hp & ->). rewrite Forall_lookup in HE. specialize (HE k p Hp). split; [|done].
    unfold segment_url. repeat (apply address_append); try (by apply address_const); try (apply Itoa_address; lia); done. }
  destruct (place_reads (lines_of content) urls HF HU) as (P1 & P2 & P3).
  { unfold urls, segment_urls. rewrite length_imap. symmetry. by eapply Forall2_length. }
  intros w c e Hw HL. unfold references, lines_of at 1, unlines. rewrite Split_Join; [|..|done].
  2:{ intros E. rewrite E in P3. symmetry in P3. apply length_zero_iff_nil in P3. by apply (Split_ne content newline). }
  rewrite P1. unfold linkedVariantAssetCID in HL. rewrite (assetCID_from_lookup _ pairs) in HL by done.
  rewrite (proj2 (Z.leb_le 0 w)), Z.sub_0_r in HL by done. unfold urls, segment_urls.
  rewrite list_lookup_imap, HL. cbn. by rewrite Z2Nat.id.
Qed.

(** ** The master *)

(** A line of a master that is rewritten: a playlist's reference, a poster's tag, or
    nothing to rewrite. *)
Definition neat_master (line : string) : Prop :=
  (newline ∉ chars line) /\
  (plain_line line = true -> exists c, playlistReferenceCID (TrimSpace line) = Some (c, ".m3u8")) /\
  (HasPrefix (TrimSpace line) "#" = true -> Contains (TrimSpace line) marker = true ->
     HasPrefix line "#" = true /\ is_Some (playlistURI line)).

Lemma neat_master_rewrites lines auth i : Forall neat_master lines -> is_Some (rewriteMaster_from lines auth i).
Proof.
  intros HF. revert i. induction HF as [|line lines (_ & Hp & Ht) _ IH]; intros i; [by eexists|]. cbn [rewriteMaster_from].
  unfold plain_line in Hp. destruct (bool_decide (TrimSpace line = "")); [apply fmap_is_Some, IH|].
  destruct (HasPrefix (TrimSpace line) "#").
  - destruct (Contains (TrimSpace line) marker); [|apply fmap_is_Some, IH]. destruct (Ht eq_refl eq_refl) as [_ [u Hu]].
    destruct (replace_some line u ("poster.jpg" +:+ auth) Hu) as [l' ->]. apply fmap_is_Some, IH.
  - destruct (Hp eq_refl) as [c ->]. rewrite bool_decide_eq_true_2 by done. apply fmap_is_Some, IH.
Qed.

Lemma tag_not_plain line : HasPrefix line "#" = true -> plain_line line = false.
Proof. intros HH. unfold plain_line. by rewrite (proj1 (tag_trim line HH)), andb_false_r. Qed.

Lemma playlist_url_line i auth : 0 <= i -> address auth ->
  plain_line (playlist_url i auth) = true /\ newline ∉ chars (playlist_url i auth).
Proof.
  intros Hi Ha. assert (HU : address (playlist_url i auth)).
  { unfold playlist_url. repeat (apply address_append); try (by apply address_const); [by apply Itoa_address|done]. }
  split; [by apply address_line|by apply address_no].
Qed.

Lemma place_master_reads lines auth i : Forall neat_master lines -> 0 <= i -> address auth ->
  filter (fun l => plain_line l = true) (place_master lines auth i) =
    imap (fun k _ => playlist_url (i + Z.of_nat k) auth) (filter (fun l => plain_line l = true) lines) /\
  Forall (fun l => newline ∉ chars l) (place_master lines auth i) /\
  length (place_master lines auth i) = length lines.
Proof.
  intros HF Hi Ha. revert i Hi. induction HF as [|line lines (Hn & _ & Ht) _ IH]; intros i Hi; [by repeat constructor|].
  cbn [place_master]. destruct (plain_line line) eqn:HP.
  - rewrite (filter_cons_True _ line) by done. destruct (IH (i + 1) ltac:(lia)) as (I1 & I2 & I3).
    destruct (playlist_url_line i auth Hi Ha) as [U1 U2]. fold (playlist_url i auth).
    split_and!; [|by constructor|by cbn; rewrite I3].
    rewrite filter_cons_True, I1, imap_cons by done. f_equal; [by rewrite Z.add_0_r|].
    apply imap_ext. intros k x _. cbn. f_equal. lia.
  - rewrite (filter_cons_False _ line) by congruence. destruct (IH i Hi) as (I1 & I2 & I3).
    assert (HK : forall line', plain_line line' = false -> (newline ∉ chars line') ->
      filter (fun l => plain_line l = true) (line' :: place_master lines auth i) =
        imap (fun k _ => playlist_url (i + Z.of_nat k) auth) (filter (fun l => plain_line l = true) lines) /\
      Forall (fun l => newline ∉ chars l) (line' :: place_master lines auth i) /\
      length (line' :: place_master lines auth i) = length (line :: lines)).
    { intros line' H1 H2. rewrite filter_cons_False by congruence. split_and!; [done|by constructor|by cbn; rewrite I3]. }
    destruct (line_reference line) as [r|] eqn:HR; [|by apply HK].
    unfold plain_line in HP. unfold line_reference in HR.
    destruct (bool_decide (TrimSpace line = "")); [done|]. destruct (HasPrefix (TrimSpace line) "#") eqn:HH; [|done].
    assert (HM : Contains (TrimSpace line) marker = true).
    { apply uri_parts_contains. unfold playlistURI in HR. by destruct (uri_parts line). }
    destruct (Ht eq_refl HM) as [HL _]. destruct (put_tag line r ("poster.jpg" +:+ auth) HL HR) as (P1 & _ & P2).
    { apply address_append; [by apply address_const|done]. }
    apply HK; [by apply tag_not_plain|by apply P2].
Qed.

(** What a master shows: the numbered address of each of its playlists. *)
Lemma master_shown content auth : Forall neat_master (lines_of content) -> address auth ->
  exists body, rewriteLinkedMasterPlaylist content auth = Some body /\
    forall w c, 0 <= w -> linkedMasterPlaylistCID content w = Some c ->
      variants body !! Z.to_nat w = Some (playlist_url w auth).
Proof.
  intros HF Ha. destruct (neat_master_rewrites (lines_of content) auth 0 HF) as [l Hl].
  unfold rewriteLinkedMasterPlaylist. rewrite Hl. exists (unlines l). split; [done|].
  apply rewriteMaster_from_spec in Hl as (-> & cids & HR & Hw); [|done].
  destruct (place_master_reads (lines_of content) auth 0 HF (Z.le_refl 0) Ha) as (P1 & P2 & P3).
  intros w c H0 HL. unfold variants, lines_of at 1, unlines. rewrite Split_Join; [|..|done].
  2:{ intros E. rewrite E in P3. symmetry in P3. apply length_zero_iff_nil in P3. by apply (Split_ne content newline). }
  rewrite P1, list_lookup_imap. unfold linkedMasterPlaylistCID in HL. rewrite Hw in HL.
  rewrite (proj2 (Z.leb_le 0 w)), Z.sub_0_r in HL by done.
  destruct (Forall2_lookup_r _ _ _ _ _ HR HL) as (line & -> & _). cbn. by rewrite Z2Nat.id.
Qed.

End shown.
End Player.
