(* ===== verification/UnpinStore.v ===== *)
(** [internal/store/store.go], [internal/unpin/worker.go] and
    [internal/store/variant_overrides.go]: the soft-delete list with its groups
    and its file, the collector that empties it, and the map of replaced
    variants.  A file is modelled by the JSON value it holds, and each write by
    its outcome. *)

From S2P Require Export Prelude.

Local Open Scope Z_scope.

Module UnpinStore.

(** Times are nanoseconds since the epoch. *)
Record Entry := mkEntry { CID : string; UnpinnedAt : Z }.

(** What the store's file may hold: the current object (its [groups] may be
    null), the array of the older versions, something else, or no file. *)
Inductive file :=
| FNew (Entries : list Entry) (Groups : option (gmap string (list string)))
| FOld (oldEntries : list Entry)
| FBad
| FMissing.

Record UnpinStore := mkStore {
  entries : gmap string Z;
  groups : gmap string (list string);
  disk : file
}.

(** [os.WriteFile] truncates before it writes. *)
Inductive write_outcome := Written | NotOpened | Torn.

(** ** [Load], [saveUnsafe] *)

Definition load_entries (l : list Entry) : gmap string Z :=
  foldl (fun m e => <[CID e := UnpinnedAt e]> m) ∅ l.

Inductive loadErr := NotExist | BadJSON.

Definition Load (s : UnpinStore) : result loadErr UnpinStore :=
  match disk s with
  | FMissing => Err NotExist
  | FBad => Err BadJSON
  | FOld l => Ok {| entries := load_entries l; groups := ∅; disk := disk s |}
  | FNew l g => Ok {| entries := load_entries l; groups := default ∅ g; disk := disk s |}
  end.

Definition NewUnpinStore (d : file) : result string UnpinStore :=
  let s := {| entries := ∅; groups := ∅; disk := d |} in
  match Load s with
  | Ok s' => Ok s'
  | Err NotExist => Ok s
  | Err BadJSON => Err "failed to load unpin store"
  end.

(** The entries are listed in the order of the map's iteration. *)
Definition saved (s : UnpinStore) : file :=
  FNew ((fun p => mkEntry p.1 p.2) <$> map_to_list (entries s)) (Some (groups s)).

Definition saveUnsafe (w : write_outcome) (s : UnpinStore) : UnpinStore * option string :=
  match w with
  | Written => ({| entries := entries s; groups := groups s; disk := saved s |}, None)
  | NotOpened => (s, Some "open")
  | Torn => ({| entries := entries s; groups := groups s; disk := FBad |}, Some "write")
  end.

(** ** Operations

    [now] is [time.Now().UTC()]; the mutators drop [saveUnsafe]'s error. *)
Definition Save (w : write_outcome) (s : UnpinStore) : UnpinStore * option string := saveUnsafe w s.

Definition put (e : gmap string Z) (g : gmap string (list string)) (w : write_outcome)
  (s : UnpinStore) : UnpinStore :=
  (saveUnsafe w {| entries := e; groups := g; disk := disk s |}).1.

Definition Add (cid : string) (now : Z) (w : write_outcome) (s : UnpinStore) : UnpinStore :=
  put (<[cid := now]> (entries s)) (groups s) w s.

Definition mark_all (cids : list string) (now : Z) (m : gmap string Z) : gmap string Z :=
  foldl (fun m cid => <[cid := now]> m) m cids.

Definition AddGroup (masterCID : string) (allCIDs : list string) (now : Z) (w : write_outcome)
  (s : UnpinStore) : UnpinStore :=
  put (mark_all allCIDs now (entries s)) (<[masterCID := allCIDs]> (groups s)) w s.

Definition TrackGroup (masterCID : string) (allCIDs : list string) (w : write_outcome)
  (s : UnpinStore) : UnpinStore :=
  put (entries s) (<[masterCID := allCIDs]> (groups s)) w s.

Definition GetGroup (masterCID : string) (s : UnpinStore) : list string :=
  default [] (groups s !! masterCID).

Definition Has (cid : string) (s : UnpinStore) : bool := bool_decide (is_Some (entries s !! cid)).

Definition Remove (cid : string) (w : write_outcome) (s : UnpinStore) : UnpinStore :=
  put (delete cid (entries s)) (delete cid (groups s)) w s.

Definition delete_all (cids : list string) (m : gmap string Z) : gmap string Z :=
  foldl (fun m cid => delete cid m) m cids.

Definition RemoveGroup (masterCID : string) (w : write_outcome) (s : UnpinStore) : UnpinStore :=
  put (match groups s !! masterCID with
       | Some cids => delete_all cids (entries s)
       | None => entries s
       end) (delete masterCID (groups s)) w s.

Definition Expired (cutoff : Z) (s : UnpinStore) : list string :=
  (map_to_list (filter (fun p : string * Z => p.2 < cutoff) (entries s))).*1.

Definition All (s : UnpinStore) : gmap string Z := entries s.

(** ** The collector

    [unpin] is the outcome of [ClusterUnpinAll], [w] that of each save; the result
    lists the identifiers the cluster was told to unpin.  [l] is the expired list
    in the order the map was iterated. *)
Fixpoint gc_loop (l : list string) (unpin : string -> bool) (w : string -> write_outcome)
  (s : UnpinStore) : UnpinStore * list string :=
  match l with
  | [] => (s, [])
  | cid :: l' =>
      let s1 := if unpin cid then Remove cid (w cid) s else s in
      let (s2, asked) := gc_loop l' unpin w s1 in
      (s2, cid :: asked)
  end.

Definition gc (now ttl : Z) (unpin : string -> bool) (w : string -> write_outcome)
  (s : UnpinStore) : UnpinStore * list string :=
  let expired := Expired (now - ttl) s in
  if (length expired =? 0)%nat then (s, []) else gc_loop expired unpin w s.

(** * Lemmas *)

Lemma put_entries e g w s : entries (put e g w s) = e.
Proof. by destruct w. Qed.
Lemma put_groups e g w s : groups (put e g w s) = g.
Proof. by destruct w. Qed.
#[export] Hint Rewrite put_entries put_groups : storage.

Lemma mark_all_lookup cids now m k :
  mark_all cids now m !! k = if decide (k ∈ cids) then Some now else m !! k.
Proof.
  revert m. induction cids as [|c cids IH]; intros m; unfold mark_all in *; cbn [foldl].
  - by rewrite decide_False by apply not_elem_of_nil.
  - rewrite IH. destruct (decide (k ∈ cids)) as [Hin|Hin].
    + by rewrite decide_True by (by apply list_elem_of_further).
    + destruct (decide (c = k)) as [->|Hne].
      * rewrite lookup_insert_eq. by rewrite decide_True by apply list_elem_of_here.
      * rewrite lookup_insert_ne by done. rewrite decide_False; [done|].
        by intros [->|?]%elem_of_cons.
Qed.

Lemma delete_all_lookup cids m k :
  delete_all cids m !! k = if decide (k ∈ cids) then None else m !! k.
Proof.
  revert m. induction cids as [|c cids IH]; intros m; unfold delete_all in *; cbn [foldl].
  - by rewrite decide_False by apply not_elem_of_nil.
  - rewrite IH. destruct (decide (k ∈ cids)) as [Hin|Hin].
    + by rewrite decide_True by (by apply list_elem_of_further).
    + destruct (decide (c = k)) as [->|Hne].
      * rewrite lookup_delete_eq. by rewrite decide_True by apply list_elem_of_here.
      * rewrite lookup_delete_ne by done. rewrite decide_False; [done|].
        by intros [->|?]%elem_of_cons.
Qed.

Lemma load_entries_perm l : NoDup (CID <$> l) ->
  load_entries l = (list_to_map ((fun e => (CID e, UnpinnedAt e)) <$> l) : gmap string Z).
Proof.
  intros HN. unfold load_entries.
  assert (H : forall m, foldl (fun m e => <[CID e := UnpinnedAt e]> m) m l =
    (list_to_map ((fun e => (CID e, UnpinnedAt e)) <$> l) : gmap string Z) ∪ m).
  { induction l as [|e l IH]; intros m; [symmetry; apply (left_id_L ∅ (∪))|].
    rewrite fmap_cons in HN. apply NoDup_cons in HN as [Hn HN]. simpl. rewrite IH by done.
    rewrite <- insert_union_r; [by rewrite insert_union_l|].
    apply not_elem_of_list_to_map. rewrite <- list_fmap_compose. exact Hn. }
  rewrite H. apply (right_id_L ∅ (∪)).
Qed.

Lemma load_saved s : load_entries ((fun p => mkEntry p.1 p.2) <$> map_to_list (entries s)) = entries s.
Proof.
  rewrite load_entries_perm.
  - rewrite <- list_fmap_compose. rewrite <- (list_to_map_to_list (entries s)) at 2. f_equal.
    rewrite <- (list_fmap_id (map_to_list (entries s))) at 2. apply list_fmap_ext.
    by intros ? [].
  - rewrite <- list_fmap_compose. apply NoDup_fst_map_to_list.
Qed.

Lemma Expired_elem cutoff s cid :
  cid ∈ Expired cutoff s <-> exists t, entries s !! cid = Some t /\ t < cutoff.
Proof.
  unfold Expired. rewrite list_elem_of_fmap. split.
  - intros ([k t] & -> & [Hk Ht]%elem_of_map_to_list%map_lookup_filter_Some). eauto.
  - intros (t & Hk & Ht). exists (cid, t). split; [done|].
    apply elem_of_map_to_list, map_lookup_filter_Some. done.
Qed.

Lemma gc_loop_asked l unpin w s : (gc_loop l unpin w s).2 = l.
Proof.
  revert s. induction l as [|c l IH]; intros s; [done|]. simpl.
  specialize (IH (if unpin c then Remove c (w c) s else s)).
  destruct (gc_loop l _ _ _). simpl in *. by subst.
Qed.

Lemma gc_loop_lookup l unpin w s k :
  entries (gc_loop l unpin w s).1 !! k =
    (if decide (k ∈ l /\ unpin k = true) then None else entries s !! k) /\
  groups (gc_loop l unpin w s).1 !! k =
    (if decide (k ∈ l /\ unpin k = true) then None else groups s !! k).
Proof.
  revert s. induction l as [|c l IH]; intros s; cbn [gc_loop].
  - rewrite !decide_False; [done| |]; by intros [?%not_elem_of_nil _].
  - specialize (IH (if unpin c then Remove c (w c) s else s)).
    destruct (gc_loop l _ _ _) as [s2 asked]. cbn [fst snd] in *. destruct IH as [-> ->].
    destruct (decide (k ∈ l /\ unpin k = true)) as [[Hin Hu]|Hno].
    + by rewrite !decide_True by (split; [by apply list_elem_of_further|done]).
    + destruct (decide (k = c)) as [->|Hne].
      * destruct (unpin c) eqn:Hu.
        -- rewrite !decide_True by (split; [apply list_elem_of_here|done]).
           unfold Remove. autorewrite with storage. by rewrite !lookup_delete_eq.
        -- rewrite !decide_False; [done| |]; by intros [_ ?].
      * rewrite !decide_False; [|rewrite elem_of_cons; tauto..].
        destruct (unpin c); [|done]. unfold Remove. autorewrite with storage.
        by rewrite !lookup_delete_ne by done.
Qed.

(** ** Properties *)

(** The mutators, as one vocabulary. *)
Inductive op :=
| OAdd (cid : string) (now : Z)
| OAddGroup (masterCID : string) (allCIDs : list string) (now : Z)
| OTrackGroup (masterCID : string) (allCIDs : list string)
| ORemove (cid : string)
| ORemoveGroup (masterCID : string).

Definition apply (o : op) (w : write_outcome) (s : UnpinStore) : UnpinStore :=
  match o with
  | OAdd c now => Add c now w s
  | OAddGroup m cs now => AddGroup m cs now w s
  | OTrackGroup m cs => TrackGroup m cs w s
  | ORemove c => Remove c w s
  | ORemoveGroup m => RemoveGroup m w s
  end.

Lemma apply_saved o s : disk (apply o Written s) = saved (apply o Written s).
Proof. by destruct o. Qed.

(** Restarting loses nothing that was written: after any mutation whose save
    succeeded, a store opened on the file has exactly the marks, times and groups
    of the store in memory; and a store opened on the older array format has the
    listed marks and no groups. *)
Theorem store_survives_restart o s :
  (exists s', NewUnpinStore (disk (apply o Written s)) = Ok s' /\
    entries s' = entries (apply o Written s) /\ groups s' = groups (apply o Written s)) /\
  (forall cid now rest, exists s',
    NewUnpinStore (FOld (rest ++ [mkEntry cid now])) = Ok s' /\
    entries s' !! cid = Some now /\ groups s' = ∅).
Proof.
  split.
  - rewrite apply_saved. unfold NewUnpinStore, Load. simpl. eexists. split; [done|].
    simpl. by rewrite load_saved.
  - intros cid now rest. eexists. split; [done|]. split; [|done]. simpl.
    unfold load_entries. rewrite foldl_app. simpl. by rewrite lookup_insert_eq.
Qed.

(** Deleting a group hides all of it and restoring undoes it: after
    [AddGroup] every listed file is marked with the same time and the list can be
    read back; nothing else changes; and [RemoveGroup] then unmarks exactly those
    files and forgets the group. *)
Theorem group_delete_restore master cids now w w' s :
  let s1 := AddGroup master cids now w s in
  let s2 := RemoveGroup master w' s1 in
  GetGroup master s1 = cids /\
  (forall k, Has k s1 = true <-> k ∈ cids \/ Has k s = true) /\
  (forall k, k ∈ cids -> entries s1 !! k = Some now) /\
  (forall k, k ∉ cids -> entries s1 !! k = entries s !! k) /\
  (forall k, Has k s2 = true <-> (k ∉ cids) /\ Has k s = true) /\
  GetGroup master s2 = [] /\
  (forall m, m <> master -> GetGroup m s2 = GetGroup m s).
Proof.
  intros s1 s2.
  assert (H1 : forall k, entries s1 !! k = if decide (k ∈ cids) then Some now else entries s !! k).
  { intros k. unfold s1, AddGroup. autorewrite with storage. apply mark_all_lookup. }
  assert (H2 : forall k, entries s2 !! k = if decide (k ∈ cids) then None else entries s !! k).
  { intros k. unfold s2, RemoveGroup. autorewrite with storage.
    unfold s1 at 1, AddGroup. autorewrite with storage. rewrite lookup_insert_eq.
    rewrite delete_all_lookup, H1. by case_decide. }
  assert (HG : groups s1 = <[master := cids]> (groups s))
    by (unfold s1, AddGroup; by autorewrite with storage).
  unfold Has, GetGroup. split_and!.
  - by rewrite HG, lookup_insert_eq.
  - intros k. rewrite !bool_decide_eq_true, H1. case_decide; [|naive_solver].
    split; [by left|by eexists].
  - intros k Hk. by rewrite H1, decide_True.
  - intros k Hk. by rewrite H1, decide_False.
  - intros k. rewrite !bool_decide_eq_true, H2. case_decide; [|naive_solver].
    split; [by intros [? ?]|naive_solver].
  - unfold s2, RemoveGroup. autorewrite with storage. by rewrite lookup_delete_eq.
  - intros m Hm. unfold s2, RemoveGroup. autorewrite with storage.
    by rewrite lookup_delete_ne, HG, lookup_insert_ne by done.
Qed.

(** The collector is exact: it asks the cluster to unpin precisely the files
    whose mark is older than the retention time, each once; a file leaves the
    list only if it had expired and its unpinning succeeded, so a failed one is
    kept, with its time, for the next round. *)
Theorem gc_exact now ttl unpin w s :
  let '(s', asked) := gc now ttl unpin w s in
  NoDup asked /\
  (forall k, k ∈ asked <-> (exists t, entries s !! k = Some t /\ t < now - ttl)) /\
  (forall k, entries s' !! k =
     if decide (k ∈ asked /\ unpin k = true) then None else entries s !! k) /\
  (forall k, groups s' !! k =
     if decide (k ∈ asked /\ unpin k = true) then None else groups s !! k).
Proof.
  unfold gc. destruct (_ =? 0)%nat eqn:E.
  - apply Nat.eqb_eq, length_zero_iff_nil in E.
    split_and!; [constructor| | |].
    + intros k. by rewrite <- E, Expired_elem.
    + intros k. rewrite decide_False; [done|]. by intros [?%not_elem_of_nil _].
    + intros k. rewrite decide_False; [done|]. by intros [?%not_elem_of_nil _].
  - pose proof (gc_loop_asked (Expired (now - ttl) s) unpin w s) as Ha.
    pose proof (fun k => gc_loop_lookup (Expired (now - ttl) s) unpin w s k) as Hl.
    destruct (gc_loop _ _ _ _) as [s' asked]. simpl in *. subst asked. split_and!.
    + unfold Expired. apply NoDup_fst_map_to_list.
    + intros k. apply Expired_elem.
    + intros k. apply Hl.
    + intros k. apply Hl.
Qed.

End UnpinStore.

Module VariantOverrides.

Definition VariantOverrideKey (cid variant : string) : string :=
  if bool_decide (variant = "") then cid else cid +:+ "/" +:+ variant.

(** The file: none, empty, not JSON, or a JSON object or null. *)
Inductive file :=
| FMissing
| FUnreadable
| FEmpty
| FBad
| FJson (m : option (gmap string string)).

(** [entries] is [None] for the nil map a JSON null decodes to. *)
Record VariantOverrides := mkOverrides { entries : option (gmap string string); disk : file }.

Definition NewVariantOverrides (d : file) : result string VariantOverrides :=
  match d with
  | FMissing | FEmpty => Ok {| entries := Some ∅; disk := d |}
  | FUnreadable => Err "read variant overrides"
  | FBad => Err "decode variant overrides"
  | FJson m => Ok {| entries := m; disk := d |}
  end.

(** The receiver may be nil. *)
Definition Get (s : option VariantOverrides) (key : string) : string * bool :=
  match s with
  | None => ("", false)
  | Some s =>
      match entries s ≫= (fun m => m !! key) with
      | Some cid => (cid, negb (bool_decide (cid = "")))
      | None => ("", false)
      end
  end.

(** The first call of [Set] that fails, if any. *)
Inductive set_outcome := SetOk | CreateTempFails | WriteFails | CloseFails | RenameFails.

Inductive setErr := NotConfigured | IOError | NilMapPanic.

Definition Set_ (s : option VariantOverrides) (key cid : string) (o : set_outcome)
  : option VariantOverrides * option setErr :=
  match s with
  | None => (None, Some NotConfigured)
  | Some s =>
      match entries s with
      | None => (Some s, Some NilMapPanic)
      | Some m =>
          let m' := <[key := cid]> m in
          match o with
          | SetOk => (Some {| entries := Some m'; disk := FJson (Some m') |}, None)
          | _ => (Some {| entries := Some m'; disk := disk s |}, Some IOError)
          end
      end
  end.

(** A replacement is never half recorded: whichever call of [Set] fails, the
    file afterwards is either untouched or the complete new map; on success a
    restart reads back the same map, in which the key has the new file and every
    other key keeps its own. *)
Theorem override_atomic m d key cid o s' e :
  cid <> "" ->
  Set_ (Some {| entries := Some m; disk := d |}) key cid o = (Some s', e) ->
  (disk s' = d \/ disk s' = FJson (Some (<[key := cid]> m))) /\
  Get (Some s') key = (cid, true) /\
  (forall k, k <> key -> Get (Some s') k = Get (Some {| entries := Some m; disk := d |}) k) /\
  (e = None -> exists s2, NewVariantOverrides (disk s') = Ok s2 /\ entries s2 = entries s').
Proof.
  intros Hc HS.
  assert (HE : entries s' = Some (<[key := cid]> m)) by (destruct o; simpl in HS; by simplify_eq).
  split_and!.
  - destruct o; simpl in HS; simplify_eq; auto.
  - simpl. rewrite HE. simpl. rewrite lookup_insert_eq. by rewrite bool_decide_eq_false_2.
  - intros k Hk. simpl. rewrite HE. simpl. by rewrite lookup_insert_ne by done.
  - intros ->. destruct o; simpl in HS; simplify_eq. simpl. eauto.
Qed.

Lemma override_atomic_witness :
  let s' := mkOverrides (Some {[ "Qm/blur" := "new"; "a" := "b" ]}) FEmpty in
  Set_ (Some (mkOverrides (Some {[ "a" := "b" ]}) FEmpty)) (VariantOverrideKey "Qm" "blur") "new"
    RenameFails = (Some s', Some IOError) /\ Get (Some s') "Qm/blur" = ("new", true).
Proof.
  split; [reflexivity|].
  eapply (override_atomic {[ "a" := "b" ]} FEmpty "Qm/blur" "new" RenameFails _ (Some IOError)).
  - discriminate.
  - reflexivity.
Defined.

End VariantOverrides.
