(* ===== verification/Worker.v ===== *)
(** [internal/unpin/worker.go]: the collector as goroutines beside the handlers.
    [UnpinStore.gc] is one round undisturbed; here a round is what it is when
    handlers work meanwhile: the list of expired identifiers is taken once, and each
    is then unpinned and removed in steps of their own, between which anything may
    happen to the soft-delete list.  A deletion leaves a goroutine of its own behind,
    which asks the cluster at once ([HandleDelete] of [internal/handler/handler.go]). *)

From S2P Require Export UnpinStore.

Local Open Scope Z_scope.

Module Worker.
Import UnpinStore.

(** Where a goroutine running [loop] is: waiting in [select], about to ask the
    cluster for the first of a list, or about to remove what was unpinned. *)
Inductive loop :=
| Waiting
| Asking (cid : string) (rest : list string)
| Removing (cid : string) (rest : list string).

(** [ttl] and [interval] are nanoseconds; [stopped] is whether [stopChan] is closed. *)
Record Worker := mkWorker {
  ttl : Z; interval : Z;
  stopped : bool; running : bool;
  loops : gmap nat loop
}.

Record State := mkState { store : UnpinStore; worker : Worker }.

Definition NewWorker (ttl interval : Z) : Worker := mkWorker ttl interval false false ∅.

Definition set_loops (l : gmap nat loop) (w : Worker) : Worker :=
  mkWorker (ttl w) (interval w) (stopped w) (running w) l.

(** [go w.loop()] under the number [id].  A ticker whose interval is not positive panics
    in the goroutine, and the process with it. *)
Definition Start (id : nat) (w : Worker) : option Worker :=
  if running w then Some w
  else if interval w <=? 0 then None
  else Some (mkWorker (ttl w) (interval w) (stopped w) true (<[id := Waiting]> (loops w))).

(** Closing a closed channel panics. *)
Definition Stop (w : Worker) : option Worker :=
  if negb (running w) then Some w
  else if stopped w then None
  else Some (mkWorker (ttl w) (interval w) true false (loops w)).

(** What is next after the identifiers before [l]. *)
Definition next (l : list string) : loop :=
  match l with [] => Waiting | cid :: rest => Asking cid rest end.

(** One atomic step: a handler's mutation, the start or the stop of the worker, a
    tick at [now] in goroutine [id], which reads the expired list, the cluster's answer
    for one identifier, its removal, and the end of a goroutine. *)
Inductive label :=
| Handler (o : op) (w : write_outcome)
| Started (id : nat)
| Stopped
| Tick (id : nat) (now : Z)
| Unpin (id : nat) (cid : string) (ok : bool)
| Removed (id : nat) (cid : string) (w : write_outcome)
| Left (id : nat).

(** [None] is a panic; a label that is not enabled has no case. *)
Inductive step : option State -> label -> option State -> Prop :=
| step_handler s w o wo : step (Some (mkState s w)) (Handler o wo) (Some (mkState (apply o wo s) w))
| step_start s w id : loops w !! id = None ->
    step (Some (mkState s w)) (Started id) (mkState s <$> Start id w)
| step_stop s w : step (Some (mkState s w)) Stopped (mkState s <$> Stop w)
| step_tick s w id now : loops w !! id = Some Waiting ->
    step (Some (mkState s w)) (Tick id now)
      (Some (mkState s (set_loops (<[id := next (Expired (now - ttl w) s)]> (loops w)) w)))
| step_unpin s w id cid rest ok : loops w !! id = Some (Asking cid rest) ->
    step (Some (mkState s w)) (Unpin id cid ok)
      (Some (mkState s (set_loops (<[id := if ok then Removing cid rest else next rest]> (loops w)) w)))
| step_remove s w id cid rest wo : loops w !! id = Some (Removing cid rest) ->
    step (Some (mkState s w)) (Removed id cid wo)
      (Some (mkState (Remove cid wo s) (set_loops (<[id := next rest]> (loops w)) w)))
| step_leave s w id : loops w !! id = Some Waiting -> stopped w = true ->
    step (Some (mkState s w)) (Left id) (Some (mkState s (set_loops (delete id (loops w)) w))).

(** ** Deletions

    [HandleDelete] marks a file or its group and starts a goroutine that unpins the
    same identifiers one after the other, whatever the cluster answers. *)






(** * Specification *)





(** * Lemmas *)













(** ** Properties *)





(** ** An undisturbed round *)

(** The steps of a round over the expired list [l], with the cluster's answers and the
    outcomes of the saves. *)
Definition round (id : nat) (unpin : string -> bool) (wo : string -> write_outcome) (l : list string)
  : list label :=
  concat ((fun cid => Unpin id cid (unpin cid) :: (if unpin cid then [Removed id cid (wo cid)] else [])) <$> l).

Lemma round_runs id unpin wo l s w : loops w !! id = Some (next l) ->
  steps step (Some (mkState s w)) (round id unpin wo l)
    (Some (mkState (gc_loop l unpin wo s).1 (set_loops (<[id := Waiting]> (loops w)) w))).
Proof.
  revert s w. induction l as [|cid l IH]; intros s w HL; cbn [round fmap list_fmap concat gc_loop next] in *.
  - rewrite insert_id by done. destruct w. apply steps_nil.
  - cbn [app]. eapply steps_cons; [by apply step_unpin|].
    set (w1 := set_loops (<[id := _]> (loops w)) w).
    assert (HG : forall s1 w2, loops w2 = <[id := next l]> (loops w) ->
      set_loops (<[id := Waiting]> (loops w2)) w2 = set_loops (<[id := Waiting]> (loops w)) w ->
      steps step (Some (mkState s1 w2)) (round id unpin wo l)
        (Some (mkState (gc_loop l unpin wo s1).1 (set_loops (<[id := Waiting]> (loops w)) w)))).
    { intros s1 w2 Hl Hw. rewrite <- Hw. apply IH. by rewrite Hl, lookup_insert_eq. }
    destruct (unpin cid) eqn:HU.
    + destruct (gc_loop l unpin wo _) as [s2 asked] eqn:HGl. cbn [fst].
      eapply steps_cons; [apply step_remove; cbn; by rewrite lookup_insert_eq|].
      assert (Hs2 : s2 = (gc_loop l unpin wo (Remove cid (wo cid) s)).1) by by rewrite HGl.
      rewrite Hs2. apply HG; cbn; by rewrite !insert_insert_eq.
    + destruct (gc_loop l unpin wo _) as [s2 asked] eqn:HGl. cbn [fst].
      assert (Hs2 : s2 = (gc_loop l unpin wo s).1) by by rewrite HGl.
      rewrite Hs2. apply HG; cbn; by rewrite ?insert_insert_eq.
Qed.

(** A round no handler disturbs is [UnpinStore.gc], and leaves the goroutine waiting
    for the next tick. *)
Theorem undisturbed_round id unpin wo now s w : loops w !! id = Some Waiting ->
  steps step (Some (mkState s w)) (Tick id now :: round id unpin wo (Expired (now - ttl w) s))
    (Some (mkState (gc now (ttl w) unpin wo s).1 w)).
Proof.
  intros HL. eapply steps_cons; [by apply step_tick|].
  assert (HG : (gc now (ttl w) unpin wo s).1 = (gc_loop (Expired (now - ttl w) s) unpin wo s).1).
  { unfold gc. destruct (_ =? 0)%nat eqn:E; [|done]. by apply Nat.eqb_eq, nil_length_inv in E as ->. }
  rewrite HG. set (l := Expired _ _).
  pose proof (round_runs id unpin wo l s (set_loops (<[id := next l]> (loops w)) w)) as HR.
  cbn [loops set_loops] in HR. rewrite lookup_insert_eq, insert_insert_eq in HR. specialize (HR eq_refl).
  rewrite (insert_id (loops w) id Waiting) in HR by done.
  replace (set_loops (loops w) _) with w in HR by (by destruct w). exact HR.
Qed.

(** ** One goroutine *)

(** Until [Stop] is first called there is at most one goroutine, however often
    [Start] is called, so rounds do not overlap. *)
Theorem rounds_do_not_overlap s0 retention every ls st :
  steps step (Some (mkState s0 (NewWorker retention every))) ls (Some st) -> Stopped ∉ ls ->
  forall i j, is_Some (loops (worker st) !! i) -> is_Some (loops (worker st) !! j) -> i = j.
Proof.
  intros Hrun Hns.
  set (P := fun (ls : list label) (st : option State) => Stopped ∉ ls -> match st with None => True | Some st =>
    stopped (worker st) = false /\ (running (worker st) = false -> loops (worker st) = ∅) /\
    forall i j, is_Some (loops (worker st) !! i) -> is_Some (loops (worker st) !! j) -> i = j end).
  enough (HP : P ls (Some st)) by by apply HP.
  revert Hns Hrun. intros _ Hrun. revert Hrun. generalize (Some st). revert ls. apply steps_ind_r.
  { intros _. split_and!; [done..|]. intros i j [? Hi]. cbn in Hi. by rewrite lookup_empty in Hi. }
  intros ls s1 l s2 _ IH Hs Hn. apply not_elem_of_app in Hn as [Hn Hl]. specialize (IH Hn).
  assert (HU : forall (m : gmap nat loop) id x, is_Some (m !! id) ->
    (forall i j, is_Some (m !! i) -> is_Some (m !! j) -> i = j) ->
    forall i j, is_Some (<[id := x]> m !! i) -> is_Some (<[id := x]> m !! j) -> i = j).
  { intros m id x Hid Hu i j. rewrite !lookup_insert_is_Some'. intros [->|Hi] [->|Hj]; auto. }
  destruct Hs as [s w o wo|s w id HL|s w|s w id now HL|s w id c rest ok HL
    |s w id c rest wo HL|s w id HL HSt]; cbn in *; try (destruct IH as (H1 & H2 & H3)).
  - done.
  - unfold Start. destruct (running w) eqn:HRu; [cbn; by rewrite HRu|]. destruct (interval w <=? 0); [done|].
    cbn. rewrite H2 by done.
    split_and!; [done..|]. intros i j. rewrite !lookup_insert_is_Some'.
    rewrite !lookup_empty. intros [->|[? ?]] [->|[? ?]]; done.
  - by apply not_elem_of_cons in Hl as [Hl _].
  - split_and!; [done| |apply HU; eauto]. intros HR. by rewrite H2, lookup_empty in HL.
  - split_and!; [done| |apply HU; eauto]. intros HR. by rewrite H2, lookup_empty in HL.
  - split_and!; [done| |apply HU; eauto]. intros HR. by rewrite H2, lookup_empty in HL.
  - congruence.
Qed.

(** ** What interleaving and restarting cost *)

(** A deletion repeated while the collector is between the cluster's answer and the
    removal loses its mark with the old one: the file is no longer hidden, however
    recent the new mark. *)
Theorem repeated_deletion_lost s w id cid rest now wo wo' : loops w !! id = Some (Removing cid rest) ->
  exists s' w', steps step (Some (mkState s w)) [Handler (OAdd cid now) wo; Removed id cid wo']
    (Some (mkState s' w')) /\ Has cid s' = false.
Proof.
  intros HL. do 2 eexists. split.
  - eapply steps_cons; [apply step_handler|]. eapply steps_cons; [by apply step_remove|]. apply steps_nil.
  - apply bool_decide_eq_false. unfold Remove. autorewrite with storage. rewrite lookup_delete_eq. by intros [].
Qed.

Lemma start_fresh s w id : loops w !! id = None -> running w = false -> 0 < interval w ->
  step (Some (mkState s w)) (Started id)
    (Some (mkState s (mkWorker (ttl w) (interval w) (stopped w) true (<[id := Waiting]> (loops w))))).
Proof.
  intros HL HR HI. pose proof (step_start s w id HL) as HG. unfold Start in HG. rewrite HR in HG.
  by rewrite (proj2 (Z.leb_gt _ _)) in HG.
Qed.

(** A worker started again after [Stop] keeps its closed channel: its goroutine may
    leave before any tick, and stopping it again panics. *)
Theorem restart_is_dead s retention every : 0 < every ->
  let start := Some (mkState s (NewWorker retention every)) in
  (exists w, steps step start [Started 0; Stopped; Left 0; Started 1; Left 1] (Some (mkState s w)) /\
     running w = true /\ loops w = ∅) /\
  steps step start [Started 0; Stopped; Started 1; Stopped] None.
Proof.
  intros Hi start.
  split.
  - exists (mkWorker retention every true true ∅). split_and!; [|done..].
    eapply steps_cons; [by apply start_fresh|]. eapply steps_cons; [apply step_stop|]. cbn.
    eapply steps_cons; [by apply step_leave|]. eapply steps_cons; [by apply start_fresh|].
    eapply steps_cons; [by apply step_leave|]. apply steps_nil.
  - eapply steps_cons; [by apply start_fresh|]. eapply steps_cons; [apply step_stop|]. cbn.
    eapply steps_cons; [by apply start_fresh|].
    refine (steps_cons _ _ _ _ _ _ (step_stop s _) (steps_nil _ _)).
Qed.

Module Toy.





End Toy.

End Worker.
