(* ===== verification/MediaAccess.v ===== *)
(** [internal/handler/media_access.go], [media_grants.go] and
    [media_resource.go]: how a request is turned into a delivery decision - by
    the policy service, by a sealed grant - and how a decision for one resource is
    kept from authorising another.  The policy service is the function [policy]
    from requests to replies. *)

From S2P Require Export Http Playlist GrantState UnpinStore.

Local Open Scope Z_scope.

Module MediaAccess.
Import Http Playlist Cid.

(** ** Decisions and errors *)

Definition mediaDeliveryOriginal : string := "original".
Definition mediaDeliveryBlur : string := "blur".
Definition mediaDeliveryBlurFaces : string := "blur_faces".
Definition mediaDeliveryDeny : string := "deny".

Record mediaDeliveryDecision := mkDecision {
  Mode : string;
  Managed : bool;
  SourceCID : string;
  SourceIsVideo : bool;
  PosterCID : string;
  Crop : string
}.

(** The zero value. *)
Definition noDecision : mediaDeliveryDecision := mkDecision "" false "" false "" "".

Inductive accessErr :=
| AccessDenied                       (* errMediaAccessDenied, errMediaForbidden *)
| GrantError (e : Grant.grantErr)
| Unavailable (msg : string).

(** [writeMediaAccessError] *)
Definition writeMediaAccessError (h : gmap string string) (e : accessErr) : Response :=
  let h := <["Cache-Control" := "private, no-store"]> h in
  match e with
  | GrantError Grant.ErrExpired =>
      writeJSON h 401 (JSON [("code", "MEDIA_GRANT_EXPIRED"); ("error", "Media grant expired")])
  | GrantError Grant.ErrInvalid | GrantError Grant.ErrRevoked =>
      writeJSON h 403 (JSON [("code", "MEDIA_GRANT_DENIED"); ("error", "Media grant denied")])
  | AccessDenied => jsonError h 403 "Media access denied"
  | GrantError (Grant.ErrOther _) | Unavailable _ =>
      jsonError h 503 "Media access service unavailable"
  end.

(** ** JSON values of the policy's reply *)

#[warnings="-register-all"]
Inductive json :=
| JNull
| JBool (b : bool)
| JNumber
| JString (s : string)
| JArray
| JObject (fields : list (string * json)).

Definition field (fields : list (string * json)) (k : string) : json :=
  match list_find (fun p => p.1 = k) fields with Some (_, (_, v)) => v | None => JNull end.

(** [responseString]; the nesting of a decoded reply bounds the recursion. *)
Fixpoint responseString (v : json) : option string :=
  match v with
  | JString s => if bool_decide (s = "") then None else Some s
  | JObject fields =>
      (fix value (l : list (string * json)) : option string :=
         match l with
         | [] => None
         | (k, x) :: l' => if bool_decide (k = "value") then responseString x else value l'
         end) fields
  | _ => None
  end.

Definition mediaStorageCID (v : json) : string :=
  match responseString v with
  | None => ""
  | Some uri =>
      match CutPrefix "ipfs://" uri with
      | Some cid => TrimSpace cid
      | None => match CutPrefix "video://" uri with
                | Some cid => TrimSpace cid
                | None => ""
                end
      end
  end.

(** [deliveryCrop], its parser and the name of a frame in a cached rendition. *)
Class Crops := {
  deliveryCrop : Type;
  parseDeliveryCrop : string -> option deliveryCrop;
  crop_key : deliveryCrop -> string
}.

(** ** The policy request *)

Record endpoint := mkEndpoint { e_base : string; e_path : string; e_query : Url.Values }.
Record mediaAccessResolver := mkResolver { cidEndpoint : endpoint; linkEndpoint : endpoint }.

Record policyRequest := mkPolicyRequest { pr_url : endpoint; pr_authorization : string }.

(** A transport failure, a reply with another status (and the message its body
    decodes to), a reply that does not decode, or the decoded rows and item. *)
Inductive policyReply :=
| PTransport (e : string)
| PStatus (code : Z) (message : option string)
| PBadJSON
| PRows (rows : list (list (string * json))) (item : option (list (string * json))).

Definition forwardMediaAuthorization (source : option Request) : string :=
  match source with
  | None => ""
  | Some s =>
      let authorization := Header s "Authorization" in
      if negb (bool_decide (authorization = "")) then authorization else
      let token := Url.Get (r_Query s) "token" in
      if negb (bool_decide (token = "")) then "Bearer " +:+ token else
      let token := Url.Get (r_Query s) "access_token" in
      if negb (bool_decide (token = "")) then "Bearer " +:+ token else ""
  end.

Definition source_get (source : option Request) (k : string) : string :=
  match source with Some s => Url.Get (r_Query s) k | None => "" end.

Definition policy_request (r : mediaAccessResolver) (source : option Request)
  (cid requestedMediaLink : string) : policyRequest :=
  let query := e_query (cidEndpoint r) in
  let mediaLink := if bool_decide (requestedMediaLink = "")
                   then TrimSpace (source_get source "media_link") else requestedMediaLink in
  if negb (bool_decide (mediaLink = "")) then
    let e := linkEndpoint r in
    let path := trim_slashes (String.length (e_path e)) (e_path e) +:+ "/view/id/" +:+
                Url.PathEscape mediaLink in
    mkPolicyRequest
      (mkEndpoint (e_base e) path (Url.Del (Url.Del (Url.Del query "search") "size") "media_link"))
      (forwardMediaAuthorization source)
  else
    let e := cidEndpoint r in
    let query :=
      if bool_decide (cid = "") then query
      else let root := source_get source "media_root" in
           Url.Set_ query "search" (if bool_decide (root = "") then cid else root) in
    mkPolicyRequest (mkEndpoint (e_base e) (e_path e) (Url.Set_ query "size" "2"))
      (forwardMediaAuthorization source).

Section access.
Context `{Crops}.

(** ** Reading the reply *)

(** One row: its mode tightens the decision, its fields fill what is empty. *)
Definition tighten (mode candidate : string) : result accessErr string :=
  if bool_decide (candidate = mediaDeliveryDeny) then Ok mediaDeliveryDeny
  else if bool_decide (candidate = mediaDeliveryBlur) then
    Ok (if bool_decide (mode <> mediaDeliveryDeny) then mediaDeliveryBlur else mode)
  else if bool_decide (candidate = mediaDeliveryBlurFaces) then
    Ok (if bool_decide (mode <> mediaDeliveryBlur) && bool_decide (mode <> mediaDeliveryDeny)
        then mediaDeliveryBlurFaces else mode)
  else if bool_decide (candidate = mediaDeliveryOriginal) then Ok mode
  else Err (Unavailable "media policy returned unsupported mode").

Definition apply_row (d : mediaDeliveryDecision) (row : list (string * json))
  : result accessErr mediaDeliveryDecision :=
  match responseString (field row "delivery_mode") with
  | None => Err (Unavailable "media policy response has no delivery_mode")
  | Some candidate =>
      match tighten (Mode d) candidate with
      | Err e => Err e
      | Ok mode =>
          let fresh := bool_decide (SourceCID d = "") in
          let sourceURI := default "" (responseString (field row "storage_uri")) in
          let crop :=
            if bool_decide (Crop d = "") then
              match responseString (field row "delivery_crop") with
              | Some c => match parseDeliveryCrop c with Some _ => c | None => "" end
              | None => ""
              end
            else Crop d in
          Ok (mkDecision mode (Managed d)
                (if fresh then mediaStorageCID (field row "storage_uri") else SourceCID d)
                (if fresh then HasPrefix sourceURI "video://" else SourceIsVideo d)
                (if bool_decide (PosterCID d = "") then mediaStorageCID (field row "poster_uri")
                 else PosterCID d)
                crop)
      end
  end.

Fixpoint apply_rows (rows : list (list (string * json))) (d : mediaDeliveryDecision)
  : result accessErr mediaDeliveryDecision :=
  match rows with
  | [] => Ok d
  | row :: rows' =>
      match apply_row d row with Err e => Err e | Ok d' => apply_rows rows' d' end
  end.

Definition read_reply (reply : policyReply) : result accessErr mediaDeliveryDecision :=
  match reply with
  | PTransport e => Err (Unavailable ("request media policy: " +:+ e))
  | PStatus code message =>
      if bool_decide (code ∈ [403; 404; 401]) then Err AccessDenied
      else if bool_decide (code = 400) && bool_decide (message = Some "Record not found")
      then Err AccessDenied
      else Err (Unavailable "media policy returned HTTP status")
  | PBadJSON => Err (Unavailable "decode media policy")
  | PRows rows item =>
      let rows := match item with Some i => [i] | None => rows end in
      match rows with
      | [] => Err AccessDenied
      | _ => apply_rows rows (mkDecision mediaDeliveryOriginal true "" false "" "")
      end
  end.

Context (policy : policyRequest -> policyReply).

Definition resolve (r : option mediaAccessResolver) (source : option Request)
  (cid requestedMediaLink : string) : result accessErr mediaDeliveryDecision :=
  match r with
  | None => Err (Unavailable "media policy is not configured")
  | Some r => read_reply (policy (policy_request r source cid requestedMediaLink))
  end.

(** ** [Resolve] and [ResolveLink] *)

Definition strip_link (s : Request) : Request := with_query (Url.Del (r_Query s) "media_link") s.

Definition refuse_deny (x : result accessErr mediaDeliveryDecision)
  : result accessErr mediaDeliveryDecision :=
  match x with
  | Ok d => if bool_decide (Mode d = mediaDeliveryDeny) then Err AccessDenied else Ok d
  | Err e => Err e
  end.

Definition Resolve (r : option mediaAccessResolver) (source : option Request) (cid : string)
  : result accessErr mediaDeliveryDecision :=
  refuse_deny
    match resolve r source cid "", source with
    | Ok d, Some s =>
        if negb (bool_decide (cid = "")) &&
           negb (bool_decide (TrimSpace (Url.Get (r_Query s) "media_link") = "")) &&
           Managed d && negb (bool_decide (SourceCID d = cid))
        then resolve r (Some (strip_link s)) cid "" else Ok d
    | x, _ => x
    end.

Definition ResolveLink (r : option mediaAccessResolver) (source : option Request) (mediaLink : string)
  : result accessErr mediaDeliveryDecision :=
  if bool_decide (TrimSpace mediaLink = "") then Err (Unavailable "media link is required") else
  match resolve r source "" mediaLink with
  | Err e => Err e
  | Ok d => if negb (Managed d) || bool_decide (SourceCID d = "") then Err AccessDenied else Ok d
  end.

(** ** Grants *)

Context `{Grant.Crypto, CidLib, Url.Authority, Storage}.

(** The verifier: the codec, and the state's prefix. *)
Record mediaGrantVerifier := mkVerifier { codec : Grant.Codec; state_prefix : string }.

(** What a request meets: the soft-delete list, the configuration of the access
    check, the verifier with the state database, and the clock in seconds. *)
Record Env := mkEnv {
  unpinStore : UnpinStore.UnpinStore;
  mediaAccess : option mediaAccessResolver;
  allowUnmanaged : bool;
  mediaURL : string;
  mediaLinkURL : string;
  mediaGrants : option mediaGrantVerifier;
  redis : result string GrantState.db;
  now : Z
}.

Definition mediaGrantToken (r : Request) : string :=
  let value := Header r "Authorization" in
  if negb (bool_decide (value = "")) then default "" (CutPrefix "Bearer " value) else
  let value := Header r "X-Api-Key" in
  if negb (bool_decide (value = "")) then value else
  let value := Url.Get (r_Query r) "token" in
  if negb (bool_decide (value = "")) then value else Url.Get (r_Query r) "access_token".

Definition grant_operation (path : string) : string :=
  if HasPrefix path "/stream/link/" then
    if HasSuffix path "/poster.jpg" then "poster" else "stream"
  else "image".

(** [state.Check] through the client: a database that cannot be reached is an
    error of its own. *)
Definition check_state (e : Env) (v : mediaGrantVerifier) (c : Grant.Claims) : option accessErr :=
  match redis e with
  | Err msg => Some (Unavailable msg)
  | Ok d =>
      match GrantState.Check (state_prefix v) c d with
      | None => None
      | Some GrantState.Revoked => Some (GrantError Grant.ErrRevoked)
      | Some _ => Some (Unavailable "media grant state")
      end
  end.

Definition grant_resolve (e : Env) (r : Request) (link : string)
  : result accessErr mediaDeliveryDecision :=
  match mediaGrants e with
  | None => Err (GrantError Grant.ErrInvalid)
  | Some v =>
      match Url.Lookup (r_Query r) "grant" with
      | [value] =>
          if bool_decide (value = "") then Err (GrantError Grant.ErrInvalid) else
          match Grant.Open (codec v) value (mediaGrantToken r) (now e) with
          | Err err => Err (GrantError err)
          | Ok claims =>
              if bool_decide (Itoa (Grant.LinkID claims) <> link)
              then Err (GrantError Grant.ErrInvalid) else
              if negb (Grant.Allows claims (grant_operation (r_Path r))) ||
                 HasSuffix (r_Path r) "/bundle"
              then Err (GrantError Grant.ErrInvalid) else
              match check_state e v claims with
              | Some err => Err err
              | None =>
                  Ok (mkDecision (Grant.Mode claims) true (Grant.SourceCID claims)
                        (Grant.Video claims) (Grant.PosterCID claims)
                        (match parseDeliveryCrop (Grant.Crop claims) with
                         | Some _ => Grant.Crop claims | None => "" end))
              end
          end
      | _ => Err (GrantError Grant.ErrInvalid)
      end
  end.

(** ** [media_resource.go] *)

Definition readLinkedMaster (e : Env) (d : mediaDeliveryDecision) : option string :=
  if negb (validateCID (SourceCID d)) || UnpinStore.Has (SourceCID d) (unpinStore e) then None
  else readVideoAsset (SourceCID d).

Definition resolveVideoPoster (e : Env) (d : mediaDeliveryDecision) (requested : string)
  : result accessErr string :=
  if negb (SourceIsVideo d) then Err AccessDenied else
  match readLinkedMaster e d with
  | None => Err (Unavailable "master")
  | Some master => of_option AccessDenied (videoPosterCID master requested (Mode d))
  end.

(** The children a variant playlist names, up to the one asked for. *)
Fixpoint find_child (lines : list string) (cid : string) : result accessErr bool :=
  match lines with
  | [] => Ok false
  | line :: rest =>
      let value := TrimSpace line in
      let value := if HasPrefix value "#" then default "" (playlistURI value) else value in
      if bool_decide (value = "") then find_child rest cid else
      match playlistReferenceCID value with
      | None => Err AccessDenied
      | Some (childCID, _) => if sameMediaCID childCID cid then Ok true else find_child rest cid
      end
  end.

(** The loop over the master's playlists; [fuel] counts the rounds left of 32. *)
Fixpoint scan_playlists (e : Env) (master cid : string) (fuel : nat) (i : Z) : option accessErr :=
  match fuel with
  | O => Some AccessDenied
  | S n =>
      match linkedMasterPlaylistCID master i with
      | None => Some AccessDenied
      | Some playlistCID =>
          if sameMediaCID cid playlistCID then None
          else if UnpinStore.Has playlistCID (unpinStore e) then scan_playlists e master cid n (i + 1)
          else
            match readVideoAsset playlistCID with
            | None => Some (Unavailable "playlist")
            | Some playlist =>
                match find_child (lines_of playlist) cid with
                | Err err => Some err
                | Ok true => None
                | Ok false => scan_playlists e master cid n (i + 1)
                end
            end
      end
  end.

(** [None] accepts. *)
Definition validateMediaResource (e : Env) (r : Request) (cid : string) (d : mediaDeliveryDecision)
  : option accessErr :=
  if bool_decide (SourceCID d = "") || UnpinStore.Has (SourceCID d) (unpinStore e)
  then Some AccessDenied else
  if HasPrefix (r_Path r) "/file/" || negb (HasPrefix (r_Path r) "/stream/segment/") then
    if sameMediaCID cid (SourceCID d) then None else Some AccessDenied
  else
  if sameMediaCID cid (SourceCID d) && bool_decide (Mode d = mediaDeliveryOriginal) then None else
  if negb (SourceIsVideo d) then Some AccessDenied else
  match readLinkedMaster e d with
  | None => Some (Unavailable "master")
  | Some master =>
      match videoPosterCID master cid (Mode d) with
      | Some _ => None
      | None =>
          if negb (bool_decide (Mode d = mediaDeliveryOriginal)) then Some AccessDenied
          else scan_playlists e master cid 32 0
      end
  end.

(** ** The handler's entry points *)

Definition resolveMediaDelivery (e : Env) (r : Request) (cid : string)
  : result accessErr mediaDeliveryDecision :=
  if Url.Has (r_Query r) "grant" then Err (GrantError Grant.ErrInvalid) else
  match mediaAccess e with
  | None =>
      if allowUnmanaged e && bool_decide (mediaURL e = "") && bool_decide (mediaLinkURL e = "")
      then Ok (mkDecision mediaDeliveryOriginal false "" false "" "")
      else Err (Unavailable "media policy is not configured")
  | Some _ =>
      match Resolve (mediaAccess e) (Some r) cid with
      | Err err => Err err
      | Ok d =>
          if Managed d then
            match validateMediaResource e r cid d with
            | Some err => Err err
            | None => Ok d
            end
          else Ok d
      end
  end.

Definition resolveMediaDeliveryLink (e : Env) (r : Request) (mediaLink : string)
  : result accessErr mediaDeliveryDecision :=
  if Url.Has (r_Query r) "grant" then grant_resolve e r mediaLink else
  match mediaAccess e with
  | None => Err (Unavailable "media access resolver is not configured")
  | Some _ => ResolveLink (mediaAccess e) (Some r) mediaLink
  end.

(** * Specification *)

(** How much a mode hides. *)
Definition severity (mode : string) : option nat :=
  if bool_decide (mode = mediaDeliveryOriginal) then Some 0%nat
  else if bool_decide (mode = mediaDeliveryBlurFaces) then Some 1%nat
  else if bool_decide (mode = mediaDeliveryBlur) then Some 2%nat
  else if bool_decide (mode = mediaDeliveryDeny) then Some 3%nat
  else None.

Definition row_severity (row : list (string * json)) : option nat :=
  responseString (field row "delivery_mode") ≫= severity.

Fixpoint max_severity (l : list nat) : nat :=
  match l with [] => 0%nat | n :: l' => Nat.max n (max_severity l') end.

(** The storage URIs of the rows: the first usable one names the file. *)
Fixpoint first_cid (rows : list (list (string * json))) (key : string) : string :=
  match rows with
  | [] => ""
  | row :: rest =>
      let c := mediaStorageCID (field row key) in
      if bool_decide (c = "") then first_cid rest key else c
  end.

(** What a segment request may reach below the video's master. *)
Inductive reachable_child (e : Env) (d : mediaDeliveryDecision) (cid : string) : Prop :=
| child_poster master poster :
    readLinkedMaster e d = Some master -> videoPosterCID master cid (Mode d) = Some poster ->
    reachable_child e d cid
| child_playlist master i playlistCID :
    readLinkedMaster e d = Some master -> Mode d = mediaDeliveryOriginal ->
    linkedMasterPlaylistCID master i = Some playlistCID -> sameMediaCID cid playlistCID = true ->
    reachable_child e d cid
| child_asset master i playlistCID playlist ref childCID ext :
    readLinkedMaster e d = Some master -> Mode d = mediaDeliveryOriginal ->
    linkedMasterPlaylistCID master i = Some playlistCID ->
    UnpinStore.Has playlistCID (unpinStore e) = false ->
    readVideoAsset playlistCID = Some playlist ->
    playlistReferenceCID ref = Some (childCID, ext) -> sameMediaCID childCID cid = true ->
    (exists line, line ∈ lines_of playlist /\
       (ref = TrimSpace line \/ playlistURI (TrimSpace line) = Some ref)) ->
    reachable_child e d cid.

(** * Lemmas *)

Lemma tighten_Ok mode candidate n :
  severity mode = Some n ->
  match severity candidate with
  | Some k => exists m', tighten mode candidate = Ok m' /\ severity m' = Some (Nat.max n k)
  | None => exists e, tighten mode candidate = Err e
  end.
Proof.
  assert (Hm : forall m k, severity m = Some k -> m = mediaDeliveryOriginal /\ k = 0%nat \/
    m = mediaDeliveryBlurFaces /\ k = 1%nat \/ m = mediaDeliveryBlur /\ k = 2%nat \/
    m = mediaDeliveryDeny /\ k = 3%nat).
  { intros m k. unfold severity. repeat case_bool_decide; intros [= <-]; auto 6. }
  intros Hn. destruct (severity candidate) as [k|] eqn:Hk.
  - apply Hm in Hn. apply Hm in Hk.
    destruct Hn as [[-> ->]|[[-> ->]|[[-> ->]|[-> ->]]]],
      Hk as [[-> ->]|[[-> ->]|[[-> ->]|[-> ->]]]]; vm_compute; eauto.
  - unfold severity in Hk. unfold tighten. repeat case_bool_decide; try done. eauto.
Qed.

Lemma apply_rows_spec rows d n :
  severity (Mode d) = Some n ->
  match mapM row_severity rows with
  | Some ks => exists d', apply_rows rows d = Ok d' /\ Managed d' = Managed d /\
      severity (Mode d') = Some (Nat.max n (max_severity ks)) /\
      SourceCID d' = (if bool_decide (SourceCID d = "") then first_cid rows "storage_uri" else SourceCID d)
  | None => exists e, apply_rows rows d = Err e
  end.
Proof.
  revert d n. induction rows as [|row rows IH]; intros d n Hn; cbn [mapM].
  - cbn. exists d. split_and!; [done|done|by rewrite Nat.max_0_r|]. by case_bool_decide.
  - assert (Hrs : row_severity row = responseString (field row "delivery_mode") ≫= severity) by done.
    destruct (row_severity row) as [k|]; cbn [apply_rows]; unfold apply_row;
      (destruct (responseString (field row "delivery_mode")) as [c|]; cbn in Hrs |- *; [|by eauto]);
      pose proof (tighten_Ok (Mode d) c n Hn) as HT; rewrite <- Hrs in HT.
    2:{ destruct HT as [e ->]. eauto. }
    destruct HT as (m' & -> & Hm').
    match goal with |- context [apply_rows rows ?x] => set (d1 := x) end.
    specialize (IH d1 _ Hm'). destruct (mapM row_severity rows) as [ks|]; cbn.
    + destruct IH as (d' & Ha & HM & Hs & Hc). exists d'. split_and!; [done..| |].
      * rewrite Hs. f_equal. simpl. lia.
      * rewrite Hc. unfold d1. simpl. destruct (decide (SourceCID d = "")) as [E|E].
        -- by rewrite !(bool_decide_eq_true_2 _ E).
        -- by rewrite !(bool_decide_eq_false_2 _ E).
    + exact IH.
Qed.

Lemma refuse_deny_Ok x d : refuse_deny x = Ok d -> x = Ok d /\ Mode d <> mediaDeliveryDeny.
Proof. unfold refuse_deny. destruct x as [y|]; [|done]. case_bool_decide; [done|]. by intros [= ->]. Qed.

Lemma find_child_true lines cid : find_child lines cid = Ok true ->
  exists ref childCID ext, playlistReferenceCID ref = Some (childCID, ext) /\
    sameMediaCID childCID cid = true /\
    exists line, line ∈ lines /\ (ref = TrimSpace line \/ playlistURI (TrimSpace line) = Some ref).
Proof.
  induction lines as [|line lines IH]; [done|]. cbn [find_child].
  set (value := if HasPrefix _ _ then _ else _).
  assert (Hup : (exists ref childCID ext, playlistReferenceCID ref = Some (childCID, ext) /\
    sameMediaCID childCID cid = true /\
    exists l, l ∈ lines /\ (ref = TrimSpace l \/ playlistURI (TrimSpace l) = Some ref)) ->
    exists ref childCID ext, playlistReferenceCID ref = Some (childCID, ext) /\
    sameMediaCID childCID cid = true /\
    exists l, l ∈ line :: lines /\ (ref = TrimSpace l \/ playlistURI (TrimSpace l) = Some ref)).
  { intros (ref & cc & ext & ? & ? & l & Hl & ?). exists ref, cc, ext. split_and!; [done..|].
    exists l. split; [by apply list_elem_of_further|done]. }
  case_bool_decide as Hv; [intros HH; by apply Hup, IH|].
  destruct (playlistReferenceCID value) as [[cc ext]|] eqn:HR; [|done].
  destruct (sameMediaCID cc cid) eqn:HS; [|intros HH; by apply Hup, IH]. intros _.
  exists value, cc, ext. split_and!; [done..|]. exists line. split; [apply list_elem_of_here|].
  unfold value in *. destruct (HasPrefix _ _); [|by left]. right.
  by destruct (playlistURI (TrimSpace line)).
Qed.

Lemma scan_playlists_child e d master cid fuel i :
  readLinkedMaster e d = Some master -> Mode d = mediaDeliveryOriginal ->
  scan_playlists e master cid fuel i = None -> reachable_child e d cid.
Proof.
  intros HM Ho. revert i. induction fuel as [|fuel IH]; intros i; [done|]. cbn [scan_playlists].
  destruct (linkedMasterPlaylistCID master i) as [pc|] eqn:HP; [|done].
  destruct (sameMediaCID cid pc) eqn:HS; [intros _; by eapply child_playlist|].
  destruct (UnpinStore.Has pc _) eqn:HU; [apply IH|].
  destruct (readVideoAsset pc) as [pl|] eqn:HR; [|done].
  destruct (find_child _ _) as [[|]|] eqn:HF; [|apply IH|done]. intros _.
  apply find_child_true in HF as (ref & cc & ext & Hr & Hs & Hl). by eapply child_asset.
Qed.

(** ** Properties *)

(** The strictest rule wins: a reply of the policy becomes a decision only if
    it has a row and every row names one of the four modes; the decision then
    hides as much as the most hiding row asks, in whatever order the rows come,
    and speaks for the first file they name. *)
Theorem policy_strictest_mode rows item :
  let rows' := match item with Some i => [i] | None => rows end in
  match mapM row_severity rows' with
  | Some ks => rows' <> [] -> exists d, read_reply (PRows rows item) = Ok d /\ Managed d = true /\
      severity (Mode d) = Some (max_severity ks) /\ SourceCID d = first_cid rows' "storage_uri"
  | None => exists e, read_reply (PRows rows item) = Err e
  end /\ (rows' = [] -> read_reply (PRows rows item) = Err AccessDenied).
Proof.
  intros rows'. pose proof (apply_rows_spec rows' (mkDecision mediaDeliveryOriginal true "" false "" "") 0 eq_refl) as HS.
  unfold read_reply. fold rows'. split; [|by intros ->].
  destruct (mapM row_severity rows') as [ks|] eqn:HM.
  - intros Hne. destruct HS as (d & Ha & Hm & Hs & Hc). exists d.
    destruct rows' as [|row rest]; [done|]. by rewrite Ha.
  - destruct rows' as [|row rest]; [done|]. exact HS.
Qed.

(** C7. A decision never authorises another resource: when [resolveMediaDelivery]
    accepts a managed request, the decision is not a denial, its file is not
    deleted, and the identifier asked for is another spelling of that file or,
    for stream segments only, the video itself in its original form or a file its
    own master names: a poster allowed by the mode, or, in original mode, a
    playlist or an asset of a playlist. *)
Theorem decision_bound_to_resource e r cid d :
  resolveMediaDelivery e r cid = Ok d -> Managed d = true ->
  Mode d <> mediaDeliveryDeny /\ SourceCID d <> "" /\
  UnpinStore.Has (SourceCID d) (unpinStore e) = false /\
  (sameMediaCID cid (SourceCID d) = true /\
     (HasPrefix (r_Path r) "/stream/segment/" = true -> HasPrefix (r_Path r) "/file/" = false ->
      Mode d = mediaDeliveryOriginal) \/
   HasPrefix (r_Path r) "/stream/segment/" = true /\ SourceIsVideo d = true /\ reachable_child e d cid).
Proof.
  unfold resolveMediaDelivery. go_if HG. destruct (mediaAccess e) as [res|].
  2:{ go_if HU. by intros [= <-]. }
  destruct (Resolve _ _ cid) as [d0|] eqn:HR; [|done]. intros HD HM.
  assert (Hdeny : Mode d0 <> mediaDeliveryDeny)
    by (unfold Resolve in HR; by apply refuse_deny_Ok in HR as [_ ?]).
  destruct (Managed d0) eqn:HM0; [|congruence].
  destruct (validateMediaResource e r cid d0) eqn:HV; [done|]. injection HD as <-.
  unfold validateMediaResource in HV. revert HV. go_if HA. go_bools. intros HV.
  split_and!; [done..|]. revert HV.
  destruct (HasPrefix (r_Path r) "/stream/segment/") eqn:HP.
  2:{ rewrite orb_true_r. go_if HB. intros _. left. by split. }
  rewrite orb_false_r. destruct (HasPrefix (r_Path r) "/file/") eqn:HF.
  { go_if HB. intros _. left. by split. }
  go_if HB; [intros _; left; go_bools; by split|]. go_if HC. go_if HD'.
  destruct (videoPosterCID _ cid _) eqn:HPo.
  { intros _. right. split_and!; [done|by apply negb_false_iff|]. by eapply child_poster. }
  go_if HE. intros HS. right. go_bools. split_and!; [done|done|].
  by eapply scan_playlists_child.
Qed.

(** A link speaks only for its own file: a decision [Resolve] takes for a CID
    with the help of a media link in the request is about that CID; otherwise it
    is the decision for the CID with the link removed. *)
Theorem link_speaks_for_its_file r s cid d :
  Resolve r (Some s) cid = Ok d -> Managed d = true -> cid <> "" ->
  TrimSpace (Url.Get (r_Query s) "media_link") <> "" ->
  SourceCID d = cid \/ resolve r (Some (strip_link s)) cid "" = Ok d.
Proof.
  unfold Resolve. intros [HR _]%refuse_deny_Ok HM Hc Hl.
  destruct (resolve r (Some s) cid "") as [d0|] eqn:Hr0; [|done].
  rewrite (bool_decide_eq_false_2 (cid = "")), (bool_decide_eq_false_2 (TrimSpace _ = "")) in HR by done.
  cbn [negb andb] in HR.
  destruct (Managed d0 && negb (bool_decide (SourceCID d0 = cid))) eqn:E; [by right|].
  left. simplify_eq. rewrite HM in E. simpl in E. by go_bools.
Qed.

(** C8. A grant is honoured only whole: when a link request with a grant is
    resolved, the token opened for the caller's own session at this moment, names
    this very link, allows the operation its path asks for and is no bundle
    request; the state was reachable and no guard stands on its asset or file;
    and the decision is the grant's, for the grant's file. *)
Theorem grant_honoured_whole e r link d :
  grant_resolve e r link = Ok d ->
  exists v value claims db,
    mediaGrants e = Some v /\ Url.Lookup (r_Query r) "grant" = [value] /\
    Grant.Open (codec v) value (mediaGrantToken r) (now e) = Ok claims /\
    Itoa (Grant.LinkID claims) = link /\
    Grant.Allows claims (grant_operation (r_Path r)) = true /\
    HasSuffix (r_Path r) "/bundle" = false /\
    redis e = Ok db /\ GrantState.Check (state_prefix v) claims db = None /\
    default "" (db !! GrantState.guard_key (state_prefix v) (FileResource (SourceCID d))) = "" /\
    Managed d = true /\ Mode d = Grant.Mode claims /\ SourceCID d = Grant.SourceCID claims /\
    SourceIsVideo d = Grant.Video claims.
Proof.
  unfold grant_resolve. destruct (mediaGrants e) as [v|]; [|done].
  destruct (Url.Lookup _ _) as [|value [|? ?]] eqn:HL; [done| |done].
  case_bool_decide; [done|]. destruct (Grant.Open _ _ _ _) as [claims|] eqn:HO; [|done].
  case_bool_decide as Hlink; [done|]. go_if Hop. go_bools.
  destruct (check_state e v claims) eqn:HC; [done|]. intros [= <-].
  unfold check_state in HC. destruct (redis e) as [db|] eqn:Hdb; [|done].
  destruct (GrantState.Check _ _ _) as [[]|] eqn:HK; try done.
  exists v, value, claims, db. split_and!; try done.
  apply GrantState.Check_None in HK as [_ HR]. eapply HR. right. left.
Qed.

End access.
(** ** Witnesses

    A storage with one video: its master, one variant playlist, and its segments. *)
Module Toy.
#[local] Existing Instance Grant.Toy.crypto.
#[local] Existing Instance Cid.Toy.cidlib.
#[local] Existing Instance Playlist.Toy.authority.

#[local] Instance crops : Crops := {|
  deliveryCrop := string;
  parseDeliveryCrop s := if bool_decide (s = "") then None else Some s;
  crop_key s := s
|}.

Definition cidS : string := "QmYwAPJzv5CZsnA625s3Xf2nemtYgPpHdWEz79ojWKPbdS".

#[local] Instance storage : Storage := {|
  ClusterTryFetch c :=
    if bool_decide (c = cidS) then Some (mkReader Playlist.Toy.master_sample false)
    else if bool_decide (c = Playlist.Toy.cidC) then Some (mkReader Playlist.Toy.variant_sample false)
    else Some (mkReader c false);
  ClusterTryFetchPath _ _ := None
|}.

Definition video_row (mode cid : string) : list (string * json) :=
  [("delivery_mode", JObject [("value", JString mode)]); ("storage_uri", JString ("video://" +:+ cid))].

(** The policy answers links with the poster's file and searches with the video. *)
Definition policy (mode : string) (q : policyRequest) : policyReply :=
  if Contains (e_path (pr_url q)) "/view/id/" then PRows [] (Some (video_row mode Playlist.Toy.cidA))
  else PRows [video_row mode cidS] None.

Definition resolver : mediaAccessResolver :=
  mkResolver (mkEndpoint "http://api" "/media" []) (mkEndpoint "http://api" "/links" []).

Definition grant_db : GrantState.db :=
  list_to_map [(GrantState.epoch_key "p:", "e");
               (GrantState.version_key "p:" (GrantState.AssetResource 9), "av");
               (GrantState.version_key "p:" (FileResource "QmVideo"), "fv")].

Definition env : Env := {|
  unpinStore := UnpinStore.mkStore ∅ ∅ UnpinStore.FMissing;
  mediaAccess := Some resolver; allowUnmanaged := false; mediaURL := "http://api/media";
  mediaLinkURL := "";
  mediaGrants := Some (mkVerifier Grant.Toy.codec "p:");
  redis := Ok grant_db; now := 1100 |}.

Definition request (path : string) (q : Url.Values) : Request :=
  mkRequest "GET" path q {[ "Authorization" := "Bearer " +:+ Grant.Toy.token ]} ∅ "user".

Lemma policy_strictest_mode_witness :
  exists d, read_reply (PRows [video_row "blur_faces" cidS; video_row "blur" "x"] None) = Ok d /\
    severity (Mode d) = Some 2%nat /\ SourceCID d = cidS.
Proof.
  destruct (policy_strictest_mode [video_row "blur_faces" cidS; video_row "blur" "x"] None) as [HS _].
  destruct (HS ltac:(discriminate)) as (d & Hr & _ & Hs & Hc). exists d. split; [exact Hr|].
  split; [exact Hs|exact Hc].
Defined.

Lemma decision_bound_to_resource_witness :
  let r := request ("/stream/segment/" +:+ Playlist.Toy.cidB +:+ ".m4s") [] in
  exists d, resolveMediaDelivery (policy "original") env r Playlist.Toy.cidB = Ok d /\
    Mode d <> mediaDeliveryDeny.
Proof.
  intros r. exists (mkDecision "original" true cidS true "" ""). split; [by_vm|].
  apply (decision_bound_to_resource (policy "original") env r Playlist.Toy.cidB); by_vm.
Defined.

Lemma link_speaks_for_its_file_witness :
  let s := request ("/file/" +:+ cidS) [("media_link", ["7"])] in
  let d := mkDecision "blur" true cidS true "" "" in
  Resolve (policy "blur") (Some resolver) (Some s) cidS = Ok d /\
  (SourceCID d = cidS \/ resolve (policy "blur") (Some resolver) (Some (strip_link s)) cidS "" = Ok d).
Proof.
  intros s d. split; [by_vm|].
  apply (link_speaks_for_its_file (policy "blur") (Some resolver) s cidS d);
    [by_vm|by_vm|discriminate|vm_compute; discriminate].
Defined.

Lemma grant_honoured_whole_witness :
  let r := request "/stream/link/7/master.m3u8" [("grant", [Grant.Toy.grant])] in
  exists d, grant_resolve env r "7" = Ok d /\ SourceCID d = "QmVideo" /\ Managed d = true.
Proof.
  intros r. eexists (mkDecision "original" true "QmVideo" true "" "").
  assert (HG : grant_resolve env r "7" = Ok (mkDecision "original" true "QmVideo" true "" "")) by by_vm.
  split; [exact HG|]. split; [reflexivity|].
  destruct (grant_honoured_whole env r "7" _ HG)
    as (v & value & claims & db & _ & _ & _ & _ & _ & _ & _ & _ & _ & HM & _). exact HM.
Defined.
End Toy.
End MediaAccess.
