(* ===== verification/Cluster.v ===== *)
(** [internal/ipfs]: the client of one IPFS node and the manager of a cluster of
    nodes.  The node itself, reached through the kubo RPC client, is the
    interface [Kubo]; the goroutines of a cluster operation each work on their
    own node, so they commute and are run in the order of the nodes. *)

From S2P Require Export GoStrings.

Local Open Scope Z_scope.

Module Cluster.

(** [files.Node]: a file with the error of reading it to its end, a directory
    with its entries and the error its iterator ends with, or something else. *)
#[warnings="-register-all"]
Inductive unixfs :=
| UFile (copyErr : option string)
| UDir (entries : list unixfs) (err : option string)
| UOther.

(** What a node answers.  [node] is everything its answers depend on: its
    contents, the network and the request contexts.  [Cat] and [CatPath] answers
    are readers, left abstract as their contents. *)
Class Kubo := {
  node : Type;
  new_path : string -> option string;
  add_file : node -> string -> node * result string string;
  add_dir : node -> gmap string string -> node * result string string;
  pin_is : node -> string -> node * result string bool;
  pin_add : node -> string -> node * option string;
  pin_rm : node -> string -> node * option string;
  send_cat : node -> string -> node * result string string;
  unixfs_get : node -> string -> node * result string unixfs;
  cid_parse : string -> option string;
  dag_get : node -> string -> node * result string (list Z * result string Z);
  (** the node has a pin of the path itself *)
  root_pin : node -> string -> Prop;
  (** the node keeps the content: it has a pin of it or of a tree around it *)
  held : node -> string -> Prop
}.

(** What the RPC interface documents of pins: adding with [Pin(true)] and
    [Pin().Add] leave a pin of the path, [Pin().Rm] removes it, and [IsPinned]
    tells whether the content is kept by any pin. *)
Class KuboLaws `{Kubo} := {
  root_held n q : root_pin n q -> held n q;
  add_file_pins n p n' c : add_file n p = (n', Ok c) ->
    exists q, new_path ("/ipfs/" +:+ c) = Some q /\ root_pin n' q;
  add_dir_pins n p n' c : add_dir n p = (n', Ok c) ->
    exists q, new_path ("/ipfs/" +:+ c) = Some q /\ root_pin n' q;
  pin_is_sound n q n' b : pin_is n q = (n', Ok b) -> (b = true <-> held n' q);
  pin_add_pins n q n' : pin_add n q = (n', None) -> root_pin n' q;
  pin_rm_unpins n q n' : pin_rm n q = (n', None) -> ~ root_pin n' q
}.

Section cluster.
Context `{Kubo}.

(** ** One node ([client.go]) *)

Record AddResult := mkAddResult { CID : string; Name : string }.
Record StatResult := mkStatResult { s_CID : string; Size : Z }.

Definition parsePath (cidStr : string) : option string := new_path ("/ipfs/" +:+ cidStr).

Definition Add (n : node) (filename payload : string) : node * result string AddResult :=
  match add_file n payload with
  | (n', Err e) => (n', Err ("ipfs add failed: " +:+ e))
  | (n', Ok c) => (n', Ok (mkAddResult c filename))
  end.

Definition AddDir (n : node) (files : gmap string string) : node * result string AddResult :=
  match add_dir n files with
  | (n', Err e) => (n', Err ("ipfs add dir failed: " +:+ e))
  | (n', Ok c) => (n', Ok (mkAddResult c ""))
  end.

(** The attempts from the [attempt]-th on, until one succeeds; the sleeps
    between them are not modelled. *)
Fixpoint attempts (f : node -> node * option string) (left : nat) (lastErr : string) (n : node)
  : node * option string :=
  match left with
  | O => (n, Some lastErr)
  | S k =>
      match f n with
      | (n', None) => (n', None)
      | (n', Some e) => attempts f k e n'
      end
  end.

Definition Pin (n : node) (cidStr : string) (retries : Z) : node * option string :=
  match parsePath cidStr with
  | None => (n, Some "invalid CID")
  | Some p =>
      match pin_is n p with
      | (n', Ok true) => (n', None)
      | (n', _) => attempts (fun n => pin_add n p) (Z.to_nat retries) "" n'
      end
  end.

Definition Unpin (n : node) (cidStr : string) : node * option string :=
  match parsePath cidStr with
  | None => (n, Some "invalid CID")
  | Some p => pin_rm n p
  end.

Definition Cat (n : node) (cidStr : string) : node * result string string :=
  match parsePath cidStr with
  | None => (n, Err "invalid CID")
  | Some p => send_cat n p
  end.

Definition CatPath (n : node) (cidStr filePath : string) : node * result string string :=
  match new_path ("/ipfs/" +:+ cidStr +:+ "/" +:+ filePath) with
  | None => (n, Err "invalid IPFS path")
  | Some p => send_cat n p
  end.

(** A directory stops at the first entry that fails; an iterator error that
    mentions EOF is its normal end. *)
Fixpoint drainUnixFS (f : unixfs) : option string :=
  match f with
  | UFile e => e
  | UDir entries err =>
      match (fix drain (l : list unixfs) : option string :=
               match l with
               | [] => None
               | x :: l' => match drainUnixFS x with Some e => Some e | None => drain l' end
               end) entries with
      | Some e => Some e
      | None => match err with
                | Some e => if Contains e "EOF" then None else Some e
                | None => None
                end
      end
  | UOther => Some "unsupported UnixFS node"
  end.

Definition Fetch (n : node) (cidStr : string) : node * option string :=
  match parsePath cidStr with
  | None => (n, Some "invalid CID")
  | Some p =>
      match unixfs_get n p with
      | (n', Err e) => (n', Some ("ipfs get failed: " +:+ e))
      | (n', Ok f) => (n', drainUnixFS f)
      end
  end.

(** The links' sizes are added in [uint64]. *)
Definition total_size (links : list Z) : Z := foldl (fun t s => uint64 (t + s)) 0 links.

Definition cumulativeSize (n : node) (cid : string) : node * result string Z :=
  match dag_get n cid with
  | (n', Err e) => (n', Err e)
  | (n', Ok (links, own)) =>
      (n', if (length links =? 0)%nat then own else Ok (total_size links))
  end.

Definition Stat (n : node) (cidStr : string) : node * result string StatResult :=
  match cid_parse cidStr with
  | None => (n, Err "invalid CID")
  | Some c =>
      match cumulativeSize n c with
      | (n', Err e) => (n', Err ("ipfs stat failed: " +:+ e))
      | (n', Ok size) => (n', Ok (mkStatResult cidStr size))
      end
  end.

Definition IsPinned (n : node) (cidStr : string) : node * result string bool :=
  match parsePath cidStr with
  | None => (n, Err "invalid CID")
  | Some p =>
      match pin_is n p with
      | (n', Err e) => (n', Err ("isPinned failed: " +:+ e))
      | (n', Ok b) => (n', Ok b)
      end
  end.

(** ** The cluster ([cluster.go]) *)

Record ClusterNode := mkNode { client : node; URL : string }.
Record ClusterManager := mkManager { nodes : list ClusterNode; readNext : Z }.

Inductive clusterErr :=
| NoNodes
| ReadPayload
| NodeErrors (operation : string) (nodeCount : nat) (errs : list string)
| Mismatch (url got expected : string)
| NotAvailable.

Definition set_nodes (ns : list ClusterNode) (cm : ClusterManager) : ClusterManager :=
  {| nodes := ns; readNext := readNext cm |}.

(** One goroutine per node, all waited for: the nodes afterwards, and each
    node's outcome. *)
Fixpoint on_all {A} (f : ClusterNode -> node * A) (ns : list ClusterNode)
  : list ClusterNode * list A :=
  match ns with
  | [] => ([], [])
  | n :: ns' =>
      let (c, a) := f n in
      let (ns2, l) := on_all f ns' in
      (mkNode c (URL n) :: ns2, a :: l)
  end.

(** The error channel, drained after it is closed. *)
Definition errors_of {A} (l : list (result string A)) : list string :=
  omap (fun r => match r with Err e => Some e | Ok _ => None end) l.
Definition values_of {A} (l : list (result string A)) : list A :=
  omap (fun r => match r with Ok a => Some a | Err _ => None end) l.

Definition collectClusterErrors (operation : string) (nodeCount : nat) (errs : list string)
  : option clusterErr :=
  if (length errs =? 0)%nat then None else Some (NodeErrors operation nodeCount errs).

(** [results[i].CID != results[0].CID] for [i] from 1. *)
Definition check_same (ns : list ClusterNode) (results : list AddResult)
  : result clusterErr AddResult :=
  match results with
  | [] => Err NoNodes
  | r0 :: rest =>
      match list_find (fun p : ClusterNode * AddResult => CID p.2 <> CID r0)
              (zip (tail ns) rest) with
      | Some (_, (n, r)) => Err (Mismatch (URL n) (CID r) (CID r0))
      | None => Ok r0
      end
  end.

Definition add_all (operation : string) (f : ClusterNode -> node * result string AddResult)
  (cm : ClusterManager) : ClusterManager * result clusterErr AddResult :=
  if (length (nodes cm) =? 0)%nat then (cm, Err NoNodes) else
  let (ns, results) := on_all f (nodes cm) in
  (set_nodes ns cm,
   match collectClusterErrors operation (length (nodes cm)) (errors_of results) with
   | Some e => Err e
   | None => check_same (nodes cm) (values_of results)
   end).

(** [data] is what [io.ReadAll] returned. *)
Definition ClusterAdd (filename : string) (data : option string) (cm : ClusterManager)
  : ClusterManager * result clusterErr AddResult :=
  if (length (nodes cm) =? 0)%nat then (cm, Err NoNodes) else
  match data with
  | None => (cm, Err ReadPayload)
  | Some payload => add_all "cluster add" (fun n => Add (client n) filename payload) cm
  end.

Definition ClusterAddDir (files : gmap string string) (cm : ClusterManager)
  : ClusterManager * result clusterErr AddResult :=
  add_all "cluster add dir" (fun n => AddDir (client n) files) cm.

(** The goroutines that return only an error. *)
Definition run_all (operation : string) (f : node -> node * option string)
  (skip : string -> bool) (cm : ClusterManager) : ClusterManager * option clusterErr :=
  let (ns, results) := on_all (fun n => if skip (URL n) then (client n, None) else f (client n))
                         (nodes cm) in
  (set_nodes ns cm, collectClusterErrors operation (length (nodes cm)) (omap id results)).

Definition fetchWithRetry (cid : string) (retries : Z) (n : node) : node * option string :=
  attempts (fun n => Fetch n cid) (Z.to_nat retries) "" n.

Definition then_ (f g : node -> node * option string) (n : node) : node * option string :=
  match f n with
  | (n', Some e) => (n', Some e)
  | (n', None) => g n'
  end.

Definition ClusterReplicate (cid : string) (retries : Z) (cm : ClusterManager)
  : ClusterManager * option clusterErr :=
  if (length (nodes cm) =? 0)%nat then (cm, Some NoNodes) else
  run_all "cluster replicate"
    (then_ (fetchWithRetry cid retries) (fun n => Pin n cid retries)) (fun _ => false) cm.

Definition ClusterPinAllExcept (cid skipURL : string) (retries : Z) (cm : ClusterManager)
  : ClusterManager * option clusterErr :=
  run_all "cluster replicate" (then_ (fun n => Fetch n cid) (fun n => Pin n cid retries))
    (fun u => bool_decide (u = skipURL)) cm.

Definition ClusterUnpinAll (cid : string) (cm : ClusterManager)
  : ClusterManager * option clusterErr :=
  run_all "cluster unpin" (fun n => Unpin n cid) (fun _ => false) cm.

Definition ClusterIsPinnedAll (cid : string) (cm : ClusterManager) : ClusterManager * bool :=
  if (length (nodes cm) =? 0)%nat then (cm, false) else
  let (ns, results) := on_all (fun n => IsPinned (client n) cid) (nodes cm) in
  (set_nodes ns cm, forallb (fun r => match r with Ok b => b | Err _ => false end) results).

Definition ClusterStat (cid : string) (cm : ClusterManager)
  : ClusterManager * result string StatResult :=
  match nodes cm with
  | [] => (cm, Err "no IPFS nodes in cluster")
  | n :: ns => let (c, r) := Stat (client n) cid in (set_nodes (mkNode c (URL n) :: ns) cm, r)
  end.

(** The node tried at each offset; the loop returns at the first success. *)
Fixpoint try_from (f : node -> node * result string string) (start : nat) (offsets : list nat)
  (ns : list ClusterNode) : list ClusterNode * result clusterErr string :=
  match offsets with
  | [] => (ns, Err NotAvailable)
  | offset :: offsets' =>
      let i := ((start + offset) mod length ns)%nat in
      match ns !! i with
      | None => (ns, Err NoNodes)
      | Some n =>
          let (c, r) := f (client n) in
          let ns' := <[i := mkNode c (URL n)]> ns in
          match r with
          | Ok v => (ns', Ok v)
          | Err _ => try_from f start offsets' ns'
          end
      end
  end.

(** [cm.readNext.Add(1) - 1] wraps like any [uint64]. *)
Definition try_fetch (f : node -> node * result string string) (cm : ClusterManager)
  : ClusterManager * result clusterErr string :=
  if (length (nodes cm) =? 0)%nat then (cm, Err NoNodes) else
  let next := uint64 (readNext cm + 1) in
  let start := Z.to_nat (uint64 (next - 1) mod Z.of_nat (length (nodes cm))) in
  let (ns, r) := try_from f start (seq 0 (length (nodes cm))) (nodes cm) in
  ({| nodes := ns; readNext := next |}, r).

Definition ClusterTryFetch (cid : string) (cm : ClusterManager) := try_fetch (fun n => Cat n cid) cm.
Definition ClusterTryFetchPath (cid filePath : string) (cm : ClusterManager) :=
  try_fetch (fun n => CatPath n cid filePath) cm.
Definition ClusterCat (cid : string) (cm : ClusterManager) :=
  if (length (nodes cm) =? 0)%nat then (cm, Err NoNodes) else ClusterTryFetch cid cm.

Definition NodeURLs (cm : ClusterManager) : list string := URL <$> nodes cm.

(** [NewCluster] keeps the nodes whose client could be made. *)
Definition NewCluster (nodeURLs : list string) (New : string -> option node) : ClusterManager :=
  {| nodes := omap (fun url => match New url with Some c => Some (mkNode c url) | None => None end)
                nodeURLs;
     readNext := 0 |}.

(** * Lemmas *)

Lemma on_all_spec {A} (f : ClusterNode -> node * A) ns :
  on_all f ns = ((fun n => mkNode (f n).1 (URL n)) <$> ns, (fun n => (f n).2) <$> ns).
Proof.
  induction ns as [|n ns IH]; [done|]. rewrite !fmap_cons. cbn [on_all]. rewrite IH. by destruct (f n).
Qed.

Lemma errors_none {A} (l : list (result string A)) :
  errors_of l = [] <-> l = Ok <$> values_of l.
Proof.
  induction l as [|[a|e] l IH]; [done| |]; unfold errors_of, values_of in *; cbn.
  - rewrite IH. split; [intros E; by f_equal|by intros [=]].
  - split; [done|]. intros E. symmetry in E. by apply fmap_cons_inv in E as (? & ? & ? & _).
Qed.

Lemma collect_None op n errs : collectClusterErrors op n errs = None <-> errs = [].
Proof. unfold collectClusterErrors. by destruct errs. Qed.

Lemma omap_id_nil {A} (l : list (option A)) : omap id l = [] <-> Forall (fun o => o = None) l.
Proof.
  induction l as [|[a|] l IH]; cbn.
  - split; [constructor|done].
  - split; [done|]. intros HF. inversion HF. done.
  - rewrite IH. split; [by constructor|by inversion 1].
Qed.

Lemma check_same_Ok ns results r : length ns = length results ->
  check_same ns results = Ok r <->
  head results = Some r /\ Forall (fun r' => CID r' = CID r) results.
Proof.
  intros Hlen. destruct results as [|r0 rest]; simpl; [by split; [|intros [? _]]|].
  destruct ns as [|n0 ns]; simpl in *; [done|]. injection Hlen as Hlen.
  destruct (list_find _ _) as [[i [n x]]|] eqn:HF.
  - split; [done|]. intros [[= ->] HA]. apply list_find_Some in HF as (Hi & Hne & _).
    simpl in Hne. apply lookup_zip_with_Some in Hi as (? & y & [= -> ->] & _ & Hy).
    apply Forall_cons in HA as [_ HA]. rewrite Forall_lookup in HA. by apply HA in Hy.
  - apply list_find_None in HF. split.
    + intros [= ->]. split; [done|]. constructor; [done|]. apply Forall_lookup. intros i y Hy.
      assert (is_Some (ns !! i)) as [n Hn].
      { apply lookup_lt_is_Some. rewrite Hlen. by eapply lookup_lt_Some. }
      rewrite Forall_lookup in HF. specialize (HF i (n, y)).
      apply dec_stable, HF. apply lookup_zip_with_Some. eauto.
    + by intros [[= ->] _].
Qed.

Lemma nodes_ne (cm : ClusterManager) : nodes cm <> [] -> (length (nodes cm) =? 0)%nat = false.
Proof. by destruct (nodes cm). Qed.

Lemma add_all_Ok op f cm cm' r : nodes cm <> [] ->
  add_all op f cm = (cm', Ok r) <->
  cm' = set_nodes ((fun n => mkNode (f n).1 (URL n)) <$> nodes cm) cm /\
  exists rs, (fun n => (f n).2) <$> nodes cm = Ok <$> rs /\ head rs = Some r /\
    Forall (fun r' => CID r' = CID r) rs.
Proof.
  intros Hne. unfold add_all. rewrite (nodes_ne _ Hne), on_all_spec.
  set (outs := (fun n => (f n).2) <$> nodes cm).
  assert (HV : forall rs, outs = Ok <$> rs -> values_of outs = rs /\ errors_of outs = []).
  { intros rs ->. clear. induction rs as [|x rs [IH1 IH2]]; [done|]. unfold values_of, errors_of in *.
    cbn. by rewrite IH1, IH2. }
  split.
  - intros [= <- HR]. split; [done|].
    destruct (collectClusterErrors _ _ _) eqn:HC; [done|]. apply collect_None, errors_none in HC.
    exists (values_of outs). split; [done|]. apply check_same_Ok in HR; [done|].
    rewrite <- (length_fmap (@Ok string AddResult) (values_of outs)), <- HC. unfold outs.
    by rewrite length_fmap.
  - intros [-> (rs & Ho & Hh & HF)]. f_equal. destruct (HV rs Ho) as [-> ->]. simpl.
    apply check_same_Ok; [|done]. apply (f_equal length) in Ho. unfold outs in Ho.
    by rewrite !length_fmap in Ho.
Qed.

Lemma run_all_None op f skip cm cm' : run_all op f skip cm = (cm', None) ->
  nodes cm' = (fun n => mkNode (if skip (URL n) then client n else (f (client n)).1) (URL n)) <$> nodes cm /\
  (forall n, n ∈ nodes cm -> skip (URL n) = false -> (f (client n)).2 = None).
Proof.
  unfold run_all. rewrite on_all_spec. intros [= <- HC]. split.
  - simpl. apply list_fmap_ext. intros i n _. by destruct (skip (URL n)).
  - intros n Hn Hs. apply collect_None, omap_id_nil in HC. rewrite Forall_forall in HC.
    specialize (HC (f (client n)).2). apply HC, list_elem_of_fmap. exists n. by rewrite Hs.
Qed.

Lemma attempts_inv (P : node -> Prop) f k e n n' :
  (forall m m', f m = (m', None) -> P m') -> attempts f k e n = (n', None) -> P n'.
Proof.
  intros HP. revert e n. induction k as [|k IH]; intros e n; simpl; [done|].
  destruct (f n) as [m [e'|]] eqn:Hf; [by apply IH|]. intros [= <-]. eauto.
Qed.

Lemma Pin_held `{!KuboLaws} n cid retries n' : Pin n cid retries = (n', None) ->
  exists q, parsePath cid = Some q /\ held n' q.
Proof.
  unfold Pin. destruct (parsePath cid) as [q|]; [|done]. intros HP. exists q. split; [done|].
  destruct (pin_is n q) as [m [[]|e]] eqn:HI.
  - injection HP as <-. by apply (pin_is_sound _ _ _ _ HI).
  - eapply (attempts_inv (fun m => held m q)), HP. intros a b Hab. by apply root_held, (pin_add_pins a).
  - eapply (attempts_inv (fun m => held m q)), HP. intros a b Hab. by apply root_held, (pin_add_pins a).
Qed.

Lemma omap_fmap_id {A B} (f : A -> option B) (l : list A) : omap f l = omap id (f <$> l).
Proof. induction l as [|a l IH]; [done|]. cbn. rewrite IH. by destruct (f a). Qed.

(** The rotation the read loop visits. *)
Lemma rotation {A} start (l : list A) :
  omap (fun o => l !! ((start + o) mod length l)%nat) (seq 0 (length l)) = rotate start l.
Proof.
  destruct (decide (length l = 0%nat)) as [E|E]; [apply length_zero_iff_nil in E as ->; unfold rotate; by rewrite drop_nil, take_nil|].
  rewrite omap_fmap_id.
  assert (HS : (fun o => l !! ((start + o) mod length l)%nat) <$> seq 0 (length l) =
               Some <$> rotate start l).
  { apply list_eq. intros i. rewrite !list_lookup_fmap.
    destruct (decide (i < length l)%nat) as [Hi|Hi].
    - rewrite lookup_seq_lt by done. simpl. rewrite lookup_rotate_r by done.
      unfold rotate_nat_add. rewrite <- Nat.Div0.add_mod_idemp_l.
      destruct (lookup_lt_is_Some_2 l ((start mod length l + i) mod length l)%nat) as [x Hx];
        [by apply Nat.mod_upper_bound|].
      replace (Z.to_nat _) with ((start mod length l + i) mod length l)%nat; [by rewrite Hx|].
      rewrite <- Nat2Z.inj_add, <- Nat2Z.inj_mod, Nat2Z.id. by rewrite Nat.Div0.add_mod_idemp_l.
    - rewrite lookup_seq_ge by lia. rewrite lookup_ge_None_2; [done|].
      rewrite length_rotate. lia. }
  rewrite HS. generalize (rotate start l). clear. induction l as [|x r IH]; [done|]. cbn.
  f_equal. exact IH.
Qed.

(** The first success among the nodes tried, in the order they are tried. *)
Definition first_ok (f : node -> node * result string string) (l : list ClusterNode)
  : result clusterErr string :=
  match values_of ((fun n => (f (client n)).2) <$> l) with
  | v :: _ => Ok v
  | [] => Err NotAvailable
  end.

Lemma try_from_first f start offs ns :
  NoDup ((fun o => (start + o) mod length ns)%nat <$> offs) ->
  (forall o, o ∈ offs -> is_Some (ns !! ((start + o) mod length ns)%nat)) ->
  (try_from f start offs ns).2 =
  first_ok f (omap (fun o => ns !! ((start + o) mod length ns)%nat) offs).
Proof.
  revert ns. induction offs as [|o offs IH]; intros ns HN HD; [done|].
  cbn [try_from]. destruct (HD o (list_elem_of_here _ _)) as [n Hn]. cbn. rewrite Hn.
  unfold first_ok. destruct (f (client n)) as [c [v|e]] eqn:Hf; cbn; rewrite Hf; [done|]. cbn.
  rewrite fmap_cons in HN. apply NoDup_cons in HN as [Hni HN].
  set (ns' := <[((start + o) mod length ns)%nat := mkNode c (URL n)]> ns).
  assert (HL : length ns' = length ns) by apply length_insert.
  assert (HE : forall o', o' ∈ offs ->
    ns' !! ((start + o') mod length ns)%nat = ns !! ((start + o') mod length ns)%nat).
  { intros o' Ho'. apply list_lookup_insert_ne. intros E. apply Hni, list_elem_of_fmap. eauto. }
  assert (HO : omap (fun o => ns' !! ((start + o) mod length ns)%nat) offs =
               omap (fun o => ns !! ((start + o) mod length ns)%nat) offs).
  { clear -HE. induction offs as [|o' offs IH]; [done|].
    cbn. rewrite HE by apply list_elem_of_here. rewrite IH; [done|].
    intros. apply HE. by apply list_elem_of_further. }
  rewrite IH; rewrite HL; [by rewrite HO|done|].
  - intros o' Ho'. rewrite HE by done. apply HD. by apply list_elem_of_further.
Qed.

Lemma shift_nodup len start k : (k <= len)%nat ->
  NoDup ((fun o => (start + o) mod len)%nat <$> seq 0 k).
Proof.
  intros Hk. apply NoDup_fmap_2_strong; [|apply NoDup_seq].
  intros a b [_ Ha]%elem_of_seq [_ Hb]%elem_of_seq. simpl in *. intros E.
  destruct (decide (len = 0)%nat); [lia|].
  pose proof (Nat.div_mod_eq (start + a) len). pose proof (Nat.div_mod_eq (start + b) len).
  rewrite E in *. set (q := ((start + a) / len)%nat) in *. set (p := ((start + b) / len)%nat) in *.
  set (r := ((start + b) mod len)%nat) in *.
  assert (q = p); [|lia]. destruct (Nat.lt_trichotomy q p) as [Hlt|[Heq|Hlt]]; [|done|].
  - assert (len * (q + 1) <= len * p)%nat by (apply Nat.mul_le_mono_l; lia). lia.
  - assert (len * (p + 1) <= len * q)%nat by (apply Nat.mul_le_mono_l; lia). lia.
Qed.

Lemma try_fetch_first f cm : nodes cm <> [] ->
  (try_fetch f cm).2 =
  first_ok f (rotate (Z.to_nat (uint64 (readNext cm) mod Z.of_nat (length (nodes cm)))) (nodes cm)).
Proof.
  intros Hne. unfold try_fetch. rewrite nodes_ne by done.
  replace (uint64 (uint64 (readNext cm + 1) - 1)) with (uint64 (readNext cm)).
  2:{ unfold uint64. rewrite Zminus_mod_idemp_l. f_equal. lia. }
  set (start := Z.to_nat _).
  pose proof (try_from_first f start (seq 0 (length (nodes cm))) (nodes cm)) as HT.
  destruct (try_from _ _ _ _) as [ns r]. simpl in *. rewrite HT.
  - by rewrite rotation.
  - by apply shift_nodup.
  - intros o _. apply lookup_lt_is_Some, Nat.mod_upper_bound. by destruct (nodes cm).
Qed.

Lemma first_ok_Ok f l : (exists v, first_ok f l = Ok v) <->
  exists n v, n ∈ l /\ (f (client n)).2 = Ok v.
Proof.
  unfold first_ok. induction l as [|n l IH]; cbn.
  - split; [by intros [? ?]|]. by intros (n & v & ?%not_elem_of_nil & _).
  - destruct (f (client n)).2 as [v|e] eqn:Hf; cbn.
    + split; [|eauto]. intros _. exists n, v. split; [apply list_elem_of_here|done].
    + etransitivity; [exact IH|]. split.
      * intros (m & v & Hm & Hv). exists m, v. split; [by apply list_elem_of_further|done].
      * intros (m & v & [->|Hm]%elem_of_cons & Hv); [congruence|eauto].
Qed.

Lemma run_all_URLs op f skip cm cm' e : run_all op f skip cm = (cm', e) ->
  NodeURLs cm' = NodeURLs cm.
Proof.
  unfold run_all, NodeURLs. rewrite on_all_spec. intros [= <- _]. simpl.
  rewrite <- list_fmap_compose. apply list_fmap_ext. done.
Qed.

Lemma replicated `{!KuboLaws} op cid g retries skip cm cm' :
  run_all op (then_ g (fun n => Pin n cid retries)) skip cm = (cm', None) ->
  forall n, n ∈ nodes cm' -> skip (URL n) = false ->
    exists q, parsePath cid = Some q /\ held (client n) q.
Proof.
  intros [HN HF]%run_all_None n Hn Hs. rewrite HN in Hn.
  apply list_elem_of_fmap in Hn as (m & -> & Hm). simpl in *. rewrite Hs in *.
  specialize (HF m Hm Hs). unfold then_ in *. destruct (g (client m)) as [c [e|]]; [done|].
  destruct (Pin c cid retries) as [c' o] eqn:HP. simpl in HF. subst o. by eapply Pin_held.
Qed.

(** ** Properties *)

(** What an upload that fails leaves behind: whatever [ClusterAddDir] answers, a node
    that took the files keeps them, pinned, under the identifier it gave them;
    nothing takes them back when another node fails or answers another identifier. *)
Theorem failed_add_lingers `{!KuboLaws} files cm i n n' c :
  nodes cm !! i = Some n -> add_dir (client n) files = (n', Ok c) ->
  exists kept q, nodes (ClusterAddDir files cm).1 !! i = Some kept /\ client kept = n' /\
    parsePath c = Some q /\ root_pin (client kept) q /\ held (client kept) q.
Proof.
  intros Hi Ha. destruct (add_dir_pins _ _ _ _ Ha) as (q & Hq & Hp). exists (mkNode n' (URL n)), q.
  assert (Hne : nodes cm <> []) by (intros E; rewrite E in Hi; by rewrite lookup_nil in Hi).
  split_and!; [|done|done|done|by apply root_held]. unfold ClusterAddDir, add_all.
  rewrite (nodes_ne _ Hne), on_all_spec. cbn [fst nodes set_nodes]. rewrite list_lookup_fmap, Hi. cbn.
  unfold AddDir. by rewrite Ha.
Qed.

(** C33. An upload reports success only when it is complete: [ClusterAdd] answers
    with an identifier only if every configured node has stored and pinned the
    payload under that identifier; when all nodes answer with one identifier it
    is reported, under the name given; and if any node fails, the upload fails. *)
Theorem cluster_add_everywhere `{!KuboLaws} filename payload cm :
  nodes cm <> [] ->
  let '(cm', res) := ClusterAdd filename (Some payload) cm in
  (forall r, res = Ok r -> Name r = filename /\ NodeURLs cm' = NodeURLs cm /\
     exists q, parsePath (CID r) = Some q /\ forall n, n ∈ nodes cm' -> root_pin (client n) q) /\
  (forall c, (forall n, n ∈ nodes cm -> (add_file (client n) payload).2 = Ok c) ->
     res = Ok (mkAddResult c filename)) /\
  (forall n e, n ∈ nodes cm -> (add_file (client n) payload).2 = Err e ->
     exists e', res = Err e').
Proof.
  intros Hne. unfold ClusterAdd. rewrite nodes_ne by done.
  destruct (add_all _ _ cm) as [cm' res] eqn:HA.
  assert (HAdd : forall n r, (Add n filename payload).2 = Ok r ->
    Name r = filename /\ add_file n payload = ((Add n filename payload).1, Ok (CID r))).
  { intros n r. unfold Add. destruct (add_file n payload) as [n' [c|e]]; [|done].
    by intros [= <-]. }
  split_and!.
  - intros r ->. apply add_all_Ok in HA as (-> & rs & Ho & Hh & HF); [|done].
    assert (HR : forall n, n ∈ nodes cm -> exists x, (Add (client n) filename payload).2 = Ok x /\ CID x = CID r /\ x ∈ rs).
    { intros n Hn. assert (Hx : (Add (client n) filename payload).2 ∈ Ok <$> rs)
        by (rewrite <- Ho; apply list_elem_of_fmap; eauto).
      apply list_elem_of_fmap in Hx as (x & Hx & Hin). exists x. rewrite Forall_forall in HF. auto. }
    destruct (nodes cm) as [|n0 ns0] eqn:Hnodes; [done|]. rewrite fmap_cons in Ho.
    destruct rs as [|r0 rs]; [done|]. injection Ho as Hr0 _. injection Hh as ->.
    destruct (HAdd _ _ Hr0) as [Hname Hadd0]. split; [done|]. split.
    { unfold NodeURLs. simpl. rewrite Hnodes. simpl. f_equal. rewrite <- list_fmap_compose.
      by apply list_fmap_ext. }
    destruct (add_file_pins _ _ _ _ Hadd0) as (q & Hq & _). exists q. split; [done|].
    intros n Hn. change (n ∈ (fun n => mkNode (Add (client n) filename payload).1 (URL n)) <$> n0 :: ns0) in Hn.
    apply list_elem_of_fmap in Hn as (m & -> & Hm). destruct (HR m Hm) as (x & Hx & Hc & _).
    destruct (HAdd _ _ Hx) as [_ Ha]. rewrite Hc in Ha.
    destruct (add_file_pins _ _ _ _ Ha) as (q' & Hq' & Hp). simpl. congruence.
  - intros c Hc. destruct (add_all_Ok "cluster add" (fun n => Add (client n) filename payload) cm
      (set_nodes ((fun n => mkNode (Add (client n) filename payload).1 (URL n)) <$> nodes cm) cm)
      (mkAddResult c filename) Hne) as [_ HB].
    rewrite HB in HA; [by injection HA as _ <-|]. split; [done|].
    exists ((fun _ => mkAddResult c filename) <$> nodes cm). split_and!.
    + rewrite <- list_fmap_compose. apply list_fmap_ext. intros k n Hk. simpl. unfold Add.
      specialize (Hc n (list_elem_of_lookup_2 _ _ _ Hk)).
      destruct (add_file _ _) as [n' r]. simpl in Hc. by subst.
    + by destruct (nodes cm).
    + apply Forall_fmap, Forall_true. done.
  - intros n e Hn He. destruct res as [r|e']; [|eauto]. exfalso.
    apply add_all_Ok in HA as (_ & rs & Ho & _); [|done].
    assert (Hx : (Add (client n) filename payload).2 ∈ Ok <$> rs)
      by (rewrite <- Ho; apply list_elem_of_fmap; eauto).
    apply list_elem_of_fmap in Hx as (x & Hx & _). destruct (HAdd _ _ Hx) as [_ Ha].
    rewrite Ha in He. done.
Qed.

(** A replication that reports success reached every node: after
    [ClusterReplicate] each node keeps the content, and after
    [ClusterPinAllExcept] each node but the ones under the skipped address does;
    no node is lost on the way. *)
Theorem replicate_everywhere `{!KuboLaws} cid retries skip cm cm1 cm2 :
  ClusterReplicate cid retries cm = (cm1, None) ->
  ClusterPinAllExcept cid skip retries cm1 = (cm2, None) ->
  nodes cm <> [] /\ NodeURLs cm1 = NodeURLs cm /\ NodeURLs cm2 = NodeURLs cm /\
  (forall n, n ∈ nodes cm1 -> exists q, parsePath cid = Some q /\ held (client n) q) /\
  (forall n, n ∈ nodes cm2 -> URL n <> skip ->
     exists q, parsePath cid = Some q /\ held (client n) q).
Proof.
  unfold ClusterReplicate, ClusterPinAllExcept. intros H1 H2.
  destruct (_ =? 0)%nat eqn:E; [done|]. pose proof (run_all_URLs _ _ _ _ _ _ H1) as HU1.
  pose proof (run_all_URLs _ _ _ _ _ _ H2) as HU2. split_and!; [|done|congruence| |].
  - intros En. by rewrite En in E.
  - intros n Hn. by apply (replicated _ _ _ _ _ _ _ H1).
  - intros n Hn Hs. apply (replicated _ _ _ _ _ _ _ H2); [done|]. by apply bool_decide_eq_false_2.
Qed.

(** Unpinning and checking are about every node: after a successful
    [ClusterUnpinAll] no node has its own pin of the content, and
    [ClusterIsPinnedAll] answers yes only for a non-empty cluster in which every
    node answered and keeps the content. *)
Theorem unpin_and_check_everywhere `{!KuboLaws} cid cm cm' cm2 b :
  ClusterUnpinAll cid cm = (cm', None) -> ClusterIsPinnedAll cid cm' = (cm2, b) ->
  (forall n, n ∈ nodes cm' -> exists q, parsePath cid = Some q /\ ~ root_pin (client n) q) /\
  (b = true -> nodes cm2 <> [] /\
     forall n, n ∈ nodes cm2 -> exists q, parsePath cid = Some q /\ held (client n) q).
Proof.
  intros [HN HF]%run_all_None HP. split.
  - intros n Hn. rewrite HN in Hn. apply list_elem_of_fmap in Hn as (m & -> & Hm). simpl.
    specialize (HF m Hm eq_refl). unfold Unpin in *. destruct (parsePath cid) as [q|]; [|done].
    exists q. split; [done|]. destruct (pin_rm (client m) q) as [c o] eqn:HR. simpl in *. subst o.
    by eapply pin_rm_unpins.
  - intros ->. unfold ClusterIsPinnedAll in HP. destruct (_ =? 0)%nat eqn:E; [done|].
    rewrite on_all_spec in HP. injection HP as <- HB. simpl. split.
    { intros En. apply fmap_nil_inv in En. by rewrite En in E. }
    intros n Hn. apply list_elem_of_fmap in Hn as (m & -> & Hm). simpl.
    rewrite forallb_forall in HB. specialize (HB (IsPinned (client m) cid).2).
    assert (Hin : (IsPinned (client m) cid).2 ∈ (fun n => (IsPinned (client n) cid).2) <$> nodes cm')
      by (apply list_elem_of_fmap; eauto).
    apply list_elem_of_In, HB in Hin. unfold IsPinned in *.
    destruct (parsePath cid) as [q|]; [|done]. exists q. split; [done|].
    destruct (pin_is (client m) q) as [c [b|e]] eqn:HI; simpl in *; [|done]. subst b.
    by apply (pin_is_sound _ _ _ _ HI).
Qed.

(** A read is served if any node can serve it: whatever the shared round-robin
    counter holds, also when it wraps around, the nodes are asked in cyclic order
    from its position, each at most once; the answer is that of the first node
    able to read the file, and the read fails only if no node is. *)
Theorem read_from_any_node cid filePath cm :
  nodes cm <> [] ->
  let order := rotate (Z.to_nat (uint64 (readNext cm) mod Z.of_nat (length (nodes cm)))) (nodes cm) in
  (ClusterTryFetch cid cm).2 = first_ok (fun n => Cat n cid) order /\
  (ClusterTryFetchPath cid filePath cm).2 = first_ok (fun n => CatPath n cid filePath) order /\
  ((exists v, (ClusterTryFetch cid cm).2 = Ok v) <->
   (exists n v, n ∈ nodes cm /\ (Cat (client n) cid).2 = Ok v)) /\
  readNext (ClusterTryFetch cid cm).1 = uint64 (readNext cm + 1).
Proof.
  intros Hne order. split_and!.
  - by apply try_fetch_first.
  - by apply try_fetch_first.
  - unfold ClusterTryFetch. rewrite try_fetch_first by done. rewrite first_ok_Ok.
    by setoid_rewrite elem_of_rotate.
  - unfold ClusterTryFetch, try_fetch. rewrite nodes_ne by done. by destruct (try_from _ _ _ _).
Qed.

End cluster.

(** ** [httpURLToMultiaddr]

    The host has no colon, so [net.ParseIP] accepts it exactly when it is a
    dotted IPv4 address. *)
Definition ipv4_field (s : string) : bool :=
  negb (bool_decide (s = "")) && forallb is_digit (chars s) &&
  negb (HasPrefix s "0" && (2 <=? String.length s)%nat) &&
  match read_digits 0 s with Some v => v <=? 255 | None => false end.
Definition is_ipv4 (host : string) : bool :=
  let parts := Split host "." in
  (length parts =? 4)%nat && forallb ipv4_field parts.

Definition httpURLToMultiaddr (rawURL : string) : string :=
  let rawURL := TrimPrefix rawURL "http://" in
  let rawURL := TrimPrefix rawURL "https://" in
  let '(host, port) := match Cut rawURL ":" with
                       | Some (h, p) => (h, TrimSuffix p "/")
                       | None => (rawURL, "5001")
                       end in
  (if is_ipv4 host then "/ip4/" else "/dns4/") +:+ host +:+ "/tcp/" +:+ port +:+ "/http".

Example multiaddrs :
  httpURLToMultiaddr "http://10.0.0.7:5001/" = "/ip4/10.0.0.7/tcp/5001/http" /\
  httpURLToMultiaddr "http://ipfs-bootstrap" = "/dns4/ipfs-bootstrap/tcp/5001/http" /\
  httpURLToMultiaddr "https://10.0.0.07:80" = "/dns4/10.0.0.07/tcp/80/http".
Proof. vm_compute. done. Qed.

(** ** Witnesses

    Nodes that are either up, with a set of pinned paths, or down. *)
Module Toy.

Record tnode := mkT { up : bool; pins : list string }.

#[local] Instance kubo : Kubo := {|
  node := tnode;
  new_path s := Some s;
  add_file n p := if up n then (mkT true (("/ipfs/Qm" +:+ p) :: pins n), Ok ("Qm" +:+ p))
                  else (n, Err "down");
  add_dir n d := if up n then (mkT true ("/ipfs/dir" :: pins n), Ok "dir") else (n, Err "down");
  pin_is n q := if up n then (n, Ok (bool_decide (q ∈ pins n))) else (n, Err "down");
  pin_add n q := if up n then (mkT true (q :: pins n), None) else (n, Some "down");
  pin_rm n q := if up n then (mkT true (filter (fun x => x <> q) (pins n)), None) else (n, Some "down");
  send_cat n q := if up n && bool_decide (q ∈ pins n) then (n, Ok q) else (n, Err "no");
  unixfs_get n q := if up n then (n, Ok (UDir [UFile None] (Some "EOF"))) else (n, Err "down");
  cid_parse s := Some s;
  dag_get n q := (n, Ok ([3; 4], Ok 0));
  root_pin n q := q ∈ pins n;
  held n q := q ∈ pins n
|}.

#[local] Instance kubo_laws : KuboLaws.
Proof.
  split; simpl.
  - done.
  - intros n p n' c. destruct (up n); [|done]. intros [= <- <-]. eexists. split; [done|]. by left.
  - intros n p n' c. destruct (up n); [|done]. intros [= <- <-]. eexists. split; [done|]. by left.
  - intros n q n' b. destruct (up n); [|done]. intros [= <- <-]. by rewrite bool_decide_eq_true.
  - intros n q n'. destruct (up n); [|done]. intros [= <-]. by left.
  - intros n q n'. destruct (up n); [|done]. intros [= <-]. simpl.
    by intros [? _]%list_elem_of_filter.
Qed.

Definition cm3 (a b c : bool) : ClusterManager :=
  {| nodes := [@mkNode kubo (mkT a ["/ipfs/Qmold"]) "n0"; @mkNode kubo (mkT b []) "n1"; @mkNode kubo (mkT c ["/ipfs/Qmx"]) "n2"];
     readNext := 2 ^ 64 - 1 |}.

Lemma cluster_add_everywhere_witness :
  (ClusterAdd "f" (Some "data") (cm3 true true true)).2 = Ok (mkAddResult "Qmdata" "f") /\
  exists e, (ClusterAdd "f" (Some "data") (cm3 true false true)).2 = Err e.
Proof.
  split.
  - apply (cluster_add_everywhere "f" "data" (cm3 true true true) ltac:(discriminate)).
    intros n Hn. repeat (apply elem_of_cons in Hn as [->|Hn]; [reflexivity|]).
    by apply not_elem_of_nil in Hn.
  - apply (cluster_add_everywhere "f" "data" (cm3 true false true) ltac:(discriminate))
      with (n := @mkNode kubo (mkT false []) "n1") (e := "down"); [|reflexivity].
    right. left.
Defined.

Lemma replicate_everywhere_witness :
  let cm1 := (ClusterReplicate "Qmx" 3 (cm3 true true true)).1 in
  (ClusterReplicate "Qmx" 3 (cm3 true true true)).2 = None /\
  (forall n, n ∈ nodes cm1 -> exists q, parsePath "Qmx" = Some q /\ held (client n) q).
Proof.
  intros cm1. split; [reflexivity|].
  apply (replicate_everywhere "Qmx" 3 "n1" (cm3 true true true) cm1
           (ClusterPinAllExcept "Qmx" "n1" 3 cm1).1); reflexivity.
Defined.

Lemma unpin_and_check_everywhere_witness :
  let cm1 := (ClusterUnpinAll "Qmx" (cm3 true true true)).1 in
  (forall n, n ∈ nodes cm1 -> exists q, parsePath "Qmx" = Some q /\ ~ root_pin (client n) q) /\
  (ClusterIsPinnedAll "Qmx" cm1).2 = false.
Proof.
  intros cm1. split; [|reflexivity].
  apply (unpin_and_check_everywhere "Qmx" (cm3 true true true) cm1
           (ClusterIsPinnedAll "Qmx" cm1).1 false); reflexivity.
Defined.

Lemma read_from_any_node_witness :
  (ClusterTryFetch "Qmx" (cm3 true true true)).2 = Ok "/ipfs/Qmx" /\
  (ClusterTryFetch "Qmold" (cm3 false true true)).2 = Err NotAvailable /\
  readNext (ClusterTryFetch "Qmx" (cm3 true true true)).1 = 0.
Proof.
  split; [reflexivity|]. split; [reflexivity|].
  exact (proj2 (proj2 (proj2 (read_from_any_node "Qmx" "f" (cm3 true true true) ltac:(discriminate))))).
Defined.

End Toy.
End Cluster.
