(* ===== verification/ClusterStorage.v ===== *)
(** The cluster behind the handlers: the manager of [Cluster] implements the reads of
    [Http.Storage], and what a bundle was added as is what is read of it. *)

From S2P Require Export Cluster Http.

Local Open Scope Z_scope.

Module ClusterStorage.
Import Http Cluster.

(** A name of a file in a directory: no path. *)
Definition plain_name (name : string) : bool :=
  negb (Contains name "/") && negb (bool_decide (name ∈ [""; "."; ".."])).

(** What the RPC interface documents of reads: a path names content, which is the same
    on every node and at all times; a read changes nothing a later read depends on;
    a file that was added is read under its identifier; and a directory has the files
    it was added with. *)
Class KuboReads `{Kubo} := {
  content : string -> string;
  cat_content n q n' v : send_cat n q = (n', Ok v) -> v = content q;
  cat_keeps n q p : is_ok (send_cat (send_cat n q).1 p).2 = is_ok (send_cat n p).2;
  add_file_serves n p n' c : add_file n p = (n', Ok c) ->
    exists q, new_path ("/ipfs/" +:+ c) = Some q /\ (send_cat n' q).2 = Ok p;
  add_dir_serves n files n' c name v : add_dir n files = (n', Ok c) ->
    files !! name = Some v -> plain_name name = true ->
    exists q, new_path ("/ipfs/" +:+ c +:+ "/" +:+ name) = Some q /\ (send_cat n' q).2 = Ok v
}.

(** And what it documents of the other operations: none but removing a pin takes
    content away. *)
Definition keeps `{Kubo} (n n' : node) : Prop :=
  forall q, is_ok (send_cat n q).2 = true -> is_ok (send_cat n' q).2 = true.
Class KuboKeeps `{Kubo} := {
  add_file_keeps n p : keeps n (add_file n p).1;
  add_dir_keeps n files : keeps n (add_dir n files).1;
  pin_is_keeps n q : keeps n (pin_is n q).1;
  pin_add_keeps n q : keeps n (pin_add n q).1;
  unixfs_get_keeps n q : keeps n (unixfs_get n q).1;
  dag_get_keeps n q : keeps n (dag_get n q).1
}.

Section reads.
Context `{HKu : Kubo}.

Definition answer (r : result clusterErr string) : option reader :=
  match r with Ok v => Some (mkReader v false) | Err _ => None end.

(** The cluster in a given state, as the handlers see it. *)
Definition storage_of (cm : ClusterManager) : Storage := {|
  Http.ClusterTryFetch cid := answer (ClusterTryFetch cid cm).2;
  Http.ClusterTryFetchPath cid path := answer (ClusterTryFetchPath cid path cm).2
|}.

(** * Specification *)

(** A read of a handler, and a sequence of reads by any number of them. *)
Inductive read := File (cid : string) | Path (cid filePath : string).

Definition fetch (s : Storage) (r : read) : option reader :=
  match r with
  | File cid => @Http.ClusterTryFetch s cid
  | Path cid path => @Http.ClusterTryFetchPath s cid path
  end.

Definition do_read (cm : ClusterManager) (r : read) : ClusterManager * option reader :=
  match r with
  | File cid => let '(cm', v) := ClusterTryFetch cid cm in (cm', answer v)
  | Path cid path => let '(cm', v) := ClusterTryFetchPath cid path cm in (cm', answer v)
  end.

Fixpoint do_reads (rs : list read) (cm : ClusterManager) : ClusterManager * list (option reader) :=
  match rs with
  | [] => (cm, [])
  | r :: rs' =>
      let '(cm1, a) := do_read cm r in
      let '(cm2, l) := do_reads rs' cm1 in (cm2, a :: l)
  end.

(** [Handler.replicateAsync]: the detached replication, whose error is only logged. *)
Definition replicateAsync (retries : Z) (cid : string) (cm : ClusterManager) : ClusterManager :=
  (ClusterReplicate cid retries cm).1.

(** What else the service asks of its cluster: everything but unpinning. *)
Inductive event :=
| Reads (r : read)
| Adds (filename : string) (payload : option string)
| AddsDir (files : gmap string string)
| Replicates (cid : string) (retries : Z)
| PinsExcept (cid skipURL : string) (retries : Z)
| Stats (cid : string)
| ChecksPins (cid : string).

Definition do_event (cm : ClusterManager) (ev : event) : ClusterManager :=
  match ev with
  | Reads r => (do_read cm r).1
  | Adds filename payload => (ClusterAdd filename payload cm).1
  | AddsDir files => (ClusterAddDir files cm).1
  | Replicates cid retries => replicateAsync retries cid cm
  | PinsExcept cid skipURL retries => (ClusterPinAllExcept cid skipURL retries cm).1
  | Stats cid => (ClusterStat cid cm).1
  | ChecksPins cid => (ClusterIsPinnedAll cid cm).1
  end.

Definition do_events : list event -> ClusterManager -> ClusterManager := fun evs cm => fold_left do_event evs cm.

(** * Lemmas *)

(** The path a read sends. *)
Definition path_of (r : read) : option string :=
  match r with
  | File cid => parsePath cid
  | Path cid path => new_path ("/ipfs/" +:+ cid +:+ "/" +:+ path)
  end.

Definition serves (n : node) (q : string) : bool := is_ok (send_cat n q).2.

(** Some node of the cluster answers for the path. *)
Definition available (cm : ClusterManager) (q : string) : bool := existsb (fun n => serves (client n) q) (nodes cm).

Lemma fetch_do cm r : fetch (storage_of cm) r = (do_read cm r).2.
Proof. destruct r as [cid|cid path]; cbn; [by destruct (ClusterTryFetch _ _)|by destruct (ClusterTryFetchPath _ _ _)]. Qed.

Lemma values_ok {A} (l : list (result string A)) v : v ∈ values_of l <-> Ok v ∈ l.
Proof.
  unfold values_of. rewrite list_elem_of_omap. split.
  - intros ([x|] & Hin & Hx); [|done]. by injection Hx as ->.
  - intros Hin. by exists (Ok v).
Qed.

Section laws.
Context `{HR : !KuboReads}.

(** One answer for all the rotations: the content, when some node has it. *)
Lemma try_fetch_content f q cm :
  (forall n, is_ok (f n).2 = serves n q) -> (forall n v, (f n).2 = Ok v -> v = content q) ->
  answer (try_fetch f cm).2 = if available cm q then Some (mkReader (content q) false) else None.
Proof.
  intros Hok Hv. destruct (decide (nodes cm = [])) as [E|E].
  { unfold try_fetch, available. by rewrite E. }
  rewrite try_fetch_first by done. set (order := rotate _ _).
  destruct (available cm q) eqn:HA.
  - apply existsb_exists in HA as (n & Hn & HS). apply list_elem_of_In in Hn.
    assert (HF : exists v, first_ok f order = Ok v).
    { apply first_ok_Ok. rewrite <- Hok in HS. destruct (f (client n)).2 as [v|] eqn:Hf; [|done].
      exists n, v. split; [by apply elem_of_rotate|done]. }
    destruct HF as [v HF]. rewrite HF. cbn. do 2 f_equal. unfold first_ok in HF.
    destruct (values_of _) as [|x l] eqn:HVs; [done|]. injection HF as ->.
    assert (Hin : Ok v ∈ (fun n => (f (client n)).2) <$> order) by (apply values_ok; rewrite HVs; apply list_elem_of_here).
    apply list_elem_of_fmap in Hin as (m & Hm & _). by eapply Hv.
  - destruct (first_ok f order) as [v|] eqn:HF; [|done]. exfalso.
    destruct (proj1 (first_ok_Ok f order)) as (n & x & Hn & Hx); [by eexists|].
    assert (existsb (fun n => serves (client n) q) (nodes cm) = true); [|unfold available in HA; congruence].
    apply existsb_exists. exists n. split; [apply list_elem_of_In; by apply elem_of_rotate in Hn|].
    by rewrite <- Hok, Hx.
Qed.

(** Nodes that change one at a time or all at once, each along a relation. *)
Section along.
Context (R : node -> node -> Prop) `{HPr : !PreOrder R}.

Definition along : list ClusterNode -> list ClusterNode -> Prop := Forall2 (fun n n' => R (client n) (client n')).

#[export] Instance along_preorder : PreOrder along.
Proof.
  assert (PreOrder (fun n n' => R (client n) (client n'))) by (split; [by intros n|]; intros x y z; apply HPr).
  apply _.
Qed.

Lemma try_from_along {f : node -> node * result string string} start offs ns : (forall n, R n (f n).1) ->
  along ns (try_from f start offs ns).1.
Proof.
  intros Hf. revert ns. induction offs as [|o offs IH]; intros ns; cbn [try_from]; [done|].
  set (i := (_ mod _)%nat). destruct (ns !! i) as [n|] eqn:Hn; [|done].
  destruct (f (client n)) as [c r] eqn:HF.
  assert (HI : along ns (<[i := mkNode c (URL n)]> ns)).
  { apply Forall2_same_length_lookup. split; [by rewrite length_insert|]. intros j x y Hx Hy.
    destruct (decide (i = j)) as [->|Hne].
    - rewrite list_lookup_insert_eq in Hy by by eapply lookup_lt_Some. injection Hy as <-.
      rewrite Hn in Hx. injection Hx as <-. cbn. specialize (Hf (client n)). by rewrite HF in Hf.
    - rewrite list_lookup_insert_ne in Hy by done. rewrite Hx in Hy. by injection Hy as <-. }
  destruct r as [v|e]; [exact HI|]. cbn [fst]. etrans; [exact HI|apply IH].
Qed.

Lemma on_all_along {A} (f : ClusterNode -> node * A) ns : (forall n, R (client n) (f n).1) -> along ns (on_all f ns).1.
Proof.
  intros Hf. rewrite on_all_spec. cbn [fst]. induction ns as [|n ns IH]; [constructor|].
  rewrite fmap_cons. constructor; [apply Hf|exact IH].
Qed.

Lemma try_fetch_along f cm : (forall n, R n (f n).1) -> along (nodes cm) (nodes (try_fetch f cm).1).
Proof.
  intros Hf. unfold try_fetch. destruct (_ =? 0)%nat; [done|]. cbn zeta.
  pose proof (try_from_along (Z.to_nat (uint64 (uint64 (readNext cm + 1) - 1) mod Z.of_nat (length (nodes cm))))
    (seq 0 (length (nodes cm))) (nodes cm) Hf) as HT.
  by destruct (try_from _ _ _ _).
Qed.

Lemma run_all_along op f skip cm : (forall n, R n (f n).1) -> along (nodes cm) (nodes (run_all op f skip cm).1).
Proof.
  intros Hf. unfold run_all.
  pose proof (on_all_along (fun n => if skip (URL n) then (client n, None) else f (client n)) (nodes cm)) as HO.
  destruct (on_all _ _) as [ns l]. apply HO. intros n. by destruct (skip (URL n)).
Qed.

Lemma add_all_along op f cm : (forall n, R (client n) (f n).1) -> along (nodes cm) (nodes (add_all op f cm).1).
Proof.
  intros Hf. unfold add_all. destruct (_ =? 0)%nat; [done|].
  pose proof (on_all_along f (nodes cm) Hf) as HO. by destruct (on_all _ _) as [ns l].
Qed.

Lemma attempts_along f k e n : (forall n, R n (f n).1) -> R n (attempts f k e n).1.
Proof.
  intros Hf. revert e n. induction k as [|k IH]; intros e n; cbn [attempts]; [done|].
  specialize (Hf n). destruct (f n) as [n' [e'|]]; [|done]. etrans; [exact Hf|apply IH].
Qed.

Lemma then_along f g n : (forall n, R n (f n).1) -> (forall n, R n (g n).1) -> R n (then_ f g n).1.
Proof. intros Hf Hg. unfold then_. specialize (Hf n). destruct (f n) as [n' [e|]]; [done|]. etrans; [exact Hf|apply Hg]. Qed.
End along.

(** A node that answers the same as before, and one that answers what it did. *)
Definition same_answers (n n' : node) : Prop := forall q, serves n' q = serves n q.
#[local] Instance same_answers_preorder : PreOrder same_answers.
Proof. split; [by intros n q|]. intros x y z Hxy Hyz q. by rewrite Hyz, Hxy. Qed.

Lemma available_same ns ns' q : along same_answers ns ns' ->
  existsb (fun n => serves (client n) q) ns' = existsb (fun n => serves (client n) q) ns.
Proof. induction 1 as [|n n' ns ns' Hn _ IH]; [done|]. cbn. by rewrite IH, Hn. Qed.

(** A read, on its path: the answer, and that it leaves every availability. *)
Lemma do_read_spec cm r :
  (do_read cm r).2 = match path_of r with
                     | Some q => if available cm q then Some (mkReader (content q) false) else None
                     | None => None
                     end /\
  forall q, available (do_read cm r).1 q = available cm q.
Proof.
  assert (HG : forall f p, (forall n, f n = match p with None => (n, Err "") | Some q => send_cat n q end \/
      p = None /\ exists e, f n = (n, Err e)) ->
    answer (try_fetch f cm).2 = match p with
      | Some q => if available cm q then Some (mkReader (content q) false) else None | None => None end /\
    forall q, available (try_fetch f cm).1 q = available cm q).
  { intros f p Hf. split.
    - destruct p as [q|].
      + apply try_fetch_content.
        * intros n. by destruct (Hf n) as [->|[? _]].
        * intros n v. destruct (Hf n) as [->|[? _]]; [|done]. intros Hv.
          eapply (cat_content n q). by rewrite (surjective_pairing (send_cat n q)), Hv.
      + destruct (decide (nodes cm = [])) as [E|E]; [unfold try_fetch; by rewrite E|].
        rewrite try_fetch_first by done. destruct (first_ok _ _) as [v|] eqn:HF; [|done]. exfalso.
        destruct (proj1 (first_ok_Ok f _) (ex_intro _ v HF)) as (n & x & _ & Hx).
        by destruct (Hf (client n)) as [HE|[_ [e HE]]]; rewrite HE in Hx.
    - intros q. apply available_same, try_fetch_along; [apply _|]. intros n q'. destruct (Hf n) as [HE|[_ [e HE]]]; rewrite HE; [|done]. destruct p as [q0|]; [|done].
      apply cat_keeps. }
  destruct r as [cid|cid path]; cbn [do_read path_of].
  - destruct (HG (fun n => Cat n cid) (parsePath cid)) as [H1 H2].
    { intros n. unfold Cat. destruct (parsePath cid); [by left|right; by eauto]. }
    unfold ClusterTryFetch. by destruct (try_fetch _ _).
  - destruct (HG (fun n => CatPath n cid path) (new_path ("/ipfs/" +:+ cid +:+ "/" +:+ path))) as [H1 H2].
    { intros n. unfold CatPath. destruct (new_path _); [by left|right; by eauto]. }
    unfold ClusterTryFetchPath. by destruct (try_fetch _ _).
Qed.

(** Reads leave the storage as it was. *)
Lemma read_keeps cm r x : fetch (storage_of (do_read cm r).1) x = fetch (storage_of cm) x.
Proof.
  rewrite !fetch_do, !(proj1 (do_read_spec _ _)).
  destruct (path_of x) as [q|]; [|done]. by rewrite (proj2 (do_read_spec cm r) q).
Qed.

Lemma reads_keep rs cm x : fetch (storage_of (do_reads rs cm).1) x = fetch (storage_of cm) x.
Proof.
  revert cm. induction rs as [|r rs IH]; intros cm; cbn [do_reads]; [done|].
  pose proof (read_keeps cm r x) as HK1. destruct (do_read cm r) as [cm1 a]. specialize (IH cm1).
  destruct (do_reads rs cm1) as [cm2 l]. cbn [fst] in *. by rewrite IH.
Qed.

(** *** The other operations *)
Section background.
Context `{HKe : !KuboKeeps}.

#[local] Instance keeps_preorder : PreOrder keeps.
Proof. split; [by intros n q|]. intros x y z Hxy Hyz q HQ. by apply Hyz, Hxy. Qed.

Lemma Cat_keeps n cid : keeps n (Cat n cid).1.
Proof. unfold Cat. destruct (parsePath cid) as [q|]; [|done]. intros p HQ. by rewrite cat_keeps. Qed.

Lemma CatPath_keeps n cid path : keeps n (CatPath n cid path).1.
Proof. unfold CatPath. destruct (new_path _) as [q|]; [|done]. intros p HQ. by rewrite cat_keeps. Qed.

Lemma Fetch_keeps n cid : keeps n (Fetch n cid).1.
Proof.
  unfold Fetch. destruct (parsePath cid) as [q|]; [|done].
  pose proof (unixfs_get_keeps n q) as HG. by destruct (unixfs_get n q) as [n' []].
Qed.

Lemma Pin_keeps n cid retries : keeps n (Pin n cid retries).1.
Proof.
  unfold Pin. destruct (parsePath cid) as [q|]; [|done].
  pose proof (pin_is_keeps n q) as HI. destruct (pin_is n q) as [n' r]. cbn [fst] in HI.
  assert (HAt : keeps n (attempts (fun n => pin_add n q) (Z.to_nat retries) "" n').1).
  { etrans; [exact HI|]. apply attempts_along; [apply _|]. intros m. apply pin_add_keeps. }
  by destruct r as [[|]|].
Qed.

Lemma Stat_keeps n cid : keeps n (Stat n cid).1.
Proof.
  unfold Stat, cumulativeSize. destruct (cid_parse cid) as [c|]; [|done].
  pose proof (dag_get_keeps n c) as HD. destruct (dag_get n c) as [n' [[links own]|]]; [|done].
  by destruct (length links =? 0)%nat; [destruct own|].
Qed.

Lemma IsPinned_keeps n cid : keeps n (IsPinned n cid).1.
Proof.
  unfold IsPinned. destruct (parsePath cid) as [q|]; [|done].
  pose proof (pin_is_keeps n q) as HI. by destruct (pin_is n q) as [n' []].
Qed.

Lemma do_event_keeps cm ev : along keeps (nodes cm) (nodes (do_event cm ev)).
Proof.
  destruct ev as [[cid|cid path]|name payload|files|cid retries|cid url retries|cid|cid]; cbn [do_event do_read].
  - pose proof (try_fetch_along keeps (fun n => Cat n cid) cm (fun n => Cat_keeps n cid)) as HT.
    unfold ClusterTryFetch. by destruct (try_fetch _ cm).
  - pose proof (try_fetch_along keeps (fun n => CatPath n cid path) cm (fun n => CatPath_keeps n cid path)) as HT.
    unfold ClusterTryFetchPath. by destruct (try_fetch _ cm).
  - unfold ClusterAdd. destruct (_ =? 0)%nat; [done|]. destruct payload as [x|]; [|done].
    apply add_all_along; [apply _|]. intros n. unfold Add.
    pose proof (add_file_keeps (client n) x) as HA. by destruct (add_file _ _) as [? []].
  - unfold ClusterAddDir. apply add_all_along; [apply _|]. intros n. unfold AddDir.
    pose proof (add_dir_keeps (client n) files) as HA. by destruct (add_dir _ _) as [? []].
  - unfold replicateAsync, ClusterReplicate. destruct (_ =? 0)%nat; [done|].
    apply run_all_along; [apply _|]. intros n. apply then_along; [apply _| |intros; apply Pin_keeps].
    intros m. unfold fetchWithRetry. apply attempts_along; [apply _|]. intros; apply Fetch_keeps.
  - apply run_all_along; [apply _|]. intros n. apply then_along; [apply _| |]; intros; [apply Fetch_keeps|apply Pin_keeps].
  - unfold ClusterStat. destruct cm as [[|n ns] rn]; [done|]. cbn [nodes].
    pose proof (Stat_keeps (client n) cid) as HS. destruct (Stat (client n) cid) as [c r]. constructor; [exact HS|].
    change (along keeps ns ns). done.
  - unfold ClusterIsPinnedAll. destruct (_ =? 0)%nat; [done|].
    pose proof (on_all_along keeps (fun n => IsPinned (client n) cid) (nodes cm)) as HO.
    destruct (on_all _ _) as [ns l]. apply HO. intros n. apply IsPinned_keeps.
Qed.

Lemma do_events_keep evs cm : along keeps (nodes cm) (nodes (do_events evs cm)).
Proof.
  revert cm. induction evs as [|ev evs IH]; intros cm; [done|].
  etrans; [apply do_event_keeps|apply (IH (do_event cm ev))].
Qed.

(** What is read once is read the same for good, whatever the cluster is asked. *)
Lemma read_stays evs cm r v : fetch (storage_of cm) r = Some v ->
  fetch (storage_of (do_events evs cm)) r = Some v.
Proof.
  rewrite !fetch_do, !(proj1 (do_read_spec _ _)). destruct (path_of r) as [q|]; [|done].
  destruct (available cm q) eqn:HAv; [|done]. intros [= <-].
  assert (HAv' : available (do_events evs cm) q = true); [|by rewrite HAv'].
  pose proof (do_events_keep evs cm) as HKs. unfold available in *.
  apply existsb_exists in HAv as (n & Hn & HQ). apply list_elem_of_In, list_elem_of_lookup in Hn as [i Hi].
  destruct (Forall2_lookup_l _ _ _ _ _ HKs Hi) as (n' & Hi' & HKn).
  apply existsb_exists. exists n'. split; [by apply list_elem_of_In, list_elem_of_lookup; exists i|]. by apply HKn.
Qed.

End background.

(** What every node has added alike is read back, wherever the rotation has come to. *)
Lemma added_is_read_at op f cm cm' r rd v : nodes cm <> [] -> add_all op f cm = (cm', Ok r) ->
  (forall n n' x, f n = (n', Ok x) -> exists q, path_of (rd (CID x)) = Some q /\ (send_cat n' q).2 = Ok v) ->
  fetch (storage_of cm') (rd (CID r)) = Some (mkReader v false).
Proof.
  intros Hne HA Hf. apply add_all_Ok in HA as (-> & rs & Ho & Hh & _); [|done].
  destruct (nodes cm) as [|n0 ns0] eqn:E; [done|]. destruct rs as [|r0 rs]; [done|].
  injection Hh as ->. rewrite fmap_cons in Ho. injection Ho as Ho _.
  destruct (f n0) as [n' o] eqn:HD. cbn [snd] in Ho. subst o. destruct (Hf n0 n' r HD) as (q & Hq & Hv).
  rewrite fetch_do, (proj1 (do_read_spec _ _)), Hq.
  assert (HAv : available (set_nodes ((fun n => mkNode (f n).1 (URL n)) <$> n0 :: ns0) cm) q = true).
  { unfold available. rewrite fmap_cons. cbn. rewrite HD. unfold serves at 1. cbn. by rewrite Hv. }
  rewrite HAv. do 2 f_equal. symmetry. eapply (cat_content n' q). by rewrite (surjective_pairing (send_cat n' q)), Hv.
Qed.

(** What was added as a directory is read back, each file under its name. *)
Lemma added_is_read files cm cm' r name v : nodes cm <> [] ->
  ClusterAddDir files cm = (cm', Ok r) -> files !! name = Some v -> plain_name name = true ->
  fetch (storage_of cm') (Path (CID r) name) = Some (mkReader v false).
Proof.
  intros Hne HA Hn Hp. apply (added_is_read_at _ _ _ _ _ (fun c => Path c name) v Hne HA).
  intros n n' x. unfold AddDir. destruct (add_dir (client n) files) as [m [c|e]] eqn:HD; [|done].
  intros [= <- <-]. by apply (add_dir_serves (client n) files).
Qed.

(** And what was added as a file, under its identifier. *)
Lemma added_file_is_read name v cm cm' r : ClusterAdd name (Some v) cm = (cm', Ok r) ->
  fetch (storage_of cm') (File (CID r)) = Some (mkReader v false).
Proof.
  unfold ClusterAdd. destruct (nodes cm) as [|n0 ns0] eqn:E; [done|]. cbn [length Nat.eqb]. intros HA.
  assert (Hne : nodes cm <> []) by (by rewrite E).
  apply (added_is_read_at _ _ _ _ _ File v Hne HA).
  intros n n' x. unfold Add. destruct (add_file (client n) v) as [m [c|e]] eqn:HD; [|done].
  intros [= <- <-]. by apply (add_file_serves (client n) v).
Qed.

(** ** Properties *)

(** C32. The cluster is the storage the handlers are verified against: whatever reads any
    number of handlers make, in whatever order and from whatever node the rotation
    has come to, each is answered as if it were the only one, and the storage they
    leave is the storage they found. *)
Theorem cluster_is_storage rs cm :
  let '(cm', answers) := do_reads rs cm in
  answers = fetch (storage_of cm) <$> rs /\
  forall r, fetch (storage_of cm') r = fetch (storage_of cm) r.
Proof.
  destruct (do_reads rs cm) as [cm' answers] eqn:HD. split.
  - revert cm cm' answers HD. induction rs as [|r rs IH]; intros cm cm' answers HD; [by injection HD as <- <-|].
    cbn [do_reads] in HD. pose proof (read_keeps cm r) as HS. pose proof (fetch_do cm r) as HF.
    destruct (do_read cm r) as [cm1 a]. destruct (do_reads rs cm1) as [cm2 l] eqn:HD'.
    injection HD as <- <-. rewrite (IH _ _ _ HD'), fmap_cons. cbn [fst snd] in *. f_equal; [done|].
    apply list_fmap_ext. intros i x _. apply HS.
  - intros x. replace cm' with (do_reads rs cm).1 by by rewrite HD. apply reads_keep.
Qed.

End laws.
End reads.

(** ** A cluster that meets the documentation

    A directory's identifier spells the directory, as a real one spells its hash; a
    node holds the directories it was given and answers while it is up. *)
Module Toy.

Fixpoint bits (p : positive) : string :=
  match p with
  | xH => ""
  | xO p => String "0" (bits p)
  | xI p => String "1" (bits p)
  end.
Fixpoint unbits (s : string) : positive :=
  match s with
  | EmptyString => xH
  | String c s => if bool_decide (c = "0"%char) then xO (unbits s) else xI (unbits s)
  end.

Definition spell (files : gmap string string) : string := "baf" +:+ bits (encode files).
Definition read_spelled (cid : string) : option (gmap string string) := s ← CutPrefix "baf" cid; decode (unbits s).

Lemma unbits_bits p : unbits (bits p) = p.
Proof. induction p as [p IH|p IH|]; cbn; by rewrite ?IH. Qed.

Lemma read_spell files : read_spelled (spell files) = Some files.
Proof.
  unfold read_spelled, spell. rewrite CutPrefix_app. cbn [mbind option_bind]. rewrite unbits_bits. apply decode_encode.
Qed.

Lemma spell_no_slash files : chr 47 ∉ chars (spell files).
Proof.
  assert (HB : forall p, chr 47 ∉ chars (bits p)).
  { intros p. induction p as [p IH|p IH|]; [..|by intros ?%not_elem_of_nil]; by intros [?|?]%elem_of_cons. }
  intros Hin. do 3 (apply elem_of_cons in Hin as [?|Hin]; [done|]). by eapply HB.
Qed.

Record tnode := mkT { up : bool; held_dirs : list string }.

(** The directory and the name in a path. *)
Definition split_path (q : string) : option (string * string) := r ← CutPrefix "/ipfs/" q; Cut r "/".
Definition path_content (q : string) : option string :=
  '(cid, name) ← split_path q; files ← read_spelled cid; files !! name.

Definition cat (n : tnode) (q : string) : tnode * result string string :=
  (n, match split_path q with
      | Some (cid, _) => if up n && bool_decide (cid ∈ held_dirs n) then of_option "no link" (path_content q) else Err "not found"
      | None => Err "not a file"
      end).

#[export] Instance kubo : Kubo := {|
  node := tnode;
  new_path s := Some s;
  add_file n p := (n, Err "read only");
  add_dir n files := if up n then (mkT true (spell files :: held_dirs n), Ok (spell files)) else (n, Err "down");
  pin_is n q := (n, Err "down"); pin_add n q := (n, Some "down"); pin_rm n q := (n, Some "down");
  send_cat := cat;
  unixfs_get n q := (n, Err "down"); cid_parse s := Some s; dag_get n q := (n, Err "down");
  root_pin n q := False; held n q := False
|}.

#[export] Instance reads_ok : KuboReads.
Proof.
  refine {| content q := default "" (path_content q) |}.
  - intros n q n' v. change (cat n q = (n', Ok v) -> v = default "" (path_content q)). unfold cat. destruct (split_path q) as [[cid name]|]; [|done].
    destruct (up n && _); [|done]. intros HV. injection HV as _ HV. destruct (path_content q) as [x|]; cbn in HV;
      [by injection HV as <-|discriminate HV].
  - done.
  - done.
  - intros n files n' c name v. cbn. destruct (up n) eqn:HU; [|done]. intros [= <- <-] Hn _.
    set (q := "/ipfs/" +:+ spell files +:+ "/" +:+ name). exists q. split; [done|].
    change ((cat (mkT true (spell files :: held_dirs n)) q).2 = Ok v).
    assert (HS : split_path q = Some (spell files, name)).
    { unfold split_path, q. rewrite CutPrefix_app. cbn [mbind option_bind].
      exact (Cut_first (chr 47) "" (spell files) name (spell_no_slash files)). }
    unfold cat, path_content. rewrite HS. cbn [mbind option_bind up held_dirs].
    rewrite bool_decide_eq_true_2 by apply list_elem_of_here. cbn [andb].
    rewrite read_spell. cbn. by rewrite Hn.
Defined.

Lemma cat_monotone n d q : is_ok (cat n q).2 = true -> is_ok (cat (mkT (up n) (d ++ held_dirs n)) q).2 = true.
Proof.
  unfold cat. destruct (split_path q) as [[cid name]|]; [|done]. cbn [up held_dirs].
  destruct (up n); [|done]. case_bool_decide; [|done]. cbn [andb].
  rewrite bool_decide_eq_true_2 by by apply elem_of_app; right. by destruct (path_content q).
Qed.

#[export] Instance keeps_ok : KuboKeeps.
Proof.
  split; [by intros ? ? ? ?| |by intros ? ? ? ?..]. intros n files q HQ.
  change (is_ok (cat (if up n then (mkT true (spell files :: held_dirs n), Ok (spell files))
    else (n, Err "down" : result string string)).1 q).2 = true). destruct (up n) eqn:HU; [|exact HQ].
  apply (cat_monotone n [spell files]) in HQ. by rewrite HU in HQ.
Qed.

Definition cluster (a b : bool) : ClusterManager :=
  mkManager [@mkNode kubo (mkT a []) "n0"; @mkNode kubo (mkT b []) "n1"] (2 ^ 64 - 1).
Definition files : gmap string string := {[ "original" := "a picture"; "blur.jpg" := "a blur" ]}.

Lemma cluster_is_storage_witness :
  let cm := (ClusterAddDir files (cluster true true)).1 in
  let reads := [Path (spell files) "original"; Path (spell files) "none"; File (spell files); Path (spell files) "blur.jpg"] in
  (do_reads reads cm).2 = [Some (mkReader "a picture" false); None; None; Some (mkReader "a blur" false)] /\
  (do_reads reads cm).2 = fetch (storage_of cm) <$> reads.
Proof.
  intros cm reads. split; [by_vm|]. pose proof (cluster_is_storage reads cm) as HS.
  destruct (do_reads reads cm) as [cm' answers]. exact (proj1 HS).
Defined.

End Toy.
End ClusterStorage.
