(* ===== verification/Config.v ===== *)
(** [internal/config/config.go]: the configuration read from the environment.
    [env] is [os.Getenv]; floats and durations are left to their parsers. *)

From S2P Require Export GoStrings.

Local Open Scope Z_scope.

Module Config.

Record ImageVariant := mkVariant { Key : string; Width : Z; Height : Z; VMode : string }.

Definition PrivacyBlurVariantKey : string := "blur".
Definition PrivacyFaceBlurVariantKey : string := "blur_faces".

(** [float64] values with the literals the source writes, the comparisons and
    [strconv.ParseFloat]; [time.ParseDuration] in nanoseconds. *)
Class Numbers := {
  float64 : Type;
  float_lit : string -> float64;
  float_lt : float64 -> float64 -> bool;
  float_le : float64 -> float64 -> bool;
  ParseFloat : string -> option float64;
  ParseDuration : string -> option Z
}.

Section config.
Context `{Numbers}.

Record ImagePrivacyConfig := mkPrivacy {
  BlurRadius : Z;
  FaceBlurRadius : Z;
  FaceDetectionMaxDimension : Z;
  FaceDetectionScoreThreshold : float64;
  FaceDetectionNMSThreshold : float64
}.

Definition DefaultImagePrivacyConfig : ImagePrivacyConfig :=
  mkPrivacy 24 16 1280 (float_lit "0.8") (float_lit "0.3").

Definition clampInt (value min max : Z) : Z :=
  if value <? min then min else if max <? value then max else value.

Definition clampFloat (value min max : float64) : float64 :=
  if float_lt value min then min else if float_lt max value then max else value.

Record ImageConfig := mkImageConfig {
  ProcessingEnabled : bool;
  Variants : list ImageVariant;
  OutputFormat : string;
  JPEGProgressive : bool;
  JPEGQuality : Z;
  WebPQuality : Z;
  ResizePolicy : string;
  Privacy : ImagePrivacyConfig
}.

Record VideoConfig := mkVideoConfig {
  MaxDurationSec : Z;
  MaxSizeBytes : Z;
  SegmentDurationSec : Z;
  Bitrates : list string;
  FFmpegPath : string;
  FFprobePath : string;
  TempDir : string;
  ThumbnailVariants : list ImageVariant;
  ThumbnailTimeSec : float64;
  ThumbnailQScale : Z
}.

Record UploadConfig := mkUploadConfig {
  MaxFileSize : Z;
  MaxRequestSize : Z;
  DailyBytesPerSession : Z;
  AllowedExtensions : list string;
  AllowedMimeTypes : list string
}.

Record IPFSConfig := mkIPFS {
  LocalURL : string; ClusterNodes : list string; ManifestCacheBytes : Z; FileCacheBytes : Z }.
Record UnpinConfig := mkUnpin { TTL : Z; GCInterval : Z; StorePath : string }.
Record AuthConfig := mkAuth {
  LuaScript : string; LuaTimeoutMs : Z; LuaEnvWhitelist : string; LuaMaxMemoryMB : Z }.
Record MediaAccessConfig := mkMediaAccess {
  AllowUnmanaged : bool; URL : string; LinkURL : string; TimeoutMs : Z }.
Record MediaGrantConfig := mkMediaGrant {
  Enabled : bool; ActiveKey : string; Audience : string; Keys : string; RedisURL : string;
  Namespace : string }.

Record Config := mkConfig {
  ServerPort : string;
  IPFS : IPFSConfig;
  APIKeys : list string;
  Upload : UploadConfig;
  Image : ImageConfig;
  PinningRetries : Z;
  PinningRetryDelayMs : Z;
  Unpin : UnpinConfig;
  CORSOrigins : list string;
  CORSHeaders : list string;
  Video : VideoConfig;
  Auth : AuthConfig;
  MediaAccess : MediaAccessConfig;
  MediaGrants : MediaGrantConfig;
  RateRPS : float64;
  RateBurst : Z
}.

Definition NormalizeImagePrivacyConfig (v : ImagePrivacyConfig) : ImagePrivacyConfig :=
  let d := DefaultImagePrivacyConfig in
  let pick (x y : Z) := if x <=? 0 then y else x in
  let pickf (x y : float64) := if float_le x (float_lit "0") then y else x in
  mkPrivacy (pick (BlurRadius v) (BlurRadius d)) (pick (FaceBlurRadius v) (FaceBlurRadius d))
    (pick (FaceDetectionMaxDimension v) (FaceDetectionMaxDimension d))
    (clampFloat (pickf (FaceDetectionScoreThreshold v) (FaceDetectionScoreThreshold d))
       (float_lit "0.1") (float_lit "0.99"))
    (clampFloat (pickf (FaceDetectionNMSThreshold v) (FaceDetectionNMSThreshold d))
       (float_lit "0.1") (float_lit "0.99")).

(** ** Helpers *)

Context (env : string -> string).

Definition getEnv (key def : string) : string :=
  if bool_decide (env key = "") then def else env key.

Definition nonempty_parts (v : string) : list string :=
  filter (fun s => s <> "") (TrimSpace <$> Split v ","%char).

Definition getEnvSlice (key : string) (def : list string) : list string :=
  if bool_decide (env key = "") then def else nonempty_parts (env key).

(** One item of a size list. *)
Definition parse_variant (part : string) : option ImageVariant :=
  let part := ToLower (TrimSpace part) in
  if HasPrefix part "fit_" then
    match Atoi (TrimPrefix part "fit_") with
    | Some side => if side <=? 0 then None
                   else Some (mkVariant ("fit_" +:+ Itoa side) side side "fit")
    | None => None
    end
  else
    match Split part "x"%char with
    | [ws; hs] =>
        match Atoi ws, Atoi hs with
        | Some w, Some h =>
            if (w <=? 0) || (h <=? 0) then None
            else Some (mkVariant (Itoa w +:+ "x" +:+ Itoa h) w h "")
        | _, _ => None
        end
    | _ => None
    end.

(** One bad item and the default is used. *)
Definition getEnvImageVariants (key : string) (def : list ImageVariant) : list ImageVariant :=
  match getEnvSlice key [] with
  | [] => def
  | parts => default def (mapM parse_variant parts)
  end.

Definition validateChoice (value : string) (allowed : list string) (def : string) : string :=
  let value := ToLower (TrimSpace value) in
  if bool_decide (value ∈ allowed) then value else def.

(** [strconv.ParseBool] *)
Definition ParseBool (s : string) : option bool :=
  if bool_decide (s ∈ ["1"; "t"; "T"; "true"; "TRUE"; "True"]) then Some true
  else if bool_decide (s ∈ ["0"; "f"; "F"; "false"; "FALSE"; "False"]) then Some false
  else None.

Definition getEnvBool (key : string) (def : bool) : bool :=
  if bool_decide (env key = "") then def else default def (ParseBool (env key)).
Definition getEnvInt (key : string) (def : Z) : Z :=
  if bool_decide (env key = "") then def else default def (Atoi (env key)).
Definition getEnvInt64 (key : string) (def : Z) : Z := getEnvInt key def.
Definition getEnvDuration (key : string) (def : Z) : Z :=
  if bool_decide (env key = "") then def else default def (ParseDuration (env key)).
Definition getEnvFloat (key : string) (def : float64) : float64 :=
  if bool_decide (env key = "") then def else default def (ParseFloat (env key)).

Definition validateBinaryPath (path def : string) : string :=
  if bool_decide (path = "") || Contains path ".." then def else path.

(** ** [Load] *)

Definition sized (w h : Z) : ImageVariant := mkVariant (Itoa w +:+ "x" +:+ Itoa h) w h "".
Definition fitted (n : Z) : ImageVariant := mkVariant ("fit_" +:+ Itoa n) n n "fit".

Definition default_image_variants : list ImageVariant :=
  [sized 100 100; sized 320 320; sized 480 640; sized 640 640; sized 768 1024; sized 1024 1024;
   fitted 480; fitted 1024].
Definition default_thumbnails : list ImageVariant := [sized 180 320; sized 360 640; sized 720 1280].

Definition hour : Z := 3600 * 1000000000.

Definition load_image : ImageConfig :=
  mkImageConfig (getEnvBool "IMAGE_PROCESSING_ENABLED" true)
    (getEnvImageVariants "IMAGE_VARIANTS" default_image_variants)
    (validateChoice (getEnv "IMAGE_OUTPUT_FORMAT" "auto") ["auto"; "jpeg"; "webp"] "auto")
    (getEnvBool "IMAGE_JPEG_PROGRESSIVE" true)
    (clampInt (getEnvInt "IMAGE_JPEG_QUALITY" 82) 1 100)
    (clampInt (getEnvInt "IMAGE_WEBP_QUALITY" 82) 1 100)
    (validateChoice (getEnv "IMAGE_RESIZE_POLICY" "smart-cover")
       ["fit"; "cover-center"; "smart-cover"] "smart-cover")
    (mkPrivacy (clampInt (getEnvInt "IMAGE_BLUR_RADIUS" 24) 1 64)
       (clampInt (getEnvInt "IMAGE_FACE_BLUR_RADIUS" 16) 1 64)
       (clampInt (getEnvInt "IMAGE_FACE_DETECTION_MAX_DIMENSION" 1280) 128 4096)
       (clampFloat (getEnvFloat "IMAGE_FACE_DETECTION_SCORE_THRESHOLD" (float_lit "0.8"))
          (float_lit "0.1") (float_lit "0.99"))
       (clampFloat (getEnvFloat "IMAGE_FACE_DETECTION_NMS_THRESHOLD" (float_lit "0.3"))
          (float_lit "0.1") (float_lit "0.99"))).

Definition load_video : VideoConfig :=
  mkVideoConfig (getEnvInt "VIDEO_MAX_DURATION_SEC" 2400)
    (int64 (int64 (getEnvInt64 "VIDEO_MAX_SIZE_MB" 1024 * 1024) * 1024))
    (getEnvInt "VIDEO_SEGMENT_DURATION_SEC" 4)
    (getEnvSlice "VIDEO_BITRATES" ["500k"; "1500k"; "4000k"])
    (validateBinaryPath (getEnv "FFMPEG_PATH" "ffmpeg") "ffmpeg")
    (validateBinaryPath (getEnv "FFPROBE_PATH" "ffprobe") "ffprobe")
    (getEnv "VIDEO_TEMP_DIR" "/tmp/video_processing")
    (getEnvImageVariants "VIDEO_THUMBNAIL_VARIANTS" default_thumbnails)
    (getEnvFloat "VIDEO_THUMBNAIL_TIME_SEC" (float_lit "1.0"))
    (clampInt (getEnvInt "VIDEO_THUMBNAIL_QSCALE" 3) 1 31).

Definition default_mime_types : list string :=
  ["image/png"; "image/jpeg"; "image/webp"; "image/heic"; "image/heif"; "image/heic-sequence";
   "image/heif-sequence"; "application/pdf"; "application/msword";
   "application/vnd.openxmlformats-officedocument.wordprocessingml.document"; "application/zip";
   "application/json"; "application/octet-stream"; "text/plain"; "text/plain; charset=utf-8";
   "video/mp4"; "video/quicktime"; "video/webm"; "video/x-msvideo"; "video/x-matroska"].

Definition load_upload : UploadConfig :=
  mkUploadConfig (getEnvInt64 "UPLOAD_MAX_FILE_SIZE" (10 * 1024 * 1024))
    (getEnvInt64 "UPLOAD_MAX_REQUEST_SIZE" 0)
    (getEnvInt64 "UPLOAD_DAILY_BYTES_PER_SESSION" (4 * 1024 * 1024 * 1024))
    (getEnvSlice "UPLOAD_ALLOWED_EXTENSIONS"
       ["png"; "jpg"; "jpeg"; "webp"; "heic"; "heif"; "pdf"; "doc"; "docx"; "zip"; "json"; "txt";
        "mp4"; "mov"; "webm"; "avi"; "mkv"])
    default_mime_types.

Definition Load : Config := {|
  ServerPort := getEnv "SERVER_PORT" "3000";
  IPFS := mkIPFS (getEnv "IPFS_URL" "http://localhost:5001")
            (getEnvSlice "CLUSTER_NODES" ["http://localhost:5001"])
            (getEnvInt "IPFS_MANIFEST_CACHE_BYTES" (8 * 2 ^ 20))
            (getEnvInt "IPFS_FILE_CACHE_BYTES" 0);
  APIKeys := getEnvSlice "API_KEYS" [];
  Upload := load_upload;
  Image := load_image;
  PinningRetries := getEnvInt "PINNING_RETRIES" 3;
  PinningRetryDelayMs := getEnvInt "PINNING_RETRY_DELAY_MS" 1000;
  Unpin := mkUnpin (getEnvDuration "UNPIN_TTL" (24 * hour)) (getEnvDuration "UNPIN_GC_INTERVAL" hour)
             (getEnv "UNPIN_STORE_PATH" "/data/unpin-store.json");
  CORSOrigins := getEnvSlice "CORS_ALLOWED_ORIGINS" [];
  CORSHeaders := getEnvSlice "CORS_ALLOWED_HEADERS"
                   ["Origin"; "X-Requested-With"; "Content-Type"; "Accept"; "X-API-Key"];
  Video := load_video;
  Auth := mkAuth (getEnv "AUTH_LUA_SCRIPT" "") (getEnvInt "AUTH_LUA_TIMEOUT_MS" 3000)
            (getEnv "AUTH_LUA_ENV_WHITELIST" "AUTH_SERVICE_URL")
            (getEnvInt "AUTH_LUA_MAX_MEMORY_MB" 32);
  MediaAccess := mkMediaAccess (getEnvBool "MEDIA_ALLOW_UNMANAGED" false)
                   (getEnv "MEDIA_ACCESS_URL" "") (getEnv "MEDIA_LINK_ACCESS_URL" "")
                   (clampInt (getEnvInt "MEDIA_ACCESS_TIMEOUT_MS" 2500) 100 30000);
  MediaGrants := mkMediaGrant (getEnvBool "MEDIA_GRANTS_ENABLED" false)
                   (getEnv "MEDIA_GRANT_ACTIVE_KEY" "") (getEnv "MEDIA_GRANT_AUDIENCE" "")
                   (getEnv "MEDIA_GRANT_KEYS" "") (getEnv "MEDIA_GRANT_REDIS_URL" "")
                   (getEnv "MEDIA_GRANT_NAMESPACE" "");
  RateRPS := getEnvFloat "RATE_LIMIT_RPS" (float_lit "100");
  RateBurst := getEnvInt "RATE_LIMIT_BURST" 200
|}.

(** * Specification *)

(** A size the service can draw: positive, and named after itself. *)
Definition good_variant (v : ImageVariant) : Prop :=
  0 < Width v /\ 0 < Height v /\
  (VMode v = "fit" /\ Width v = Height v /\ Key v = "fit_" +:+ Itoa (Width v) \/
   VMode v = "" /\ Key v = Itoa (Width v) +:+ "x" +:+ Itoa (Height v)).

(** * Lemmas *)

Lemma clampInt_range v lo hi : lo <= hi -> lo <= clampInt v lo hi <= hi.
Proof. intros. unfold clampInt. repeat case_match; go_bools; lia. Qed.

Lemma clampFloat_range v lo hi :
  (forall x, float_lt x x = false) -> float_lt hi lo = false ->
  float_lt (clampFloat v lo hi) lo = false /\ float_lt hi (clampFloat v lo hi) = false.
Proof.
  intros Hirr Hlit. unfold clampFloat.
  destruct (float_lt v lo) eqn:E1; [by split|]. by destruct (float_lt hi v) eqn:E2.
Qed.

Lemma validateChoice_in v allowed def : def ∈ allowed -> validateChoice v allowed def ∈ allowed.
Proof. intros. unfold validateChoice. by case_bool_decide. Qed.

Lemma parse_variant_good part v : parse_variant part = Some v -> good_variant v.
Proof.
  unfold parse_variant. destruct (HasPrefix _ _).
  - destruct (Atoi _) as [side|]; [|done]. go_if Hs. intros [= <-]. go_bools.
    split_and!; simpl; [lia..|]. by left.
  - destruct (Split _ _) as [|ws [|hs [|? ?]]]; try done.
    destruct (Atoi ws) as [w|]; [|done]. destruct (Atoi hs) as [h|]; [|done].
    go_if Hs. intros [= <-]. go_bools. split_and!; simpl; [lia..|]. by right.
Qed.

Lemma mapM_parse_good parts l : mapM parse_variant parts = Some l -> Forall good_variant l.
Proof.
  intros HM. apply mapM_Some in HM. induction HM as [|p v parts l Hp HM IH]; [constructor|].
  constructor; [by eapply parse_variant_good|done].
Qed.

Lemma getEnvImageVariants_good key def :
  Forall good_variant def -> def <> [] ->
  Forall good_variant (getEnvImageVariants key def) /\ getEnvImageVariants key def <> [].
Proof.
  intros Hd Hn. unfold getEnvImageVariants. destruct (getEnvSlice key []) as [|p ps]; [done|].
  destruct (mapM parse_variant (p :: ps)) as [l|] eqn:HM; [|done]. simpl. split.
  - by eapply mapM_parse_good.
  - apply mapM_Some in HM. by inversion HM.
Qed.

Lemma good_default : Forall good_variant default_image_variants /\ Forall good_variant default_thumbnails.
Proof.
  assert (H1 : forall w h, 0 < w -> 0 < h -> good_variant (sized w h)).
  { intros w h ? ?. split_and!; [done|done|by right]. }
  assert (H2 : forall n, 0 < n -> good_variant (fitted n)).
  { intros n ?. split_and!; [done|done|by left]. }
  split; repeat (constructor; [by first [apply H1|apply H2]|]); constructor.
Qed.

(** A size's name starts with a digit or with [fit_], so it is none of the other
    names a file request may carry. *)
Lemma good_variant_key v k : good_variant v ->
  k ∈ [PrivacyBlurVariantKey; PrivacyFaceBlurVariantKey; "original"; "deny"; "bundle"; ""] ->
  Key v <> k.
Proof.
  intros (Hw & _ & Hk) Hin HE. rewrite HE in Hk. clear HE.
  destruct Hk as [(_ & _ & E)|(_ & E)].
  - subst k. revert Hin. rewrite !elem_of_cons, elem_of_nil.
    intros Hin. by repeat destruct Hin as [Hin|Hin].
  - pose proof (Itoa_digits (Width v) ltac:(lia)) as HD.
    pose proof (Itoa_nonempty (Width v) ltac:(lia)) as HN.
    destruct (Itoa (Width v)) as [|c s]; [done|]. simpl in HD. apply Forall_cons in HD as [Hc _].
    rewrite append_String in E. subst k. revert Hin. rewrite !elem_of_cons, elem_of_nil.
    intros Hin. by repeat destruct Hin as [[= -> _]|Hin].
Qed.

(** A size's name tells whether it is fitted. *)
Lemma key_says_mode v w : good_variant v -> good_variant w -> Key v = Key w -> VMode v = "fit" <-> VMode w = "fit".
Proof.
  assert (HF : forall x y, good_variant x -> Key x = "fit_" +:+ y -> VMode x = "fit").
  { intros x y (Hw & _ & [(Hm & _)|(_ & Hk)]) HE; [done|]. exfalso. rewrite Hk in HE.
    pose proof (Itoa_digits (Width x) ltac:(lia)) as HD. pose proof (Itoa_nonempty (Width x) ltac:(lia)) as HN.
    destruct (Itoa (Width x)) as [|c s]; [done|]. simpl in HD. apply Forall_cons in HD as [Hc _].
    rewrite append_String in HE. by injection HE as -> _. }
  intros Hv Hw HE. split; intros Hm.
  - destruct Hv as (_ & _ & [(_ & _ & HK)|(HM & _)]); [|congruence]. apply (HF w (Itoa (Width v))); [done|congruence].
  - destruct Hw as (_ & _ & [(_ & _ & HK)|(HM & _)]); [|congruence]. apply (HF v (Itoa (Width w))); [done|congruence].
Qed.

(** ** Properties *)

(** C37. Whatever the environment holds, what [Load] clamps or chooses is usable:
    the JPEG and WebP qualities, the two blur radii, the detector's dimension, the
    poster's qscale and the policy's timeout are inside their bounds; no detection
    threshold is below a tenth or above ninety-nine hundredths (one that is not a number
    compares with nothing, and stays); the format and the resize policy are known
    ones; the size lists are not empty and hold only positive sizes named after
    themselves, none of whose names is a privacy variant, the original, a denial or
    the bundle; and the encoder paths name no parent directory.  The rest of the
    configuration - intervals, rates, upload and video limits, retries, cache
    sizes - is passed on as the environment has it. *)
Theorem load_safe :
  (forall x, float_lt x x = false) -> float_lt (float_lit "0.99") (float_lit "0.1") = false ->
  let c := Load in
  1 <= JPEGQuality (Image c) <= 100 /\ 1 <= WebPQuality (Image c) <= 100 /\
  1 <= BlurRadius (Privacy (Image c)) <= 64 /\ 1 <= FaceBlurRadius (Privacy (Image c)) <= 64 /\
  128 <= FaceDetectionMaxDimension (Privacy (Image c)) <= 4096 /\
  1 <= ThumbnailQScale (Video c) <= 31 /\ 100 <= TimeoutMs (MediaAccess c) <= 30000 /\
  (forall t, t ∈ [FaceDetectionScoreThreshold (Privacy (Image c));
                  FaceDetectionNMSThreshold (Privacy (Image c))] ->
     float_lt t (float_lit "0.1") = false /\ float_lt (float_lit "0.99") t = false) /\
  OutputFormat (Image c) ∈ ["auto"; "jpeg"; "webp"] /\
  ResizePolicy (Image c) ∈ ["fit"; "cover-center"; "smart-cover"] /\
  (forall l, l ∈ [Variants (Image c); ThumbnailVariants (Video c)] ->
     l <> [] /\ forall v, v ∈ l -> good_variant v /\
       Key v ∉ [PrivacyBlurVariantKey; PrivacyFaceBlurVariantKey; "original"; "deny"; "bundle"; ""]) /\
  Contains (FFmpegPath (Video c)) ".." = false /\ Contains (FFprobePath (Video c)) ".." = false.
Proof.
  assert (Hbin : forall p def, Contains def ".." = false -> Contains (validateBinaryPath p def) ".." = false).
  { intros p def Hd. unfold validateBinaryPath. destruct (_ || _) eqn:E; [done|]. by go_bools. }
  intros Hirr Hlit c. split_and!; try (apply clampInt_range; lia).
  - intros t Ht. rewrite !elem_of_cons, elem_of_nil in Ht.
    destruct Ht as [-> | [-> | []]]; by apply clampFloat_range.
  - apply validateChoice_in. left.
  - apply validateChoice_in. right. right. left.
  - destruct good_default as [G1 G2].
    assert (HL : forall l, Forall good_variant l /\ l <> [] -> l <> [] /\ forall v, v ∈ l -> good_variant v /\
       Key v ∉ [PrivacyBlurVariantKey; PrivacyFaceBlurVariantKey; "original"; "deny"; "bundle"; ""]).
    { intros l [HF HN]. split; [done|]. intros v Hv. rewrite Forall_forall in HF. split; [auto|].
      intros Hin. by apply (good_variant_key v (Key v) (HF v Hv) Hin). }
    intros l Hin. apply HL. apply elem_of_cons in Hin as [->|Hin].
    + by apply getEnvImageVariants_good.
    + apply elem_of_cons in Hin as [->|Hn%not_elem_of_nil]; [|done].
      by apply getEnvImageVariants_good.
  - apply Hbin. vm_compute. reflexivity.
  - apply Hbin. vm_compute. reflexivity.
Qed.

End config.

(** ** Witness *)
Module Toy.

(** Hundredths, and a value that is not a number. *)
#[local] Instance numbers : Numbers := {|
  float64 := option Z;
  float_lit s := if bool_decide (s = "0.1") then Some 10 else if bool_decide (s = "0.99") then Some 99
                 else if bool_decide (s = "0.8") then Some 80 else Some 30;
  float_lt x y := match x, y with Some x, Some y => x <? y | _, _ => false end;
  float_le x y := match x, y with Some x, Some y => x <=? y | _, _ => false end;
  ParseFloat s := if bool_decide (s = "NaN") then Some None else Some <$> Atoi s;
  ParseDuration := Atoi
|}.

Definition env (key : string) : string :=
  if bool_decide (key = "IMAGE_JPEG_QUALITY") then "900"
  else if bool_decide (key = "IMAGE_FACE_DETECTION_SCORE_THRESHOLD") then "900"
  else if bool_decide (key = "IMAGE_VARIANTS") then "blurxblur" else "".

Lemma load_safe_witness :
  (JPEGQuality (Image (Load env)) = 100) /\
  (FaceDetectionScoreThreshold (Privacy (Image (Load env))) = Some 99) /\
  (1 <= JPEGQuality (Image (Load env)) <= 100).
Proof.
  split; [by_vm|]. split; [by_vm|].
  apply (load_safe env); [|by_vm]. intros [x|]; [apply Z.ltb_irrefl|done].
Defined.
End Toy.
End Config.
