(* ===== verification/ImageProc.v ===== *)
(** [internal/imageproc/processor.go], [heif.go] and the renditions of
    [privacy.go]: which renditions an upload gets.  Decoding and encoding
    pictures, scaling them and finding faces are the interface [Codecs]. *)

From S2P Require Export Blur Config.

Local Open Scope Z_scope.

Module ImageProc.
Import Blur.

Record Variant := mkVariant {
  v_Key : string; v_Filename : string; v_Data : string; v_Format : string;
  v_ContentType : string; v_Width : Z; v_Height : Z
}.

Record Result := mkResult {
  IsImage : bool; Format : string; Width : Z; Height : Z; Variants : list Variant
}.

(** The image libraries and the tools run on files: [image.DecodeConfig] and
    [image.Decode]; a decoded picture's size, its form for pixel access and a part
    of it; [CatmullRom.Scale] and [draw.Draw] over a picture; the encoders (of a
    given quality); the detector, which answers left, top, width and height of each
    face on an input of given size; and [heif-convert]. *)
Class Codecs `{Float64} := {
  DecodeConfig : string -> option (Z * Z * string);
  Picture : Type;
  Decode : string -> option Picture;
  pic_Dx : Picture -> Z;
  pic_Dy : Picture -> Z;
  toNRGBA : Picture -> Image;
  as_Picture : Image -> Picture;
  part_of : Picture -> Rectangle -> Image;
  Scale : Image -> Rectangle -> Picture -> Image;
  draw_over : Image -> Image -> Z -> Z -> Image;
  jpeg_Encode : Z -> Image -> option string;
  jpegtran : string -> option string;
  png_Encode : Image -> option string;
  ffmpeg_webp : Z -> string -> option string;
  yunet : list Z -> Z -> Z -> option (list (F * F * F * F));
  fadd32 : F -> F -> F;  (* a sum of two [float32] *)
  heif_convert : Z -> string -> option string
}.

(** ** [heif.go] *)

Definition IsHEIF (data : string) : bool :=
  (12 <=? String.length data)%nat &&
  bool_decide (String.substring 4 4 data = "ftyp") &&
  bool_decide (ToLower (String.substring 8 4 data) ∈
    ["heic"; "heix"; "heim"; "heis"; "hevc"; "hevx"; "hevm"; "hevs"; "mif1"; "msf1"]).

Definition JPEGFilename (filename : string) : string :=
  let base := TrimSuffix (Base filename) (Ext filename) in
  (if bool_decide (TrimSpace base = "") then "image" else base) +:+ ".jpg".

Section proc.
Context `{HF : Float64, HN : Config.Numbers, HC : !Codecs}.

(** [faceDetectorErr] is set when the detector could not be made. *)
Record Processor := mkProcessor { cfg : Config.ImageConfig; faceDetectorErr : option string }.

(** The detector is made unless the model fails to load, which is [err]. *)
Definition NewProcessor (c : Config.ImageConfig) (err : option string) : Processor :=
  mkProcessor
    (Config.mkImageConfig (Config.ProcessingEnabled c) (Config.Variants c) (Config.OutputFormat c)
       (Config.JPEGProgressive c) (Config.JPEGQuality c) (Config.WebPQuality c)
       (Config.ResizePolicy c) (Config.NormalizeImagePrivacyConfig (Config.Privacy c))) err.

Definition TranscodeHEIF (p : Processor) (data : string) : result string string :=
  let quality := Config.JPEGQuality (cfg p) in
  let quality := if (quality <? 1) || (100 <? quality) then 90 else quality in
  match heif_convert quality data with
  | None => Err "heif-convert failed"
  | Some converted =>
      if bool_decide (converted = "") then Err "heif-convert produced no image" else Ok converted
  end.

(** ** Formats *)

Definition normalizeFormat (format contentType : string) : string :=
  if bool_decide (format ∈ ["jpeg"; "png"; "webp"]) then format else
  if Contains contentType "jpeg" then "jpeg" else
  if Contains contentType "png" then "png" else
  if Contains contentType "webp" then "webp" else format.

Definition contentTypeForFormat (format : string) : string :=
  if bool_decide (format = "webp") then "image/webp" else "image/jpeg".

Definition extension (format : string) : string :=
  if bool_decide (format = "jpeg") then "jpg" else format.

Definition outputFormat (p : Processor) (sourceFormat : string) : string :=
  let f := Config.OutputFormat (cfg p) in
  if bool_decide (f ∈ ["jpeg"; "webp"]) then f
  else if bool_decide (sourceFormat ∈ ["png"; "webp"]) then "webp" else "jpeg".

Definition encode (p : Processor) (img : Image) (format : string) : result string string :=
  if bool_decide (format = "webp") then
    match png_Encode img with
    | None => Err "png"
    | Some png => of_option "ffmpeg failed" (ffmpeg_webp (Config.WebPQuality (cfg p)) png)
    end
  else
    match jpeg_Encode (Config.JPEGQuality (cfg p)) img with
    | None => Err "jpeg"
    | Some buf => if Config.JPEGProgressive (cfg p) then of_option "jpegtran failed" (jpegtran buf)
                  else Ok buf
    end.

(** ** Geometry *)

Definition white : NRGBA := mkNRGBA 255 255 255 255.
Definition filled (w h : Z) (c : NRGBA) : Image := draw (Z.to_nat w) (Z.to_nat h) (fun _ _ => c).

Definition scaled (side : Z) (scale : F) : Z := Z.max 1 (to_int (Round (fmul (float64 side) scale))).

Definition fitInside (src : Picture) (maxSide : Z) : Image :=
  let scale := fmin (lit 1 1) (fdiv (float64 maxSide) (float64 (Z.max (pic_Dx src) (pic_Dy src)))) in
  let w := scaled (pic_Dx src) scale in
  let h := scaled (pic_Dy src) scale in
  let dst := filled w h white in
  Scale dst (Bounds dst) src.

Definition resize (src : Picture) (width height : Z) (policy : string) (whiteBackground : bool) : Image :=
  let dst := filled width height (if whiteBackground then white else transparent) in
  let srcW := pic_Dx src in
  let srcH := pic_Dy src in
  if (srcW =? 0) || (srcH =? 0) then dst else
  let sx := fdiv (float64 width) (float64 srcW) in
  let sy := fdiv (float64 height) (float64 srcH) in
  if bool_decide (policy = "fit") then
    let scale := fmin sx sy in
    let newW := scaled srcW scale in
    let newH := scaled srcH scale in
    let x := Z.quot (width - newW) 2 in
    let y := Z.quot (height - newH) 2 in
    Scale dst (Rect x y (x + newW) (y + newH)) src
  else
    let scale := fmax sx sy in
    let newW := scaled srcW scale in
    let newH := scaled srcH scale in
    let big := filled newW newH transparent in
    draw_over dst (Scale big (Bounds big) src) (Z.quot (newW - width) 2) (Z.quot (newH - height) 2).

(** ** [ConfiguredPreview] *)

Definition MaxDecodePixels : Z := 100000000.
Definition ErrImageTooLarge : string := "image dimensions exceed 100000000 pixels".

Definition previewOf (p : Processor) (src : Picture) (variant : Config.ImageVariant) : result string string :=
  if bool_decide (Config.VMode variant = "fit") then encode p (fitInside src (Config.Width variant)) "jpeg"
  else encode p (resize src (Config.Width variant) (Config.Height variant)
                   (Config.ResizePolicy (cfg p)) true) "jpeg".

(** The checks both previews share, down to the decoded picture. *)
Definition open_source (data : string) (variant : Config.ImageVariant) : result string Picture :=
  if (Config.Width variant <=? 0) || (Config.Height variant <=? 0) ||
     (MaxDecodePixels <? int64 (Config.Width variant * Config.Height variant))
  then Err ErrImageTooLarge else
  match DecodeConfig data with
  | None => Err "decode config"
  | Some (w, h, _) =>
      if (w <=? 0) || (h <=? 0) || (MaxDecodePixels <? int64 (w * h)) then Err ErrImageTooLarge
      else of_option "decode" (Decode data)
  end.

Definition ConfiguredPreview (p : Processor) (data : string) (variant : Config.ImageVariant)
  : result string string :=
  match open_source data variant with
  | Err err => Err err
  | Ok src => previewOf p src variant
  end.

Definition FitPreview (p : Processor) (data : string) (maxSide : Z) : result string string :=
  ConfiguredPreview p data (Config.mkVariant "" maxSide maxSide "fit").

(** The frame, as fractions of the picture; coordinates count from its corner. *)
Definition CroppedPreview (p : Processor) (data : string) (variant : Config.ImageVariant)
  (x y w h : F) : result string string :=
  match open_source data variant with
  | Err err => Err err
  | Ok src =>
      let dx := float64 (pic_Dx src) in
      let dy := float64 (pic_Dy src) in
      let part := Intersect
        (Rect (to_int (Round (fmul x dx))) (to_int (Round (fmul y dy)))
              (to_int (Round (fmul (fadd x w) dx))) (to_int (Round (fmul (fadd y h) dy))))
        (mkRect 0 0 (pic_Dx src) (pic_Dy src)) in
      if (width part <? 1) || (height part <? 1) then Err "the frame lies outside the picture"
      else previewOf p (as_Picture (part_of src part)) variant
  end.

(** ** Faces *)

Definition scaleForFaceDetection (src : Image) (maxDimension : Z) : Image * F :=
  let longest := Z.max (Z.of_nat (Dx src)) (Z.of_nat (Dy src)) in
  if (maxDimension <=? 0) || (longest <=? maxDimension) then (src, lit 1 1)
  else
    let scale := fdiv (float64 maxDimension) (float64 longest) in
    let resized := filled (scaled (Z.of_nat (Dx src)) scale) (scaled (Z.of_nat (Dy src)) scale) transparent in
    (Scale resized (Bounds resized) (as_Picture src), scale).

(** The matrix of the picture's colours, zero beyond its edges. *)
Definition newBGRMat (src : Image) (width height : Z) : list Z :=
  concat ((fun y => concat ((fun x =>
    let c := NRGBAAt src (Z.of_nat x) (Z.of_nat y) in
    if ((x <? Dx src) && (y <? Dy src))%nat then [B c; G c; R c] else [0; 0; 0])
    <$> seq 0 (Z.to_nat width))) <$> seq 0 (Z.to_nat height)).

(** One detection in the coordinates of the picture, padded. *)
Definition face_of (scale : F) (bounds : Rectangle) (d : F * F * F * F) : Rectangle :=
  let '(x, y, w, h) := d in
  let at_scale v := to_int (Round (fdiv v scale)) in
  expandFaceRect (Rect (at_scale x) (at_scale y) (at_scale (fadd32 x w)) (at_scale (fadd32 y h))) bounds.

Definition Detect (p : Processor) (src : Image) : option (list Rectangle) :=
  let '(detectionImage, scale) :=
    scaleForFaceDetection src (Config.FaceDetectionMaxDimension (Config.Privacy (cfg p))) in
  let inputWidth := roundUpToMultiple (Z.of_nat (Dx detectionImage)) 32 in
  let inputHeight := roundUpToMultiple (Z.of_nat (Dy detectionImage)) 32 in
  match yunet (newBGRMat detectionImage inputWidth inputHeight) inputWidth inputHeight with
  | None => None
  | Some detections =>
      Some (filter (fun r => Empty r = false) (face_of scale (Bounds src) <$> detections))
  end.

(** ** Renditions *)

Definition privacy_variant (key format data : string) (img : Image) : Variant :=
  mkVariant key (key +:+ "." +:+ extension format) data format (contentTypeForFormat format)
    (Z.of_nat (Dx img)) (Z.of_nat (Dy img)).

(** [cancelled] is [ctx.Err() != nil]. *)
Definition privacyVariants (p : Processor) (cancelled : bool) (src : Picture) (format : string)
  : result string (list Variant) :=
  if cancelled then Err "context canceled" else
  match faceDetectorErr p with
  | Some err => Err err
  | None =>
      let normalized := toNRGBA src in
      let wholeBlur := blurNRGBA normalized (Config.BlurRadius (Config.Privacy (cfg p))) in
      match encode p wholeBlur format with
      | Err err => Err err
      | Ok wholeEncoded =>
          match Detect p normalized with
          | None => Err "detect faces"
          | Some faces =>
              let facesBlur :=
                if (0 <? length faces)%nat
                then blurFaceRegions normalized faces (Config.FaceBlurRadius (Config.Privacy (cfg p)))
                else wholeBlur in
              match encode p facesBlur format with
              | Err err => Err err
              | Ok facesEncoded =>
                  Ok [privacy_variant Config.PrivacyBlurVariantKey format wholeEncoded normalized;
                      privacy_variant Config.PrivacyFaceBlurVariantKey format facesEncoded normalized]
              end
          end
      end
  end.

(** One round of the loop over [p.cfg.Variants]. *)
Definition configured (p : Processor) (src : Picture) (format : string) (v : Config.ImageVariant)
  : result string (list Variant) :=
  if (Config.Width v <=? 0) || (Config.Height v <=? 0) then Ok []
  else if bool_decide (Config.VMode v = "fit") then
    let resized := fitInside src (Config.Width v) in
    match encode p resized "jpeg" with
    | Err err => Err err
    | Ok encoded => Ok [mkVariant (Config.Key v) (Config.Key v +:+ ".jpg") encoded "jpeg" "image/jpeg"
                          (Z.of_nat (Dx resized)) (Z.of_nat (Dy resized))]
    end
  else
    let resized := resize src (Config.Width v) (Config.Height v) (Config.ResizePolicy (cfg p))
                     (bool_decide (format = "jpeg")) in
    match encode p resized format with
    | Err err => Err err
    | Ok encoded => Ok [mkVariant (Config.Key v) (Config.Key v +:+ "." +:+ extension format) encoded format
                          (contentTypeForFormat format) (Config.Width v) (Config.Height v)]
    end.

Fixpoint all_configured (p : Processor) (src : Picture) (format : string) (vs : list Config.ImageVariant)
  : result string (list Variant) :=
  match vs with
  | [] => Ok []
  | v :: vs' =>
      match configured p src format v with
      | Err err => Err err
      | Ok out => (fun rest => out ++ rest) <$> all_configured p src format vs'
      end
  end.

Definition not_image : Result := mkResult false "" 0 0 [].

Definition Process (p : Processor) (cancelled : bool) (data contentType : string)
  : result string Result :=
  match DecodeConfig data with
  | None => Ok not_image
  | Some (w, h, format) =>
      if (w <=? 0) || (h <=? 0) || (MaxDecodePixels <? int64 (w * h)) then Err ErrImageTooLarge else
      let fmt := normalizeFormat format contentType in
      match Decode data with
      | None => Ok (mkResult true fmt w h [])
      | Some src =>
          let out := outputFormat p fmt in
          match privacyVariants p cancelled src out with
          | Err err => Err err
          | Ok privacy =>
              if negb (Config.ProcessingEnabled (cfg p)) || (length (Config.Variants (cfg p)) =? 0)%nat
              then Ok (mkResult true fmt w h privacy)
              else (fun vs => mkResult true fmt w h (privacy ++ vs))
                     <$> all_configured p src out (Config.Variants (cfg p))
          end
      end
  end.

Definition ProcessPrivacy (p : Processor) (cancelled : bool) (data contentType : string)
  : result string (list Variant) :=
  match DecodeConfig data, Decode data with
  | Some (_, _, format), Some src =>
      privacyVariants p cancelled src (outputFormat p (normalizeFormat format contentType))
  | _, _ => Ok []
  end.

(** * Specification *)

(** What the two masks of a picture are drawn from: its whole blur, and its blur
    over the faces, or the whole blur again when no face is found. *)
Definition whole_blur (p : Processor) (src : Picture) : Image :=
  blurNRGBA (toNRGBA src) (Config.BlurRadius (Config.Privacy (cfg p))).
Definition faces_blur (p : Processor) (src : Picture) (faces : list Rectangle) : Image :=
  match faces with
  | [] => whole_blur p src
  | _ => blurFaceRegions (toNRGBA src) faces (Config.FaceBlurRadius (Config.Privacy (cfg p)))
  end.

(** The file of a configured size in a bundle. *)
Definition size_file (format : string) (c : Config.ImageVariant) : string :=
  Config.Key c +:+ "." +:+ (if bool_decide (Config.VMode c = "fit") then "jpg" else extension format).

(** The two masks, encoded, in front of [rest]. *)
Definition masks_first (p : Processor) (src : Picture) (format : string) (vs : list Variant) : Prop :=
  exists faces whole masked rest, Detect p (toNRGBA src) = Some faces /\
    encode p (whole_blur p src) format = Ok whole /\
    encode p (faces_blur p src faces) format = Ok masked /\
    vs = privacy_variant Config.PrivacyBlurVariantKey format whole (toNRGBA src) ::
         privacy_variant Config.PrivacyFaceBlurVariantKey format masked (toNRGBA src) :: rest /\
    (forall v, v ∈ rest -> exists c, c ∈ Config.Variants (cfg p) /\ v_Key v = Config.Key c /\
       v_Filename v = size_file format c).

(** A rendition's file is its key and an extension without a dot. *)
Definition named (v : Variant) : Prop :=
  exists ext, v_Filename v = v_Key v +:+ "." +:+ ext /\ ext ∈ ["jpg"; "webp"].

(** * Lemmas *)

Lemma outputFormat_known p f : outputFormat p f ∈ ["jpeg"; "webp"].
Proof.
  unfold outputFormat. case_bool_decide; [done|]. case_bool_decide; [right; left|left].
Qed.

Lemma extension_known f : f ∈ ["jpeg"; "webp"] -> extension f ∈ ["jpg"; "webp"].
Proof. intros Hf. repeat (apply elem_of_cons in Hf as [->|Hf]); [left|right; left|by apply elem_of_nil in Hf]. Qed.

Lemma privacyVariants_Ok p cancelled src format vs :
  privacyVariants p cancelled src format = Ok vs ->
  cancelled = false /\ faceDetectorErr p = None /\
  exists faces whole masked, Detect p (toNRGBA src) = Some faces /\
    encode p (whole_blur p src) format = Ok whole /\
    encode p (faces_blur p src faces) format = Ok masked /\
    vs = [privacy_variant Config.PrivacyBlurVariantKey format whole (toNRGBA src);
          privacy_variant Config.PrivacyFaceBlurVariantKey format masked (toNRGBA src)].
Proof.
  unfold privacyVariants. destruct cancelled; [done|]. destruct (faceDetectorErr p); [done|].
  fold (whole_blur p src). destruct (encode p (whole_blur p src) format) as [whole|] eqn:Hw; [|done].
  destruct (Detect _ _) as [faces|] eqn:HD; [|done].
  assert (HE : (if (0 <? length faces)%nat
    then blurFaceRegions (toNRGBA src) faces (Config.FaceBlurRadius (Config.Privacy (cfg p)))
    else whole_blur p src) = faces_blur p src faces) by by destruct faces.
  rewrite HE. destruct (encode p (faces_blur p src faces) format) as [masked|] eqn:Hm; [|done].
  intros [= <-]. split_and!; [done|done|]. exists faces, whole, masked. done.
Qed.

Lemma configured_Ok p src format c vs : configured p src format c = Ok vs -> format ∈ ["jpeg"; "webp"] ->
  forall v, v ∈ vs -> (v_Key v = Config.Key c /\ v_Filename v = size_file format c) /\ named v.
Proof.
  unfold configured. intros H Hf v Hv. destruct (_ || _).
  { injection H as <-. by apply elem_of_nil in Hv. }
  unfold size_file. case_bool_decide; destruct (encode _ _ _) as [d|]; try done; injection H as <-;
    apply list_elem_of_singleton in Hv as ->; (split; [done|]); eexists; (split; [done|]).
  - left.
  - by apply extension_known.
Qed.

Lemma all_configured_Ok p src format cs vs : all_configured p src format cs = Ok vs ->
  format ∈ ["jpeg"; "webp"] ->
  forall v, v ∈ vs -> named v /\ exists c, c ∈ cs /\ v_Key v = Config.Key c /\ v_Filename v = size_file format c.
Proof.
  intros H Hf. revert vs H. induction cs as [|c cs IH]; intros vs H v Hv; cbn [all_configured] in H.
  { injection H as <-. by apply elem_of_nil in Hv. }
  destruct (configured p src format c) as [out|] eqn:HCf; [|done].
  destruct (all_configured p src format cs) as [rest|]; [|done]. injection H as <-.
  apply elem_of_app in Hv as [Hv|Hv].
  - destruct (configured_Ok _ _ _ _ _ HCf Hf v Hv) as [? ?]. split; [done|]. exists c. split; [left|done].
  - destruct (IH rest eq_refl v Hv) as [? (c' & ? & ?)]. split; [done|]. exists c'. split; [by right|done].
Qed.

Lemma privacy_named key format data img : format ∈ ["jpeg"; "webp"] ->
  named (privacy_variant key format data img).
Proof. intros. eexists. split; [done|]. by apply extension_known. Qed.

(** What a successful [Process] returns. *)
Lemma Process_Ok p cancelled data contentType r : Process p cancelled data contentType = Ok r ->
  Forall named (Variants r) /\
  match DecodeConfig data with
  | None => r = not_image
  | Some (w, h, f) =>
      IsImage r = true /\ Format r = normalizeFormat f contentType /\ Width r = w /\ Height r = h /\
      0 < w /\ 0 < h /\ int64 (w * h) <= MaxDecodePixels /\
      match Decode data with
      | None => Variants r = []
      | Some src => masks_first p src (outputFormat p (normalizeFormat f contentType)) (Variants r)
      end
  end.
Proof.
  unfold Process. destruct (DecodeConfig data) as [[[w h] f]|]; [|intros [= <-]; split; [constructor|done]].
  destruct (_ || _) eqn:HB; [done|]. go_bools. set (fmt := normalizeFormat f contentType).
  destruct (Decode data) as [src|]; [|intros [= <-]; split; [constructor|by split_and!]].
  pose proof (outputFormat_known p fmt) as Hf.
  destruct (privacyVariants _ _ _ _) as [privacy|] eqn:HP; [|done].
  apply privacyVariants_Ok in HP as (_ & _ & faces & whole & masked & HD & Hw & Hm & ->).
  set (pv := [privacy_variant _ _ _ _; _]) in *. assert (HNm : Forall named pv)
    by (repeat constructor; by apply privacy_named).
  assert (HM : forall rest, (forall v, v ∈ rest -> exists c, c ∈ Config.Variants (cfg p) /\ v_Key v = Config.Key c /\
      v_Filename v = size_file (outputFormat p fmt) c) ->
    masks_first p src (outputFormat p fmt) (pv ++ rest)).
  { intros rest Hr. exists faces, whole, masked, rest. done. }
  destruct (_ || _).
  - intros [= <-]. split; [done|]. split_and!; try done. cbn [Variants].
    specialize (HM []). rewrite app_nil_r in HM. apply HM. intros v Hv. by apply elem_of_nil in Hv.
  - destruct (all_configured _ _ _ _) as [vs|] eqn:HA; [|done]. intros [= <-].
    pose proof (all_configured_Ok _ _ _ _ _ HA Hf) as HV. cbn [Variants]. split.
    + change (Forall named (pv ++ vs)). apply Forall_app. split; [done|].
      apply Forall_forall. intros v Hv. by apply HV.
    + split_and!; try done. apply (HM vs). intros v Hv. by apply HV.
Qed.

End proc.

(** ** An example of the libraries *)
Module Toy.
#[local] Existing Instance Blur.Toy.fixed.

#[local] Instance numbers : Config.Numbers := {|
  Config.float64 := unit; Config.float_lit _ := tt; Config.float_lt _ _ := false;
  Config.float_le _ _ := true; Config.ParseFloat _ := None; Config.ParseDuration _ := None |}.

(** A file starting with [PIC] is a picture of two grey pixels with no face. *)
#[local] Instance codecs : Codecs := {|
  DecodeConfig s := if HasPrefix s "PIC" then Some (2, 1, "jpeg") else None;
  Picture := string;
  Decode s := if HasPrefix s "PIC" then Some s else None;
  pic_Dx _ := 2; pic_Dy _ := 1;
  toNRGBA _ := mkImage 2 [[Blur.Toy.grey 10; Blur.Toy.grey 90]];
  Scale d _ _ := d; draw_over d _ _ _ := d;
  jpeg_Encode _ img := Some ("jpeg " +:+ Itoa (R (NRGBAAt img 0 0)));
  jpegtran s := Some s; png_Encode _ := Some "png"; ffmpeg_webp _ _ := Some "webp";
  as_Picture _ := "PIC"; part_of _ _ := mkImage 1 [[Blur.Toy.grey 10]];
  yunet _ _ _ := Some []; fadd32 := fadd; heif_convert _ _ := Some "PIC converted"
|}.

Definition processor : Processor :=
  NewProcessor (Config.mkImageConfig true [Config.mkVariant "fit_480" 480 480 "fit"] "jpeg" false 85 80 "fit"
    (Config.mkPrivacy 1 1 1280 tt tt)) None.
End Toy.
End ImageProc.
