(* ===== verification/Delivery.v ===== *)
(** [internal/handler/handler.go] and [fit_preview.go]: the file handlers - how a
    decision about a picture becomes the bytes of one of its renditions - and the
    soft delete.  Drawing a preview, decoding a manifest's JSON, sniffing a
    content type and adding a file to the cluster are the interface [Content]. *)

From S2P Require Export MediaAccess ManifestCache Config.

Local Open Scope Z_scope.

Module Delivery.
Import Http Playlist Cid MediaAccess.

Class Content `{Crops} := {
  decode_manifest : string -> option Manifest;
  DetectContentType : string -> string;
  ConfiguredPreview : string -> Config.ImageVariant -> option string;
  CroppedPreview : string -> Config.ImageVariant -> deliveryCrop -> option string;
  ClusterAdd : string -> string -> option string
}.

(** What a request changes: the manifest cache, the override map, and the files
    handed to [replicateAsync], oldest first. *)
Record World := mkWorld {
  manifests : option ManifestCache.manifestCache;
  overrides : option VariantOverrides.VariantOverrides;
  replicated : list string
}.

Definition set_manifests (c : ManifestCache.manifestCache) (w : World) : World :=
  mkWorld (Some c) (overrides w) (replicated w).

(** The image configuration ([h.cfg] may be nil), whether there is an image
    processor, the complete files the disk cache holds by key, and how a save of
    the override map goes. *)
Record Server `{Config.Numbers} := mkServer {
  imageConfig : option Config.ImageConfig;
  imageProcessor : bool;
  cachedFile : string -> option string;
  saving : VariantOverrides.set_outcome
}.

(** An open file: a stream, and the size of a disk-cache hit. *)
Record opened := mkOpened { o_reader : reader; o_hit : option Z }.

(** A picture's decision asks for a mask. *)
Definition masked (d : mediaDeliveryDecision) : bool :=
  Managed d && negb (bool_decide (Mode d = mediaDeliveryOriginal)).

(** What [serveFile] makes of the rest of the path: the size or variant, and the
    mask asked for. *)
Record wanted := mkWanted { w_variant : string; w_mask : string }.

Definition no_store : gmap string string := {[ "Cache-Control" := "private, no-store" ]}.

Definition notFound (h : gmap string string) : Response := jsonError h 404 "File not found".
Definition deleted (h : gmap string string) : Response :=
  writeJSON h 404 (JSON [("error", "File not found"); ("message", "File was deleted")]).
(** A panic of the handler: the connection is cut. *)
Definition aborted : Response := mkResponse 0 ∅ NoBody.

Definition cidError (cid : string) : string :=
  if bool_decide (cid = "") then "CID required" else "invalid CID format".

Section delivery.
Context `{HC : Crops, HN : Config.Numbers, HP : !Content}.
Context `{HK : Grant.Crypto, HL : CidLib, HA : Url.Authority}.

(** ** Reading *)

Section reading.
Context `{HS : Storage}.

Definition fetchManifest (cid : string) : result ManifestCache.loadErr Manifest :=
  match ClusterTryFetchPath cid ManifestFilename with
  | None => Err (ManifestCache.FetchErr "fetch")
  | Some r =>
      match decode_manifest (data r) with
      | Some m => if rerr r then Err (ManifestCache.FetchErr "read") else Ok (Finalize cid m)
      | None => Err (ManifestCache.FetchErr "decode")
      end
  end.

(** [readManifest]: [load] for a caller that is alone and not cancelled. *)
Definition readManifest (cid : string) (w : World) : World * option Manifest :=
  match manifests w with
  | None => (w, match fetchManifest cid with Ok m => Some m | Err _ => None end)
  | Some c =>
      match ManifestCache.get cid c with
      | (c1, Some m) => (set_manifests c1 w, Some m)
      | (c1, None) =>
          let '(c2, r) := ManifestCache.flight cid None (fetchManifest cid) c1 in
          (set_manifests c2 w, match r with Ok m => Some m | Err _ => None end)
      end
  end.

Definition readFile (srv : Server) (cid path : string) : option opened :=
  match cachedFile srv (cid +:+ "/" +:+ path) with
  | Some content => Some (mkOpened (mkReader content false) (Some (Z.of_nat (String.length content))))
  | None =>
      (fun r => mkOpened r None) <$>
        (if bool_decide (path = "") then ClusterTryFetch cid else ClusterTryFetchPath cid path)
  end.

Definition override (w : World) (key : string) : string :=
  (VariantOverrides.Get (overrides w) key).1.

(** ** Configured previews *)

Definition configuredPreview (srv : Server) (variant : string) : option Config.ImageVariant :=
  match imageConfig srv with
  | None => None
  | Some c =>
      if negb (Config.ProcessingEnabled c) then None else
      snd <$> list_find (fun v => Config.Key v = variant /\ 0 < Config.Width v /\ 0 < Config.Height v)
                (Config.Variants c)
  end.

Definition fitPreviewMaxSource : Z := 100 * 2 ^ 20.

Definition cacheVariant (c : Config.ImageConfig) (variant : string) (size : Config.ImageVariant)
  (sourceVariant sourceCID : string) (crop : option deliveryCrop) : string :=
  "preview-v2/" +:+ variant +:+ "/" +:+ Itoa (Config.Width size) +:+ "x" +:+
  Itoa (Config.Height size) +:+ "/" +:+ Config.VMode size +:+ "/" +:+ Config.ResizePolicy c +:+
  "/q" +:+ Itoa (Config.JPEGQuality c) +:+
  (if bool_decide (sourceVariant = "") then ""
   else "/" +:+ sourceVariant +:+ (if bool_decide (sourceCID = "") then "" else "/" +:+ sourceCID)) +:+
  match crop with Some c => "/crop-" +:+ crop_key c | None => "" end.

(** [panic] is the write to a nil override map. *)
Inductive previewErr := PFailed (msg : string) | PPanic.

(** The bytes a preview is drawn from. *)
Definition preview_bytes (cid sourceCID sourcePath : string) : option string :=
  match (if negb (bool_decide (sourceCID = "")) then ClusterTryFetch sourceCID
         else ClusterTryFetchPath cid sourcePath) with
  | None => None
  | Some r =>
      match ReadAll (fitPreviewMaxSource + 1) r with
      | None => None
      | Some s => if fitPreviewMaxSource <? Z.of_nat (String.length s) then None else Some s
      end
  end.

(** The function run in the flight, for the key it is recorded under. *)
Definition draw_preview (srv : Server) (cid key variant : string) (size : Config.ImageVariant)
  (sourceCID sourcePath : string) (crop : option deliveryCrop) (w : World)
  : World * result previewErr string :=
  match preview_bytes cid sourceCID sourcePath with
  | None => (w, Err (PFailed "source"))
  | Some source =>
      match (match crop with Some c => CroppedPreview source size c
             | None => ConfiguredPreview source size end) with
      | None => (w, Err (PFailed "draw"))
      | Some preview =>
          match ClusterAdd (variant +:+ ".jpg") preview with
          | None => (w, Err (PFailed "add"))
          | Some added =>
              let '(o, err) := VariantOverrides.Set_ (overrides w) key added (saving srv) in
              let w' := mkWorld (manifests w) o (replicated w) in
              match err with
              | Some VariantOverrides.NilMapPanic => (w', Err PPanic)
              | Some _ => (w', Err (PFailed "save"))
              | None => (mkWorld (manifests w) o (replicated w ++ [added]), Ok added)
              end
          end
      end
  end.

(** The path of the source, and the file that replaced it, if any. *)
Definition preview_source (cid : string) (manifest : Manifest) (sourceVariant : string) (w : World)
  : option (string * string) :=
  if bool_decide (sourceVariant = "") then Some (a_BundlePath (m_Original manifest), "")
  else (fun asset => (a_BundlePath asset,
          override w (VariantOverrides.VariantOverrideKey cid sourceVariant)))
         <$> m_Variants manifest !! sourceVariant.

Definition ensureConfiguredPreview (srv : Server) (cid : string) (manifest : Manifest)
  (variant sourceVariant : string) (crop : option deliveryCrop) (w : World)
  : World * result previewErr string :=
  match configuredPreview srv variant, imageConfig srv with
  | Some size, Some c =>
      if negb (imageProcessor srv) || bool_decide (overrides w = None) ||
         negb (bool_decide (m_Type manifest = "image"))
      then (w, Err (PFailed "image preview is not configured")) else
      match preview_source cid manifest sourceVariant w with
      | None => (w, Err (PFailed "source variant is unavailable"))
      | Some (sourcePath, sourceCID) =>
          let key := VariantOverrides.VariantOverrideKey cid
                       (cacheVariant c variant size sourceVariant sourceCID crop) in
          match VariantOverrides.Get (overrides w) key with
          | (previewCID, true) => (w, Ok previewCID)
          | _ => draw_preview srv cid key variant size sourceCID sourcePath crop w
          end
      end
  | _, _ => (w, Err (PFailed "unsupported configured preview"))
  end.

(** ** [serveFile] *)

Definition cropFallbackVariant : string := "fit_1024".

Definition is_configured (srv : Server) (variant : string) : bool :=
  bool_decide (is_Some (configuredPreview srv variant)).

(** [None] answers 404. *)
Definition parse_wanted (srv : Server) (parts : list string) : option wanted :=
  match parts with
  | [] => Some (mkWanted "" "")
  | [v] => Some (mkWanted v "")
  | [v; mask] =>
      if negb (is_configured srv v) ||
         (negb (bool_decide (mask = Config.PrivacyBlurVariantKey)) &&
          negb (bool_decide (mask = Config.PrivacyFaceBlurVariantKey)))
      then None else Some (mkWanted v mask)
  | _ => None
  end.

(** The framed part of a picture, and the size it is served at. *)
Definition frame (srv : Server) (manifest : Manifest) (d : mediaDeliveryDecision) (variantKey : string)
  : string * option deliveryCrop :=
  match parseDeliveryCrop (Crop d) with
  | Some crop =>
      if bool_decide (m_Type manifest = "image") then
        let variantKey := if is_configured srv variantKey then variantKey else cropFallbackVariant in
        (variantKey, if is_configured srv variantKey then Some crop else None)
      else (variantKey, None)
  | None => (variantKey, None)
  end.

(** The mask a preview is drawn from. *)
Definition source_mask (d : mediaDeliveryDecision) (requestedMask : string) : string :=
  if masked d then
    if bool_decide (Mode d = mediaDeliveryBlur) ||
       negb (bool_decide (requestedMask = Config.PrivacyBlurVariantKey))
    then Mode d else requestedMask
  else requestedMask.

Definition body_of (r : Request) (content : string) : Body :=
  if bool_decide (r_Method r = "HEAD") then NoBody else Bytes content.

Definition with_length (o : opened) (h : gmap string string) : gmap string string :=
  match o_hit o with Some n => <["Content-Length" := Itoa n]> h | None => h end.

(** The headers and the body of a file that could be opened. *)
Definition send (h : gmap string string) (r : Request) (d : mediaDeliveryDecision)
  (contentType : string) (o : opened) : Response :=
  let h := setUserFileHeaders (<["Content-Type" := contentType]> h) contentType in
  let h := <["Cache-Control" := protectedMediaCacheControl (Managed d)]> h in
  mkResponse 200 (with_length o h) (body_of r (data (o_reader o))).

Definition preview_unavailable (h : gmap string string) : Response :=
  jsonError h 503 "Configured preview is unavailable".

Definition serve_preview (srv : Server) (h : gmap string string) (r : Request) (cid : string)
  (manifest : Manifest) (d : mediaDeliveryDecision) (variantKey sourceVariant : string)
  (crop : option deliveryCrop) (w : World) : World * Response :=
  match ensureConfiguredPreview srv cid manifest variantKey sourceVariant crop w with
  | (w, Err PPanic) => (w, aborted)
  | (w, Err _) => (w, preview_unavailable h)
  | (w, Ok previewCID) =>
      (w, match readFile srv previewCID "" with
          | None => preview_unavailable h
          | Some o => send h r d "image/jpeg" o
          end)
  end.

(** [bufio.Reader.Peek(512)] and [DetectContentType] for an undeclared type. *)
Definition sniff (contentType : string) (o : opened) : option string :=
  if negb (bool_decide (contentType = "")) then Some contentType else
  if rerr (o_reader o) && (Z.of_nat (String.length (data (o_reader o))) <? 512) then None
  else Some (DetectContentType (String.substring 0 512 (data (o_reader o)))).

(** The stored rendition, or its replacement. *)
Definition serve_stored (srv : Server) (h : gmap string string) (r : Request) (cid : string)
  (manifest : Manifest) (d : mediaDeliveryDecision) (parts : list string) (variantKey : string)
  (w : World) : Response :=
  let variantKey := if masked d then Mode d else variantKey in
  let chosen :=
    if negb (bool_decide (variantKey = "")) then
      match m_Variants manifest !! variantKey with
      | None => Err (jsonError h 403 "Protected media variant is unavailable")
      | Some variant => Ok (a_BundlePath variant, a_ContentType variant,
                            override w (VariantOverrides.VariantOverrideKey cid variantKey))
      end
    else if (1 <? length parts)%nat then Err (notFound h)
    else Ok (a_BundlePath (m_Original manifest), a_ContentType (m_Original manifest), "") in
  match chosen with
  | Err response => response
  | Ok (bundlePath, contentType, replacement) =>
      let file :=
        match (if bool_decide (replacement = "") then None else readFile srv replacement "") with
        | Some o => Some o
        | None => readFile srv cid bundlePath
        end in
      match file with
      | None => notFound h
      | Some o =>
          match sniff contentType o with
          | None => jsonError h 500 "Failed to read file"
          | Some contentType => send h r d contentType o
          end
      end
  end.

Definition serveFile (srv : Server) (h : gmap string string) (r : Request) (cid : string)
  (parts : list string) (d : mediaDeliveryDecision) (w : World) : World * Response :=
  match readManifest cid w with
  | (w, None) => (w, notFound h)
  | (w, Some manifest) =>
      if bool_decide (parts = ["bundle"]) then
        (w, if masked d then jsonError h 403 "Protected media bundle is unavailable"
            else writeJSON (<["Cache-Control" := protectedMediaCacheControl (Managed d)]> h) 200
                   (ManifestBody manifest))
      else
        match parse_wanted srv parts with
        | None => (w, notFound h)
        | Some want =>
            let '(variantKey, crop) := frame srv manifest d (w_variant want) in
            let sourceVariant := source_mask d (w_mask want) in
            if is_configured srv variantKey &&
               (negb (bool_decide (sourceVariant = "")) ||
                bool_decide (m_Variants manifest !! variantKey = None) ||
                bool_decide (crop <> None))
            then serve_preview srv h r cid manifest d variantKey sourceVariant crop w
            else (w, serve_stored srv h r cid manifest d parts variantKey w)
        end
  end.

(** ** The handlers *)

Context (policy : policyRequest -> policyReply).

(** [strings.Trim(_, "/")] *)
Fixpoint trim_left_slashes (fuel : nat) (s : string) : string :=
  match fuel with
  | O => s
  | S n => match CutPrefix "/" s with Some r => trim_left_slashes n r | None => s end
  end.
Definition Trim_slashes (s : string) : string :=
  let s := trim_left_slashes (String.length s) s in trim_slashes (String.length s) s.

Definition path_parts (prefix path : string) : list string :=
  Split (Trim_slashes (TrimPrefix path prefix)) (chr 47).

Definition HandleFile (e : Env) (srv : Server) (r : Request) (w : World) : World * Response :=
  let h := no_store in
  match path_parts "/file/" (r_Path r) with
  | [] => (w, jsonError h 400 "CID required")
  | cid :: parts =>
      if bool_decide (cid = "") then (w, jsonError h 400 "CID required") else
      if negb (validateCID cid) then (w, jsonError h 400 (cidError cid)) else
      if UnpinStore.Has cid (unpinStore e) then (w, deleted h) else
      match resolveMediaDelivery policy e r cid with
      | Err err => (w, writeMediaAccessError h err)
      | Ok d => serveFile srv h r cid parts d w
      end
  end.

Definition HandleFileLink (e : Env) (srv : Server) (r : Request) (w : World) : World * Response :=
  let h := no_store in
  match path_parts "/file/link/" (r_Path r) with
  | [] => (w, jsonError h 400 "Media link required")
  | link :: parts =>
      if bool_decide (link = "") then (w, jsonError h 400 "Media link required") else
      match resolveMediaDeliveryLink policy e r link with
      | Err err => (w, writeMediaAccessError h err)
      | Ok d =>
          if negb (validateCID (SourceCID d)) then (w, notFound h) else
          if UnpinStore.Has (SourceCID d) (unpinStore e) then (w, deleted h) else
          serveFile srv h r (SourceCID d) parts d w
      end
  end.

End reading.

(** ** [HandleDelete]

    [rand] is what [rand.Read] gives [Revoke], [now] the clock of the mark, and
    [wo] how the store's file is written.  The second result is what the detached
    goroutine asks the cluster to unpin. *)
Definition with_store (s : UnpinStore.UnpinStore) (e : Env) : Env :=
  mkEnv s (mediaAccess e) (allowUnmanaged e) (mediaURL e) (mediaLinkURL e) (mediaGrants e)
    (redis e) (now e).
Definition with_redis (d : GrantState.db) (e : Env) : Env :=
  mkEnv (unpinStore e) (mediaAccess e) (allowUnmanaged e) (mediaURL e) (mediaLinkURL e)
    (mediaGrants e) (Ok d) (now e).

(** The revocation before the mark, where grants are on. *)
Definition revoke_file (e : Env) (cid : string) (rand : option string) : result accessErr Env :=
  match mediaGrants e with
  | None => Ok e
  | Some v =>
      match redis e with
      | Err msg => Err (Unavailable msg)
      | Ok d =>
          match GrantState.Revoke (state_prefix v) (FileResource cid) rand d with
          | Err _ => Err (Unavailable "media grant state")
          | Ok d' => Ok (with_redis d' e)
          end
      end
  end.

Definition HandleDelete (e : Env) (rand : option string) (now : Z) (wo : UnpinStore.write_outcome)
  (r : Request) : Env * list string * Response :=
  if bool_decide (r_UserID r <> "api-key")
  then (e, [], jsonError ∅ 403 "Deleting files is not allowed") else
  let cid := TrimPrefix (r_Path r) "/file/" in
  if negb (validateCID cid) then (e, [], jsonError ∅ 400 (cidError cid)) else
  match revoke_file e cid rand with
  | Err err => (e, [], writeMediaAccessError ∅ err)
  | Ok e1 =>
      let group := UnpinStore.GetGroup cid (unpinStore e1) in
      let store := if (0 <? length group)%nat
                   then UnpinStore.AddGroup cid group now wo (unpinStore e1)
                   else UnpinStore.Add cid now wo (unpinStore e1) in
      (with_store store e1, if (0 <? length group)%nat then group else [cid],
       writeJSON ∅ 200 (JSON [("status", "deleted"); ("cid", cid)]))
  end.

(** * Specification *)

(** A response no shared cache keeps, unless access control is off. *)
Definition uncached (e : Env) (resp : Response) : Prop :=
  w_Headers resp !! "Cache-Control" = Some "private, no-store" \/
  mediaAccess e = None /\ allowUnmanaged e = true.

(** What is true of every answer that carries a file. *)
Definition safe_response (unmanaged : Prop) (resp : Response) : Prop :=
  resp = aborted \/
  (w_Headers resp !! "Cache-Control" = Some "private, no-store" \/ unmanaged) /\
  (forall content, w_Body resp = Bytes content -> inert (w_Headers resp)).

(** Two storages, with the disk caches in front of them, that may differ in the
    original of one picture and nowhere else. *)
Record same_but_original (cid : string) (s1 s2 : Storage) (v1 v2 : Server) : Prop := {
  sbo_config : imageConfig v1 = imageConfig v2;
  sbo_processor : imageProcessor v1 = imageProcessor v2;
  sbo_saving : saving v1 = saving v2;
  sbo_fetch c : @ClusterTryFetch s1 c = @ClusterTryFetch s2 c;
  sbo_path c p : (c, p) <> (cid, OriginalFilename) ->
    @ClusterTryFetchPath s1 c p = @ClusterTryFetchPath s2 c p;
  sbo_cached k : k <> cid +:+ "/" +:+ OriginalFilename -> cachedFile v1 k = cachedFile v2 k
}.

(** A manifest as the upload writes it. *)
Definition bundled (m : Manifest) : Prop :=
  forall key asset, m_Variants m !! key = Some asset -> a_BundlePath asset <> OriginalFilename.

(** * Lemmas *)

Lemma key_not_original cid c p :
  (c, p) <> (cid, OriginalFilename) -> c = cid \/ p = "" ->
  c +:+ "/" +:+ p <> cid +:+ "/" +:+ OriginalFilename.
Proof.
  intros Hne [-> | ->] HE.
  - by do 2 apply append_inj_l in HE; subst.
  - rewrite append_nil_r in HE.
    apply (f_equal (fun s => HasSuffix s "l")) in HE.
    assert (H1 : HasSuffix (c +:+ "/") "l" = false).
    { unfold HasSuffix. apply bool_decide_eq_false_2. intros [x Hx].
      apply CutSuffix_Some in Hx. apply (f_equal (fun s => List.last (chars s) "l"%char)) in Hx.
      rewrite !chars_append in Hx. simpl in Hx. by rewrite !last_last in Hx. }
    assert (H2 : HasSuffix (cid +:+ "/" +:+ OriginalFilename) "l" = true).
    { unfold HasSuffix. apply bool_decide_eq_true_2. exists (cid +:+ "/" +:+ "origina").
      apply CutSuffix_Some. by rewrite !append_assoc. }
    congruence.
Qed.

Section same.
Context (cid : string) (s1 s2 : Storage) (v1 v2 : Server) (HS : same_but_original cid s1 s2 v1 v2).

Lemma same_readManifest w : @readManifest s1 cid w = @readManifest s2 cid w.
Proof.
  assert (HF : @fetchManifest s1 cid = @fetchManifest s2 cid).
  { unfold fetchManifest. by rewrite (sbo_path _ _ _ _ _ HS) by (intros [=]). }
  unfold readManifest. by rewrite HF.
Qed.

Lemma same_readFile c p : (c, p) <> (cid, OriginalFilename) -> c = cid \/ p = "" ->
  @readFile s1 v1 c p = @readFile s2 v2 c p.
Proof.
  intros Hne Hor. unfold readFile.
  rewrite (sbo_cached _ _ _ _ _ HS) by (by apply key_not_original).
  rewrite (sbo_fetch _ _ _ _ _ HS), (sbo_path _ _ _ _ _ HS) by done. done.
Qed.

Lemma same_configured variant : configuredPreview v1 variant = configuredPreview v2 variant.
Proof. unfold configuredPreview. by rewrite (sbo_config _ _ _ _ _ HS). Qed.

Lemma same_is_configured variant : is_configured v1 variant = is_configured v2 variant.
Proof. unfold is_configured. by rewrite same_configured. Qed.

Lemma same_preview m variant source crop w : bundled m -> source <> "" ->
  @ensureConfiguredPreview s1 v1 cid m variant source crop w =
  @ensureConfiguredPreview s2 v2 cid m variant source crop w.
Proof.
  intros Hm Hs. unfold ensureConfiguredPreview.
  rewrite same_configured, (sbo_config _ _ _ _ _ HS), (sbo_processor _ _ _ _ _ HS).
  destruct (configuredPreview v2 variant) as [size|]; [|done].
  destruct (imageConfig v2) as [c|]; [|done]. destruct (_ || _); [done|].
  unfold preview_source. rewrite (bool_decide_eq_false_2 _ Hs).
  destruct (m_Variants m !! source) as [asset|] eqn:Ha; [|done]. cbn [fmap option_fmap option_map].
  destruct (VariantOverrides.Get _ _) as [pc []]; [done|].
  unfold draw_preview, preview_bytes. rewrite (sbo_saving _ _ _ _ _ HS).
  rewrite (sbo_fetch _ _ _ _ _ HS), (sbo_path _ _ _ _ _ HS); [done|].
  intros [= HE]. by apply (Hm _ _ Ha).
Qed.

Lemma same_stored h r m d parts variant w : bundled m -> masked d = true -> Mode d <> "" ->
  @serve_stored s1 v1 h r cid m d parts variant w = @serve_stored s2 v2 h r cid m d parts variant w.
Proof.
  intros Hm Hd Hn. unfold serve_stored. rewrite Hd.
  rewrite (bool_decide_eq_false_2 _ Hn). cbn [negb].
  destruct (m_Variants m !! Mode d) as [asset|] eqn:Ha; [|done].
  assert (HR : forall c, @readFile s1 v1 c "" = @readFile s2 v2 c "").
  { intros c. apply same_readFile; [intros [=]|by right]. }
  rewrite HR, (same_readFile cid (a_BundlePath asset)); [done| |by left].
  intros [= HE]. by apply (Hm _ _ Ha).
Qed.
End same.

Lemma source_mask_nonempty d mask : masked d = true -> Mode d <> "" -> source_mask d mask <> "".
Proof.
  intros Hd Hn. unfold source_mask. rewrite Hd. destruct (_ || _) eqn:E; [done|].
  go_bools. by subst.
Qed.

(** ** Safe answers *)

Lemma writeJSON_safe U h code b : h !! "Cache-Control" = Some "private, no-store" ->
  (forall c, b <> Bytes c) -> safe_response U (writeJSON h code b).
Proof.
  intros Hh Hb. right. split; [left|by intros c Hc%Hb]. simpl. by rewrite lookup_insert_ne.
Qed.

Lemma access_error_safe U h e : safe_response U (writeMediaAccessError h e).
Proof.
  unfold writeMediaAccessError.
  assert (HX : <["Cache-Control" := "private, no-store"]> h !! "Cache-Control" =
    Some "private, no-store") by apply lookup_insert_eq.
  destruct e as [|[]|]; by apply writeJSON_safe.
Qed.

Lemma send_inert h r d ct o : inert (w_Headers (send h r d ct o)).
Proof.
  unfold send, with_length, protectedMediaCacheControl. cbn [w_Headers].
  assert (HI : inert (<["Cache-Control" := if Managed d then "private, no-store"
      else "private, max-age=31536000, immutable"]>
      (setUserFileHeaders (<["Content-Type" := ct]> h) ct))).
  { apply inert_insert; [by apply setUserFileHeaders_inert, lookup_insert_eq|].
    rewrite !not_elem_of_cons. split_and!; try done. apply not_elem_of_nil. }
  destruct (o_hit o); [|done]. apply inert_insert; [done|].
  rewrite !not_elem_of_cons. split_and!; try done. apply not_elem_of_nil.
Qed.

Lemma send_safe h r d ct o : safe_response (Managed d = false) (send h r d ct o).
Proof.
  right. split; [|intros content _; apply send_inert].
  unfold send, with_length, protectedMediaCacheControl. destruct (Managed d); [left|by right].
  simpl. destruct (o_hit o); rewrite ?lookup_insert_ne by done; apply lookup_insert_eq.
Qed.

Lemma serveFile_safe `{HS : Storage} srv h r cid parts d w :
  h !! "Cache-Control" = Some "private, no-store" ->
  safe_response (Managed d = false) (serveFile srv h r cid parts d w).2.
Proof.
  intros Hh. unfold serveFile. destruct (readManifest cid w) as [w1 [m|]];
    [|by apply writeJSON_safe].
  case_bool_decide.
  { destruct (masked d); [by apply writeJSON_safe|].
    right. split; [|done]. unfold protectedMediaCacheControl.
    destruct (Managed d); [left|by right]. simpl.
    by rewrite lookup_insert_ne, lookup_insert_eq. }
  destruct (parse_wanted srv parts) as [want|]; [|by apply writeJSON_safe].
  destruct (frame _ _ _ _) as [v crop].
  destruct (_ && _).
  - unfold serve_preview. destruct (ensureConfiguredPreview _ _ _ _ _ _ _) as [w2 [pc|[|]]].
    + cbn [snd]. destruct (readFile srv pc ""); [apply send_safe|by apply writeJSON_safe].
    + by apply writeJSON_safe.
    + by left.
  - cbn [snd]. unfold serve_stored. destruct (masked d).
    all: match goal with |- context [match ?c with Ok _ => _ | Err _ => _ end] =>
           destruct c as [[[bp ct] rep]|resp] eqn:Hc end.
    all: try (match goal with |- context [match ?f with Some _ => _ | None => _ end] =>
           destruct f as [o|] end; [|by apply writeJSON_safe];
         destruct (sniff ct o); [apply send_safe|by apply writeJSON_safe]).
    all: revert Hc; repeat case_match; intros [= <-]; by apply writeJSON_safe.
Qed.

(** ** Where a decision comes from *)

Lemma apply_rows_managed rows d d' : apply_rows rows d = Ok d' -> Managed d' = Managed d.
Proof.
  revert d. induction rows as [|row rows IH]; intros d; cbn [apply_rows]; [by intros [= ->]|].
  destruct (apply_row d row) as [d1|] eqn:Ha; [|done]. intros ->%IH.
  unfold apply_row in Ha. destruct (responseString _); [|done].
  destruct (tighten _ _); [|done]. by injection Ha as <-.
Qed.

Lemma resolve_managed policy res source cid link d :
  resolve policy res source cid link = Ok d -> Managed d = true.
Proof.
  unfold resolve. destruct res as [res|]; [|done]. unfold read_reply.
  destruct (policy _) as [|code msg| |rows item]; try done.
  - by repeat case_match.
  - destruct (match item with Some i => [i] | None => rows end) as [|row rest]; [done|].
    intros Ha. by apply apply_rows_managed in Ha.
Qed.

Lemma Resolve_managed policy res source cid d :
  Resolve policy res source cid = Ok d -> Managed d = true.
Proof.
  unfold Resolve. intros [HR _]%refuse_deny_Ok. revert HR.
  destruct (resolve policy res source cid "") as [d0|] eqn:H0; [|done].
  apply resolve_managed in H0. destruct source as [s|]; [|by intros [= <-]].
  destruct (_ && _); [by intros ?%resolve_managed|by intros [= <-]].
Qed.

Lemma grant_resolve_Ok e r link d : grant_resolve e r link = Ok d ->
  Managed d = true /\ exists v claims, mediaGrants e = Some v /\
    check_state e v claims = None /\ SourceCID d = Grant.SourceCID claims.
Proof.
  unfold grant_resolve. destruct (mediaGrants e) as [v|]; [|done].
  destruct (Url.Lookup _ _) as [|value [|? ?]]; [done| |done].
  case_bool_decide; [done|]. destruct (Grant.Open _ _ _ _) as [claims|]; [|done].
  case_bool_decide; [done|]. go_if Hop. destruct (check_state e v claims) eqn:Hchk; [done|].
  intros [= <-]. split; [done|]. by exists v, claims.
Qed.

Lemma delivery_uncached `{Storage} policy e r cid d :
  resolveMediaDelivery policy e r cid = Ok d -> Managed d = false ->
  mediaAccess e = None /\ allowUnmanaged e = true.
Proof.
  unfold resolveMediaDelivery. destruct (Url.Has _ _); [done|].
  destruct (mediaAccess e) as [res|].
  - destruct (Resolve _ _ _ _) as [d0|] eqn:HR; [|done]. apply Resolve_managed in HR.
    rewrite HR. destruct (validateMediaResource _ _ _ _); [done|]. intros [= <-]. by rewrite HR.
  - destruct (_ && _) eqn:E; [|done]. go_bools. done.
Qed.

Lemma link_delivery_managed policy e r link d :
  resolveMediaDeliveryLink policy e r link = Ok d -> Managed d = true.
Proof.
  unfold resolveMediaDeliveryLink. destruct (Url.Has _ _); [by intros [? _]%grant_resolve_Ok|].
  destruct (mediaAccess e) as [res|]; [|done]. unfold ResolveLink.
  case_bool_decide; [done|]. destruct (resolve _ _ _ _ _) as [d0|] eqn:HR; [|done].
  apply resolve_managed in HR. destruct (_ || _); [done|]. by intros [= <-].
Qed.

Lemma safe_response_mono (U V : Prop) resp : (U -> V) -> safe_response U resp -> safe_response V resp.
Proof. intros HUV [|[[|] Hi]]; [by left|right..]; split; auto. Qed.

(** ** Preview keys *)

Definition segment_end (s : string) : Prop := s = "" \/ exists t, s = "/" +:+ t.

Lemma slash_in_append a k : chr 47 ∉ chars (a +:+ String (chr 47) k) -> False.
Proof. rewrite chars_append, elem_of_app. simpl. intros Hn. apply Hn. right. by left. Qed.

Lemma first_segment a b x y : chr 47 ∉ chars a -> chr 47 ∉ chars b ->
  segment_end x -> segment_end y -> a +:+ x = b +:+ y -> a = b /\ x = y.
Proof.
  assert (HW : forall a b x y, chr 47 ∉ chars a -> segment_end y ->
    (exists k, a = b +:+ k /\ y = k +:+ x) -> a = b /\ x = y).
  { intros a0 b0 x0 y0 Ha Hy (k & -> & HE). destruct k as [|c k].
    - by rewrite append_nil_r, HE.
    - exfalso. rewrite append_String in HE. destruct Hy as [->|[t ->]]; [done|].
      rewrite append_String in HE. injection HE as <- _. by apply slash_in_append in Ha. }
  intros Ha Hb Hx Hy HE. apply append_eq_append in HE as [HE|HE]; [by apply (HW a b x y)|].
  destruct (HW b a y x Hb Hx HE). by split.
Qed.

Lemma cid_no char s : alnum char = false -> validateCID s = true -> char ∉ chars s.
Proof. intros Hc Hs Hin. pose proof (validateCID_chars s char Hs Hin). congruence. Qed.

Lemma parse_wanted_mask srv parts want : parse_wanted srv parts = Some want ->
  w_mask want = "" \/ w_mask want = "blur" \/ w_mask want = "blur_faces".
Proof.
  unfold parse_wanted. destruct parts as [|v [|mask [|? ?]]]; intros Hw; simplify_eq; [by left..|].
  revert Hw. destruct (is_configured srv v); [|done].
  destruct (decide (mask = Config.PrivacyBlurVariantKey)) as [->|H1].
  { intros Hw. simplify_eq/=. auto. }
  destruct (decide (mask = Config.PrivacyFaceBlurVariantKey)) as [->|H2].
  { intros Hw. simplify_eq/=. auto. }
  by rewrite (bool_decide_eq_false_2 _ H1), (bool_decide_eq_false_2 _ H2).
Qed.

Lemma draw_preview_Ok `{Storage} srv cid key variant size sourceCID path crop w w1 c :
  draw_preview srv cid key variant size sourceCID path crop w = (w1, Ok c) ->
  exists m d, overrides w = Some (VariantOverrides.mkOverrides (Some m) d) /\
    overrides w1 = Some (VariantOverrides.mkOverrides (Some (<[key := c]> m))
                          (VariantOverrides.FJson (Some (<[key := c]> m)))) /\
    replicated w1 = replicated w ++ [c].
Proof.
  unfold draw_preview. destruct (preview_bytes _ _ _); [|done].
  destruct (match crop with Some _ => _ | None => _ end); [|done].
  destruct (ClusterAdd _ _) as [added|]; [|done].
  destruct (overrides w) as [[[m|] d]|]; [|done|done].
  destruct (saving srv); try done. cbn. intros [= <- <-]. eauto.
Qed.

(** A preview's key is not the key of the rendition it is drawn from. *)
Lemma cacheVariant_not_source c variant size source sourceCID crop :
  source <> "" -> cacheVariant c variant size source sourceCID crop <> source.
Proof.
  intros Hs HE. unfold cacheVariant in HE. rewrite (bool_decide_eq_false_2 _ Hs) in HE.
  apply (f_equal String.length) in HE. rewrite !length_append in HE. simpl in HE. lia.
Qed.

Lemma VariantOverrideKey_inj cid v v' : v <> "" -> v' <> "" ->
  VariantOverrides.VariantOverrideKey cid v = VariantOverrides.VariantOverrideKey cid v' -> v = v'.
Proof.
  intros H1 H2. unfold VariantOverrides.VariantOverrideKey.
  rewrite !bool_decide_eq_false_2 by done. by intros ?%append_inj_l%append_inj_l.
Qed.

Lemma cacheVariant_nonempty c variant size source sourceCID crop :
  cacheVariant c variant size source sourceCID crop <> "".
Proof. done. Qed.

Lemma replacement_inj r1 r2 (crop1 crop2 : option deliveryCrop) :
  let tail r (crop : option deliveryCrop) := (if bool_decide (r = "") then "" else "/" +:+ r) +:+
    match crop with Some c => "/crop-" +:+ crop_key c | None => "" end in
  r1 = "" \/ validateCID r1 = true -> r2 = "" \/ validateCID r2 = true ->
  tail r1 crop1 = tail r2 crop2 -> r1 = r2.
Proof.
  intros tail.
  assert (Hno : forall r, validateCID r = true -> r <> "" /\ (chr 47 ∉ chars r) /\ chr 45 ∉ chars r).
  { intros r Hr. split_and!; [by intros E; rewrite E in Hr|by apply cid_no..]. }
  assert (Hdash : chr 45 ∈ chars "crop-") by by_dec.
  assert (Hcrop : forall r (crop1 crop2 : option deliveryCrop), validateCID r = true ->
    tail r crop1 <> tail "" crop2).
  { intros r c1 c2 (Hn & Hs & Hd)%Hno. unfold tail. rewrite (bool_decide_eq_false_2 _ Hn).
    rewrite bool_decide_eq_true_2 by done. rewrite append_nil_l.
    destruct c2 as [k|]; [|by destruct c1]. rewrite append_assoc. intros HE.
    apply (append_inj_l "/" _ ("crop-" +:+ crop_key k)) in HE.
    apply (append_eq_append _ _ "crop-") in HE as [(j & -> & HE)|(j & HE & HE2)].
    - apply Hd. rewrite chars_append, elem_of_app. by left.
    - destruct j as [|x j].
      + rewrite append_nil_r in HE. apply Hd. by rewrite <- HE.
      + destruct c1 as [k1|]; [|done]. rewrite append_String in HE2. injection HE2 as <- HE2.
        assert (Hno' : chr 47 ∉ chars "crop-") by by_dec. apply Hno'.
        rewrite HE, chars_append, elem_of_app. right. by left. }
  intros [->|H1] [->|H2] HE; [done| | |].
  - by destruct (Hcrop r2 crop2 crop1 H2).
  - by destruct (Hcrop r1 crop1 crop2 H1).
  - apply Hno in H1 as (N1 & S1 & _). apply Hno in H2 as (N2 & S2 & _). unfold tail in HE.
    rewrite (bool_decide_eq_false_2 _ N1), (bool_decide_eq_false_2 _ N2), !append_assoc in HE.
    apply append_inj_l in HE.
    apply first_segment in HE as [? _]; [done|done|done| |];
      match goal with |- segment_end (match ?c with _ => _ end) => destruct c as [k|] end;
      [right; by exists ("crop-" +:+ crop_key k)|by left|right; by exists ("crop-" +:+ crop_key k)|by left].
Qed.

(** ** Properties *)

(** C2. Who sees a masked picture sees nothing of the original: when the decision
    asks for a mask, the answer, and everything the request leaves behind, are the
    same whatever the original's bytes are, in the cluster and in the disk cache;
    and the bundle's description is refused. *)
Theorem masked_hides_original cid s1 s2 v1 v2 h r parts d w m :
  same_but_original cid s1 s2 v1 v2 ->
  masked d = true -> Mode d <> "" ->
  (@readManifest s1 cid w).2 = Some m -> bundled m ->
  @serveFile s1 v1 h r cid parts d w = @serveFile s2 v2 h r cid parts d w /\
  (parts = ["bundle"] -> w_Status (@serveFile s1 v1 h r cid parts d w).2 = 403).
Proof.
  intros HS Hd Hn Hm Hb. unfold serveFile.
  rewrite <- (same_readManifest _ _ _ _ _ HS w).
  destruct (@readManifest s1 cid w) as [w1 m']. simpl in Hm. subst m'. split.
  2:{ intros ->. rewrite bool_decide_eq_true_2 by done. by rewrite Hd. }
  case_bool_decide; [done|].
  assert (HW : parse_wanted v1 parts = parse_wanted v2 parts).
  { unfold parse_wanted. destruct parts as [|v [|mask [|? ?]]]; try done.
    by rewrite (same_is_configured _ _ _ _ _ HS). }
  rewrite HW. destruct (parse_wanted v2 parts) as [want|]; [|done].
  assert (HF : forall x, frame v1 m d x = frame v2 m d x).
  { intros x. unfold frame. by rewrite !(same_is_configured _ _ _ _ _ HS). }
  rewrite HF. destruct (frame v2 m d (w_variant want)) as [variant crop].
  rewrite (same_is_configured _ _ _ _ _ HS).
  pose proof (source_mask_nonempty d (w_mask want) Hd Hn) as Hs.
  destruct (_ && _); [|by rewrite (same_stored _ _ _ _ _ HS)].
  unfold serve_preview. rewrite (same_preview _ _ _ _ _ HS) by done.
  destruct (ensureConfiguredPreview _ _ _ _ _ _ _) as [w2 [pc|]]; [|done].
  rewrite (same_readFile _ _ _ _ _ HS); [done|intros [=]|by right].
Qed.

(** The stronger of two masks is drawn: for a decision that masks and a
    request that may name a mask of its own, the preview is made from the
    rendition that hides as much as both ask. *)
Theorem stronger_mask_wins srv parts want d n :
  parse_wanted srv parts = Some want -> masked d = true -> severity (Mode d) = Some n ->
  Mode d <> mediaDeliveryDeny ->
  severity (source_mask d (w_mask want)) = Some (Nat.max n (default 0%nat (severity (w_mask want)))).
Proof.
  intros Hw Hd Hn Hdeny. unfold source_mask. rewrite Hd.
  assert (HM : Mode d = mediaDeliveryBlurFaces /\ n = 1%nat \/ Mode d = mediaDeliveryBlur /\ n = 2%nat).
  { unfold masked in Hd. unfold severity in Hn. go_bools. revert Hn.
    repeat case_bool_decide; try done; intros [= <-]; auto. }
  pose proof (parse_wanted_mask _ _ _ Hw) as Hmask. revert Hmask. generalize (w_mask want).
  clear Hw want. intros mask [->|[->| ->]];
    destruct HM as [[-> ->]|[-> ->]]; reflexivity.
Qed.

(** Every file answer is safe to open and to cache: whatever was asked, a body
    of file bytes comes with the sandbox policy, without sniffing and as a
    download unless it is a picture, video, sound or plain text; and every answer
    forbids storing it, unless access control is explicitly off. *)
Theorem file_answers_safe `{Storage} policy e srv r w :
  safe_response (mediaAccess e = None /\ allowUnmanaged e = true)
    (HandleFile policy e srv r w).2 /\
  safe_response False (HandleFileLink policy e srv r w).2.
Proof.
  assert (Hh : no_store !! "Cache-Control" = Some "private, no-store") by apply lookup_insert_eq.
  unfold HandleFile, HandleFileLink. split.
  - destruct (path_parts _ _) as [|cid parts]; [by apply writeJSON_safe|].
    case_bool_decide; [by apply writeJSON_safe|].
    destruct (negb _); [by apply writeJSON_safe|].
    destruct (UnpinStore.Has _ _); [by apply writeJSON_safe|].
    destruct (resolveMediaDelivery _ _ _ _) as [d|err] eqn:HR; [|apply access_error_safe].
    eapply safe_response_mono; [|by apply serveFile_safe].
    intros HM. exact (delivery_uncached _ _ _ _ _ HR HM).
  - destruct (path_parts _ _) as [|link parts]; [by apply writeJSON_safe|].
    case_bool_decide; [by apply writeJSON_safe|].
    destruct (resolveMediaDeliveryLink _ _ _ _) as [d|err] eqn:HR; [|apply access_error_safe].
    destruct (negb _); [by apply writeJSON_safe|].
    destruct (UnpinStore.Has _ _); [by apply writeJSON_safe|].
    apply link_delivery_managed in HR.
    eapply safe_response_mono; [|by apply serveFile_safe]. intros HM. congruence.
Qed.

(** Once a file is revoked no grant for it is honoured, whatever is marked. *)
Lemma revoked_refused e e1 cid rand store r' link d : revoke_file e cid rand = Ok e1 ->
  grant_resolve (with_store store e1) r' link = Ok d -> sameMediaCID (SourceCID d) cid = false.
Proof.
  intros HR Hd. apply not_true_is_false. intros Hsame.
  apply grant_resolve_Ok in Hd as (_ & v & claims & Hv & Hc & HS).
  cbn [with_store mediaGrants] in Hv. unfold revoke_file in HR.
  assert (Hv' : mediaGrants e = Some v) by (repeat case_match; simplify_eq/=; congruence).
  rewrite Hv' in HR. destruct (redis e) as [db|]; [|done].
  destruct (GrantState.Revoke _ _ _ _) as [db'|] eqn:HRv; [|done]. injection HR as <-.
  apply GrantState.Revoke_Ok in HRv as [Hg _].
  rewrite <- (FileResource_same _ _ Hsame), HS in Hg.
  unfold check_state in Hc. cbn [with_store with_redis redis] in Hc.
  destruct (GrantState.Check _ claims db') as [[]|] eqn:Hck; try done.
  by apply (GrantState.Check_guard _ _ _ _ (Grant.FileVersion claims) _ (list_elem_of_further _ _ _
    (list_elem_of_here _ _)) Hg ltac:(discriminate)).
Qed.

(** What the store holds after a deletion of [cid]. *)
Definition deleted_store (cid : string) (now : Z) (wo : UnpinStore.write_outcome)
  (s : UnpinStore.UnpinStore) : UnpinStore.UnpinStore :=
  let group := UnpinStore.GetGroup cid s in
  if (0 <? length group)%nat then UnpinStore.AddGroup cid group now wo s
  else UnpinStore.Add cid now wo s.

(** A deletion is refused and changes nothing, or revokes and marks. *)
Lemma HandleDelete_cases e rand now wo r e' asked resp :
  HandleDelete e rand now wo r = (e', asked, resp) ->
  let cid := TrimPrefix (r_Path r) "/file/" in
  w_Status resp <> 200 /\ e' = e /\ asked = [] \/
  exists e1, revoke_file e cid rand = Ok e1 /\ r_UserID r = "api-key" /\ validateCID cid = true /\
    w_Status resp = 200 /\ e' = with_store (deleted_store cid now wo (unpinStore e)) e1 /\
    asked = (if bool_decide (UnpinStore.GetGroup cid (unpinStore e) = []) then [cid]
             else UnpinStore.GetGroup cid (unpinStore e)).
Proof.
  unfold HandleDelete. case_bool_decide as Huser; [intros [= <- <- <-]; by left|].
  set (cid := TrimPrefix _ _). destruct (validateCID cid) eqn:HV; cbn [negb];
    [|intros [= <- <- <-]; by left].
  destruct (revoke_file e cid rand) as [e1|err] eqn:HR.
  2:{ intros [= <- <- <-]. left. split; [|done]. by destruct err as [|[]|]. }
  assert (HE : unpinStore e1 = unpinStore e).
  { unfold revoke_file in HR. repeat case_match; simplify_eq; done. }
  intros [= <- <- <-]. right. exists e1. split_and!; try done.
  - unfold deleted_store. by rewrite HE.
  - rewrite HE. by destruct (UnpinStore.GetGroup cid (unpinStore e)).
Qed.

Lemma deleted_store_Has cid now wo s c :
  UnpinStore.Has c (deleted_store cid now wo s) = true <->
  c ∈ (if bool_decide (UnpinStore.GetGroup cid s = []) then [cid] else UnpinStore.GetGroup cid s) \/
  UnpinStore.Has c s = true.
Proof.
  unfold deleted_store, UnpinStore.Has. rewrite !bool_decide_eq_true.
  destruct (UnpinStore.GetGroup cid s) as [|g gs]; cbn [length].
  - change (0 <? 0)%nat with false. rewrite bool_decide_eq_true_2 by done.
    unfold UnpinStore.Add. rewrite UnpinStore.put_entries, list_elem_of_singleton.
    destruct (decide (c = cid)) as [->|Hne].
    + rewrite lookup_insert_eq. split; [by left|by eexists].
    + rewrite lookup_insert_ne by done. split; [auto|by intros [?|?]].
  - change (0 <? S _)%nat with true. rewrite bool_decide_eq_false_2 by done.
    unfold UnpinStore.AddGroup. rewrite UnpinStore.put_entries, UnpinStore.mark_all_lookup.
    case_decide; [|split; [auto|by intros [?|?]]]. split; [by left|by eexists].
Qed.

(** C9. A deletion cuts every way to the file at once: only the platform's own key
    deletes; a refused or failed deletion changes nothing; and after a successful
    one the files handed to the cluster for unpinning are exactly the group of the
    file, or the file alone, each of them is marked, and no grant for the file, in
    any spelling of its identifier, is honoured any more. *)
Theorem delete_cuts_off e rand now wo r :
  let '(e', asked, resp) := HandleDelete e rand now wo r in
  let cid := TrimPrefix (r_Path r) "/file/" in
  (w_Status resp <> 200 -> e' = e /\ asked = []) /\
  (w_Status resp = 200 ->
     r_UserID r = "api-key" /\ validateCID cid = true /\
     asked = (if bool_decide (UnpinStore.GetGroup cid (unpinStore e) = []) then [cid]
              else UnpinStore.GetGroup cid (unpinStore e)) /\
     (forall c, UnpinStore.Has c (unpinStore e') = true <->
        c ∈ asked \/ UnpinStore.Has c (unpinStore e) = true) /\
     (forall r' link d, grant_resolve e' r' link = Ok d -> sameMediaCID (SourceCID d) cid = false)).
Proof.
  destruct (HandleDelete e rand now wo r) as [[e' asked] resp] eqn:HD. intros cid.
  apply HandleDelete_cases in HD as [(Hst & -> & ->)|(e1 & HR & Hu & HV & Hst & -> & ->)]; [by split|].
  split; [done|]. intros _. split_and!; [done..| |].
  - intros c. cbn [with_store unpinStore]. apply deleted_store_Has.
  - intros r' link d. by apply (revoked_refused e e1 cid rand).
Qed.

(** A preview is drawn once: after a request that got one, the same preview is
    answered at once from the override map - whatever the storage now holds and
    however a save would go - with nothing drawn, added or recorded again. *)
Theorem preview_drawn_once s1 s2 srv srv' cid m variant source crop w w1 c :
  @ensureConfiguredPreview s1 srv cid m variant source crop w = (w1, Ok c) -> c <> "" ->
  imageConfig srv' = imageConfig srv -> imageProcessor srv' = imageProcessor srv ->
  @ensureConfiguredPreview s2 srv' cid m variant source crop w1 = (w1, Ok c).
Proof.
  intros HE Hc Hi Hp. unfold ensureConfiguredPreview, configuredPreview in *.
  rewrite Hi, Hp. clear Hi Hp.
  destruct (imageConfig srv) as [cfg|]; [|done].
  destruct (negb (Config.ProcessingEnabled cfg)); [done|].
  destruct (_ <$> _) as [size|]; [|done].
  destruct (negb (imageProcessor srv)); [done|]. rewrite !orb_false_l in *.
  destruct (negb (bool_decide (m_Type m = "image"))); [by rewrite orb_true_r in HE|].
  rewrite !orb_false_r in *. revert HE. case_bool_decide as Hw; [done|].
  destruct (preview_source cid m source w) as [[path sourceCID]|] eqn:Hs; [|done].
  set (key := VariantOverrides.VariantOverrideKey _ _).
  destruct (VariantOverrides.Get (overrides w) key) as [pc []] eqn:HG; intros HE.
  { simplify_eq. rewrite bool_decide_eq_false_2 by done. rewrite Hs. fold key. by rewrite HG. }
  apply draw_preview_Ok in HE as (om & d & Ho & Ho1 & _).
  rewrite bool_decide_eq_false_2 by (by rewrite Ho1).
  assert (Hs1 : preview_source cid m source w1 = Some (path, sourceCID)).
  { rewrite <- Hs. unfold preview_source. case_bool_decide as Hne; [done|].
    destruct (m_Variants m !! source); [|done]. cbn. do 2 f_equal. unfold override.
    rewrite Ho, Ho1. cbn. rewrite lookup_insert_ne; [done|]. unfold key.
    intros Hk%VariantOverrideKey_inj; [|apply cacheVariant_nonempty|done].
    by apply cacheVariant_not_source in Hk. }
  rewrite Hs1. fold key. unfold VariantOverrides.Get. rewrite Ho1. cbn.
  rewrite lookup_insert_eq. by rewrite bool_decide_eq_false_2.
Qed.

(** A redrawn mask gets new previews: two previews of one size that are drawn
    from different masks, or from different replacements of a mask, are recorded
    under different keys, so an old preview never stands in for a new mask. *)
Theorem new_mask_new_preview cid c variant size v1 v2 r1 r2 crop1 crop2 :
  let key v r crop := VariantOverrides.VariantOverrideKey cid (cacheVariant c variant size v r crop) in
  v1 ∈ ["blur"; "blur_faces"] -> v2 ∈ ["blur"; "blur_faces"] ->
  r1 = "" \/ validateCID r1 = true -> r2 = "" \/ validateCID r2 = true ->
  key v1 r1 crop1 = key v2 r2 crop2 -> v1 = v2 /\ r1 = r2.
Proof.
  intros key Hv1 Hv2 Hr1 Hr2 HK'. unfold key in HK'.
  apply VariantOverrideKey_inj in HK'; [|apply cacheVariant_nonempty..].
  assert (Hv : forall v, v ∈ ["blur"; "blur_faces"] -> v <> "" /\ chr 47 ∉ chars v).
  { intros v Hin. rewrite !elem_of_cons, elem_of_nil in Hin.
    destruct Hin as [->|[->|[]]]; (split; [done|by_dec]). }
  apply Hv in Hv1 as [N1 S1]. apply Hv in Hv2 as [N2 S2]. unfold cacheVariant in HK'.
  rewrite (bool_decide_eq_false_2 _ N1), (bool_decide_eq_false_2 _ N2) in HK'.
  do 12 apply append_inj_l in HK'. rewrite !append_assoc in HK'. apply append_inj_l in HK'.
  set (tail := fun r crop => (if bool_decide (r = "") then "" else "/" +:+ r) +:+
    match crop with Some c => "/crop-" +:+ crop_key c | None => "" end).
  assert (Hend : forall r crop, segment_end (tail r crop)).
  { intros r crop. unfold tail. destruct (bool_decide (r = "")).
    - destruct crop as [k|]; [right; by exists ("crop-" +:+ crop_key k)|by left].
    - right. eexists. by rewrite append_assoc. }
  destruct (first_segment v1 v2 (tail r1 crop1) (tail r2 crop2)) as [-> HT]; [done|done|apply Hend..| |].
  { exact HK'. }
  split; [done|]. by apply (replacement_inj r1 r2 crop1 crop2).
Qed.

End delivery.

(** ** Witnesses

    One picture with a blurred rendition; its original holds [secret]. *)
Module Toy.
#[local] Existing Instance Grant.Toy.crypto.
#[local] Existing Instance Cid.Toy.cidlib.
#[local] Existing Instance Playlist.Toy.authority.
#[local] Existing Instance MediaAccess.Toy.crops.

#[local] Instance numbers : Config.Numbers := {|
  Config.float64 := unit; Config.float_lit _ := tt; Config.float_lt _ _ := false;
  Config.float_le _ _ := true; Config.ParseFloat _ := None; Config.ParseDuration _ := None |}.

Definition photo : string := Playlist.Toy.cidA.

Definition manifest : Manifest :=
  {| m_CID := ""; m_Name := "me.jpg"; m_Type := "image"; m_Version := 1; m_Size := 9;
     m_Original := mkAsset "" "" OriginalFilename "jpeg" "image/jpeg" 10 10 9;
     m_Variants := {[ "blur" := mkAsset "" "" "blur.jpg" "jpeg" "image/jpeg" 10 10 4;
                      "fit_480" := mkAsset "" "" "fit_480.jpg" "jpeg" "image/jpeg" 10 10 4 ]};
     m_Metadata := ∅ |}.

#[local] Instance content : Content := {|
  decode_manifest s := if bool_decide (s = "manifest") then Some manifest else None;
  DetectContentType _ := "application/octet-stream";
  ConfiguredPreview s _ := Some ("small " +:+ s);
  CroppedPreview s _ _ := Some ("part of " +:+ s);
  ClusterAdd _ s := Some ("Qm:" +:+ s)
|}.

Definition storage (secret : string) : Storage := {|
  ClusterTryFetch c := (fun s => mkReader s false) <$> CutPrefix "Qm:" c;
  ClusterTryFetchPath c p :=
    if decide ((c, p) = (photo, OriginalFilename)) then Some (mkReader secret false)
    else if bool_decide (p = ManifestFilename) then Some (mkReader "manifest" false)
    else if bool_decide (p = "blur.jpg") then Some (mkReader "blurred" false) else None
|}.

Definition server : Server :=
  mkServer _ (Some (Config.Image (Config.Load (fun _ => "")))) true (fun _ => None)
    VariantOverrides.SetOk.
Definition world : World :=
  mkWorld (ManifestCache.newManifestCache 100000)
    (Some (VariantOverrides.mkOverrides (Some ∅) VariantOverrides.FEmpty)) [].

Definition blurred : mediaDeliveryDecision := mkDecision "blur" true photo false "" "".
Definition view (path : string) : Request := MediaAccess.Toy.request path [].

Lemma same_storages a b : same_but_original photo (storage a) (storage b) server server.
Proof. split; try done. intros c p Hne. cbn. by rewrite !decide_False. Qed.

Lemma masked_hides_original_witness :
  let go secret := @serveFile _ _ _ (storage secret) server no_store (view "/") photo ["fit_480"]
                     blurred world in
  go "a face" = go "nothing" /\ w_Body (go "a face").2 = Bytes "small blurred".
Proof.
  intros go. split; [|by_vm].
  apply (masked_hides_original photo (storage "a face") (storage "nothing") server server no_store
    (view "/") ["fit_480"] blurred world (Finalize photo manifest)).
  - apply same_storages.
  - reflexivity.
  - discriminate.
  - by_vm.
  - change (map_Forall (fun _ asset => a_BundlePath asset <> OriginalFilename)
      (m_Variants (Finalize photo manifest))). by_dec.
Defined.

Lemma stronger_mask_wins_witness :
  let d := mkDecision "blur_faces" true photo false "" "" in
  parse_wanted server ["fit_480"; "blur"] = Some (mkWanted "fit_480" "blur") /\
  severity (source_mask d "blur") = Some 2%nat.
Proof.
  intros d. assert (HW : parse_wanted server ["fit_480"; "blur"] = Some (mkWanted "fit_480" "blur"))
    by by_vm.
  split; [exact HW|].
  apply (stronger_mask_wins server _ _ d 1 HW); [reflexivity|reflexivity|discriminate].
Defined.

Lemma delete_cuts_off_witness :
  let r := mkRequest "DELETE" ("/file/" +:+ photo) [] ∅ ∅ "api-key" in
  let res := HandleDelete MediaAccess.Toy.env (Some "0123456789abcdef") 5 UnpinStore.Written r in
  w_Status res.2 = 200 /\ res.1.2 = [photo] /\ UnpinStore.Has photo (unpinStore res.1.1) = true.
Proof.
  intros r res. pose proof (delete_cuts_off MediaAccess.Toy.env (Some "0123456789abcdef") 5
    UnpinStore.Written r) as HD. fold res in HD.
  assert (HS : w_Status res.2 = 200) by by_vm.
  destruct res as [[e' asked] resp]. destruct HD as [_ HD].
  destruct (HD HS) as (_ & _ & Ha & Hh & _). split; [exact HS|].
  assert (HA : asked = [photo]) by (rewrite Ha; by_vm).
  split; [exact HA|]. apply Hh. left. rewrite HA. apply list_elem_of_here.
Defined.

Lemma preview_drawn_once_witness :
  let res := @ensureConfiguredPreview _ _ _ (storage "a face") server photo manifest "fit_480" "blur"
               None world in
  res.2 = Ok "Qm:small blurred" /\
  @ensureConfiguredPreview _ _ _ (storage "gone") server photo manifest "fit_480" "blur" None res.1 =
    (res.1, Ok "Qm:small blurred").
Proof.
  intros res. assert (HR : res.2 = Ok "Qm:small blurred") by by_vm. split; [exact HR|].
  apply (preview_drawn_once (storage "a face") (storage "gone") server server photo manifest
    "fit_480" "blur" None world); [|discriminate|reflexivity|reflexivity].
  rewrite <- HR. apply surjective_pairing.
Defined.

Lemma new_mask_new_preview_witness :
  "blur" = "blur" /\ photo = photo.
Proof.
  apply (new_mask_new_preview photo (Config.Image (Config.Load (fun _ => ""))) "fit_480"
    (Config.fitted 480) "blur" "blur" photo photo None None).
  - apply list_elem_of_here.
  - apply list_elem_of_here.
  - right. by_vm.
  - right. by_vm.
  - reflexivity.
Defined.
End Toy.
End Delivery.
