(* ===== verification/Crop.v ===== *)
(** [internal/handler/delivery_crop.go], and the previews the handlers draw: the
    frame of an avatar, and the interfaces [Crops] and [Content] of the handlers
    implemented by it and by the image processor. *)

From S2P Require Export Delivery ImageProc.

Local Open Scope Z_scope.

Module Crop.
Import Http Cid Delivery.

(** [strconv.ParseFloat], [math.IsNaN], and a fraction with four decimals. *)
Class CropFloats `{Blur.Float64} := {
  ParseFloat : string -> option Blur.F;
  IsNaN : Blur.F -> bool;
  fixed4 : Blur.F -> string
}.

Section crop.
Context `{HF : Blur.Float64, HCF : !CropFloats}.

Record deliveryCrop := mkCrop { c_X : Blur.F; c_Y : Blur.F; c_W : Blur.F; c_H : Blur.F }.

(** [<] on numbers. *)
Definition lt (a b : Blur.F) : bool := negb (Blur.fle b a).

(** One of the four numbers. *)
Definition parse_fraction (part : string) : option Blur.F :=
  match ParseFloat (TrimSpace part) with
  | None => None
  | Some number =>
      if IsNaN number || lt number (Blur.lit 0 1) || lt (Blur.lit 1 1) number then None else Some number
  end.

Definition parseDeliveryCrop (value : string) : option deliveryCrop :=
  let value := TrimSpace value in
  if bool_decide (value = "") then None else
  match Split value ","%char with
  | [a; b; c; d] =>
      match parse_fraction a, parse_fraction b, parse_fraction c, parse_fraction d with
      | Some x, Some y, Some w, Some h =>
          if lt w (Blur.lit 2 100) || lt h (Blur.lit 2 100) ||
             lt (Blur.lit 10001 10000) (Blur.fadd x w) || lt (Blur.lit 10001 10000) (Blur.fadd y h)
          then None else Some (mkCrop x y w h)
      | _, _, _, _ => None
      end
  | _ => None
  end.

Definition key (c : deliveryCrop) : string :=
  fixed4 (c_X c) +:+ "," +:+ fixed4 (c_Y c) +:+ "," +:+ fixed4 (c_W c) +:+ "," +:+ fixed4 (c_H c).

#[export] Instance crops : MediaAccess.Crops := {|
  MediaAccess.deliveryCrop := deliveryCrop;
  MediaAccess.parseDeliveryCrop := parseDeliveryCrop;
  MediaAccess.crop_key := key
|}.

Section previews.
Context `{HN : Config.Numbers, HCo : !ImageProc.Codecs}.

(** The previews as the handlers draw them, with the manifest's JSON, the sniffing
    of content types and the cluster still open. *)
Definition ok {E A} (r : result E A) : option A := match r with Ok a => Some a | Err _ => None end.

Definition previews (p : ImageProc.Processor) (decode : string -> option Manifest)
  (detect : string -> string) (add : string -> string -> option string) : @Delivery.Content crops :=
  @Delivery.Build_Content crops decode detect
    (fun data size => ok (ImageProc.ConfiguredPreview p data size))
    (fun data size (c : @MediaAccess.deliveryCrop crops) =>
       ok (ImageProc.CroppedPreview p data size (c_X c) (c_Y c) (c_W c) (c_H c)))
    add.

(** * Specification *)

(** The pixels a frame covers in a picture of some size. *)
Definition frame_rect (dx dy : Z) (c : deliveryCrop) : Blur.Rectangle :=
  let at_ v side := Blur.to_int (Blur.Round (Blur.fmul v (Blur.float64 side))) in
  Blur.Intersect
    (Blur.Rect (at_ (c_X c) dx) (at_ (c_Y c) dy)
       (at_ (Blur.fadd (c_X c) (c_W c)) dx) (at_ (Blur.fadd (c_Y c) (c_H c)) dy))
    (Blur.mkRect 0 0 dx dy).

(** Two files that hold pictures of one size that agree inside the frame. *)
Definition same_inside (c : deliveryCrop) (a b : string) : Prop :=
  exists size src1 src2, ImageProc.DecodeConfig a = Some size /\ ImageProc.DecodeConfig b = Some size /\
    ImageProc.Decode a = Some src1 /\ ImageProc.Decode b = Some src2 /\
    ImageProc.pic_Dx src1 = ImageProc.pic_Dx src2 /\ ImageProc.pic_Dy src1 = ImageProc.pic_Dy src2 /\
    let r := frame_rect (ImageProc.pic_Dx src1) (ImageProc.pic_Dy src1) c in
    ImageProc.part_of src1 r = ImageProc.part_of src2 r.

(** A manifest of a picture, as the upload writes it. *)
Definition picture (m : Manifest) : Prop :=
  bundled m /\ m_Type m = "image" /\ a_BundlePath (m_Original m) = OriginalFilename.

(** * Lemmas *)

Lemma cropped_same p c a b size : same_inside c a b ->
  ImageProc.CroppedPreview p a size (c_X c) (c_Y c) (c_W c) (c_H c) =
  ImageProc.CroppedPreview p b size (c_X c) (c_Y c) (c_W c) (c_H c).
Proof.
  intros ([[w h] f] & src1 & src2 & HC1 & HC2 & HD1 & HD2 & HX & HY & HR).
  unfold ImageProc.CroppedPreview, ImageProc.open_source. rewrite HC1, HC2, HD1, HD2.
  destruct (_ || _ || _); [done|]. destruct (_ || _ || _); [done|]. cbn [of_option].
  unfold frame_rect in HR. rewrite HX, HY in *. by rewrite HR.
Qed.

(** Whatever the four numbers, a frame stays inside its picture. *)
Lemma frame_inside dx dy c : 0 <= dx -> 0 <= dy ->
  let r := frame_rect dx dy c in
  Blur.Empty r = false -> 0 <= Blur.MinX r /\ Blur.MaxX r <= dx /\ 0 <= Blur.MinY r /\ Blur.MaxY r <= dy.
Proof.
  intros Hx Hy r. unfold r, frame_rect. set (q := Blur.Rect _ _ _ _).
  unfold Blur.Intersect, Blur.Empty. destruct q as [x0 y0 x1 y1]. cbn.
  repeat case_match; cbn in *; lia.
Qed.

(** ** Two storages that differ in one original *)

Section framed.
Context `{HK : Grant.Crypto, HL : CidLib, HA : Url.Authority}.
Context (p : ImageProc.Processor) (decode : string -> option Manifest) (detect : string -> string).
Context (add : string -> string -> option string).
#[local] Instance drawn : @Delivery.Content crops := previews p decode detect add.

Context (cid : string) (s1 s2 : Storage) (v1 v2 : Server).
Context (Hsame : same_but_original cid s1 s2 v1 v2).
Context (a b : string) (c : deliveryCrop).
Context (Ha : @ClusterTryFetchPath s1 cid OriginalFilename = Some (mkReader a false)).
Context (Hb : @ClusterTryFetchPath s2 cid OriginalFilename = Some (mkReader b false)).
Context (Hsize : Z.of_nat (String.length a) <= fitPreviewMaxSource /\ Z.of_nat (String.length b) <= fitPreviewMaxSource).
Context (Hin : same_inside c a b).

Lemma original_bytes s x : @ClusterTryFetchPath s cid OriginalFilename = Some (mkReader x false) ->
  Z.of_nat (String.length x) <= fitPreviewMaxSource -> @preview_bytes s cid "" OriginalFilename = Some x.
Proof.
  intros HX HS. unfold preview_bytes. rewrite (bool_decide_eq_true_2 ("" = "")) by done. cbn [negb]. rewrite HX.
  unfold ReadAll. cbn [data rerr andb]. rewrite (proj2 (Z.ltb_ge (fitPreviewMaxSource + 1) _)) by lia.
  by rewrite (proj2 (Z.ltb_ge _ _)) by lia.
Qed.

Lemma framed_preview m variant source w : picture m ->
  @ensureConfiguredPreview _ _ _ s1 v1 cid m variant source (Some c) w =
  @ensureConfiguredPreview _ _ _ s2 v2 cid m variant source (Some c) w.
Proof.
  intros (HB & HT & HO). destruct (decide (source = "")) as [->|Hne].
  2:{ exact (same_preview cid s1 s2 v1 v2 Hsame m variant source (Some c) w HB Hne). }
  unfold ensureConfiguredPreview.
  rewrite (same_configured _ _ _ _ _ Hsame), (sbo_config _ _ _ _ _ Hsame), (sbo_processor _ _ _ _ _ Hsame).
  destruct (configuredPreview v2 variant) as [size|]; [|done]. destruct (imageConfig v2) as [cfg|]; [|done].
  destruct (_ || _); [done|]. unfold preview_source. rewrite (bool_decide_eq_true_2 ("" = "")) by done. rewrite HO.
  destruct (VariantOverrides.Get _ _) as [pc []]; [done|].
  unfold draw_preview. rewrite (original_bytes s1 a Ha (proj1 Hsize)), (original_bytes s2 b Hb (proj2 Hsize)).
  cbn [Delivery.CroppedPreview drawn previews]. rewrite (cropped_same p c a b size Hin). by rewrite (sbo_saving _ _ _ _ _ Hsame).
Qed.

(** A request for which the frame is drawn: it names a configured size, or the
    size that stands for all the others is configured. *)
Definition framed_size (v : Server) (parts : list string) : Prop :=
  is_configured v cropFallbackVariant = true \/
  exists want, parse_wanted v parts = Some want /\ is_configured v (w_variant want) = true.

Lemma framed_answer d h r parts w m : parseDeliveryCrop (MediaAccess.Crop d) = Some c ->
  framed_size v1 parts -> (@readManifest _ _ s1 cid w).2 = Some m -> picture m ->
  @serveFile _ _ _ s1 v1 h r cid parts d w = @serveFile _ _ _ s2 v2 h r cid parts d w.
Proof.
  intros Hc Hf Hm HP. unfold serveFile. rewrite <- (same_readManifest _ _ _ _ _ Hsame w).
  destruct (@readManifest _ _ s1 cid w) as [w1 m']. cbn [snd] in Hm. subst m'.
  case_bool_decide; [done|].
  assert (HW : parse_wanted v1 parts = parse_wanted v2 parts).
  { unfold parse_wanted. destruct parts as [|v [|mask [|? ?]]]; try done.
    by rewrite (same_is_configured _ _ _ _ _ Hsame). }
  unfold framed_size in Hf. rewrite HW in Hf |- *.
  destruct (parse_wanted v2 parts) as [want|]; [|done].
  assert (HE : frame v1 m d (w_variant want) = frame v2 m d (w_variant want)).
  { unfold frame. by rewrite !(same_is_configured _ _ _ _ _ Hsame). }
  assert (HFr : exists variant, frame v2 m d (w_variant want) = (variant, Some c) /\ is_configured v2 variant = true).
  { unfold frame. cbn [MediaAccess.parseDeliveryCrop crops]. rewrite Hc, bool_decide_eq_true_2 by apply HP.
    rewrite !(same_is_configured _ _ _ _ _ Hsame) in Hf.
    destruct (is_configured v2 (w_variant want)) eqn:E; eexists; (split; [|eassumption || idtac]).
    - by rewrite E.
    - by destruct Hf as [-> | (want' & [= <-] & Hf)]; [|rewrite same_is_configured with (1 := Hsame) in Hf; congruence].
    - destruct Hf as [|(want' & [= <-] & Hf)]; [done|].
      rewrite same_is_configured with (1 := Hsame) in Hf; congruence. }
  rewrite HE. destruct HFr as (variant & -> & HV).
  rewrite (same_is_configured _ _ _ _ _ Hsame), HV.
  rewrite (bool_decide_eq_true_2 (Some c <> None)) by done. rewrite !orb_true_r. cbn [andb].
  unfold serve_preview. rewrite (framed_preview m variant _ w1 HP).
  destruct (@ensureConfiguredPreview _ _ _ s2 _ _ _ _ _ _ _) as [w2 [pc|]]; [|done].
  rewrite (same_readFile _ _ _ _ _ Hsame); [done|intros [=]|by right].
Qed.

End framed.
End previews.
End crop.

(** ** Properties *)

(** What is answered where neither the size asked for nor [fit_1024] is configured:
    the frame is dropped. *)
Lemma frame_dropped `{HF : Blur.Float64, HCF : !CropFloats, HN : Config.Numbers, HP : !Delivery.Content,
  HS : Storage} v h r cid parts d w m want : m_Type m = "image" ->
  (readManifest cid w).2 = Some m -> parts <> ["bundle"] -> parse_wanted v parts = Some want ->
  parseDeliveryCrop (MediaAccess.Crop d) <> None ->
  is_configured v (w_variant want) = false -> is_configured v cropFallbackVariant = false ->
  (serveFile v h r cid parts d w).2 =
    serve_stored v h r cid m d parts cropFallbackVariant (readManifest cid w).1.
Proof.
  intros HT Hm Hb Hw Hc H1 H2. unfold serveFile. destruct (readManifest cid w) as [w1 m']. cbn in Hm. subst m'.
  rewrite (bool_decide_eq_false_2 _ Hb), Hw. unfold frame. cbn [MediaAccess.parseDeliveryCrop crops].
  destruct (parseDeliveryCrop _) as [c|] eqn:E; [|done]. rewrite (bool_decide_eq_true_2 _ HT), H1. cbn zeta.
  by rewrite H2.
Qed.

(** C3. A framed picture shows its frame: when the decision carries a valid frame and
    the request names a configured size or [fit_1024] is configured, then, masked or
    not, the answer and what the request leaves behind are the same for any two
    originals that are pictures of one size and agree inside the frame, and the
    frame never reaches outside the picture.  Where [fit_1024] is not configured -
    the list of sizes lacks it, or processing is off - a request that names no
    configured size loses the frame: it is answered with what the bundle itself keeps
    as [fit_1024], or with its mask, uncut. *)
Theorem frame_hides_the_rest `{HF : Blur.Float64, HCF : !CropFloats, HN : Config.Numbers, HCo : !ImageProc.Codecs}
  `{HK : Grant.Crypto, HL : CidLib, HA : Url.Authority} p decode detect add
  cid s1 s2 v1 v2 a b c d h r parts w m :
  let drawn := previews p decode detect add in
  same_but_original cid s1 s2 v1 v2 ->
  @ClusterTryFetchPath s1 cid OriginalFilename = Some (mkReader a false) ->
  @ClusterTryFetchPath s2 cid OriginalFilename = Some (mkReader b false) ->
  Z.of_nat (String.length a) <= fitPreviewMaxSource -> Z.of_nat (String.length b) <= fitPreviewMaxSource ->
  parseDeliveryCrop (MediaAccess.Crop d) = Some c -> same_inside c a b ->
  (@readManifest _ drawn s1 cid w).2 = Some m -> picture m ->
  (framed_size v1 parts ->
   @serveFile _ _ drawn s1 v1 h r cid parts d w = @serveFile _ _ drawn s2 v2 h r cid parts d w) /\
  (forall dx dy, 0 <= dx -> 0 <= dy -> Blur.Empty (frame_rect dx dy c) = false ->
     let f := frame_rect dx dy c in
     0 <= Blur.MinX f /\ Blur.MaxX f <= dx /\ 0 <= Blur.MinY f /\ Blur.MaxY f <= dy) /\
  (forall want, parts <> ["bundle"] -> parse_wanted v1 parts = Some want -> ~ framed_size v1 parts ->
     (@serveFile _ _ drawn s1 v1 h r cid parts d w).2 =
     @serve_stored _ _ drawn s1 v1 h r cid m d parts cropFallbackVariant (@readManifest _ drawn s1 cid w).1).
Proof.
  intros drawn HS HA1 HB1 HA2 HB2 HC HI Hm HP. split_and!.
  - intros Hf.
    by apply (framed_answer p decode detect add cid s1 s2 v1 v2 HS a b c HA1 HB1 (conj HA2 HB2) HI d h r parts w m).
  - intros dx dy Hx Hy. by apply frame_inside.
  - intros want Hb Hw Hf. apply (frame_dropped v1 h r cid parts d w m want); try done; [apply HP|by rewrite HC|..].
    + apply not_true_iff_false. intros E. apply Hf. right. by exists want.
    + apply not_true_iff_false. intros E. apply Hf. by left.
Qed.

Module Toy.
#[local] Existing Instance Grant.Toy.crypto.
#[local] Existing Instance Cid.Toy.cidlib.
#[local] Existing Instance Playlist.Toy.authority.
#[local] Existing Instance Blur.Toy.fixed.
#[local] Existing Instance Delivery.Toy.numbers.

#[local] Instance floats : CropFloats := {|
  ParseFloat s := if bool_decide (s = "0") then Some 0 else if bool_decide (s = "0.5") then Some 500
                  else if bool_decide (s = "1") then Some 1000 else None;
  IsNaN _ := false; fixed4 := Itoa |}.

(** A picture file is [PIC] and a byte per pixel, all in one row. *)
Definition pixels (s : string) : Blur.Image :=
  let row := (fun c => Blur.Toy.grey (Z.of_nat (Ascii.nat_of_ascii c))) <$> String.list_ascii_of_string s in
  Blur.mkImage (length row) [row].

Definition file_of (img : Blur.Image) : string :=
  "JPEG" +:+ String.string_of_list_ascii
    ((fun x => Ascii.ascii_of_nat (Z.to_nat (Blur.R (Blur.NRGBAAt img (Z.of_nat x) 0)))) <$> seq 0 (Blur.Dx img)).

#[local] Instance codecs : ImageProc.Codecs := {|
  ImageProc.DecodeConfig s := (fun t => (Z.of_nat (String.length t), 1, "jpeg")) <$> CutPrefix "PIC" s;
  ImageProc.Picture := Blur.Image;
  ImageProc.Decode s := pixels <$> CutPrefix "PIC" s;
  ImageProc.pic_Dx i := Z.of_nat (Blur.Dx i); ImageProc.pic_Dy i := Z.of_nat (Blur.Dy i);
  ImageProc.toNRGBA i := i; ImageProc.as_Picture i := i;
  ImageProc.part_of i r :=
    Blur.draw (Z.to_nat (Blur.width r)) (Z.to_nat (Blur.height r))
      (fun x y => Blur.NRGBAAt i (Blur.MinX r + Z.of_nat x) (Blur.MinY r + Z.of_nat y));
  ImageProc.Scale d _ src := src; ImageProc.draw_over d _ _ _ := d;
  ImageProc.jpeg_Encode _ img := Some (file_of img);
  ImageProc.jpegtran s := Some s; ImageProc.png_Encode _ := None; ImageProc.ffmpeg_webp _ _ := None;
  ImageProc.yunet _ _ _ := Some []; ImageProc.fadd32 := Blur.fadd; ImageProc.heif_convert _ _ := None
|}.

Definition processor : ImageProc.Processor :=
  ImageProc.NewProcessor (Config.Image (Config.Load (fun _ => ""))) None.

#[local] Instance content : Delivery.Content :=
  previews processor (fun s => if bool_decide (s = "manifest") then Some Delivery.Toy.manifest else None)
    (fun _ => "image/jpeg") (fun _ s => Some ("Qm:" +:+ s)).

(** An avatar framed on the left half of its picture. *)
Definition framed : MediaAccess.mediaDeliveryDecision :=
  MediaAccess.mkDecision "original" true Delivery.Toy.photo false "" " 0,0,0.5,1".

Lemma frame_hides_the_rest_witness :
  let go secret := @serveFile _ _ content (Delivery.Toy.storage secret) Delivery.Toy.server Delivery.no_store
    (Delivery.Toy.view "/") Delivery.Toy.photo [] framed Delivery.Toy.world in
  go "PICfaceless" = go "PICfacemask" /\ w_Body (go "PICfacemask").2 = Bytes "JPEGface".
Proof.
  intros go. split; [|by_vm].
  refine (proj1 (frame_hides_the_rest processor _ _ _ Delivery.Toy.photo _ _ _ _ "PICfaceless" "PICfacemask"
    (mkCrop 0 0 500 1000) framed _ _ _ _ (Finalize Delivery.Toy.photo Delivery.Toy.manifest)
    (Delivery.Toy.same_storages _ _) _ _ _ _ _ _ _ _) (or_introl _));
    [by_vm|by_vm|by_dec|by_dec|by_vm| |by_vm| |by_vm].
  - exists (8, 1, "jpeg"), (pixels "faceless"), (pixels "facemask"). cbn zeta. split_and!; by_vm.
  - split; [|split; by_vm].
    change (map_Forall (fun _ asset => a_BundlePath asset <> OriginalFilename)
      (m_Variants (Finalize Delivery.Toy.photo Delivery.Toy.manifest))). by_dec.
Defined.

End Toy.
End Crop.
