(* ===== verification/Stream.v ===== *)
(** [internal/handler/video_handler.go], the streaming handlers: the master
    playlist, segments and posters by identifier, and the opaque addresses below
    a media link. *)

From S2P Require Export Delivery.

Local Open Scope Z_scope.

Module Stream.
Import Http Playlist Cid MediaAccess Delivery.

Definition mediaDeliveryHidesStream (mode : string) : bool :=
  bool_decide (mode = mediaDeliveryBlur) || bool_decide (mode = mediaDeliveryBlurFaces).

Definition writeStreamHidden (h : gmap string string) (mode : string) : Response :=
  if bool_decide (mode = mediaDeliveryBlurFaces)
  then jsonError h 403 "Video with a hidden face is unavailable"
  else jsonError h 403 "Private video is unavailable".

Definition mpegurl : string := "application/vnd.apple.mpegurl".

Definition playlist_headers (h : gmap string string) (d : mediaDeliveryDecision) : gmap string string :=
  <["Cache-Control" := if Managed d then "private, no-store" else "public, max-age=3600"]>
    (<["Content-Type" := mpegurl]> h).

Definition writeLinkedPlaylist (h : gmap string string) (content : string) (d : mediaDeliveryDecision)
  : Response := mkResponse 200 (playlist_headers h d) (Bytes content).

(** The query the request is left with. *)
Definition bindStreamRoot (q : Url.Values) (d : mediaDeliveryDecision) : Url.Values :=
  if Managed d && negb (bool_decide (SourceCID d = "")) && bool_decide (Url.Get q "media_link" = "")
  then Url.Set_ q "media_root" (SourceCID d) else q.

(** [io.ReadAll] without a limit. *)
Definition read_all (r : reader) : option string := if rerr r then None else Some (data r).

Definition overriddenFile (w : World) (cid : string) : string :=
  match VariantOverrides.Get (overrides w) (VariantOverrides.VariantOverrideKey cid "") with
  | (replacement, true) => replacement
  | _ => cid
  end.

(** [path[:strings.LastIndex(path, ".")]], where the dot is not the first byte. *)
Fixpoint before_last_dot (s : string) : option string :=
  match s with
  | EmptyString => None
  | String c s' =>
      match before_last_dot s' with
      | Some r => Some (String c r)
      | None => if bool_decide (c = chr 46) then Some "" else None
      end
  end.
Definition segment_cid (path : string) : string :=
  match before_last_dot path with
  | Some r => if bool_decide (r = "") then path else r
  | None => path
  end.

Definition is_poster (path : string) : bool :=
  bool_decide (ToLower (Ext path) ∈ [".jpg"; ".jpeg"; ".webp"; ".png"]).

Section stream.
Context `{HC : Crops, HN : Config.Numbers, HP : !Content}.
Context `{HK : Grant.Crypto, HL : CidLib, HA : Url.Authority, HS : Storage}.
Context (policy : policyRequest -> policyReply).

(** ** Serving *)

Definition serveStreamMaster (h : gmap string string) (r : Request) (cid : string)
  (d : mediaDeliveryDecision) (mediaLink : string) : Response :=
  let query := bindStreamRoot (r_Query r) d in
  match fetchVideoAsset cid with
  | None => jsonError h 404 "Video not found"
  | Some reader =>
      let query := if bool_decide (mediaLink = "") then query
                   else Url.Set_ query "media_link" mediaLink in
      mkResponse 200 (playlist_headers h d)
        (Bytes (writePlaylist (read_all reader) (playlistAuthSuffix query)))
  end.

Definition serveStreamAsset (e : Env) (h : gmap string string) (r : Request) (cid path : string)
  (d : mediaDeliveryDecision) : Response :=
  if UnpinStore.Has cid (unpinStore e) then jsonError h 404 "Segment not found" else
  match fetchVideoAsset cid with
  | None => jsonError h 404 "Segment not found"
  | Some reader =>
      let contentType := streamSegmentContentType path in
      let h := setUserFileHeaders (<["Content-Type" := contentType]> h) contentType in
      let h := <["Cache-Control" := if Managed d then "private, no-store" else "public, max-age=86400"]> h in
      mkResponse 200 h
        (Bytes (if bool_decide (contentType = mpegurl)
                then writePlaylist (read_all reader) (playlistAuthSuffix (bindStreamRoot (r_Query r) d))
                else data reader))
  end.

(** The reader of a protected poster: the replacement, the file itself, or the
    rendition of the decision inside a bundle. *)
Definition protected_reader (cid : string) (d : mediaDeliveryDecision) (w : World)
  : World * result (Z * string) reader :=
  match ClusterTryFetch (overriddenFile w cid) with
  | Some reader => (w, Ok reader)
  | None =>
      match ClusterTryFetch cid with
      | Some reader => (w, Ok reader)
      | None =>
          match readManifest cid w with
          | (w, None) => (w, Err (403, "Protected poster is unavailable"))
          | (w, Some manifest) =>
              (w, match m_Variants manifest !! Mode d with
                  | None => Err (403, "Protected poster is unavailable")
                  | Some variant =>
                      if bool_decide (a_BundlePath variant = "")
                      then Err (403, "Protected poster is unavailable") else
                      match ClusterTryFetchPath cid (a_BundlePath variant) with
                      | None => Err (404, "Segment not found")
                      | Some reader => Ok reader
                      end
                  end)
          end
      end
  end.

Definition serveProtectedPoster (h : gmap string string) (cid path : string)
  (d : mediaDeliveryDecision) (w : World) : World * Response :=
  match protected_reader cid d w with
  | (w, Err (code, msg)) => (w, jsonError h code msg)
  | (w, Ok reader) =>
      let contentType := streamSegmentContentType path in
      let h := setUserFileHeaders (<["Content-Type" := contentType]> h) contentType in
      (w, mkResponse 200 (<["Cache-Control" := "private, no-store"]> h) (Bytes (data reader)))
  end.

(** ** Addresses by identifier *)

Definition HandleStreamMaster (e : Env) (r : Request) : Response :=
  let h := no_store in
  match Split (TrimPrefix (r_Path r) "/stream/") (chr 47) with
  | cid :: _ :: _ =>
      if negb (validateCID cid) then jsonError h 400 (cidError cid) else
      if UnpinStore.Has cid (unpinStore e) then jsonError h 404 "Video not found" else
      match resolveMediaDelivery policy e r cid with
      | Err err => writeMediaAccessError h err
      | Ok d =>
          if mediaDeliveryHidesStream (Mode d) then writeStreamHidden h (Mode d)
          else serveStreamMaster h r cid d ""
      end
  | _ => jsonError h 400 "Invalid stream URL"
  end.

Definition HandleStreamSegment (e : Env) (r : Request) (w : World) : World * Response :=
  let h := no_store in
  let path := TrimPrefix (r_Path r) "/stream/segment/" in
  let cid := segment_cid path in
  if negb (validateCID cid) then (w, jsonError h 400 (cidError cid)) else
  if UnpinStore.Has cid (unpinStore e) then (w, jsonError h 404 "Segment not found") else
  match resolveMediaDelivery policy e r cid with
  | Err err => (w, writeMediaAccessError h err)
  | Ok d =>
      if mediaDeliveryHidesStream (Mode d) && negb (is_poster path)
      then (w, writeStreamHidden h (Mode d)) else
      if is_poster path && Managed d then
        let poster :=
          if SourceIsVideo d then resolveVideoPoster e d cid
          else if negb (bool_decide (Mode d = mediaDeliveryOriginal)) then Err AccessDenied
          else Ok cid in
        match poster with
        | Err err => (w, writeMediaAccessError h err)
        | Ok cid =>
            if negb (bool_decide (Mode d = mediaDeliveryOriginal))
            then serveProtectedPoster h cid path d w
            else (w, serveStreamAsset e h r cid path d)
        end
      else (w, serveStreamAsset e h r cid path d)
  end.

(** ** Addresses below a media link *)

Definition serveLinkedStreamMaster (e : Env) (h : gmap string string) (r : Request)
  (d : mediaDeliveryDecision) : Response :=
  match readLinkedMaster e d with
  | None => jsonError h 404 "Video not found"
  | Some master =>
      match rewriteLinkedMasterPlaylist master (playlistAuthSuffix (r_Query r)) with
      | None => jsonError h 404 "Video playlist is unavailable"
      | Some content => writeLinkedPlaylist h content d
      end
  end.

(** The playlist of an index: its text, or the message of the refusal. *)
Definition linked_playlist (e : Env) (d : mediaDeliveryDecision) (i : Z) (missing : string)
  : result string string :=
  match readLinkedMaster e d with
  | None => Err "Video not found"
  | Some master =>
      match linkedMasterPlaylistCID master i with
      | None => Err missing
      | Some playlistCID =>
          if UnpinStore.Has playlistCID (unpinStore e) then Err missing else
          match readVideoAsset playlistCID with
          | None => Err "Stream playlist not found"
          | Some playlist => Ok playlist
          end
      end
  end.

Definition serveLinkedStreamPlaylist (e : Env) (h : gmap string string) (r : Request) (i : Z)
  (d : mediaDeliveryDecision) : Response :=
  match linked_playlist e d i "Stream playlist not found" with
  | Err msg => jsonError h 404 msg
  | Ok playlist =>
      match rewriteLinkedVariantPlaylist playlist i (playlistAuthSuffix (r_Query r)) with
      | None => jsonError h 404 "Stream playlist is unavailable"
      | Some content => writeLinkedPlaylist h content d
      end
  end.

Definition serveLinkedStreamAsset (e : Env) (h : gmap string string) (r : Request) (i j : Z)
  (extension : string) (d : mediaDeliveryDecision) : Response :=
  match linked_playlist e d i "Stream segment not found" with
  | Err msg => jsonError h 404 msg
  | Ok playlist =>
      match linkedVariantAssetCID playlist j with
      | None => jsonError h 404 "Stream segment not found"
      | Some (assetCID, assetExtension) =>
          if UnpinStore.Has assetCID (unpinStore e) ||
             negb (bool_decide (extension = "")) && negb (bool_decide (extension = assetExtension))
          then jsonError h 404 "Stream segment not found"
          else serveStreamAsset e h r assetCID ("asset" +:+ assetExtension) d
      end
  end.

Definition serve_linked_poster (e : Env) (h : gmap string string) (r : Request) (w : World)
  (d : mediaDeliveryDecision) : Response :=
  match resolveVideoPoster e d (PosterCID d) with
  | Err err => writeMediaAccessError h err
  | Ok posterCID =>
      let posterCID := if bool_decide (Mode d = mediaDeliveryOriginal) then posterCID
                       else overriddenFile w posterCID in
      if negb (validateCID posterCID) || UnpinStore.Has posterCID (unpinStore e)
      then jsonError h 404 "Poster not found"
      else serveStreamAsset e h r posterCID "poster.jpg" d
  end.

(** The [switch] after the poster and the hidden modes. *)
Definition serve_linked (e : Env) (h : gmap string string) (r : Request) (parts : list string)
  (d : mediaDeliveryDecision) : Response :=
  match parts with
  | [x] =>
      if bool_decide (x = "master.m3u8") then serveLinkedStreamMaster e h r d
      else jsonError h 404 "Stream asset not found"
  | [x; y] =>
      if bool_decide (x = "playlist") then
        match linkedStreamIndex y ".m3u8" with
        | None => jsonError h 404 "Stream playlist not found"
        | Some i => serveLinkedStreamPlaylist e h r i d
        end
      else jsonError h 404 "Stream asset not found"
  | [x; y; z] =>
      if bool_decide (x = "segment") then
        match linkedStreamIndex y "" with
        | None => jsonError h 404 "Stream segment not found"
        | Some i =>
            match linkedStreamIndex (TrimSuffix z (Ext z)) "" with
            | None => jsonError h 404 "Stream segment not found"
            | Some j => serveLinkedStreamAsset e h r i j (Ext z) d
            end
        end
      else jsonError h 404 "Stream asset not found"
  | _ => jsonError h 404 "Stream asset not found"
  end.

Definition HandleStreamLink (e : Env) (r : Request) (w : World) : Response :=
  let h := no_store in
  match path_parts "/stream/link/" (r_Path r) with
  | link :: p :: ps =>
      if bool_decide (link = "") then jsonError h 400 "Invalid media link stream URL" else
      match resolveMediaDeliveryLink policy e r link with
      | Err err => writeMediaAccessError h err
      | Ok d =>
          if bool_decide (p :: ps = ["poster.jpg"]) then serve_linked_poster e h r w d
          else if mediaDeliveryHidesStream (Mode d) then writeStreamHidden h (Mode d)
          else serve_linked e h r (p :: ps) d
      end
  | _ => jsonError h 400 "Invalid media link stream URL"
  end.

End stream.
(** * Lemmas *)

(** Paths made of slash-free elements come apart into them. *)
Lemma path_parts_join prefix parts : parts <> [] ->
  Forall (fun p => chr 47 ∉ chars p) parts -> List.hd "" parts <> "" -> List.last parts "" <> "" ->
  path_parts prefix (prefix +:+ Join parts "/") = parts.
Proof.
  intros Hn HF Hh Hl. unfold path_parts, Trim_slashes. rewrite TrimPrefix_app.
  assert (HT : trim_left_slashes (String.length (Join parts "/")) (Join parts "/") = Join parts "/").
  { destruct parts as [|p ps]; [done|]. simpl in Hh. apply Forall_cons in HF as [Hp _].
    assert (HC : CutPrefix "/" (Join (p :: ps) "/") = None).
    { destruct (CutPrefix "/" _) as [r|] eqn:E; [|done]. apply CutPrefix_Some in E.
      destruct p as [|c p]; [done|]. exfalso. apply Hp. simpl.
      assert (HJ : exists t, Join (String c p :: ps) "/" = String c t).
      { destruct ps; [by eexists|]. rewrite Join_cons by done. rewrite append_String. by eexists. }
      destruct HJ as [t HJ]. rewrite HJ in E. change ("/" +:+ r) with (String (chr 47) r) in E.
      injection E as -> _. by left. }
    generalize (String.length (Join (p :: ps) "/")). intros [|n]; cbn [trim_left_slashes]; [done|].
    by rewrite HC. }
  rewrite HT, trim_slashes_id.
  - by rewrite Split_Join.
  - destruct (exists_last Hn) as (l & x & ->). destruct (Join_last l x "/") as [s ->].
    rewrite last_last in Hl. apply CutSuffix_slash_None; [done|].
    rewrite Forall_app in HF. destruct HF as [_ HF]. by apply Forall_cons in HF as [? _].
Qed.

Section stream_lemmas.
Context `{HC : Crops, HN : Config.Numbers, HP : !Content}.
Context `{HK : Grant.Crypto, HL : CidLib, HA : Url.Authority, HS : Storage}.
Context (policy : policyRequest -> policyReply).

Lemma hides_not_original mode : mediaDeliveryHidesStream mode = true -> mode <> mediaDeliveryOriginal.
Proof. intros HH ->. discriminate HH. Qed.

Lemma delivery_unmanaged e r cid d : resolveMediaDelivery policy e r cid = Ok d ->
  Managed d = false -> Mode d = mediaDeliveryOriginal.
Proof.
  unfold resolveMediaDelivery. destruct (Url.Has _ _); [done|].
  destruct (mediaAccess e) as [res|].
  - destruct (Resolve _ _ _ _) as [d0|] eqn:HR; [|done]. apply Resolve_managed in HR.
    rewrite HR. destruct (validateMediaResource _ _ _ _); [done|]. intros [= <-]. by rewrite HR.
  - destruct (_ && _); [|done]. by intros [= <-].
Qed.

Lemma access_error_no_bytes h err content : w_Body (writeMediaAccessError h err) <> Bytes content.
Proof. by destruct err as [|[]|]. Qed.

Lemma hidden_no_bytes h mode content : w_Body (writeStreamHidden h mode) <> Bytes content.
Proof. unfold writeStreamHidden. by case_bool_decide. Qed.

Lemma asset_bytes e h r cid path d content :
  streamSegmentContentType path <> mpegurl ->
  w_Body (serveStreamAsset e h r cid path d) = Bytes content ->
  UnpinStore.Has cid (unpinStore e) = false /\
  exists reader, fetchVideoAsset cid = Some reader /\ content = data reader.
Proof.
  intros Ht. unfold serveStreamAsset. destruct (UnpinStore.Has _ _); [done|].
  destruct (fetchVideoAsset cid) as [rd|]; [|done].
  rewrite (bool_decide_eq_false_2 _ Ht). intros [= <-]. eauto.
Qed.

Lemma protected_bytes h cid path d w content :
  w_Body (serveProtectedPoster h cid path d w).2 = Bytes content ->
  exists reader, (protected_reader cid d w).2 = Ok reader /\ content = data reader.
Proof.
  unfold serveProtectedPoster. destruct (protected_reader cid d w) as [w1 [rd|[code msg]]]; [|done].
  intros [= <-]. eauto.
Qed.

Lemma resolveVideoPoster_Ok e d requested p : resolveVideoPoster e d requested = Ok p ->
  SourceIsVideo d = true /\ exists master, readLinkedMaster e d = Some master /\
    videoPosterCID master requested (Mode d) = Some p.
Proof.
  unfold resolveVideoPoster. destruct (SourceIsVideo d); [|done]. cbn [negb].
  destruct (readLinkedMaster e d) as [m|]; [|done]. split; [done|]. exists m. split; [done|].
  destruct (videoPosterCID m requested (Mode d)); [|done]. by injection H as ->.
Qed.

(** The modes that blur a video or the faces in it. *)
Definition hidden (mode : string) : Prop := mode = "blur" \/ mode = "blur_faces".

Lemma hidden_spec mode : hidden mode <-> mediaDeliveryHidesStream mode = true.
Proof.
  unfold hidden, mediaDeliveryHidesStream. by rewrite orb_true_iff, !bool_decide_eq_true.
Qed.

(** ** Properties *)

(** C4. A hidden video shows a viewer its masked poster and nothing else: when the
    decision blurs the video or its faces, no master playlist, playlist or segment
    is served, by identifier or below a link; the only bytes that leave are those
    of the poster the video's own master lists for that mask, or of the file that
    replaced it. *)
Theorem hidden_video_shows_only_its_mask e r w :
  (forall cid rest d content, Split (TrimPrefix (r_Path r) "/stream/") (chr 47) = cid :: rest ->
     resolveMediaDelivery policy e r cid = Ok d -> hidden (Mode d) ->
     w_Body (HandleStreamMaster policy e r) <> Bytes content) /\
  (forall link rest d content, path_parts "/stream/link/" (r_Path r) = link :: rest ->
     resolveMediaDeliveryLink policy e r link = Ok d -> hidden (Mode d) ->
     w_Body (HandleStreamLink policy e r w) = Bytes content ->
     exists master p reader, readLinkedMaster e d = Some master /\
       videoPosterCID master (PosterCID d) (Mode d) = Some p /\
       fetchVideoAsset (overriddenFile w p) = Some reader /\ content = data reader) /\
  (forall d content, let cid := segment_cid (TrimPrefix (r_Path r) "/stream/segment/") in
     resolveMediaDelivery policy e r cid = Ok d -> hidden (Mode d) ->
     w_Body (HandleStreamSegment policy e r w).2 = Bytes content ->
     exists master p reader, readLinkedMaster e d = Some master /\
       videoPosterCID master cid (Mode d) = Some p /\
       (protected_reader p d w).2 = Ok reader /\ content = data reader).
Proof.
  split_and!.
  - intros cid rest d content HP' HR HH%hidden_spec. unfold HandleStreamMaster. rewrite HP'.
    destruct rest as [|x rest]; [done|]. destruct (negb _); [done|].
    destruct (UnpinStore.Has _ _); [done|]. rewrite HR, HH. apply hidden_no_bytes.
  - intros link rest d content HP' HR HH%hidden_spec. unfold HandleStreamLink. rewrite HP'.
    destruct rest as [|x rest]; [done|]. case_bool_decide; [done|]. rewrite HR.
    destruct (bool_decide (x :: rest = ["poster.jpg"])); [|by rewrite HH; intros ?%hidden_no_bytes].
    unfold serve_linked_poster. destruct (resolveVideoPoster _ _ _) as [p|err] eqn:HPo;
      [|by intros ?%access_error_no_bytes].
    apply resolveVideoPoster_Ok in HPo as (_ & master & Hm & Hp).
    rewrite (bool_decide_eq_false_2 _ (hides_not_original _ HH)).
    destruct (_ || _); [done|]. intros HB. apply asset_bytes in HB as (_ & rd & Hf & ->); [|done].
    by exists master, p, rd.
  - intros d content cid HR HH%hidden_spec. unfold HandleStreamSegment. fold cid.
    destruct (negb (validateCID cid)); [done|]. destruct (UnpinStore.Has _ _); [done|].
    rewrite HR, HH. destruct (is_poster _); [|by intros ?%hidden_no_bytes]. cbn [negb andb].
    assert (HM : Managed d = true).
    { apply not_false_is_true. intros HM. apply (hides_not_original _ HH).
      by eapply delivery_unmanaged. }
    rewrite HM. rewrite (bool_decide_eq_false_2 _ (hides_not_original _ HH)). cbn [negb].
    destruct (SourceIsVideo d); [|by cbn [snd]; intros ?%access_error_no_bytes].
    destruct (resolveVideoPoster _ _ _) as [p|err] eqn:HPo;
      [|by cbn [snd]; intros ?%access_error_no_bytes].
    apply resolveVideoPoster_Ok in HPo as (_ & master & Hm & Hp).
    intros HB. apply protected_bytes in HB as (rd & Hr & ->). by exists master, p, rd.
Qed.

Lemma asset_ext_like content j c ext : linkedVariantAssetCID content j = Some (c, ext) -> ext_like ext.
Proof.
  unfold linkedVariantAssetCID. generalize 0. induction (lines_of content) as [|l ls IH]; [done|].
  intros i. cbn [assetCID_from]. case_bool_decide; [apply IH|].
  destruct (if HasPrefix _ _ then _ else _) as [v|]; [|apply IH].
  destruct (playlistReferenceCID v) as [[c' e']|] eqn:HR; [|done].
  destruct (_ =? _); [|apply IH]. intros [= -> ->]. unfold playlistReferenceCID in HR.
  destruct (Url.Parse_Path _); [|done]. destruct (validateCID _); [|done]. injection HR as _ <-.
  apply Ext_like.
Qed.

Lemma Itoa_no c z : 0 <= z -> is_digit c = false -> c ∉ chars (Itoa z).
Proof.
  intros Hz Hc Hin. pose proof (Itoa_digits z Hz) as HF. rewrite Forall_forall in HF.
  apply HF in Hin. congruence.
Qed.

Lemma linkedStreamIndex_Itoa i ext : 0 <= i < 2 ^ 63 -> linkedStreamIndex (Itoa i +:+ ext) ext = Some i.
Proof.
  intros Hi. unfold linkedStreamIndex. rewrite TrimSuffix_app.
  assert (HE : HasSuffix (Itoa i +:+ ext) ext = true) by (apply HasSuffix_true; by eexists).
  rewrite HE. rewrite andb_false_r. case_bool_decide as E; [subst ext; rewrite append_nil_r|];
    rewrite Atoi_Itoa by done; (destruct (Z.ltb_spec i 0); [lia|done]).
Qed.

(** The addresses a player is given work: the address of playlist [i] of a
    link serves the rewritten text of the playlist the master has at that index,
    and the address of asset [j] of playlist [i], with the extension it was
    written with, serves the file that playlist has at that index and no other. *)
Theorem linked_addresses_resolve e r w d link i j master playlistCID playlist :
  link <> "" -> (chr 47 ∉ chars link) -> 0 <= i < 2 ^ 63 -> 0 <= j < 2 ^ 63 ->
  resolveMediaDeliveryLink policy e r link = Ok d -> mediaDeliveryHidesStream (Mode d) = false ->
  readLinkedMaster e d = Some master -> linkedMasterPlaylistCID master i = Some playlistCID ->
  UnpinStore.Has playlistCID (unpinStore e) = false -> readVideoAsset playlistCID = Some playlist ->
  (forall content,
     r_Path r = "/stream/link/" +:+ Join [link; "playlist"; Itoa i +:+ ".m3u8"] "/" ->
     rewriteLinkedVariantPlaylist playlist i (playlistAuthSuffix (r_Query r)) = Some content ->
     HandleStreamLink policy e r w = writeLinkedPlaylist no_store content d) /\
  (forall assetCID ext,
     r_Path r = "/stream/link/" +:+ Join [link; "segment"; Itoa i; Itoa j +:+ ext] "/" ->
     linkedVariantAssetCID playlist j = Some (assetCID, ext) ->
     UnpinStore.Has assetCID (unpinStore e) = false ->
     HandleStreamLink policy e r w = serveStreamAsset e no_store r assetCID ("asset" +:+ ext) d).
Proof.
  intros Hl Hls Hi Hj HR HH Hm Hpc Hdel Hp.
  assert (HP' : forall miss, linked_playlist e d i miss = Ok playlist).
  { intros miss. unfold linked_playlist. by rewrite Hm, Hpc, Hdel, Hp. }
  assert (Hni : chr 47 ∉ chars (Itoa i)) by (by apply Itoa_no; [lia|]).
  assert (Hcat : forall s t, (chr 47 ∉ chars s) -> (chr 47 ∉ chars t) -> chr 47 ∉ chars (s +:+ t)).
  { intros s t Hs Ht. rewrite chars_append, elem_of_app. tauto. }
  assert (Hne : forall z t, 0 <= z -> Itoa z +:+ t <> "").
  { intros z t Hz HE. destruct (Itoa z) eqn:E; [by apply (Itoa_nonempty z)|done]. }
  split.
  - intros content HPath HC'. unfold HandleStreamLink. rewrite HPath, path_parts_join; [|done| |done|].
    3:{ apply Hne. lia. }
    2:{ repeat (constructor; [done || by_dec || (apply Hcat; [done|by_dec])|]). constructor. }
    rewrite (bool_decide_eq_false_2 _ Hl), HR, HH. cbn [serve_linked].
    change (bool_decide ("playlist" = "playlist")) with true. cbn iota.
    rewrite linkedStreamIndex_Itoa by done. unfold serveLinkedStreamPlaylist. by rewrite HP', HC'.
  - intros assetCID ext HPath Ha Hdel'. pose proof (asset_ext_like _ _ _ _ Ha) as He.
    assert (Hse : chr 47 ∉ chars ext) by (by apply ext_like_no_slash).
    unfold HandleStreamLink. rewrite HPath, path_parts_join; [|done| |done|].
    3:{ apply Hne. lia. }
    2:{ assert (chr 47 ∉ chars (Itoa j)) by (by apply Itoa_no; [lia|]).
        repeat (constructor; [done || by_dec || (by apply Hcat)|]). constructor. }
    rewrite (bool_decide_eq_false_2 _ Hl), HR, HH. cbn [serve_linked].
    change (bool_decide ("segment" = "segment")) with true. cbn iota.
    rewrite Ext_app, TrimSuffix_app; [|by apply Itoa_no; [lia|]|done|done].
    pose proof (linkedStreamIndex_Itoa i "" Hi) as Hii. rewrite append_nil_r in Hii.
    pose proof (linkedStreamIndex_Itoa j "" Hj) as Hjj. rewrite append_nil_r in Hjj.
    rewrite Hii, Hjj. unfold serveLinkedStreamAsset. rewrite HP', Ha, Hdel'.
    rewrite (bool_decide_eq_true_2 (ext = ext)) by done. by rewrite andb_false_r.
Qed.

(** The address of the master below a link. *)
Lemma linked_master_address e r w d link master content :
  link <> "" -> (chr 47 ∉ chars link) ->
  resolveMediaDeliveryLink policy e r link = Ok d -> mediaDeliveryHidesStream (Mode d) = false ->
  r_Path r = "/stream/link/" +:+ Join [link; "master.m3u8"] "/" ->
  readLinkedMaster e d = Some master ->
  rewriteLinkedMasterPlaylist master (playlistAuthSuffix (r_Query r)) = Some content ->
  HandleStreamLink policy e r w = writeLinkedPlaylist no_store content d.
Proof.
  intros Hl Hls HR HH HPath Hm HC'. unfold HandleStreamLink. rewrite HPath, path_parts_join; [|done| |done|done].
  2:{ repeat (constructor; [done || by_dec|]). constructor. }
  rewrite (bool_decide_eq_false_2 _ Hl), HR, HH. cbn [serve_linked].
  change (bool_decide ("master.m3u8" = "master.m3u8")) with true.
  cbn iota. unfold serveLinkedStreamMaster. by rewrite Hm, HC'.
Qed.

(** What the policy answers a request for a link: rows that all name a mode,
    the strictest of them a denial, and the first file they name. *)
Definition denies (reply : policyReply) (cid : string) : Prop :=
  exists rows item ks, let rows' := match item with Some i => [i] | None => rows end in
    reply = PRows rows item /\ mapM row_severity rows' = Some ks /\ max_severity ks = 3%nat /\
    first_cid rows' "storage_uri" = cid.

Lemma denies_read reply cid : denies reply cid ->
  exists d, read_reply reply = Ok d /\ Managed d = true /\ Mode d = mediaDeliveryDeny /\ SourceCID d = cid.
Proof.
  intros (rows & item & ks & -> & Hk & H3 & Hc).
  destruct (policy_strictest_mode rows item) as [HX _]. rewrite Hk in HX.
  destruct HX as (d & Hr & HM & Hs & Hsrc).
  { intros E. rewrite E in Hk. injection Hk as <-. discriminate H3. }
  exists d. split_and!; [done..| |by rewrite Hsrc]. rewrite H3 in Hs. unfold severity in Hs.
  by repeat case_bool_decide.
Qed.

(** C38. A denied link still plays: where the policy's reply to a request for a
    link is a denial - its rows name a file and the strictest mode among them is
    [deny] - the address of the link's master playlist answers that file's playlist
    in full to a viewer without a grant; [Resolve], which the addresses by identifier
    use, turns the same reply into a refusal. *)
Theorem denied_link_plays e r w res link cid master content :
  link <> "" -> (chr 47 ∉ chars link) -> TrimSpace link <> "" ->
  r_Path r = "/stream/link/" +:+ Join [link; "master.m3u8"] "/" ->
  Url.Has (r_Query r) "grant" = false -> mediaAccess e = Some res ->
  denies (policy (policy_request res (Some r) "" link)) cid ->
  validateCID cid = true -> UnpinStore.Has cid (unpinStore e) = false -> readVideoAsset cid = Some master ->
  rewriteLinkedMasterPlaylist master (playlistAuthSuffix (r_Query r)) = Some content ->
  w_Status (HandleStreamLink policy e r w) = 200 /\
  w_Body (HandleStreamLink policy e r w) = Bytes content /\
  refuse_deny (read_reply (policy (policy_request res (Some r) "" link))) = Err AccessDenied /\
  (forall res' s cid' d', Resolve policy res' s cid' = Ok d' -> Mode d' <> mediaDeliveryDeny).
Proof.
  intros Hl Hls Ht HPath Hg Hres HD Hv HU Hm HC'. destruct (denies_read _ _ HD) as (d & Hr & HM & Hd & Hc).
  assert (Hne : cid <> "") by (intros ->; discriminate Hv).
  assert (HR : resolveMediaDeliveryLink policy e r link = Ok d).
  { unfold resolveMediaDeliveryLink, ResolveLink, resolve. rewrite Hg, Hres, Hr, HM, Hc.
    by rewrite (bool_decide_eq_false_2 _ Ht), (bool_decide_eq_false_2 _ Hne). }
  assert (HH : mediaDeliveryHidesStream (Mode d) = false) by (rewrite Hd; done).
  assert (HL' : readLinkedMaster e d = Some master).
  { unfold readLinkedMaster. by rewrite Hc, Hv, HU. }
  pose proof (linked_master_address e r w d link master content Hl Hls HR HH HPath HL' HC') as HE.
  rewrite HE. split_and!; [done..| |].
  - rewrite Hr. unfold refuse_deny. by rewrite bool_decide_eq_true_2.
  - intros res' s cid' d' Hd'. by apply refuse_deny_Ok in Hd' as [_ ?].
Qed.

(** What every streaming answer keeps: no shared cache, unless [unmanaged], and a
    body that is a playlist or inert. *)
Definition safe_stream (unmanaged : Prop) (resp : Response) : Prop :=
  (w_Headers resp !! "Cache-Control" = Some "private, no-store" \/ unmanaged) /\
  (forall content, w_Body resp = Bytes content ->
     inert (w_Headers resp) \/ w_Headers resp !! "Content-Type" = Some mpegurl).

Lemma error_safe U h code b : h !! "Cache-Control" = Some "private, no-store" ->
  (forall c, b <> Bytes c) -> safe_stream U (writeJSON h code b).
Proof. intros Hh Hb. destruct (writeJSON_safe U h code b Hh Hb) as [E|[H1 H2]];
    [|split; [done|intros c Hc; left; by apply (H2 c)]].
  apply (f_equal w_Headers) in E. simpl in E. by apply insert_non_empty in E.
Qed.

Lemma access_error_stream U h err : safe_stream U (writeMediaAccessError h err).
Proof. destruct (access_error_safe U h err) as [E|[H1 H2]]; [by destruct err as [|[]|]; discriminate E|].
  split; [done|intros c Hc; left; by apply (H2 c)].
Qed.

Lemma playlist_safe h d content :
  safe_stream (Managed d = false) (mkResponse 200 (playlist_headers h d) content).
Proof.
  unfold playlist_headers. split; simpl.
  - destruct (Managed d); [left; apply lookup_insert_eq|by right].
  - intros c _. right. by rewrite lookup_insert_ne, lookup_insert_eq.
Qed.

Lemma inert_cached h ct v : inert (<["Cache-Control" := v]>
  (setUserFileHeaders (<["Content-Type" := ct]> h) ct)).
Proof.
  apply inert_insert; [by apply setUserFileHeaders_inert, lookup_insert_eq|by_dec].
Qed.

Lemma asset_safe e h r cid path d : h !! "Cache-Control" = Some "private, no-store" ->
  safe_stream (Managed d = false) (serveStreamAsset e h r cid path d).
Proof.
  intros Hh. unfold serveStreamAsset. destruct (UnpinStore.Has _ _); [by apply error_safe|].
  destruct (fetchVideoAsset cid) as [rd|]; [|by apply error_safe]. split; simpl.
  - destruct (Managed d); [left; apply lookup_insert_eq|by right].
  - intros c _. left. apply inert_cached.
Qed.

Lemma protected_safe U h cid path d w : h !! "Cache-Control" = Some "private, no-store" ->
  safe_stream U (serveProtectedPoster h cid path d w).2.
Proof.
  intros Hh. unfold serveProtectedPoster.
  destruct (protected_reader cid d w) as [w1 [rd|[code msg]]]; [|by apply error_safe].
  split; [left; apply lookup_insert_eq|]. intros c _. left. apply inert_cached.
Qed.

Lemma hidden_safe U h mode : h !! "Cache-Control" = Some "private, no-store" ->
  safe_stream U (writeStreamHidden h mode).
Proof. intros Hh. unfold writeStreamHidden. case_bool_decide; by apply error_safe. Qed.

Lemma linked_safe e h r parts d : h !! "Cache-Control" = Some "private, no-store" ->
  safe_stream (Managed d = false) (serve_linked e h r parts d).
Proof.
  intros Hh.
  assert (HE : forall msg, safe_stream (Managed d = false) (jsonError h 404 msg))
    by (intros msg; by apply error_safe).
  unfold serve_linked, serveLinkedStreamMaster, serveLinkedStreamPlaylist, serveLinkedStreamAsset,
    writeLinkedPlaylist.
  repeat (first [apply HE|apply playlist_safe|by apply asset_safe|case_match]).
Qed.

Lemma safe_stream_mono (U V : Prop) resp : (U -> V) -> safe_stream U resp -> safe_stream V resp.
Proof. intros HUV [[|] Hi]; split; auto. Qed.

(** Every streaming answer is safe to open and to cache: a body is a playlist,
    or comes with the headers that keep it from acting as a page; nothing is kept
    by a cache unless access control is explicitly off, and below a link never. *)
Theorem stream_answers_safe e r w :
  let off := mediaAccess e = None /\ allowUnmanaged e = true in
  safe_stream off (HandleStreamMaster policy e r) /\
  safe_stream off (HandleStreamSegment policy e r w).2 /\
  safe_stream False (HandleStreamLink policy e r w).
Proof.
  intros off.
  assert (Hh : no_store !! "Cache-Control" = Some "private, no-store") by apply lookup_insert_eq.
  assert (HJ : forall U code b, (forall c, b <> Bytes c) -> safe_stream U (writeJSON no_store code b))
    by (intros; by apply error_safe).
  split_and!.
  - unfold HandleStreamMaster. destruct (Split _ _) as [|cid [|x rest]]; [by apply HJ..|].
    destruct (negb _); [by apply HJ|]. destruct (UnpinStore.Has _ _); [by apply HJ|].
    destruct (resolveMediaDelivery _ _ _ _) as [d|err] eqn:HR; [|apply access_error_stream].
    destruct (mediaDeliveryHidesStream _); [by apply hidden_safe|].
    unfold serveStreamMaster. destruct (fetchVideoAsset cid); [|by apply HJ].
    eapply safe_stream_mono; [|apply playlist_safe]. intros HM. exact (delivery_uncached _ _ _ _ _ HR HM).
  - unfold HandleStreamSegment. destruct (negb _); [by apply HJ|].
    destruct (UnpinStore.Has _ _); [by apply HJ|].
    destruct (resolveMediaDelivery _ _ _ _) as [d|err] eqn:HR; [|apply access_error_stream].
    destruct (mediaDeliveryHidesStream _ && _); [by apply hidden_safe|].
    assert (Hserve : forall cid, safe_stream off (serveStreamAsset e no_store r cid
                   (TrimPrefix (r_Path r) "/stream/segment/") d)).
    { intros cid. eapply safe_stream_mono; [|by apply asset_safe].
      intros HM. exact (delivery_uncached _ _ _ _ _ HR HM). }
    destruct (_ && Managed d); [|apply Hserve].
    destruct (if SourceIsVideo d then _ else _) as [p|err]; [|apply access_error_stream].
    destruct (negb _); [by apply protected_safe|apply Hserve].
  - unfold HandleStreamLink. destruct (path_parts _ _) as [|link [|x rest]]; [by apply HJ..|].
    case_bool_decide; [by apply HJ|].
    destruct (resolveMediaDeliveryLink _ _ _ _) as [d|err] eqn:HR; [|apply access_error_stream].
    apply link_delivery_managed in HR.
    assert (HM : Managed d = false -> False) by congruence.
    destruct (bool_decide _).
    + unfold serve_linked_poster. destruct (resolveVideoPoster _ _ _); [|apply access_error_stream].
      destruct (_ || _); [by apply HJ|]. eapply safe_stream_mono; [exact HM|by apply asset_safe].
    + destruct (mediaDeliveryHidesStream _); [by apply hidden_safe|].
      eapply safe_stream_mono; [exact HM|by apply linked_safe].
Qed.

End stream_lemmas.

(** ** Witnesses *)
Module Toy.
#[local] Existing Instance Grant.Toy.crypto.
#[local] Existing Instance Cid.Toy.cidlib.
#[local] Existing Instance Playlist.Toy.authority.
#[local] Existing Instance MediaAccess.Toy.crops.
#[local] Existing Instance MediaAccess.Toy.storage.
#[local] Existing Instance Delivery.Toy.numbers.
#[local] Existing Instance Delivery.Toy.content.

(** The policy answers links and searches with the video of [cidS]. *)
Definition policy (mode : string) (q : policyRequest) : policyReply :=
  PRows [] (Some (MediaAccess.Toy.video_row mode MediaAccess.Toy.cidS)).
Definition request (path : string) : Request := MediaAccess.Toy.request path [].

Lemma linked_addresses_resolve_witness :
  let r := request "/stream/link/7/segment/0/1.m4s" in
  exists c, HandleStreamLink (policy "original") MediaAccess.Toy.env r Delivery.Toy.world =
    serveStreamAsset MediaAccess.Toy.env no_store r c "asset.m4s"
      (mkDecision "original" true MediaAccess.Toy.cidS true "" "").
Proof.
  intros r. exists Playlist.Toy.cidB.
  apply (linked_addresses_resolve (policy "original") MediaAccess.Toy.env r Delivery.Toy.world
    (mkDecision "original" true MediaAccess.Toy.cidS true "" "") "7" 0 1 Playlist.Toy.master_sample
    Playlist.Toy.cidC Playlist.Toy.variant_sample); try by_vm; try discriminate; try lia; by_dec.
Defined.

Lemma denied_link_plays_witness :
  let r := request "/stream/link/7/master.m3u8" in
  w_Status (HandleStreamLink (policy "deny") MediaAccess.Toy.env r Delivery.Toy.world) = 200.
Proof.
  intros r.
  apply (denied_link_plays (policy "deny") MediaAccess.Toy.env r Delivery.Toy.world
    MediaAccess.Toy.resolver "7" MediaAccess.Toy.cidS Playlist.Toy.master_sample
    (default "" (rewriteLinkedMasterPlaylist Playlist.Toy.master_sample "")));
    try by_vm; try discriminate; try by_dec.
  exists [], (Some (MediaAccess.Toy.video_row "deny" MediaAccess.Toy.cidS)), [3%nat].
  split_and!; by_vm.
Defined.

Lemma hidden_video_shows_only_its_mask_witness :
  let r := request "/stream/link/7/poster.jpg" in
  let d := mkDecision "blur" true MediaAccess.Toy.cidS true "" "" in
  w_Body (HandleStreamLink (policy "blur") MediaAccess.Toy.env r Delivery.Toy.world) =
    Bytes Playlist.Toy.cidB /\
  exists master p reader, readLinkedMaster MediaAccess.Toy.env d = Some master /\
    videoPosterCID master "" "blur" = Some p /\
    fetchVideoAsset (overriddenFile Delivery.Toy.world p) = Some reader /\ Playlist.Toy.cidB = data reader.
Proof.
  intros r d.
  assert (HB : w_Body (HandleStreamLink (policy "blur") MediaAccess.Toy.env r Delivery.Toy.world) =
    Bytes Playlist.Toy.cidB) by by_vm.
  split; [exact HB|].
  apply (proj1 (proj2 (hidden_video_shows_only_its_mask (policy "blur") MediaAccess.Toy.env r
    Delivery.Toy.world)) "7" ["poster.jpg"] d Playlist.Toy.cidB); [by_vm|by_vm|by left|exact HB].
Defined.
End Toy.
End Stream.
