(* ===== verification/FaceMasks.v ===== *)
(** [internal/handler/face_masks.go]: computing the face masks of stored
    pictures again, and putting the new ones in the place of the old. *)

From S2P Require Export Delivery Stream ImageProc.

Local Open Scope Z_scope.

Module FaceMasks.
Import Http Cid Delivery.

Definition faceMaskRefreshMaxItems : Z := 50.
Definition faceMaskRefreshMaxSource : Z := 100 * 2 ^ 20.

Record faceMaskPoster := mkFaceMaskPoster { Source : string; Mask : string }.
Record faceMaskRefreshRequest := mkRefreshRequest {
  Bundles : list string; Posters : list faceMaskPoster
}.

(** The text of an error is not modelled, only that there is one. *)
Record faceMaskRefreshResult := mkRefreshResult {
  f_CID : string; f_Status : string; f_NewCID : string; f_Error : bool
}.

Definition failedFaceMask (cid status : string) (err : bool) : faceMaskRefreshResult :=
  mkRefreshResult cid status "" err.

(** What the request is answered; [Panicked] is a write to a nil map. *)
Inductive answer :=
| Refused (status : Z) (message : string)
| Results (results : list faceMaskRefreshResult)
| Panicked.

Section face_masks.
Context `{HF : Blur.Float64, HNu : Config.Numbers, HCo : !ImageProc.Codecs}.
Context `{HCr : MediaAccess.Crops, HCn : !Delivery.Content, HSt : Storage}.

(** The server: its image processor, whether the request is cancelled while a
    source is processed, and how a save under a key goes. *)
Record Server := mkServer {
  imageProcessor : ImageProc.Processor;
  cancelled : string -> bool;
  saving : string -> VariantOverrides.set_outcome
}.

(** The mask, or the status of the failure and whether it comes with an error. *)
Definition redrawFaceMask (srv : Server) (r : reader) (contentType : string)
  : result (string * bool) ImageProc.Variant :=
  match ReadAll (faceMaskRefreshMaxSource + 1) r with
  | None => Err ("source_missing", true)
  | Some source =>
      if faceMaskRefreshMaxSource <? Z.of_nat (String.length source) then Err ("too_large", true) else
      match ImageProc.DecodeConfig source with
      | None => Err ("not_image", true)
      | Some (w, h, _) =>
          if ImageProc.MaxDecodePixels <? int64 (w * h) then Err ("too_large", true) else
          match ImageProc.ProcessPrivacy (imageProcessor srv) (cancelled srv source) source contentType with
          | Err _ => Err ("failed", true)
          | Ok variants =>
              match list_find (fun v => ImageProc.v_Key v = Config.PrivacyFaceBlurVariantKey) variants with
              | Some (_, variant) => Ok variant
              | None => Err ("not_image", true)
              end
          end
      end
  end.

(** [None] is the panic. *)
Definition storeFaceMask (srv : Server) (cid key : string) (mask : ImageProc.Variant) (w : World)
  : World * option faceMaskRefreshResult :=
  match ClusterAdd (ImageProc.v_Filename mask) (ImageProc.v_Data mask) with
  | None => (w, Some (failedFaceMask cid "add_failed" true))
  | Some added =>
      let '(o, err) := VariantOverrides.Set_ (overrides w) key added (saving srv key) in
      let w := mkWorld (manifests w) o (replicated w) in
      match err with
      | Some VariantOverrides.NilMapPanic => (w, None)
      | Some _ => (w, Some (failedFaceMask cid "save_failed" true))
      | None => (w, Some (mkRefreshResult cid "refreshed" added false))
      end
  end.

Definition refreshBundleFaceMask (srv : Server) (cid : string) (w : World)
  : World * option faceMaskRefreshResult :=
  if negb (validateCID cid) then (w, Some (failedFaceMask cid "invalid" true)) else
  match readManifest cid w with
  | (w, None) => (w, Some (failedFaceMask cid "not_bundle" true))
  | (w, Some manifest) =>
      match m_Variants manifest !! Config.PrivacyFaceBlurVariantKey with
      | None => (w, Some (mkRefreshResult cid "no_mask" "" false))
      | Some variant =>
          match ClusterTryFetchPath cid (a_BundlePath (m_Original manifest)) with
          | None => (w, Some (failedFaceMask cid "source_missing" true))
          | Some r =>
              match redrawFaceMask srv r (a_ContentType (m_Original manifest)) with
              | Err (status, err) => (w, Some (failedFaceMask cid status err))
              | Ok mask =>
                  if negb (bool_decide (a_ContentType variant = "")) &&
                     negb (bool_decide (ImageProc.v_ContentType mask = a_ContentType variant))
                  then (w, Some (failedFaceMask cid "format_changed" true))
                  else storeFaceMask srv cid
                         (VariantOverrides.VariantOverrideKey cid Config.PrivacyFaceBlurVariantKey) mask w
              end
          end
      end
  end.

Definition refreshPosterFaceMask (srv : Server) (poster : faceMaskPoster) (w : World)
  : World * option faceMaskRefreshResult :=
  if negb (validateCID (Source poster)) || negb (validateCID (Mask poster))
  then (w, Some (failedFaceMask (Mask poster) "invalid" true)) else
  match fetchVideoAsset (Source poster) with
  | None => (w, Some (failedFaceMask (Mask poster) "source_missing" true))
  | Some r =>
      match redrawFaceMask srv r "image/jpeg" with
      | Err (status, err) => (w, Some (failedFaceMask (Mask poster) status err))
      | Ok mask => storeFaceMask srv (Mask poster) (VariantOverrides.VariantOverrideKey (Mask poster) "") mask w
      end
  end.

(** The items in order, as far as the first panic. *)
Fixpoint refresh_all (items : list (World -> World * option faceMaskRefreshResult)) (w : World)
  : World * option (list faceMaskRefreshResult) :=
  match items with
  | [] => (w, Some [])
  | item :: rest =>
      match item w with
      | (w, None) => (w, None)
      | (w, Some result) =>
          match refresh_all rest w with
          | (w, None) => (w, None)
          | (w, Some results) => (w, Some (result :: results))
          end
      end
  end.

Definition items_of (srv : Server) (request : faceMaskRefreshRequest)
  : list (World -> World * option faceMaskRefreshResult) :=
  (refreshBundleFaceMask srv <$> Bundles request) ++ (refreshPosterFaceMask srv <$> Posters request).

(** [request] is the decoded body, [None] when it is too long or no JSON. *)
Definition HandleRefreshFaceMasks (srv : Server) (r : Request) (request : option faceMaskRefreshRequest)
  (w : World) : World * answer :=
  if negb (bool_decide (r_UserID r = "api-key"))
  then (w, Refused 403 "Refreshing face masks is not allowed") else
  match request with
  | None => (w, Refused 400 "Invalid request")
  | Some request =>
      let total := Z.of_nat (length (Bundles request) + length (Posters request)) in
      if (total =? 0) || (faceMaskRefreshMaxItems <? total)
      then (w, Refused 400 ("Send 1 to " +:+ Itoa faceMaskRefreshMaxItems +:+ " items at a time"))
      else match refresh_all (items_of srv request) w with
           | (w, Some results) => (w, Results results)
           | (w, None) => (w, Panicked)
           end
  end.

(** * Specification *)

(** [content] is the face mask of the picture [source]. *)
Definition face_mask_of (p : ImageProc.Processor) (source content : string) : Prop :=
  exists src faces format, ImageProc.Decode source = Some src /\
    ImageProc.Detect p (ImageProc.toNRGBA src) = Some faces /\
    ImageProc.encode p (ImageProc.faces_blur p src faces) format = Ok content.

(** The picture a request may replace the mask of under [key]. *)
Definition source_for (request : faceMaskRefreshRequest) (key : string) (r : reader) : Prop :=
  (exists cid w0 w1 manifest, cid ∈ Bundles request /\ validateCID cid = true /\
     key = VariantOverrides.VariantOverrideKey cid Config.PrivacyFaceBlurVariantKey /\
     readManifest cid w0 = (w1, Some manifest) /\
     is_Some (m_Variants manifest !! Config.PrivacyFaceBlurVariantKey) /\
     ClusterTryFetchPath cid (a_BundlePath (m_Original manifest)) = Some r) \/
  (exists poster, poster ∈ Posters request /\ validateCID (Source poster) = true /\
     validateCID (Mask poster) = true /\ key = VariantOverrides.VariantOverrideKey (Mask poster) "" /\
     fetchVideoAsset (Source poster) = Some r).

(** The new file under [key] is the face mask of that picture. *)
Definition redrawn (srv : Server) (request : faceMaskRefreshRequest) (key new : string) : Prop :=
  exists r content filename, source_for request key r /\ rerr r && (Z.of_nat (String.length (data r)) <=? faceMaskRefreshMaxSource) = false /\
    Z.of_nat (String.length (data r)) <= faceMaskRefreshMaxSource /\
    face_mask_of (imageProcessor srv) (data r) content /\ ClusterAdd filename content = Some new.

(** The names whose masks a request replaces, in the order of its items. *)
Definition keys_of (request : faceMaskRefreshRequest) : list string :=
  ((fun cid => VariantOverrides.VariantOverrideKey cid Config.PrivacyFaceBlurVariantKey) <$> Bundles request) ++
  ((fun poster => VariantOverrides.VariantOverrideKey (Mask poster) "") <$> Posters request).

(** [new] is what a viewer shown hidden faces gets from now on: of the bundle, under
    a decision without a frame, and of the poster, in place of its mask. *)
Definition served (w : World) (key new : string) : Prop :=
  (forall cid, key = VariantOverrides.VariantOverrideKey cid Config.PrivacyFaceBlurVariantKey ->
   forall v h r d m asset o, (readManifest cid w).2 = Some m ->
     MediaAccess.Managed d = true -> MediaAccess.Mode d = MediaAccess.mediaDeliveryBlurFaces ->
     MediaAccess.parseDeliveryCrop (MediaAccess.Crop d) = None -> is_configured v "" = false ->
     m_Variants m !! Config.PrivacyFaceBlurVariantKey = Some asset -> a_ContentType asset <> "" ->
     readFile v new "" = Some o ->
     (serveFile v h r cid [] d w).2 = send h r d (a_ContentType asset) o) /\
  (forall mask, key = VariantOverrides.VariantOverrideKey mask "" ->
   forall h path d rd, ClusterTryFetch new = Some rd ->
     w_Body (Stream.serveProtectedPoster h mask path d w).2 = Bytes (data rd)).

(** * Lemmas *)

Lemma redrawFaceMask_Ok srv r contentType mask : redrawFaceMask srv r contentType = Ok mask ->
  rerr r && (Z.of_nat (String.length (data r)) <=? faceMaskRefreshMaxSource) = false /\
  Z.of_nat (String.length (data r)) <= faceMaskRefreshMaxSource /\
  face_mask_of (imageProcessor srv) (data r) (ImageProc.v_Data mask).
Proof.
  unfold redrawFaceMask, ReadAll. set (n := Z.of_nat (String.length (data r))).
  destruct (rerr r && (n <? faceMaskRefreshMaxSource + 1)) eqn:HE; [done|].
  assert (HE' : rerr r && (n <=? faceMaskRefreshMaxSource) = false).
  { destruct (rerr r); [|done]. cbn in *. apply Z.ltb_ge in HE. apply Z.leb_gt. lia. }
  destruct (Z.ltb_spec (faceMaskRefreshMaxSource + 1) n) as [Hlt|Hle].
  - assert (HX : Z.of_nat (String.length (String.substring 0 (Z.to_nat (faceMaskRefreshMaxSource + 1)) (data r))) =
      faceMaskRefreshMaxSource + 1).
    { assert (HL : forall k s, (k <= String.length s)%nat -> String.length (String.substring 0 k s) = k).
      { clear. induction k as [|k IH]; intros [|c s] Hk; simpl in *; try done; try lia. by rewrite IH by lia. }
      rewrite HL by (unfold n, faceMaskRefreshMaxSource in *; lia). unfold faceMaskRefreshMaxSource. lia. }
    rewrite HX. rewrite (proj2 (Z.ltb_lt _ _)) by lia. done.
  - fold n. destruct (Z.ltb_spec faceMaskRefreshMaxSource n) as [|Hn]; [done|].
    destruct (ImageProc.DecodeConfig (data r)) as [[[w h] f]|] eqn:EC; [|done].
    destruct (ImageProc.MaxDecodePixels <? int64 (w * h)); [done|].
    destruct (ImageProc.ProcessPrivacy _ _ _ _) as [vs|] eqn:HP; [|done].
    destruct (list_find _ vs) as [[k v]|] eqn:HLf; [|done]. intros [= ->]. split_and!; [done|done|].
    unfold ImageProc.ProcessPrivacy in HP. rewrite EC in HP.
    destruct (ImageProc.Decode (data r)) as [src|] eqn:ED; [|by injection HP as <-].
    apply ImageProc.privacyVariants_Ok in HP as (_ & _ & faces & whole & masked & HDt & _ & Hm & ->).
    apply list_find_Some in HLf as (Hk & Hkey & _).
    destruct k as [|[|k]]; [|injection Hk as <-; by eexists src, faces, _|done].
    injection Hk as <-. cbn in Hkey. discriminate Hkey.
Qed.

Lemma readManifest_overrides cid w : overrides (readManifest cid w).1 = overrides w.
Proof.
  unfold readManifest. destruct (manifests w) as [c|]; [|done].
  destruct (ManifestCache.get cid c) as [c1 [m|]]; [done|]. by destruct (ManifestCache.flight _ _ _ c1).
Qed.

(** One new file under one key, or nothing. *)
Definition changed (o o' : option VariantOverrides.VariantOverrides) (key new : string) : Prop :=
  VariantOverrides.Get o' key = (new, negb (bool_decide (new = ""))) /\
  forall k, k <> key -> VariantOverrides.Get o' k = VariantOverrides.Get o k.

Definition same_overrides (o o' : option VariantOverrides.VariantOverrides) : Prop :=
  forall k, VariantOverrides.Get o' k = VariantOverrides.Get o k.

Lemma storeFaceMask_changes srv cid key mask w w' res : storeFaceMask srv cid key mask w = (w', res) ->
  (same_overrides (overrides w) (overrides w') /\ (forall x, res = Some x -> f_Status x <> "refreshed")) \/
  exists new, ClusterAdd (ImageProc.v_Filename mask) (ImageProc.v_Data mask) = Some new /\
    changed (overrides w) (overrides w') key new /\
    (forall x, res = Some x -> f_Status x = "refreshed" -> x = mkRefreshResult cid "refreshed" new false).
Proof.
  unfold storeFaceMask. destruct (ClusterAdd _ _) as [new|]; [|intros [= <- <-]; left; split; [done|by intros ? [= <-]]].
  unfold VariantOverrides.Set_. destruct (overrides w) as [o|] eqn:HO.
  2:{ intros [= <- <-]. left. split; [done|by intros ? [= <-]]. }
  destruct (VariantOverrides.entries o) as [m|] eqn:HM.
  2:{ intros [= <- <-]. left. cbn. split; [done|]. by intros ? ?. }
  intros HS. right. exists new. split; [done|].
  assert (HC : exists d, overrides w' = Some {| VariantOverrides.entries := Some (<[key := new]> m); VariantOverrides.disk := d |}).
  { destruct (saving srv key); injection HS as <- <-; by eexists. }
  destruct HC as [d HC]. rewrite HC. split.
  - split; cbn; [by rewrite lookup_insert_eq|]. intros k Hk. rewrite HM. cbn. by rewrite lookup_insert_ne.
  - intros x. destruct (saving srv key); injection HS as <- <-; by intros [= <-].
Qed.

(** What an item does to the name it is about. *)
Definition item_ok (srv : Server) (request : faceMaskRefreshRequest)
  (item : World -> World * option faceMaskRefreshResult) (key : string) : Prop :=
  forall w w' res, item w = (w', res) ->
    (same_overrides (overrides w) (overrides w') \/
     exists new, changed (overrides w) (overrides w') key new /\ redrawn srv request key new) /\
    (forall x, res = Some x -> f_Status x = "refreshed" ->
       changed (overrides w) (overrides w') key (f_NewCID x) /\ redrawn srv request key (f_NewCID x)).

Lemma failed_ok srv request key w w' cid status err : status <> "refreshed" ->
  same_overrides (overrides w) (overrides w') ->
  (same_overrides (overrides w) (overrides w') \/
     exists new, changed (overrides w) (overrides w') key new /\ redrawn srv request key new) /\
  (forall x, Some (failedFaceMask cid status err) = Some x -> f_Status x = "refreshed" ->
     changed (overrides w) (overrides w') key (f_NewCID x) /\ redrawn srv request key (f_NewCID x)).
Proof. intros Hs Hw. split; [by left|]. intros x [= <-]. done. Qed.

(** Storing a mask drawn from the right picture. *)
Lemma stored_ok srv request r contentType mask cid key w0 w w' res :
  redrawFaceMask srv r contentType = Ok mask -> source_for request key r ->
  same_overrides (overrides w0) (overrides w) ->
  storeFaceMask srv cid key mask w = (w', res) ->
  (same_overrides (overrides w0) (overrides w') \/
     exists new, changed (overrides w0) (overrides w') key new /\ redrawn srv request key new) /\
  (forall x, res = Some x -> f_Status x = "refreshed" ->
     changed (overrides w0) (overrides w') key (f_NewCID x) /\ redrawn srv request key (f_NewCID x)).
Proof.
  intros HR Hsrc Hsame HS. apply redrawFaceMask_Ok in HR as (H1 & H2 & H3).
  apply storeFaceMask_changes in HS as [[Hs Hn]|(new & HA & [Hg Hc] & Hx)].
  - split; [left; intros k; by rewrite Hs|]. intros x Hx Hst. by destruct (Hn x Hx).
  - assert (HRd : redrawn srv request key new) by (by exists r, (ImageProc.v_Data mask), (ImageProc.v_Filename mask)).
    assert (HCh : changed (overrides w0) (overrides w') key new).
    { split; [done|]. intros k Hne. rewrite Hc by done. apply Hsame. }
    split; [eauto|]. intros x Hr Hst. by rewrite (Hx x Hr Hst).
Qed.

Lemma redraw_status srv r contentType err : redrawFaceMask srv r contentType <> Err ("refreshed", err).
Proof. unfold redrawFaceMask. repeat case_match; congruence. Qed.

Lemma bundle_item_ok srv request cid : cid ∈ Bundles request ->
  item_ok srv request (refreshBundleFaceMask srv cid)
    (VariantOverrides.VariantOverrideKey cid Config.PrivacyFaceBlurVariantKey).
Proof.
  intros Hin w w' res. unfold refreshBundleFaceMask. destruct (validateCID cid) eqn:HV; cbn [negb].
  2:{ intros [= <- <-]. by apply failed_ok. }
  destruct (readManifest cid w) as [w1 [manifest|]] eqn:HR;
    assert (Hsame : same_overrides (overrides w) (overrides w1))
      by (intros k; by rewrite <- (readManifest_overrides cid w), HR).
  2:{ intros [= <- <-]. by apply failed_ok. }
  destruct (m_Variants manifest !! _) as [variant|] eqn:HVr.
  2:{ intros [= <- <-]. split; [by left|]. by intros x [= <-]. }
  destruct (ClusterTryFetchPath _ _) as [rd|] eqn:HF'; [|intros [= <- <-]; by apply failed_ok].
  destruct (redrawFaceMask _ _ _) as [mask|[status err]] eqn:HD.
  2:{ intros [= <- <-]. apply failed_ok; [|done]. intros ->. revert HD. by apply redraw_status. }
  destruct (_ && _); [intros [= <- <-]; by apply failed_ok|].
  eapply stored_ok; [exact HD| |exact Hsame]. left. by exists cid, w, w1, manifest.
Qed.

Lemma poster_item_ok srv request poster : poster ∈ Posters request ->
  item_ok srv request (refreshPosterFaceMask srv poster) (VariantOverrides.VariantOverrideKey (Mask poster) "").
Proof.
  intros Hin w w' res. unfold refreshPosterFaceMask.
  destruct (validateCID (Source poster)) eqn:HVs, (validateCID (Mask poster)) eqn:HVm; cbn [negb orb];
    try (intros [= <- <-]; by apply failed_ok).
  destruct (fetchVideoAsset _) as [rd|] eqn:HF'; [|intros [= <- <-]; by apply failed_ok].
  destruct (redrawFaceMask _ _ _) as [mask|[status err]] eqn:HD.
  2:{ intros [= <- <-]. apply failed_ok; [|done]. intros ->. revert HD. by apply redraw_status. }
  eapply stored_ok; [exact HD| |done]. right. by exists poster.
Qed.

Lemma refresh_all_ok srv request items keys w w' rs : Forall2 (item_ok srv request) items keys ->
  refresh_all items w = (w', rs) ->
  (forall key, VariantOverrides.Get (overrides w') key = VariantOverrides.Get (overrides w) key \/
     key ∈ keys /\
     exists new, VariantOverrides.Get (overrides w') key = (new, negb (bool_decide (new = ""))) /\
       redrawn srv request key new) /\
  (forall results, rs = Some results -> length results = length items /\
     forall i x, results !! i = Some x -> f_Status x = "refreshed" ->
       exists key, keys !! i = Some key /\ redrawn srv request key (f_NewCID x) /\
         (key ∉ drop (S i) keys -> VariantOverrides.Get (overrides w') key =
            (f_NewCID x, negb (bool_decide (f_NewCID x = ""))))).
Proof.
  intros HF'. revert w w' rs. induction HF' as [|item k items keys Hi _ IH]; intros w w' rs; cbn [refresh_all].
  - intros [= <- <-]. split; [by left|]. intros results [= <-]. split; [done|]. intros i x Hx. by rewrite lookup_nil in Hx.
  - destruct (item w) as [w1 res] eqn:E. destruct (Hi _ _ _ E) as [HC HX]. clear Hi.
    assert (HK : forall key, VariantOverrides.Get (overrides w1) key = VariantOverrides.Get (overrides w) key \/
      key ∈ k :: keys /\ exists new,
        VariantOverrides.Get (overrides w1) key = (new, negb (bool_decide (new = ""))) /\ redrawn srv request key new).
    { intros key. destruct HC as [HC|(new & [Hg Hc] & HRd)]; [left; apply HC|].
      destruct (decide (key = k)) as [->|Hne]; [|left; by apply Hc]. right. split; [left|eauto]. }
    destruct res as [x|]; [|intros [= <- <-]; by split].
    destruct (refresh_all items w1) as [w2 rest] eqn:E2. destruct (IH _ _ _ E2) as [HC2 HX2]. intros HE.
    assert (w' = w2) as -> by (destruct rest; by injection HE). split.
    + intros key. destruct (HC2 key) as [->|[Hin HN]]; [apply HK|]. right. split; [by right|done].
    + intros results ->. destruct rest as [rest|]; [|done]. injection HE as <-.
      destruct (HX2 rest eq_refl) as [HL HX2']. split; [cbn; by rewrite HL|].
      intros [|i] y Hy Hst; [|by apply HX2']. injection Hy as <-.
      destruct (HX x eq_refl Hst) as [[Hg _] HRd]. exists k. split_and!; [done..|]. cbn. intros Hni.
      by destruct (HC2 k) as [->|[Hin _]].
Qed.

Lemma override_served w key new : VariantOverrides.Get (overrides w) key = (new, negb (bool_decide (new = ""))) ->
  new <> "" -> served w key new.
Proof.
  intros HG Hne. rewrite (bool_decide_eq_false_2 _ Hne) in HG. split.
  - intros cid -> v h r d m asset o HM Hman Hmode Hcrop Hcf Hv Hct Ho.
    unfold serveFile. destruct (readManifest cid w) as [w1 m'] eqn:HR. cbn in HM. subst m'.
    assert (HO : overrides w1 = overrides w) by (by rewrite <- (readManifest_overrides cid w), HR).
    cbn [bool_decide parse_wanted w_variant w_mask]. rewrite bool_decide_eq_false_2 by done.
    unfold frame. rewrite Hcrop, Hcf. cbn [andb snd]. unfold serve_stored.
    assert (HMk : masked d = true).
    { unfold masked. rewrite Hman, Hmode. done. }
    rewrite HMk, Hmode. change MediaAccess.mediaDeliveryBlurFaces with Config.PrivacyFaceBlurVariantKey.
    rewrite bool_decide_eq_false_2 by done. cbn [negb]. rewrite Hv. unfold override. rewrite HO, HG. cbn [fst].
    rewrite (bool_decide_eq_false_2 _ Hne), Ho. unfold sniff. by rewrite (bool_decide_eq_false_2 _ Hct).
  - intros mask -> h path d rd Hrd. unfold Stream.serveProtectedPoster, Stream.protected_reader, Stream.overriddenFile.
    rewrite HG. cbn. by rewrite Hrd.
Qed.

(** * Properties *)

(** C22. Refreshing the face masks puts only face masks in place, and only where
    asked: without the platform's key nothing happens; otherwise, whatever fails
    on the way, a name whose file changed is the mask of a bundle of the request
    or of one of its posters, and its new file is the blur over the faces found in
    the picture that bundle keeps as its original (the source the request named,
    for a poster); every item is answered in its place, and one answered as refreshed
    has such a file, which, unless a later item of the request is about the same
    name, is the one kept under the name and sent to the viewers of the bundle,
    or of the poster, from whom the faces are hidden. *)
Theorem refresh_redraws_faces srv r request w w' a :
  HandleRefreshFaceMasks srv r (Some request) w = (w', a) ->
  (r_UserID r <> "api-key" -> w' = w /\ exists msg, a = Refused 403 msg) /\
  (forall key, VariantOverrides.Get (overrides w') key = VariantOverrides.Get (overrides w) key \/
     key ∈ keys_of request /\
     exists new, VariantOverrides.Get (overrides w') key = (new, negb (bool_decide (new = ""))) /\
       redrawn srv request key new) /\
  (forall results, a = Results results ->
     length results = (length (Bundles request) + length (Posters request))%nat /\
     (length results <= 50)%nat /\
     forall i x, results !! i = Some x -> f_Status x = "refreshed" ->
       exists key, keys_of request !! i = Some key /\ redrawn srv request key (f_NewCID x) /\
         (key ∉ drop (S i) (keys_of request) ->
          VariantOverrides.Get (overrides w') key = (f_NewCID x, negb (bool_decide (f_NewCID x = ""))) /\
          (f_NewCID x <> "" -> served w' key (f_NewCID x)))).
Proof.
  unfold HandleRefreshFaceMasks. case_bool_decide as HU; cbn [negb].
  2:{ intros [= <- <-]. split_and!; [eauto|by left|done]. }
  destruct (_ || _) eqn:HB; [intros [= <- <-]; split_and!; [done|by left|done]|]. go_bools.
  destruct (refresh_all _ w) as [w1 rs] eqn:HR. intros HE.
  assert (w' = w1) as -> by (destruct rs; by injection HE).
  apply (refresh_all_ok srv request _ (keys_of request)) in HR as [HC HX].
  2:{ unfold items_of, keys_of. apply Forall2_app; apply Forall2_fmap, Forall_Forall2_diag, Forall_forall; intros x Hx;
      [by apply bundle_item_ok|by apply poster_item_ok]. }
  split_and!; [done|done|]. intros results ->. destruct rs as [rs|]; [|done]. injection HE as ->.
  destruct (HX results eq_refl) as [HL HX']. unfold items_of in HL. rewrite length_app, !length_fmap in HL.
  unfold faceMaskRefreshMaxItems in *. split_and!; [done|lia|].
  intros i x Hx Hst. destruct (HX' i x Hx Hst) as (key & Hk & HRd & HG). exists key. split_and!; [done..|].
  intros Hni. split; [by apply HG|]. intros Hne. by apply override_served; [apply HG|].
Qed.

End face_masks.

(** ** Witnesses *)
Module Toy.
#[local] Existing Instance Grant.Toy.crypto.
#[local] Existing Instance Cid.Toy.cidlib.
#[local] Existing Instance Playlist.Toy.authority.
#[local] Existing Instance MediaAccess.Toy.crops.
#[local] Existing Instance Blur.Toy.fixed.
#[local] Existing Instance ImageProc.Toy.numbers.
#[local] Existing Instance ImageProc.Toy.codecs.

(** A bundle with a picture and its face mask. *)
Definition manifest : Manifest :=
  {| m_CID := ""; m_Name := "me.jpg"; m_Type := "image"; m_Version := 1; m_Size := 9;
     m_Original := mkAsset "" "" OriginalFilename "jpeg" "image/jpeg" 2 1 9;
     m_Variants := {[ "blur_faces" := mkAsset "" "" "blur_faces.jpg" "jpeg" "image/jpeg" 2 1 4 ]};
     m_Metadata := ∅ |}.
#[local] Instance content : Delivery.Content := {|
  decode_manifest s := if bool_decide (s = "manifest") then Some manifest else None;
  DetectContentType _ := ""; ConfiguredPreview _ _ := None; CroppedPreview _ _ _ := None;
  ClusterAdd _ s := Some ("Qm:" +:+ s)
|}.
#[local] Instance storage : Storage := {|
  ClusterTryFetch _ := None;
  ClusterTryFetchPath _ p :=
    if bool_decide (p = ManifestFilename) then Some (mkReader "manifest" false)
    else Some (mkReader "PIC me" false)
|}.

Definition server : Server := mkServer ImageProc.Toy.processor (fun _ => false) (fun _ => VariantOverrides.SetOk).
Definition world : World :=
  mkWorld None (Some (VariantOverrides.mkOverrides (Some ∅) VariantOverrides.FEmpty)) [].
Definition platform : Request := mkRequest "POST" "/admin/face-masks/refresh" [] ∅ ∅ "api-key".
Definition request : faceMaskRefreshRequest := mkRefreshRequest [Playlist.Toy.cidA] [].

Lemma refresh_redraws_faces_witness :
  let result := HandleRefreshFaceMasks server platform (Some request) world in
  result.2 = Results [mkRefreshResult Playlist.Toy.cidA "refreshed" "Qm:jpeg 50" false] /\
  exists key, redrawn server request key "Qm:jpeg 50" /\ served result.1 key "Qm:jpeg 50".
Proof.
  intros result. assert (HR : result.2 = Results [mkRefreshResult Playlist.Toy.cidA "refreshed" "Qm:jpeg 50" false]) by by_vm.
  split; [exact HR|].
  destruct (refresh_redraws_faces server platform request world result.1 result.2 (surjective_pairing _)) as (_ & _ & HX).
  destruct (HX _ HR) as (_ & _ & HX'). destruct (HX' 0%nat _ eq_refl eq_refl) as (key & Hk & HK & HS).
  exists key. split; [exact HK|]. apply HS; [apply not_elem_of_nil|discriminate].
Defined.
End Toy.

End FaceMasks.
