(* ===== verification/Transcode.v ===== *)
(** [internal/video/validator.go] and [internal/video/transcoder.go]: what a
    video is accepted for, which renditions are made of it, and the commands
    that make them. *)

From S2P Require Export Config.

Local Open Scope Z_scope.

Module Transcode.
Import Config.

(** The arithmetic on [float64] the two files use: conversions from and to
    integers, product and quotient, [int(math.Round(x))], and the verb [%.3f]. *)
Class Floats `{Numbers} := {
  of_int : Z -> float64;
  fmul : float64 -> float64 -> float64;
  fdiv : float64 -> float64 -> float64;
  to_int : float64 -> Z;
  round_int : float64 -> Z;
  fixed3 : float64 -> string
}.

Section video.
Context `{HFl : Floats}.

(** ** [validator.go] *)

Record VideoInfo := mkVideoInfo {
  Duration : float64; i_Width : Z; i_Height : Z; Rotation : Z; CodecName : string;
  FrameRate : float64; BitRate : Z
}.

Record ValidationError := mkValidationError {
  Code : string; e_MaxSizeBytes : Z; e_MaxDurationSec : Z
}.

Definition ErrorMessage (e : option ValidationError) : string :=
  match e with
  | None => "video validation failed"
  | Some e => if bool_decide (Code e = "") then "video validation failed" else Code e
  end.

(** The members of ffprobe's JSON that are read; [None] is a command that fails
    or prints something else. *)
Record Stream := mkStream {
  st_Duration : string; st_Width : Z; st_Height : Z; st_CodecName : string; st_FrameRate : string;
  st_Rotate : string; st_SideData : list float64
}.
Record ProbeOutput := mkProbeOutput {
  fo_Duration : string; fo_BitRate : string; Streams : list Stream
}.

(** The value of [ParseInt] and [Atoi] when their error is dropped: zero for what
    is no number, the nearest [int64] for what does not fit. *)
Definition parsed (s : string) : Z :=
  let '(neg, body) :=
    match s with
    | String c s' => if bool_decide (c = chr 45) then (true, s')
                     else if bool_decide (c = chr 43) then (false, s') else (false, s)
    | EmptyString => (false, s)
    end in
  match body with
  | EmptyString => 0
  | _ => match read_digits 0 body with
         | Some v => let v := if (neg : bool) then (- v) else v in
                     Z.max (- 2 ^ 63) (Z.min (2 ^ 63 - 1) v)
         | None => 0
         end
  end.

Definition zero : float64 := of_int 0.

Definition parseFrameRate (value : string) : float64 :=
  match Split (TrimSpace value) (chr 47) with
  | [n; d] =>
      match ParseFloat n with
      | None => zero
      | Some numerator =>
          match ParseFloat d with
          | None => zero
          | Some denominator => if float_le denominator zero then zero else fdiv numerator denominator
          end
      end
  | _ => zero
  end.

(** The first side datum that rotates, or else the tag. *)
Fixpoint side_rotation (l : list float64) (rotation : Z) : Z :=
  match l with
  | [] => rotation
  | r :: l' => if float_le r zero && float_le zero r then side_rotation l' rotation else to_int r
  end.

Definition probeVideoInfo (out : option ProbeOutput) : option VideoInfo :=
  match out with
  | None => None
  | Some result =>
      match Streams result with
      | [] => None
      | stream :: _ =>
          let duration := if bool_decide (fo_Duration result = "") then st_Duration stream
                          else fo_Duration result in
          match ParseFloat (TrimSpace duration) with
          | None => None
          | Some parsedDuration =>
              Some (mkVideoInfo parsedDuration (st_Width stream) (st_Height stream)
                      (side_rotation (st_SideData stream) (parsed (TrimSpace (st_Rotate stream))))
                      (st_CodecName stream) (parseFrameRate (st_FrameRate stream))
                      (parsed (TrimSpace (fo_BitRate result))))
          end
      end
  end.

Definition maxVideoSide : Z := 4096.
Definition maxVideoFrameRate : float64 := of_int 120.

(** [Validate] with the prober's answer; [None] accepts. *)
Definition Validate (cfg : VideoConfig) (fileSize : Z) (probe : option VideoInfo) : option ValidationError :=
  if MaxSizeBytes cfg <? fileSize then Some (mkValidationError "video_file_too_large" (MaxSizeBytes cfg) 0)
  else match probe with
  | None => Some (mkValidationError "video_metadata_invalid" 0 0)
  | Some info =>
      if float_lt (of_int (MaxDurationSec cfg)) (Duration info)
      then Some (mkValidationError "video_duration_exceeded" 0 (MaxDurationSec cfg))
      else if (maxVideoSide <? i_Width info) || (maxVideoSide <? i_Height info) ||
              float_lt maxVideoFrameRate (FrameRate info)
      then Some (mkValidationError "video_resolution_exceeded" 0 0)
      else None
  end.

(** ** [transcoder.go]: the renditions *)

Record hlsVariant := mkHlsVariant { v_Name : string; v_Bitrate : string }.

Definition clean_bitrate (br : string) : string := TrimSuffix (TrimSuffix br "k") "K".

Definition bitrateToName (br : string) : string :=
  match scan_int (clean_bitrate br) with
  | None => br
  | Some (val, _) => if val <=? 700 then "low" else if val <=? 2000 then "medium" else "high"
  end.

Definition multiplyBitrate (br : string) (factor : Z) : string :=
  match scan_int (clean_bitrate br) with
  | None => br
  | Some (val, _) => Itoa (int64 (val * factor)) +:+ "k"
  end.

Definition bitrateValue (bitrate : string) : option Z :=
  let value := TrimSpace (ToLower bitrate) in
  let '(multiplier, value) :=
    if HasSuffix value "k" then (1000, TrimSuffix value "k") else (1, value) in
  match Atoi value with
  | None => None
  | Some v => if v <=? 0 then None else Some (int64 (v * multiplier))
  end.

Definition max_bitrate (info : option VideoInfo) : Z :=
  match info with
  | Some i => if 0 <? BitRate i then to_int (fmul (of_int (BitRate i)) (float_lit "1.2")) else 0
  | None => 0
  end.

(** One round of the loop over the configured bitrates. *)
Definition select_step (maxBitrate : Z) (variants : list hlsVariant) (bitrate : string) : list hlsVariant :=
  let name := bitrateToName bitrate in
  if bool_decide (name ∈ v_Name <$> variants) then variants
  else if (0 <? Z.of_nat (length variants)) && (0 <? maxBitrate) &&
          (match bitrateValue bitrate with None => true | Some value => maxBitrate <? value end)
  then variants
  else variants ++ [mkHlsVariant name bitrate].

Definition selectVariants (cfg : VideoConfig) (info : option VideoInfo) : list hlsVariant :=
  let variants := foldl (select_step (max_bitrate info)) [] (Bitrates cfg) in
  match variants, Bitrates cfg with
  | [], b :: _ => [mkHlsVariant (bitrateToName b) b]
  | _, _ => variants
  end.

Definition gopSize (cfg : VideoConfig) (frameRate : float64) : Z :=
  let frameRate := if float_le frameRate zero then of_int 30 else frameRate in
  let segmentDuration := if SegmentDurationSec cfg <=? 0 then 4 else SegmentDurationSec cfg in
  Z.max 1 (round_int (fmul frameRate (of_int segmentDuration))).

(** ** The commands *)

Definition variant_args (cfg : VideoConfig) (gop outputDir : string) (v : hlsVariant) : list string :=
  let variantDir := PathJoin outputDir (v_Name v) in
  ["-map"; "v:0"; "-map"; "0:a?"; "-c:v"; "libx264"; "-b:v"; v_Bitrate v; "-maxrate"; v_Bitrate v;
   "-bufsize"; multiplyBitrate (v_Bitrate v) 2; "-preset"; "fast"; "-g"; gop; "-keyint_min"; gop;
   "-sc_threshold"; "0"; "-force_key_frames";
   "expr:gte(t,n_forced*" +:+ Itoa (SegmentDurationSec cfg) +:+ ")"; "-c:a"; "aac"; "-b:a"; "128k";
   "-f"; "hls"; "-hls_time"; Itoa (SegmentDurationSec cfg); "-hls_list_size"; "0";
   "-hls_flags"; "independent_segments"; "-hls_segment_type"; "1";
   "-hls_segment_filename"; PathJoin variantDir "seg_%d.m4s"; PathJoin variantDir "playlist.m3u8"].

Definition buildHLSArgsForVariants (cfg : VideoConfig) (inputPath outputDir : string)
  (variants : list hlsVariant) (frameRate : float64) : list string :=
  ["-i"; inputPath; "-y"] ++
  concat (variant_args cfg (Itoa (gopSize cfg frameRate)) outputDir <$> variants).

Definition buildHLSArgs (cfg : VideoConfig) (inputPath outputDir : string) : list string :=
  buildHLSArgsForVariants cfg inputPath outputDir (selectVariants cfg None) zero.

Definition buildThumbnailArgs (cfg : VideoConfig) (inputPath outputPath : string) (variant : ImageVariant)
  : list string :=
  ["-ss"; fixed3 (ThumbnailTimeSec cfg); "-i"; inputPath; "-frames:v"; "1"; "-vf";
   "scale=" +:+ Itoa (Width variant) +:+ ":" +:+ Itoa (Height variant) +:+
     ":force_original_aspect_ratio=decrease";
   "-q:v"; Itoa (ThumbnailQScale cfg); "-y"; outputPath].

(** The [strings.NewReplacer] of one-byte pairs. *)
Fixpoint sanitize (s : string) : string :=
  match s with
  | EmptyString => ""
  | String c s' =>
      String (if bool_decide (c ∈ [chr 47; chr 92; chr 58; chr 32]) then chr 95 else c) (sanitize s')
  end.

Definition thumbnailFilename (variant : ImageVariant) : string :=
  let key := TrimSpace (Key variant) in
  let key := if bool_decide (key = "") then Itoa (Width variant) +:+ "x" +:+ Itoa (Height variant)
             else key in
  sanitize key +:+ ".jpg".

(** ** Running them

    The disk below the temporary directory, by path.  Making a directory and
    writing a file can fail, and ffmpeg turns one disk into another or fails. *)
Abbreviation Disk := (gmap string string).
Class System := {
  mkdir_ok : string -> Disk -> bool;
  write_ok : string -> Disk -> bool;
  ffmpeg : string -> list string -> Disk -> option Disk;
  ffprobe : string -> string -> Disk -> option ProbeOutput
}.
Context `{HSy : System}.

Inductive transcodeError :=
| DirFailed (path : string)
| ProbeFailed
| TooLong
| ThumbnailFailed (key : string)
| FFmpegFailed.

Record TranscodeResult := mkTranscodeResult {
  OutputDir : string; t_Variants : gmap string string; t_Duration : float64
}.

Fixpoint thumbnails (cfg : VideoConfig) (inputPath postersDir : string) (vs : list ImageVariant) (disk : Disk)
  : result transcodeError Disk :=
  match vs with
  | [] => Ok disk
  | v :: vs' =>
      if (Width v <=? 0) || (Height v <=? 0) then thumbnails cfg inputPath postersDir vs' disk
      else match ffmpeg (FFmpegPath cfg)
                   (buildThumbnailArgs cfg inputPath (PathJoin postersDir (thumbnailFilename v)) v) disk with
           | None => Err (ThumbnailFailed (Key v))
           | Some disk => thumbnails cfg inputPath postersDir vs' disk
           end
  end.

Definition generateThumbnails (cfg : VideoConfig) (inputPath outputDir : string) (disk : Disk)
  : result transcodeError Disk :=
  match ThumbnailVariants cfg with
  | [] => Ok disk
  | vs =>
      let postersDir := PathJoin outputDir "posters" in
      if negb (mkdir_ok postersDir disk) then Err (DirFailed postersDir)
      else thumbnails cfg inputPath postersDir vs disk
  end.

(** The first directory that cannot be made, if any. *)
Fixpoint make_dirs (dirs : list string) (disk : Disk) : result transcodeError unit :=
  match dirs with
  | [] => Ok tt
  | d :: dirs' => if mkdir_ok d disk then make_dirs dirs' disk else Err (DirFailed d)
  end.

Definition Transcode (cfg : VideoConfig) (inputPath outputDir : string) (disk : Disk)
  : result transcodeError (TranscodeResult * Disk) :=
  if negb (mkdir_ok outputDir disk) then Err (DirFailed outputDir) else
  match probeVideoInfo (ffprobe (FFprobePath cfg) inputPath disk) with
  | None => Err ProbeFailed
  | Some info =>
      if float_lt (of_int (MaxDurationSec cfg)) (Duration info) then Err TooLong else
      disk ← generateThumbnails cfg inputPath outputDir disk;
      let variants := selectVariants cfg (Some info) in
      make_dirs ((fun v => PathJoin outputDir (v_Name v)) <$> variants) disk ;;
      match ffmpeg (FFmpegPath cfg)
              (buildHLSArgsForVariants cfg inputPath outputDir variants (FrameRate info)) disk with
      | None => Err FFmpegFailed
      | Some disk =>
          Ok (mkTranscodeResult outputDir
                (foldl (fun m v => <[v_Name v := PathJoin outputDir (v_Name v)]> m) ∅ variants)
                (Duration info), disk)
      end
  end.

(** * Lemmas *)

(** What the loop keeps true of the renditions chosen from the bitrates [bs]. *)
Definition chosen (maxBitrate : Z) (bs : list string) (vs : list hlsVariant) : Prop :=
  NoDup (v_Name <$> vs) /\
  (v_Bitrate <$> vs) `sublist_of` bs /\
  (forall v, v ∈ vs -> v_Name v = bitrateToName (v_Bitrate v)) /\
  (forall v, v ∈ tail vs -> 0 < maxBitrate ->
     exists value, bitrateValue (v_Bitrate v) = Some value /\ value <= maxBitrate) /\
  (forall b, b ∈ bs -> (forall value, bitrateValue b = Some value -> value <= maxBitrate) ->
     is_Some (bitrateValue b) \/ maxBitrate <= 0 -> bitrateToName b ∈ v_Name <$> vs) /\
  (forall b, head bs = Some b -> head vs = Some (mkHlsVariant (bitrateToName b) b)).

Lemma select_step_chosen m bs vs b : chosen m bs vs -> chosen m (bs ++ [b]) (select_step m vs b).
Proof.
  intros (HND & HS & HNm & HT & HCp & HH). unfold select_step.
  assert (Hhead : vs <> [] -> head (bs ++ [b]) = head bs).
  { destruct bs; [|done]. intros Hne. apply sublist_nil_r in HS. by destruct vs. }
  assert (Hnil : vs = [] -> bs = []).
  { intros ->. destruct bs as [|b' bs]; [done|]. by discriminate (HH b' eq_refl). }
  assert (Hkeep : bitrateToName b ∈ v_Name <$> vs -> chosen m (bs ++ [b]) vs).
  { intros Hin. assert (Hne : vs <> []) by (intros ->; by apply not_elem_of_nil in Hin).
    split_and!; [done|by apply sublist_inserts_r|done..| |].
    - intros b' [Hb|Hb%list_elem_of_singleton]%elem_of_app; [by apply HCp|by subst b'].
    - intros b'. rewrite Hhead by done. apply HH. }
  case_bool_decide as Hin; [by apply Hkeep|].
  match goal with |- context [if ?b then vs else _] => destruct b eqn:Hskip end.
  - apply andb_true_iff in Hskip as [Hskip Hv]. go_bools.
    assert (Hne : vs <> []) by (intros ->; done).
    split_and!; [done|by apply sublist_inserts_r|done..| |].
    + intros b' [Hb|Hb%list_elem_of_singleton]%elem_of_app Hval Hok; [by apply HCp|]. subst b'. exfalso.
      destruct (bitrateValue b) as [value|]; [|destruct Hok as [[? ?]|]; [done|lia]].
      specialize (Hval value eq_refl). go_bools. lia.
    + intros b'. rewrite Hhead by done. apply HH.
  - split_and!.
    + rewrite fmap_app. apply NoDup_app. split_and!; [done| |apply NoDup_singleton].
      intros x Hx Hy%list_elem_of_singleton. by subst x.
    + rewrite fmap_app. by apply sublist_app.
    + intros v [Hv|Hv%list_elem_of_singleton]%elem_of_app; [by apply HNm|by subst v].
    + intros v Hv Hm. destruct vs as [|v0 vs]; [by apply not_elem_of_nil in Hv|]. cbn in Hv.
      apply elem_of_app in Hv as [Hv|Hv%list_elem_of_singleton]; [by apply HT|]. subst v. cbn [v_Bitrate].
      rewrite (proj2 (Z.ltb_lt _ _) Hm), andb_true_r in Hskip. cbn [length] in Hskip.
      rewrite (proj2 (Z.ltb_lt _ _)) in Hskip by lia. cbn [andb] in Hskip.
      destruct (bitrateValue b) as [value|]; [|done]. go_bools. eauto.
    + intros b' [Hb|Hb%list_elem_of_singleton]%elem_of_app Hval Hok; rewrite fmap_app, elem_of_app.
      * left. by apply HCp.
      * subst b'. right. by left.
    + intros b' Hb. destruct vs as [|v0 vs].
      * rewrite Hnil in Hb by done. cbn in Hb. by injection Hb as ->.
      * rewrite Hhead in Hb by done. by apply (HH b').
Qed.

Lemma selectVariants_chosen cfg info : chosen (max_bitrate info) (Bitrates cfg) (selectVariants cfg info).
Proof.
  assert (HF : forall bs, chosen (max_bitrate info) bs (foldl (select_step (max_bitrate info)) [] bs)).
  { intros bs. induction bs as [|b bs IH] using rev_ind.
    - split_and!; try constructor; try done; intros b Hb; by apply not_elem_of_nil in Hb.
    - rewrite foldl_app. by apply select_step_chosen. }
  specialize (HF (Bitrates cfg)). unfold selectVariants.
  destruct (foldl _ [] _) as [|v vs] eqn:E; [|done]. destruct (Bitrates cfg) as [|b bs]; [done|].
  destruct HF as (_ & _ & _ & _ & _ & HH). by discriminate (HH b eq_refl).
Qed.

(** * Properties *)

(** The renditions made of a video: as many as the configured bitrates allow, in
    their order and under distinct names; the first configured bitrate is always
    made; each further one is at most a fifth above the source's bitrate, when
    that is known; and no configured bitrate that fits is left out, unless its
    name is already taken.  A bitrate that is a number is named low, medium or
    high, the names a master playlist lists. *)
Theorem ladder cfg info :
  let vs := selectVariants cfg info in
  (vs = [] <-> Bitrates cfg = []) /\
  NoDup (v_Name <$> vs) /\ (v_Bitrate <$> vs) `sublist_of` Bitrates cfg /\
  (forall b bs, Bitrates cfg = b :: bs -> head vs = Some (mkHlsVariant (bitrateToName b) b)) /\
  (forall v, v ∈ tail vs -> 0 < max_bitrate info ->
     exists value, bitrateValue (v_Bitrate v) = Some value /\ value <= max_bitrate info) /\
  (forall b value, b ∈ Bitrates cfg -> bitrateValue b = Some value -> value <= max_bitrate info ->
     bitrateToName b ∈ v_Name <$> vs) /\
  (forall b, b ∈ Bitrates cfg -> max_bitrate info <= 0 -> bitrateValue b = None ->
     bitrateToName b ∈ v_Name <$> vs) /\
  (forall v n rest, v ∈ vs -> scan_int (clean_bitrate (v_Bitrate v)) = Some (n, rest) ->
     v_Name v ∈ ["low"; "medium"; "high"]).
Proof.
  intros vs. destruct (selectVariants_chosen cfg info) as (HND & HS & HNm & HT & HCp & HH). fold vs in HND, HS, HNm, HT, HCp, HH.
  split_and!; [split|done..| |done| | |].
  - intros Hv. rewrite Hv in HH. destruct (Bitrates cfg) as [|b bs]; [done|]. by discriminate (HH b eq_refl).
  - intros Hb. rewrite Hb in HS. apply sublist_nil_r in HS. by destruct vs.
  - intros b bs Hb. apply HH. by rewrite Hb.
  - intros b value Hb Hv Hle. apply HCp; [done| |left; by rewrite Hv]. intros ? ?. congruence.
  - intros b Hb Hm Hv. apply HCp; [done| |by right]. intros ? ?. congruence.
  - intros v n rest Hv Hn. rewrite (HNm v Hv). unfold bitrateToName. rewrite Hn.
    repeat case_match; set_solver.
Qed.

(** A video is accepted exactly when it is within every limit, and what the
    validator accepted the transcoder does not refuse: reading the same metadata
    it fails only where a command or the disk does. *)
Theorem accepted_within_limits cfg size out inputPath outputDir disk :
  Validate cfg size (probeVideoInfo out) = None <->
  size <= MaxSizeBytes cfg /\ exists info, probeVideoInfo out = Some info /\
    float_lt (of_int (MaxDurationSec cfg)) (Duration info) = false /\
    i_Width info <= 4096 /\ i_Height info <= 4096 /\ float_lt (of_int 120) (FrameRate info) = false /\
    (ffprobe (FFprobePath cfg) inputPath disk = out ->
       Transcode cfg inputPath outputDir disk <> Err TooLong /\
       Transcode cfg inputPath outputDir disk <> Err ProbeFailed).
Proof.
  assert (HTr : forall info, probeVideoInfo out = Some info ->
    float_lt (of_int (MaxDurationSec cfg)) (Duration info) = false ->
    ffprobe (FFprobePath cfg) inputPath disk = out ->
    Transcode cfg inputPath outputDir disk <> Err TooLong /\ Transcode cfg inputPath outputDir disk <> Err ProbeFailed).
  { intros info Hi Hd <-. unfold Transcode. destruct (negb _); [done|]. rewrite Hi, Hd.
    assert (HTh : forall e, generateThumbnails cfg inputPath outputDir disk = Err e -> e <> TooLong /\ e <> ProbeFailed).
    { intros e. unfold generateThumbnails. destruct (ThumbnailVariants cfg) as [|v vs]; [done|].
      destruct (negb _); [by intros [= <-]|]. generalize (v :: vs), disk. clear.
      induction l as [|v vs IH]; intros disk; [done|]. cbn [thumbnails]. destruct (_ || _); [apply IH|].
      destruct (ffmpeg _ _ _); [apply IH|by intros [= <-]]. }
    assert (HMd : forall ds d e, make_dirs ds d = Err e -> e <> TooLong /\ e <> ProbeFailed).
    { clear. induction ds as [|d ds IH]; intros disk e; [done|]. cbn [make_dirs].
      destruct (mkdir_ok d disk); [apply IH|by intros [= <-]]. }
    unfold mbind, result_bind. destruct (generateThumbnails _ _ _ _) as [d|e]; [|destruct (HTh e eq_refl); split; congruence].
    destruct (make_dirs _ d) as [|e] eqn:E; [|destruct (HMd _ _ _ E); split; congruence].
    by destruct (ffmpeg _ _ d). }
  unfold Validate. split.
  - destruct (Z.ltb_spec (MaxSizeBytes cfg) size); [done|]. destruct (probeVideoInfo out) as [info|] eqn:Hi; [|done].
    destruct (float_lt _ _) eqn:Hd; [done|]. go_if Hw. intros _. go_bools. unfold maxVideoSide, maxVideoFrameRate in *.
    split; [lia|]. exists info. split_and!; [done..|lia|lia|done|eauto].
  - intros (Hs & info & -> & -> & Hw & Hh & Hf & _). unfold maxVideoSide, maxVideoFrameRate. rewrite Hf.
    destruct (Z.ltb_spec (MaxSizeBytes cfg) size); [lia|].
    destruct (Z.ltb_spec 4096 (i_Width info)); [lia|]. by destruct (Z.ltb_spec 4096 (i_Height info)); [lia|].
Qed.

End video.

End Transcode.
