(* ===== verification/Upload.v ===== *)
(** [internal/handler/upload_budget.go], [upload_request.go], [upload_errors.go],
    [helpers.go] and the upload handlers of [handler.go]: what an upload is
    checked for, what is stored of it, and what it is answered. *)

From S2P Require Export Middleware ImageMeta ImageProc Grant.

Local Open Scope Z_scope.

Module Upload.
Import Http.

(** ** [upload_budget.go] *)

Record uploadBudget := mkBudget { limit : Z; day : string; used : gmap string Z }.

(** A nil budget is [None]. *)
Definition newUploadBudget (limit : Z) : option uploadBudget :=
  if limit <=? 0 then None else Some (mkBudget limit "" ∅).

Definition spent (b : uploadBudget) (key : string) : Z := default 0 (used b !! key).

(** [take] on the day [today]: the budget after it and whether the bytes fit. *)
Definition take (key : string) (size : Z) (today : string) (ob : option uploadBudget)
  : option uploadBudget * bool :=
  match ob with
  | None => (None, true)
  | Some b =>
      if bool_decide (key = "") then (Some b, true) else
      let b := if bool_decide (day b <> today) then mkBudget (limit b) today ∅ else b in
      if limit b <? int64 (spent b key + size) then (Some b, false)
      else (Some (mkBudget (limit b) (day b) (<[key := int64 (spent b key + size)]> (used b))), true)
  end.

(** ** [upload_errors.go] *)

Inductive detail := Number (n : Z) | Strings (l : list string).

(** [Sprintf] of a size in kilobytes with one decimal. *)
Class Fmt := kilobytes : Z -> string.

Definition uploadLocale (r : Request) : string :=
  if HasPrefix (ToLower (TrimSpace (Url.Get (r_Query r) "lang"))) "ru" then "ru"
  else if HasPrefix (ToLower (Header r "Accept-Language")) "ru" then "ru" else "en".

Definition numberDetail (details : gmap string detail) (key : string) : Z :=
  match details !! key with Some (Number n) => n | _ => 0 end.

Section messages.
Context `{Fmt}.

Definition humanFileSize (n : Z) (locale : string) : string :=
  let ru := bool_decide (locale = "ru") in
  let megabyte := 1024 * 1024 in
  let gigabyte := 1024 * megabyte in
  if n <=? 0 then (if ru then "установленный" else "configured")
  else if Z.rem n gigabyte =? 0
  then Itoa (Z.quot n gigabyte) +:+ " " +:+ (if ru then "ГБ" else "GB")
  else if Z.rem n megabyte =? 0
  then Itoa (Z.quot n megabyte) +:+ " " +:+ (if ru then "МБ" else "MB")
  else kilobytes n +:+ " " +:+ (if ru then "КБ" else "KB").

Definition message_ru (code maxSize : string) (details : gmap string detail) : string :=
  if bool_decide (code = "upload_missing_file") then "Выберите файл для загрузки." else
  if bool_decide (code ∈ ["unsupported_file_type"; "unsupported_video_format"])
  then "Этот формат файла не поддерживается." else
  if bool_decide (code ∈ ["file_too_large"; "video_file_too_large"])
  then "Размер файла превышает допустимые " +:+ maxSize +:+ "." else
  if bool_decide (code = "upload_request_too_large")
  then "Общий размер загрузки превышает лимит " +:+ Itoa (numberDetail details "max_request_bytes") +:+
       " байт. Отправьте файлы меньшими группами." else
  if bool_decide (code = "video_duration_exceeded")
  then "Длительность видео превышает допустимые " +:+ Itoa (numberDetail details "max_duration_sec") +:+
       " сек." else
  if bool_decide (code = "video_metadata_invalid")
  then "Не удалось определить параметры видео. Выберите корректный видеофайл." else
  if bool_decide (code = "upload_form_invalid")
  then "Не удалось обработать форму загрузки. Повторите попытку." else
  if bool_decide (code = "upload_storage_unavailable")
  then "Хранилище временно недоступно. Повторите попытку позже." else
  if bool_decide (code = "upload_quota_exceeded")
  then "Лимит загрузок на сегодня исчерпан. Попробуйте завтра." else
  if bool_decide (code = "upload_busy")
  then "Сейчас обрабатывается много видео. Повторите загрузку через несколько минут." else
  if bool_decide (code = "video_resolution_exceeded")
  then "Разрешение видео слишком большое: не больше 4096 точек по стороне и 120 кадров в секунду."
  else "Не удалось загрузить файл. Повторите попытку.".

Definition message_en (code maxSize : string) (details : gmap string detail) : string :=
  if bool_decide (code = "upload_missing_file") then "Choose a file to upload." else
  if bool_decide (code ∈ ["unsupported_file_type"; "unsupported_video_format"])
  then "This file format is not supported." else
  if bool_decide (code ∈ ["file_too_large"; "video_file_too_large"])
  then "The file exceeds the " +:+ maxSize +:+ " limit." else
  if bool_decide (code = "upload_request_too_large")
  then "The complete upload exceeds the " +:+ Itoa (numberDetail details "max_request_bytes") +:+
       " byte limit. Send files in smaller batches." else
  if bool_decide (code = "video_duration_exceeded")
  then "The video exceeds the " +:+ Itoa (numberDetail details "max_duration_sec") +:+
       " second duration limit." else
  if bool_decide (code = "video_metadata_invalid")
  then "Video details could not be read. Choose a valid video file." else
  if bool_decide (code = "upload_form_invalid")
  then "The upload form could not be processed. Try again." else
  if bool_decide (code = "upload_storage_unavailable")
  then "Storage is temporarily unavailable. Try again later." else
  if bool_decide (code = "upload_quota_exceeded")
  then "Today's upload limit is used up. Try again tomorrow." else
  if bool_decide (code = "upload_busy")
  then "Many videos are being processed. Try the upload again in a few minutes." else
  if bool_decide (code = "video_resolution_exceeded")
  then "The video resolution is too high: at most 4096 pixels a side and 120 frames per second."
  else "The file could not be uploaded. Try again.".

Definition localizedUploadMessage (locale code : string) (details : gmap string detail) : string :=
  let maxSize := humanFileSize (numberDetail details "max_bytes") locale in
  if bool_decide (locale = "ru") then message_ru code maxSize details else message_en code maxSize details.

(** [responseFromManifest] *)
Record stored := mkStored {
  s_CID : string; s_Name : string; s_Size : Z; s_Pinned : bool; s_Type : string;
  s_Original : Asset; s_Variants : gmap string Asset
}.

(** What an upload is answered: an error in the public form, or what was stored. *)
Inductive Answer :=
| UploadError (status : Z) (code message : string) (details : gmap string detail)
| Uploaded (files : list stored).

Definition writeUploadError (r : Request) (status : Z) (code : string) (details : gmap string detail)
  : Answer := UploadError status code (localizedUploadMessage (uploadLocale r) code details) details.
End messages.

(** ** Forms *)

(** A file of the form: its header, its bytes, and whether it can be opened. *)
Record Part := mkPart {
  p_Filename : string; p_ContentType : string; p_Size : Z; p_opens : bool; p_file : reader
}.

(** The body of the request: the length it declares (-1 when unknown), the bytes
    it has up to the end of the form and altogether, what the form holds by field
    when it can be parsed, and whether what follows it can be read. *)
Record Form := mkForm {
  f_ContentLength : Z; f_consumed : Z; f_total : Z; f_fields : option (list (string * Part));
  f_drained : bool
}.

Definition files_of (field : string) (parts : list (string * Part)) : list Part :=
  snd <$> filter (fun fp => fp.1 = field) parts.

(** [min] of the two limits, either of which may be absent. *)
Definition request_limit (routeLimit maxRequest : Z) : Z :=
  if (0 <? maxRequest) && ((routeLimit <=? 0) || (maxRequest <? routeLimit)) then maxRequest
  else routeLimit.

(** The parsed form, or the error written. *)
Definition parseUploadForm `{Fmt} (maxRequest : Z) (r : Request) (f : Form) (routeLimit : Z)
  : result Answer (list (string * Part)) :=
  let limit := request_limit routeLimit maxRequest in
  let tooLarge := writeUploadError r 413 "upload_request_too_large"
                    {[ "max_request_bytes" := Number limit ]} in
  let invalid := writeUploadError r 400 "upload_form_invalid" ∅ in
  if (0 <? limit) && (limit <? f_ContentLength f) then Err tooLarge
  else if (0 <? limit) && (limit <? f_consumed f) then Err tooLarge
  else
    match f_fields f with
    | None => Err invalid
    | Some parts =>
        if 0 <? limit then
          if limit <? f_total f then Err tooLarge
          else if f_drained f then Ok parts else Err invalid
        else Ok parts
    end.

(** ** Bundles *)

(** Bytes as the metadata stripper reads them. *)
Definition to_bytes (s : string) : list Z := ImageMeta.text s.
Definition of_bytes (l : list Z) : string :=
  fold_right (fun z s => String (ascii_of_nat (Z.to_nat z)) s) "" l.
Definition StripMetadata (data : string) : string := of_bytes (ImageMeta.StripMetadata (to_bytes data)).

Definition formatFromFilename (filename : string) : string :=
  let ext := TrimPrefix (ToLower (Ext filename)) "." in
  if bool_decide (ext = "jpg") then "jpeg" else if bool_decide (ext = "") then "bin" else ext.

(** [http.DetectContentType], [mime.TypeByExtension], [json.MarshalIndent] of a
    manifest and [ClusterAddDir], which answers the root's CID. *)
Class Ingest := {
  DetectContentType : string -> string;
  TypeByExtension : string -> string;
  MarshalManifest : Manifest -> option string;
  ClusterAddDir : gmap string string -> option string
}.

Section upload.
Context `{HFl : Blur.Float64, HNu : Config.Numbers, HCo : !ImageProc.Codecs}.
Context `{HFm : Fmt, HIn : Ingest, HCr : Grant.Crypto}.

(** [uploadSessionKey]: the first half of the token's hash, in hexadecimal. *)
Definition uploadSessionKey (r : Request) : string :=
  let auth := Header r "Authorization" in
  let token :=
    if HasPrefix auth "Bearer " then TrimPrefix auth "Bearer "
    else match r_Cookies r !! "iamfree_media_token" with
         | Some value => value
         | None => Url.Get (r_Query r) "token"
         end in
  if bool_decide (token = "") then ""
  else Base64.hex_encode (String.substring 0 16 (Grant.sha256 token)).

Record Env := mkEnv {
  cfg : Config.UploadConfig;
  imageProcessor : ImageProc.Processor
}.

Definition validateFile (filename contentType : string) (c : Config.UploadConfig) : bool :=
  let ext := ToLower (TrimPrefix (Ext filename) ".") in
  if negb (bool_decide (ext ∈ Config.AllowedExtensions c)) then false else
  let contentType :=
    if bool_decide (contentType = "") || bool_decide (contentType = "application/octet-stream")
    then TypeByExtension (Ext filename) else contentType in
  if bool_decide (contentType ∈ Config.AllowedMimeTypes c) then true
  else let ct := TypeByExtension ("." +:+ ext) in
       negb (bool_decide (ct = "")) && bool_decide (ct ∈ Config.AllowedMimeTypes c).

Definition asset_of (v : ImageProc.Variant) : Asset :=
  mkAsset "" "" (ImageProc.v_Filename v) (ImageProc.v_Format v) (ImageProc.v_ContentType v)
    (ImageProc.v_Width v) (ImageProc.v_Height v) (Z.of_nat (String.length (ImageProc.v_Data v))).

(** The loop over the renditions: the bundle's files and the manifest's assets. *)
Definition add_variants (vs : list ImageProc.Variant) (entries : gmap string string)
  (assets : gmap string Asset) : gmap string string * gmap string Asset :=
  fold_left (fun s v => (<[ImageProc.v_Filename v := ImageProc.v_Data v]> s.1,
                         <[ImageProc.v_Key v := asset_of v]> s.2)) vs (entries, assets).

Definition as_image (i : ImageProc.Result) (assets : gmap string Asset) (m : Manifest) : Manifest :=
  mkManifest (m_CID m) (m_Name m) "image" (m_Version m) (m_Size m)
    (mkAsset (a_CID (m_Original m)) (a_Path (m_Original m)) (a_BundlePath (m_Original m))
       (ImageProc.Format i) (a_ContentType (m_Original m)) (ImageProc.Width i) (ImageProc.Height i)
       (a_Size (m_Original m)))
    assets (m_Metadata m).

(** The files of a bundle, and its manifest, before the cluster names it. *)
Definition prepareBundle (e : Env) (cancelled : bool) (filename data contentType : string)
  : result string (gmap string string * Manifest) :=
  let data := StripMetadata data in
  let manifest := NewFileManifest filename contentType (formatFromFilename filename)
                    (Z.of_nat (String.length data)) in
  let entries : gmap string string := {[ OriginalFilename := data ]} in
  match ImageProc.Process (imageProcessor e) cancelled data contentType with
  | Err err => Err err
  | Ok imageResult =>
      let '(entries, manifest) :=
        if ImageProc.IsImage imageResult then
          let '(entries, assets) := add_variants (ImageProc.Variants imageResult) entries ∅ in
          (entries, as_image imageResult assets manifest)
        else (entries, manifest) in
      match MarshalManifest manifest with
      | None => Err "json"
      | Some manifestJSON => Ok (<[ManifestFilename := manifestJSON]> entries, manifest)
      end
  end.

(** A failure, with the bundles the cluster had been handed by then: it may have
    kept them on some nodes ([Cluster.failed_add_lingers]). *)
Definition failure : Type := string * list (gmap string string).

(** The bundle the cluster took, and the manifest under the CID it got. *)
Definition buildFileBundle (e : Env) (cancelled : bool) (filename data contentType : string)
  : result failure (gmap string string * Manifest) :=
  match prepareBundle e cancelled filename data contentType with
  | Err err => Err (err, [])
  | Ok (entries, manifest) =>
      match ClusterAddDir entries with
      | None => Err ("add", [entries])
      | Some cid => Ok (entries, Finalize cid manifest)
      end
  end.

Definition responseFromManifest (m : Manifest) (pinned : bool) : stored :=
  mkStored (m_CID m) (m_Name m) (m_Size m) pinned (m_Type m) (m_Original m) (m_Variants m).

(** ** [HandleUpload] *)

(** The budget, the bundles the cluster took, the CIDs handed to [replicateAsync],
    oldest first, and every bundle that was handed to [ClusterAddDir], whatever it
    answered. *)
Record World := mkWorld {
  uploads : option uploadBudget;
  bundles : list (gmap string string * Manifest);
  replicated : list string;
  handed : list (gmap string string)
}.

Definition set_uploads (b : option uploadBudget) (w : World) : World :=
  mkWorld b (bundles w) (replicated w) (handed w).
Definition hand (tried : list (gmap string string)) (w : World) : World :=
  mkWorld (uploads w) (bundles w) (replicated w) (handed w ++ tried).
Definition store_bundle (b : gmap string string * Manifest) (w : World) : World :=
  mkWorld (uploads w) (bundles w ++ [b]) (replicated w ++ [m_CID b.2]) (handed w ++ [b.1]).

(** What is read of a file, at most one byte past the limit. *)
Definition read_upload (e : Env) (p : Part) : option string :=
  ReadAll (int64 (Config.MaxFileSize (cfg e) + 1)) (p_file p).

(** From the bytes of an accepted file to its bundle: a HEIF picture becomes a
    JPEG first.  The error is the public code. *)
Definition ingest (e : Env) (cancelled : bool) (filename data : string)
  : result failure (gmap string string * Manifest) :=
  let build filename data contentType :=
    match buildFileBundle e cancelled filename data contentType with
    | Ok b => Ok b
    | Err (_, tried) => Err ("upload_failed", tried)
    end in
  if ImageProc.IsHEIF data then
    match ImageProc.TranscodeHEIF (imageProcessor e) data with
    | Err _ => Err ("unsupported_file_type", [])
    | Ok converted => build (ImageProc.JPEGFilename filename) converted "image/jpeg"
    end
  else build filename data (DetectContentType data).

Definition allowed_detail (e : Env) : gmap string detail :=
  {[ "allowed_extensions" := Strings (Config.AllowedExtensions (cfg e)) ]}.

Definition HandleUpload (e : Env) (r : Request) (f : Form) (today : string) (cancelled : bool)
  (w : World) : World * Answer :=
  match parseUploadForm (Config.MaxRequestSize (cfg e)) r f 0 with
  | Err a => (w, a)
  | Ok parts =>
      match files_of "file" parts with
      | [] => (w, writeUploadError r 400 "upload_missing_file" ∅)
      | p :: _ =>
          if negb (p_opens p) then (w, writeUploadError r 400 "upload_missing_file" ∅) else
          if negb (validateFile (p_Filename p) (p_ContentType p) (cfg e))
          then (w, writeUploadError r 400 "unsupported_file_type" (allowed_detail e)) else
          match read_upload e p with
          | None => (w, writeUploadError r 500 "upload_failed" ∅)
          | Some data =>
              let bytesRead := Z.of_nat (String.length data) in
              if Config.MaxFileSize (cfg e) <? bytesRead
              then (w, writeUploadError r 413 "file_too_large"
                         {[ "max_bytes" := Number (Config.MaxFileSize (cfg e)) ]}) else
              match take (uploadSessionKey r) bytesRead today (uploads w) with
              | (b, false) => (set_uploads b w, writeUploadError r 429 "upload_quota_exceeded" ∅)
              | (b, true) =>
                  let w := set_uploads b w in
                  match ingest e cancelled (p_Filename p) data with
                  | Err (code, tried) =>
                      (hand tried w,
                       if bool_decide (code = "unsupported_file_type")
                       then writeUploadError r 400 code (allowed_detail e)
                       else writeUploadError r 500 code ∅)
                  | Ok bundle => (store_bundle bundle w, Uploaded [responseFromManifest bundle.2 true])
                  end
              end
          end
      end
  end.

(** ** [HandleUploadMultiple] *)

Definition maxFilesPerUpload : Z := 20.

(** What one goroutine makes of its file. *)
Definition upload_one (e : Env) (cancelled : bool) (p : Part)
  : result failure (gmap string string * Manifest) :=
  if negb (p_opens p) then Err ("upload_failed", []) else
  match read_upload e p with
  | None => Err ("upload_failed", [])
  | Some data =>
      if Config.MaxFileSize (cfg e) <? Z.of_nat (String.length data) then Err ("file_too_large", [])
      else ingest e cancelled (p_Filename p) data
  end.

(** One goroutine finishing: a bundle, or a failure at the end of the list. *)
Definition finish_one (outcomes : list (string * result failure (gmap string string * Manifest)))
  (s : World * list (string * string)) (i : nat) : World * list (string * string) :=
  match outcomes !! i with
  | Some (_, Ok bundle) => (store_bundle bundle s.1, s.2)
  | Some (filename, Err (code, tried)) => (hand tried s.1, s.2 ++ [(code, filename)])
  | None => s
  end.

(** [results[idx] = ...] of the goroutines that succeeded. *)
Definition results_of (outcomes : list (string * result failure (gmap string string * Manifest)))
  : list stored :=
  omap (fun o => match o.2 with Ok b => Some (responseFromManifest b.2 true) | Err _ => None end) outcomes.

(** [order] is the order the goroutines finish in. *)
Definition HandleUploadMultiple (e : Env) (r : Request) (f : Form) (today : string)
  (cancelled : bool) (order : list nat) (w : World) : World * Answer :=
  let maxFile := Config.MaxFileSize (cfg e) in
  let routeLimit := if 0 <? maxFile then int64 (int64 (maxFile * maxFilesPerUpload) + 2 ^ 20) else 0 in
  match parseUploadForm (Config.MaxRequestSize (cfg e)) r f routeLimit with
  | Err a => (w, a)
  | Ok parts =>
      let files := files_of "files" parts in
      if (length files =? 0)%nat then (w, writeUploadError r 400 "upload_missing_file" ∅) else
      if maxFilesPerUpload <? Z.of_nat (length files)
      then (w, writeUploadError r 400 "upload_form_invalid" ∅) else
      let batchBytes := fold_left (fun n p => int64 (n + p_Size p)) files 0 in
      match take (uploadSessionKey r) batchBytes today (uploads w) with
      | (b, false) => (set_uploads b w, writeUploadError r 429 "upload_quota_exceeded" ∅)
      | (b, true) =>
          let w := set_uploads b w in
          let invalid := p_Filename <$>
            filter (fun p => validateFile (p_Filename p) (p_ContentType p) (cfg e) = false) files in
          if (0 <? length invalid)%nat
          then (w, writeUploadError r 400 "unsupported_file_type"
                     (<["invalid_files" := Strings invalid]> (allowed_detail e))) else
          let outcomes := (fun p => (p_Filename p, upload_one e cancelled p)) <$> files in
          let '(w, failures) := fold_left (finish_one outcomes) order (w, []) in
          if (0 <? length failures)%nat then
            let failed : gmap string detail := {[ "failed_files" := Strings failures.*2 ]} in
            if existsb (fun x => bool_decide (x.1 = "file_too_large")) failures
            then (w, writeUploadError r 413 "file_too_large"
                       (<["max_bytes" := Number maxFile]> failed))
            else (w, writeUploadError r 500 "upload_failed" failed)
          else (w, Uploaded (results_of outcomes))
      end
  end.

(** * Specification *)

(** ** The budget *)

(** What has been asked of the budget, newest first: who, how much, on what day,
    and whether it was granted. *)
Record asked := mkAsked { q_key : string; q_size : Z; q_day : string; q_granted : bool }.

(** What a session was granted on [day] since the day last changed. *)
Fixpoint granted (key d : string) (h : list asked) : Z :=
  match h with
  | [] => 0
  | q :: h' =>
      if bool_decide (q_day q = d)
      then (if q_granted q && bool_decide (q_key q = key) then q_size q else 0) + granted key d h'
      else 0
  end.

(** The contract: everything is granted to who has no session, and otherwise what
    fits in the day. *)
Definition fits (limit : Z) (h : list asked) (key : string) (size : Z) (d : string) : bool :=
  bool_decide (key = "") || (granted key d h + size <=? limit).

Fixpoint contract (limit : Z) (h : list asked) (ts : list (string * Z * string)) : list asked * list bool :=
  match ts with
  | [] => (h, [])
  | (key, size, d) :: ts' =>
      let ok := fits limit h key size d in
      let h' := if bool_decide (key = "") then h else mkAsked key size d ok :: h in
      let '(h', oks) := contract limit h' ts' in (h', ok :: oks)
  end.

(** The same requests to the budget itself. *)
Fixpoint takes (ts : list (string * Z * string)) (b : option uploadBudget) : option uploadBudget * list bool :=
  match ts with
  | [] => (b, [])
  | (key, size, d) :: ts' =>
      let '(b, ok) := take key size d b in
      let '(b, oks) := takes ts' b in (b, ok :: oks)
  end.

(** Sizes and limits far from the end of [int64], as files are. *)
Definition sane (size : Z) : Prop := 0 <= size < 2 ^ 62.

(** * Lemmas *)

Definition tracks (limit_ : Z) (b : uploadBudget) (h : list asked) : Prop :=
  limit b = limit_ /\
  (forall key d, granted key d h = if bool_decide (day b = d) then spent b key else 0) /\
  forall key, 0 <= spent b key <= limit_.

Lemma take_tracks limit_ b h key size d : tracks limit_ b h -> sane limit_ -> sane size -> key <> "" ->
  let ok := fits limit_ h key size d in
  exists b', take key size d (Some b) = (Some b', ok) /\ tracks limit_ b' (mkAsked key size d ok :: h).
Proof.
  intros (HLm & HG & HB) Hl Hs Hk ok. unfold take. rewrite bool_decide_eq_false_2 by done.
  set (b1 := if bool_decide (day b <> d) then _ else b).
  assert (limit b1 = limit_ /\ day b1 = d /\ (forall k, spent b1 k = granted k d h) /\
    forall k, 0 <= spent b1 k <= limit_) as (HL1 & HD1 & HS1 & HB1).
  { unfold b1. destruct (decide (day b = d)) as [E|E].
    - rewrite bool_decide_eq_false_2 by auto. split_and!; [done|done| |done].
      intros k. rewrite HG. by rewrite bool_decide_eq_true_2.
    - rewrite bool_decide_eq_true_2 by done. split_and!; [done|done| |].
      + intros k. rewrite HG, bool_decide_eq_false_2 by done. unfold spent. cbn. by rewrite lookup_empty.
      + intros k. unfold spent. cbn [used]. rewrite lookup_empty. cbn [default from_option]. unfold sane in Hl. lia. }
  rewrite HL1. pose proof (HB1 key) as Hspent. unfold sane in *.
  rewrite int64_id by (unfold in_int64; lia).
  assert (Hok : ok = negb (limit_ <? spent b1 key + size)).
  { unfold ok, fits. rewrite bool_decide_eq_false_2, <- HS1 by done. cbn [orb]. lia. }
  destruct (Z.ltb_spec limit_ (spent b1 key + size)) as [Hc|Hc]; rewrite Hok; cbn [negb].
  - exists b1. split; [done|]. split_and!; [done| |done]. intros k d'. cbn [granted q_day q_granted q_key q_size andb].
    rewrite HD1. case_bool_decide; [subst d'; by rewrite <- HS1|done].
  - eexists. split; [done|]. unfold tracks, spent. cbn [limit day used]. split_and!; [done| |].
    + intros k d'. cbn [granted q_day q_granted q_key q_size andb]. rewrite HD1.
      case_bool_decide as Hd; [subst d'|done]. rewrite <- HS1. unfold spent.
      destruct (decide (key = k)) as [->|Hne].
      * rewrite bool_decide_eq_true_2, lookup_insert_eq by done. cbn [default from_option id]. lia.
      * by rewrite bool_decide_eq_false_2, lookup_insert_ne by done.
    + intros k. destruct (decide (key = k)) as [->|Hne].
      * rewrite lookup_insert_eq. cbn [default from_option id]. fold (spent b1 k). lia.
      * rewrite lookup_insert_ne by done. apply HB1.
Qed.

Lemma takes_contract limit_ ts b h : tracks limit_ b h -> sane limit_ ->
  Forall (fun t => sane t.1.2) ts ->
  exists b', takes ts (Some b) = (Some b', (contract limit_ h ts).2) /\
    tracks limit_ b' (contract limit_ h ts).1.
Proof.
  intros HT Hl HF. revert b h HT. induction HF as [|[[key size] d] ts Hs HF IH]; intros b h HT.
  { by exists b. }
  cbn [takes contract]. destruct (decide (key = "")) as [->|Hk].
  - rewrite bool_decide_eq_true_2 by done. unfold take at 1. rewrite bool_decide_eq_true_2 by done.
    destruct (IH b h HT) as (b' & E & HT'). exists b'. rewrite E.
    destruct (contract limit_ h ts) as [h' oks]. done.
  - rewrite bool_decide_eq_false_2 by done.
    destruct (take_tracks limit_ b h key size d HT Hl Hs Hk) as (b1 & E1 & HT1). rewrite E1.
    destruct (IH b1 _ HT1) as (b' & E & HT'). exists b'. rewrite E.
    destruct (contract limit_ _ ts) as [h' oks]. done.
Qed.

(** ** Bundles *)

Lemma ends_differ a b : a +:+ ".jpg" <> b +:+ ".webp".
Proof.
  intros HE. apply (f_equal (fun s => last (chars s))) in HE.
  rewrite !chars_append, !last_app in HE. by vm_compute in HE.
Qed.

(** A rendition's file name says its key. *)
Lemma named_inj v1 v2 : ImageProc.named v1 -> ImageProc.named v2 ->
  ImageProc.v_Filename v1 = ImageProc.v_Filename v2 -> ImageProc.v_Key v1 = ImageProc.v_Key v2.
Proof.
  intros (e1 & -> & H1) (e2 & -> & H2) HE. rewrite <- !append_assoc in HE.
  repeat (apply elem_of_cons in H1 as [->|H1]); [..|by apply elem_of_nil in H1];
  repeat (apply elem_of_cons in H2 as [->|H2]); try (by apply elem_of_nil in H2);
    rewrite !append_assoc in HE.
  - by apply append_inj_r in HE.
  - by apply ends_differ in HE.
  - symmetry in HE. by apply ends_differ in HE.
  - by apply append_inj_r in HE.
Qed.

Lemma named_not_reserved v : ImageProc.named v ->
  ImageProc.v_Filename v <> OriginalFilename /\ ImageProc.v_Filename v <> ManifestFilename.
Proof.
  intros (e & -> & H).
  assert (Hl : forall t, last (chars t) <> Some "g"%char -> last (chars t) <> Some "p"%char ->
    ImageProc.v_Key v +:+ "." +:+ e <> t).
  { intros t H1 H2 <-. rewrite !chars_append, !last_app in H1, H2.
    repeat (apply elem_of_cons in H as [->|H]); [by apply H1|by apply H2|by apply elem_of_nil in H]. }
  split; by apply Hl.
Qed.

Lemma add_variants_snoc vs v e a : add_variants (vs ++ [v]) e a =
  (<[ImageProc.v_Filename v := ImageProc.v_Data v]> (add_variants vs e a).1,
   <[ImageProc.v_Key v := asset_of v]> (add_variants vs e a).2).
Proof. unfold add_variants. by rewrite fold_left_app. Qed.

(** Every asset is a rendition whose bytes are in the bundle under its path. *)
Lemma add_variants_assets vs e k x : Forall ImageProc.named vs ->
  (add_variants vs e ∅).2 !! k = Some x ->
  exists v, v ∈ vs /\ ImageProc.v_Key v = k /\ x = asset_of v /\
    (add_variants vs e ∅).1 !! ImageProc.v_Filename v = Some (ImageProc.v_Data v).
Proof.
  induction vs as [|w vs IH] using rev_ind; intros HF Hk;
    [unfold add_variants in Hk; cbn [fold_left snd] in Hk; by rewrite lookup_empty in Hk|].
  rewrite add_variants_snoc in Hk |- *. apply Forall_app in HF as [HF Hw].
  apply Forall_cons in Hw as [Hw _]. cbn [fst snd] in *.
  destruct (decide (ImageProc.v_Key w = k)) as [<-|Hne].
  - rewrite lookup_insert_eq in Hk. injection Hk as <-. exists w.
    rewrite lookup_insert_eq. split_and!; [set_solver|done|done|done].
  - rewrite lookup_insert_ne in Hk by done. destruct (IH HF Hk) as (v & Hv & Hkv & -> & Hd).
    exists v. split_and!; [set_solver|done|done|]. rewrite lookup_insert_ne; [done|].
    intros HE. apply Hne. rewrite <- Hkv. apply named_inj; [done| |done].
    rewrite Forall_forall in HF. by apply HF.
Qed.

Lemma add_variants_entries vs e f : (forall v, v ∈ vs -> ImageProc.v_Filename v <> f) ->
  (add_variants vs e ∅).1 !! f = e !! f.
Proof.
  induction vs as [|w vs IH] using rev_ind; intros HF; [done|].
  rewrite add_variants_snoc. cbn [fst]. rewrite lookup_insert_ne by (apply HF; set_solver).
  apply IH. intros v Hv. apply HF. set_solver.
Qed.

Lemma add_variants_key vs e k : (exists v, v ∈ vs /\ ImageProc.v_Key v = k) ->
  is_Some ((add_variants vs e ∅).2 !! k).
Proof.
  induction vs as [|w vs IH] using rev_ind; intros (v & Hv & Hk); [by apply elem_of_nil in Hv|].
  rewrite add_variants_snoc. cbn [snd]. destruct (decide (ImageProc.v_Key w = k)) as [<-|Hne].
  - by rewrite lookup_insert_eq.
  - rewrite lookup_insert_ne by done. apply IH. exists v. split; [|done].
    apply elem_of_app in Hv as [Hv|Hv]; [done|]. apply list_elem_of_singleton in Hv as ->. done.
Qed.

(** A mask is the asset its key names: no configured size takes its name. *)
Lemma mask_asset vs e k v rest : Forall ImageProc.named vs ->
  v ∈ vs -> ImageProc.v_Key v = k ->
  (forall w, w ∈ vs -> ImageProc.v_Key w = k -> w = v) -> rest = add_variants vs e ∅ ->
  rest.2 !! k = Some (asset_of v) /\ rest.1 !! ImageProc.v_Filename v = Some (ImageProc.v_Data v).
Proof.
  intros HF Hv Hk HU ->. destruct (add_variants_key vs e k) as [x Hx]; [by exists v|].
  destruct (add_variants_assets vs e k x HF Hx) as (w & Hw & Hkw & -> & Hd).
  by rewrite (HU w Hw Hkw) in Hx, Hd.
Qed.

(** The manifest names exactly what the bundle holds: what it names is there, with
    its size, and nothing is there that it does not name but itself. *)
Definition consistent (entries : gmap string string) (m : Manifest) : Prop :=
  let size path n := exists content, entries !! path = Some content /\ n = Z.of_nat (String.length content) in
  a_BundlePath (m_Original m) = OriginalFilename /\ size OriginalFilename (a_Size (m_Original m)) /\
  m_Size m = a_Size (m_Original m) /\ a_Path (m_Original m) = "/file/" +:+ m_CID m /\
  (forall k a, m_Variants m !! k = Some a ->
     size (a_BundlePath a) (a_Size a) /\ a_Path a = "/file/" +:+ m_CID m +:+ "/" +:+ k /\
     a_BundlePath a <> OriginalFilename /\ a_BundlePath a <> ManifestFilename) /\
  (forall path, is_Some (entries !! path) ->
     path = ManifestFilename \/ path = OriginalFilename \/
     exists k a, m_Variants m !! k = Some a /\ a_BundlePath a = path) /\
  (exists m0 json, MarshalManifest m0 = Some json /\ entries !! ManifestFilename = Some json /\
     m = Finalize (m_CID m) m0).

(** A picture's two masks are in its bundle, under their keys. *)
Definition masked_by (p : ImageProc.Processor) (contentType : string) (entries : gmap string string)
  (m : Manifest) (stripped : string) : Prop :=
  forall w h f src, ImageProc.DecodeConfig stripped = Some (w, h, f) -> ImageProc.Decode stripped = Some src ->
  exists faces, ImageProc.Detect p (ImageProc.toNRGBA src) = Some faces /\
    forall k img, (k, img) ∈ [(Config.PrivacyBlurVariantKey, ImageProc.whole_blur p src);
                              (Config.PrivacyFaceBlurVariantKey, ImageProc.faces_blur p src faces)] ->
    exists a content, m_Variants m !! k = Some a /\ entries !! a_BundlePath a = Some content /\
      a_BundlePath a ∈ [k +:+ ".jpg"; k +:+ ".webp"] /\
      ImageProc.encode p img (ImageProc.outputFormat p (ImageProc.normalizeFormat f contentType)) = Ok content.

Definition good_sizes (p : ImageProc.Processor) : Prop :=
  Forall Config.good_variant (Config.Variants (ImageProc.cfg p)).

(** The two masks among the renditions: nothing else has their names. *)
Lemma masks_found p src format vs e : good_sizes p -> Forall ImageProc.named vs ->
  format ∈ ["jpeg"; "webp"] -> ImageProc.masks_first p src format vs ->
  exists faces, ImageProc.Detect p (ImageProc.toNRGBA src) = Some faces /\
    forall k img, (k, img) ∈ [(Config.PrivacyBlurVariantKey, ImageProc.whole_blur p src);
                              (Config.PrivacyFaceBlurVariantKey, ImageProc.faces_blur p src faces)] ->
    exists v, v ∈ vs /\ ImageProc.v_Key v = k /\ ImageProc.encode p img format = Ok (ImageProc.v_Data v) /\
      (add_variants vs e ∅).2 !! k = Some (asset_of v) /\
      (add_variants vs e ∅).1 !! ImageProc.v_Filename v = Some (ImageProc.v_Data v).
Proof.
  intros HG HF Hf (faces & whole & faced & rest & HD & Hw & Hm & HV & HR). exists faces. split; [done|].
  assert (HK : forall w, w ∈ rest ->
    ImageProc.v_Key w <> Config.PrivacyBlurVariantKey /\ ImageProc.v_Key w <> Config.PrivacyFaceBlurVariantKey).
  { intros w Hin. destruct (HR w Hin) as (c & Hc & -> & _). unfold good_sizes in HG.
    rewrite Forall_forall in HG. specialize (HG c Hc).
    split; apply Config.good_variant_key; try done; set_solver. }
  intros k img Hin.
  assert (exists v, v ∈ vs /\ ImageProc.v_Key v = k /\ ImageProc.encode p img format = Ok (ImageProc.v_Data v) /\
    forall w, w ∈ vs -> ImageProc.v_Key w = k -> w = v) as (v & Hv & Hk & He & HU).
  { rewrite HV. apply elem_of_cons in Hin as [[= -> ->]|Hin];
      [|apply list_elem_of_singleton in Hin as [= -> ->]].
    - eexists. split; [left|]. split_and!; [done|exact Hw|]. intros w Hin Hkw.
      apply elem_of_cons in Hin as [->|Hin]; [done|]. apply elem_of_cons in Hin as [->|Hin]; [done|].
      by destruct (HK w Hin).
    - eexists. split; [right; left|]. split_and!; [done|exact Hm|]. intros w Hin Hkw.
      apply elem_of_cons in Hin as [->|Hin]; [done|]. apply elem_of_cons in Hin as [->|Hin]; [done|].
      by destruct (HK w Hin). }
  destruct (mask_asset vs e k v _ HF Hv Hk HU eq_refl). by exists v.
Qed.

(** A name the rest of the file says is one rendition's: under one key there is one
    file, since a size's key tells its mode. *)
Lemma one_file_per_key p src format vs : good_sizes p -> ImageProc.masks_first p src format vs ->
  forall v w, v ∈ vs -> w ∈ vs -> ImageProc.v_Key v = ImageProc.v_Key w ->
  ImageProc.v_Filename v = ImageProc.v_Filename w.
Proof.
  intros HG (faces & whole & faced & rest & _ & _ & _ & -> & HR).
  assert (HC : forall v, v ∈ rest -> exists c, Config.good_variant c /\
    ImageProc.v_Key v = Config.Key c /\ ImageProc.v_Filename v = ImageProc.size_file format c).
  { intros v Hv. destruct (HR v Hv) as (c & Hc & ? & ?). exists c. split; [|done].
    unfold good_sizes in HG. rewrite Forall_forall in HG. by apply HG. }
  assert (HK : forall v k, v ∈ rest -> k ∈ [Config.PrivacyBlurVariantKey; Config.PrivacyFaceBlurVariantKey] ->
    ImageProc.v_Key v <> k).
  { intros v k Hv Hk. destruct (HC v Hv) as (c & Hc & -> & _). apply Config.good_variant_key; [done|].
    rewrite !elem_of_cons in Hk |- *. destruct Hk as [-> | [-> | []%elem_of_nil]]; auto. }
  intros v w Hv Hw HE. rewrite !elem_of_cons in Hv, Hw.
  destruct Hv as [-> | [-> | Hv]], Hw as [-> | [-> | Hw]]; try done;
    try (cbn in HE; symmetry in HE; exfalso; eapply HK; [exact Hw| |exact HE]; by_dec);
    try (cbn in HE; exfalso; eapply HK; [exact Hv| |exact HE]; by_dec).
  destruct (HC v Hv) as (c & Hc & Kc & ->), (HC w Hw) as (c' & Hc' & Kc' & ->).
  rewrite Kc, Kc' in HE. unfold ImageProc.size_file. rewrite HE. do 2 f_equal.
  enough (bool_decide (Config.VMode c = "fit") = bool_decide (Config.VMode c' = "fit")) as -> by done.
  apply bool_decide_ext. exact (Config.key_says_mode c c' Hc Hc' HE).
Qed.

(** What is in the bundle beside what was there before is the file of an asset. *)
Lemma add_variants_listed vs e f : Forall ImageProc.named vs ->
  (forall v w, v ∈ vs -> w ∈ vs -> ImageProc.v_Key v = ImageProc.v_Key w ->
     ImageProc.v_Filename v = ImageProc.v_Filename w) ->
  is_Some ((add_variants vs e ∅).1 !! f) ->
  is_Some (e !! f) \/ exists k a, (add_variants vs e ∅).2 !! k = Some a /\ a_BundlePath a = f.
Proof.
  intros HN HF Hf. destruct (decide (f ∈ ImageProc.v_Filename <$> vs)) as [(v & Hvf & Hv)%list_elem_of_fmap|Hno].
  - right. destruct (add_variants_key vs e (ImageProc.v_Key v)) as [a Ha]; [by exists v|].
    exists (ImageProc.v_Key v), a. split; [done|].
    apply add_variants_assets in Ha as (w & Hw & Hk & -> & _); [|done]. cbn. rewrite Hvf. by apply HF.
  - left. rewrite add_variants_entries in Hf; [done|]. intros v Hv HE. apply Hno, list_elem_of_fmap. by exists v.
Qed.

(** What the stages of a successful [prepareBundle] leave. *)
Lemma prepareBundle_Ok e cancelled filename data contentType entries m0 :
  prepareBundle e cancelled filename data contentType = Ok (entries, m0) ->
  exists i entries0 assets json,
    ImageProc.Process (imageProcessor e) cancelled (StripMetadata data) contentType = Ok i /\
    (entries0, assets) = add_variants (ImageProc.Variants i) {[ OriginalFilename := StripMetadata data ]} ∅ /\
    m_Variants m0 = assets /\ a_BundlePath (m_Original m0) = OriginalFilename /\
    a_Size (m_Original m0) = Z.of_nat (String.length (StripMetadata data)) /\
    m_Size m0 = a_Size (m_Original m0) /\
    MarshalManifest m0 = Some json /\ entries = <[ManifestFilename := json]> entries0.
Proof.
  unfold prepareBundle. set (data' := StripMetadata data). set (m1 := NewFileManifest _ _ _ _).
  destruct (ImageProc.Process _ _ _ _) as [i|] eqn:HP; [|done].
  assert (HI : ImageProc.IsImage i = false -> ImageProc.Variants i = []).
  { intros HI. apply ImageProc.Process_Ok in HP as [_ HP]. destruct (ImageProc.DecodeConfig data') as [[[? ?] ?]|].
    - destruct HP as [HP _]. congruence.
    - by rewrite HP. }
  destruct (ImageProc.IsImage i).
  - destruct (add_variants (ImageProc.Variants i) _ _) as [entries0 assets] eqn:HAdd.
    destruct (MarshalManifest _) as [json|] eqn:HM; [|done]. intros [= <- <-].
    by exists i, entries0, assets, json.
  - destruct (MarshalManifest _) as [json|] eqn:HM; [|done]. intros [= <- <-].
    exists i, {[ OriginalFilename := data' ]}, ∅, json. by rewrite (HI eq_refl).
Qed.

(** What every bundle handed to the cluster is, under whatever identifier it gets. *)
Lemma prepared_facts e cancelled filename data contentType entries m0 cid : good_sizes (imageProcessor e) ->
  prepareBundle e cancelled filename data contentType = Ok (entries, m0) ->
  let m := Finalize cid m0 in
  entries !! OriginalFilename = Some (StripMetadata data) /\ consistent entries m /\
  masked_by (imageProcessor e) contentType entries m (StripMetadata data).
Proof.
  intros HG HBu m. unfold m. clear m. apply prepareBundle_Ok in HBu as
    (i & entries0 & assets & json & HP & HAdd & HV & HO & HS & HSz & HM & ->).
  apply ImageProc.Process_Ok in HP as [HNa HP].
  assert (HR : forall v, v ∈ ImageProc.Variants i ->
    ImageProc.v_Filename v <> OriginalFilename /\ ImageProc.v_Filename v <> ManifestFilename).
  { intros v Hv. apply named_not_reserved. rewrite Forall_forall in HNa. by apply HNa. }
  assert (HE0 : entries0 !! OriginalFilename = Some (StripMetadata data)).
  { apply (f_equal fst) in HAdd. cbn [fst] in HAdd. rewrite HAdd, add_variants_entries;
      [by rewrite lookup_singleton_eq|]. intros v Hv. by apply HR. }
  assert (HE : (<[ManifestFilename := json]> entries0 : gmap string string) !! OriginalFilename = Some (StripMetadata data))
    by by rewrite lookup_insert_ne.
  split; [done|]. split.
  - split_and!; try done.
    + exists (StripMetadata data). by rewrite <- HS.
    + intros k a. rewrite Finalize_variant, HV.
      destruct (assets !! k) as [x|] eqn:Hx; [|done]. intros [= <-]. cbn.
      apply (f_equal snd) in HAdd as HAs. apply (f_equal fst) in HAdd. cbn [fst snd] in HAs, HAdd.
      rewrite HAs in Hx. apply add_variants_assets in Hx as (v & Hv & Hk & -> & Hd); [|done].
      destruct (HR v Hv) as [? ?]. split_and!; [|done..]. exists (ImageProc.v_Data v).
      rewrite lookup_insert_ne by done. by rewrite HAdd.
    + intros path Hpath. destruct (decide (path = ManifestFilename)) as [|Hm]; [by left|right].
      rewrite lookup_insert_ne in Hpath by done. apply (f_equal snd) in HAdd as HAs. apply (f_equal fst) in HAdd.
      cbn [fst snd] in HAs, HAdd. rewrite HAdd in Hpath. apply add_variants_listed in Hpath; [|done|].
      * destruct Hpath as [Hpath|(k & a & Ha & Hp)].
        -- apply lookup_singleton_is_Some in Hpath as ->. by left.
        -- right. eexists k, _. rewrite Finalize_variant, HV, HAs, Ha. split; [done|]. exact Hp.
      * destruct (ImageProc.DecodeConfig _) as [[[w h] f]|]; [|by rewrite HP; intros ? ? ?%not_elem_of_nil].
        destruct HP as (_ & _ & _ & _ & _ & _ & _ & HP). destruct (ImageProc.Decode _) as [src|].
        -- by eapply one_file_per_key.
        -- by rewrite HP; intros ? ? ?%not_elem_of_nil.
    + exists m0, json. split_and!; [done|by rewrite lookup_insert_eq|done].
  - intros w h f src HDc HDe. rewrite HDc in HP. destruct HP as (_ & _ & _ & _ & _ & _ & _ & HP).
    rewrite HDe in HP.
    destruct (masks_found _ _ _ _ {[ OriginalFilename := StripMetadata data ]} HG HNa
      (ImageProc.outputFormat_known _ _) HP) as (faces & HD & HK).
    exists faces. split; [done|]. intros k img Hin. destruct (HK k img Hin) as (v & Hv & Hk & He & Ha & Hd).
    rewrite <- HAdd in Ha, Hd. cbn [fst snd] in Ha, Hd.
    eexists _, (ImageProc.v_Data v). rewrite Finalize_variant, HV, Ha. split_and!; [done| | |done].
    + cbn. rewrite lookup_insert_ne; [done|]. symmetry. by apply HR.
    + cbn. rewrite Forall_forall in HNa. destruct (HNa v Hv) as (ext & -> & Hext). rewrite Hk.
      set_solver.
Qed.

(** ** Reading and finishing *)

Lemma length_prefix n s : String.length (String.substring 0 n s) = Nat.min n (String.length s).
Proof. revert n. induction s as [|c s IH]; intros [|n]; simpl; try done. by rewrite IH. Qed.

Lemma ReadAll_whole limit_ r d : ReadAll limit_ r = Some d ->
  Z.of_nat (String.length d) < limit_ -> d = data r /\ rerr r = false.
Proof.
  unfold ReadAll. set (n := Z.of_nat (String.length (data r))).
  destruct (rerr r && (n <? limit_)) eqn:HR; [done|]. intros [= <-].
  destruct (Z.ltb_spec limit_ n) as [Hl|Hl].
  - rewrite length_prefix. unfold n in *. lia.
  - intros Hn. split; [done|]. destruct (rerr r); [|done]. cbn in HR. unfold n in HR. lia.
Qed.

Lemma request_limit_max routeLimit maxRequest : 0 < maxRequest ->
  0 < request_limit routeLimit maxRequest <= maxRequest.
Proof. intros. unfold request_limit. destruct (_ && _) eqn:E; [lia|]. lia. Qed.

Lemma parse_bounded maxRequest r f routeLimit parts :
  parseUploadForm maxRequest r f routeLimit = Ok parts ->
  f_fields f = Some parts /\ (0 < maxRequest -> f_total f <= maxRequest) /\
  (0 < routeLimit -> f_total f <= routeLimit).
Proof.
  unfold parseUploadForm. set (l := request_limit routeLimit maxRequest).
  assert (Hl : (0 < maxRequest -> 0 < l <= maxRequest) /\ (0 < routeLimit -> 0 < l <= routeLimit)).
  { unfold l, request_limit. destruct (_ && _) eqn:E; lia. }
  destruct (_ && _); [done|]. destruct (_ && _); [done|].
  destruct (f_fields f) as [ps|]; [|done]. destruct (Z.ltb_spec 0 l) as [H0|H0].
  - destruct (Z.ltb_spec l (f_total f)) as [H1|H1]; [done|]. destruct (f_drained f); [|done].
    intros [= <-]. split; [done|]. lia.
  - intros [= <-]. split; [done|]. lia.
Qed.

(** An accepted file: its own bytes, or the JPEG its HEIF bytes were turned into. *)
Definition source_of (e : Env) (raw source contentType : string) : Prop :=
  (ImageProc.IsHEIF raw = false /\ source = raw /\ contentType = DetectContentType raw) \/
  (ImageProc.IsHEIF raw = true /\ ImageProc.TranscodeHEIF (imageProcessor e) raw = Ok source /\
   contentType = "image/jpeg").

(** What a bundle is handed to the cluster as: under any identifier it may get, its
    manifest describes exactly its files, its original carries no metadata, and a
    picture has both masks of that original. *)
Definition sound_bundle (e : Env) (source contentType : string) (entries : gmap string string)
  (m : Manifest) : Prop :=
  entries !! OriginalFilename = Some (StripMetadata source) /\ consistent entries m /\
  masked_by (imageProcessor e) contentType entries m (StripMetadata source).

Definition sound_entries (e : Env) (entries : gmap string string) : Prop :=
  exists source contentType m0, forall cid, sound_bundle e source contentType entries (Finalize cid m0).

Lemma build_sound e cancelled filename data contentType : good_sizes (imageProcessor e) ->
  match buildFileBundle e cancelled filename data contentType with
  | Ok b => sound_bundle e data contentType b.1 b.2 /\ sound_entries e b.1 /\ ClusterAddDir b.1 = Some (m_CID b.2)
  | Err (_, tried) => (length tried <= 1)%nat /\
      Forall (fun en => ClusterAddDir en = None /\ sound_entries e en) tried
  end.
Proof.
  intros HG. unfold buildFileBundle. destruct (prepareBundle _ _ _ _ _) as [[entries m0]|] eqn:HP; [|by split; [cbn; lia|]].
  assert (HS : forall cid, sound_bundle e data contentType entries (Finalize cid m0))
    by (intros cid; exact (prepared_facts _ _ _ _ _ _ _ cid HG HP)).
  assert (HS' : sound_entries e entries) by (by exists data, contentType, m0).
  destruct (ClusterAddDir entries) as [cid|] eqn:HA; [exact (conj (HS cid) (conj HS' HA))|].
  split; [cbn; lia|]. constructor; [by split|constructor].
Qed.

Lemma ingest_sound e cancelled filename raw : good_sizes (imageProcessor e) ->
  match ingest e cancelled filename raw with
  | Ok b => ClusterAddDir b.1 = Some (m_CID b.2) /\ sound_entries e b.1 /\
      exists source contentType, source_of e raw source contentType /\ sound_bundle e source contentType b.1 b.2
  | Err (code, tried) => (code = "unsupported_file_type" \/ code = "upload_failed") /\ (length tried <= 1)%nat /\
      Forall (fun en => ClusterAddDir en = None /\ sound_entries e en) tried
  end.
Proof.
  intros HG. unfold ingest. destruct (ImageProc.IsHEIF raw) eqn:HI.
  - destruct (ImageProc.TranscodeHEIF _ _) as [c|] eqn:HT; [|split_and!; [by left|cbn; lia|done]].
    pose proof (build_sound e cancelled (ImageProc.JPEGFilename filename) c "image/jpeg" HG) as HB.
    destruct (buildFileBundle _ _ _ _ _) as [b|[? tried]]; [|split; [by right|done]].
    destruct HB as (? & ? & ?). split_and!; [done..|]. exists c, "image/jpeg". split; [by right|done].
  - pose proof (build_sound e cancelled filename raw (DetectContentType raw) HG) as HB.
    destruct (buildFileBundle _ _ _ _ _) as [b|[? tried]]; [|split; [by right|done]].
    destruct HB as (? & ? & ?). split_and!; [done..|]. exists raw, (DetectContentType raw). split; [by left|done].
Qed.

Lemma ingest_Ok e cancelled filename raw b : good_sizes (imageProcessor e) ->
  ingest e cancelled filename raw = Ok b ->
  exists source contentType, source_of e raw source contentType /\ sound_bundle e source contentType b.1 b.2.
Proof. intros HG HI. pose proof (ingest_sound e cancelled filename raw HG) as HS. rewrite HI in HS. apply HS. Qed.

Lemma ingest_added e cancelled filename raw b : ingest e cancelled filename raw = Ok b ->
  ClusterAddDir b.1 = Some (m_CID b.2).
Proof.
  assert (HBu : forall name source ct, match buildFileBundle e cancelled name source ct with
      | Ok b => Ok b | Err (_, tried) => Err ("upload_failed", tried) end = Ok b ->
    ClusterAddDir b.1 = Some (m_CID b.2)).
  { intros name source ct. unfold buildFileBundle. destruct (prepareBundle _ _ _ _ _) as [[entries m0]|]; [|done].
    destruct (ClusterAddDir entries) eqn:HA; [|done]. by intros [= <-]. }
  unfold ingest. destruct (ImageProc.IsHEIF raw); [|by apply HBu].
  destruct (ImageProc.TranscodeHEIF _ _); [by apply HBu|done].
Qed.

(** The bundles and the failures of some goroutines, in the order given. *)
Definition oks (outcomes : list (string * result failure (gmap string string * Manifest))) :=
  omap (fun o => match o.2 with Ok b => Some b | Err _ => None end) outcomes.
Definition errs (outcomes : list (string * result failure (gmap string string * Manifest))) :=
  omap (fun o => match o.2 with Ok _ => None | Err (code, _) => Some (code, o.1) end) outcomes.
(** The bundles they handed to the cluster. *)
Definition tries (outcomes : list (string * result failure (gmap string string * Manifest))) :=
  concat ((fun o => match o.2 with Ok b => [b.1] | Err (_, tried) => tried end) <$> outcomes).

Lemma finish_all outcomes order w fs :
  fold_left (finish_one outcomes) order (w, fs) =
  let done_ := omap (fun i => outcomes !! i) order in
  (mkWorld (uploads w) (bundles w ++ oks done_) (replicated w ++ ((fun b => m_CID b.2) <$> oks done_))
     (handed w ++ tries done_), fs ++ errs done_).
Proof.
  revert w fs. induction order as [|i order IH]; intros w fs.
  { cbn. rewrite !app_nil_r. by destruct w. }
  cbn [fold_left]. unfold finish_one at 2. cbn [fst snd omap list_omap].
  destruct (outcomes !! i) as [[name [b|[code tried]]]|].
  - rewrite IH. cbn. unfold tries. cbn. by rewrite <- !app_assoc.
  - rewrite IH. cbn. unfold tries. cbn. by rewrite <- !app_assoc.
  - apply IH.
Qed.

Lemma omap_after_map {X Y V} (f : Y -> option V) (g : X -> Y) l : omap f (map g l) = omap (fun x => f (g x)) l.
Proof. induction l as [|x l IH]; [done|]. cbn. destruct (f (g x)); by rewrite IH. Qed.

Lemma omap_seq {X} (l : list X) : omap (fun i => l !! i) (seq 0 (length l)) = l.
Proof.
  induction l as [|x l IH]; [done|]. cbn [length seq omap list_omap lookup list_lookup]. f_equal.
  rewrite <- seq_shift, omap_after_map. exact IH.
Qed.

Lemma done_perm {X} (l : list X) order : order ≡ₚ seq 0 (length l) ->
  omap (fun i => l !! i) order ≡ₚ l.
Proof. intros HP. rewrite HP. by rewrite omap_seq. Qed.

(** ** Sequences of uploads *)

Inductive upload_event :=
| One (r : Request) (f : Form) (today : string) (cancelled : bool)
| Many (r : Request) (f : Form) (today : string) (cancelled : bool) (order : list nat).

Definition handle (e : Env) (w : World) (ev : upload_event) : World :=
  match ev with
  | One r f today cancelled => (HandleUpload e r f today cancelled w).1
  | Many r f today cancelled order => (HandleUploadMultiple e r f today cancelled order w).1
  end.

(** A bundle as readers rely on it: its manifest describes exactly its files, its
    original carries no metadata, and a picture has both masks of that original. *)
Definition well_formed (e : Env) (b : gmap string string * Manifest) : Prop :=
  exists source contentType, sound_bundle e source contentType b.1 b.2.

(** The bundles the cluster took, and everything it was ever handed, also in vain. *)
Definition well_kept (e : Env) (w : World) : Prop :=
  Forall (well_formed e) (bundles w) /\ replicated w = (fun b => m_CID b.2) <$> bundles w /\
  (bundles w).*1 `sublist_of` handed w /\ Forall (sound_entries e) (handed w).

Lemma well_kept_store e bs hs u w : Forall (well_formed e) bs -> bs.*1 `sublist_of` hs ->
  Forall (sound_entries e) hs -> well_kept e w ->
  well_kept e (mkWorld u (bundles w ++ bs) (replicated w ++ ((fun b => m_CID b.2) <$> bs)) (handed w ++ hs)).
Proof.
  intros HF HS HH (HB & HR & HSw & HHw). split_and!; cbn [bundles replicated handed].
  - by apply Forall_app.
  - by rewrite HR, fmap_app.
  - rewrite fmap_app. by apply sublist_app.
  - by apply Forall_app.
Qed.

Lemma well_kept_hand e hs u w : Forall (sound_entries e) hs -> well_kept e w ->
  well_kept e (mkWorld u (bundles w) (replicated w) (handed w ++ hs)).
Proof.
  intros HH HW. pose proof (well_kept_store e [] hs u w) as HK. cbn in HK. rewrite !app_nil_r in HK.
  apply HK; [constructor|apply sublist_nil_l|done..].
Qed.

Lemma well_kept_budget e u w : well_kept e w -> well_kept e (set_uploads u w).
Proof. done. Qed.

Lemma outcomes_sound e outcomes : good_sizes (imageProcessor e) ->
  Forall (fun o => exists cancelled p, o.2 = upload_one e cancelled p) outcomes ->
  Forall (well_formed e) (oks outcomes) /\ (oks outcomes).*1 `sublist_of` tries outcomes /\
  Forall (sound_entries e) (tries outcomes).
Proof.
  intros HG HF. induction HF as [|[name o] outcomes (cancelled & p & Ho) HF (H1 & H2 & H3)]; [by split_and!|].
  cbn in Ho. assert (HO : match o with
    | Ok b => well_formed e b /\ sound_entries e b.1
    | Err (_, tried) => Forall (sound_entries e) tried end).
  { subst o. unfold upload_one. destruct (negb _); [done|]. destruct (read_upload e p) as [raw|]; [|done].
    destruct (_ <? _); [done|]. pose proof (ingest_sound e cancelled (p_Filename p) raw HG) as HS.
    destruct (ingest _ _ _ _) as [b|[code tried]].
    - destruct HS as (_ & ? & source & ct & _ & ?). split; [by exists source, ct|done].
    - destruct HS as (_ & _ & HS). eapply Forall_impl; [exact HS|]. by intros ? [_ ?]. }
  unfold tries, oks in *. cbn. destruct o as [b|[code tried]]; cbn.
  - destruct HO as [Hb Hs]. split_and!; [by constructor|by apply sublist_skip|by constructor].
  - split_and!; [done| |by apply Forall_app]. by apply sublist_inserts_l.
Qed.

Lemma HandleUpload_kept e r f today cancelled w : good_sizes (imageProcessor e) ->
  well_kept e w -> well_kept e (HandleUpload e r f today cancelled w).1.
Proof.
  intros HG HW. unfold HandleUpload. destruct (parseUploadForm _ _ _ _) as [parts|]; [|done].
  destruct (files_of "file" parts) as [|p ?]; [done|]. destruct (p_opens p); [|done]. cbn [negb].
  destruct (validateFile _ _ _); [|done]. cbn [negb]. destruct (read_upload e p) as [raw|]; [|done].
  destruct (_ <? _); [done|]. destruct (take _ _ _ _) as [b [|]]; [|by apply well_kept_budget].
  pose proof (ingest_sound e cancelled (p_Filename p) raw HG) as HS.
  destruct (ingest e cancelled (p_Filename p) raw) as [bundle|[code tried]]; cbn [fst].
  - destruct HS as (_ & HE & source & ct & _ & HB).
    apply (well_kept_store e [bundle] [bundle.1]); [|done| |done]; repeat constructor; [by exists source, ct|done].
  - destruct HS as (_ & _ & HS). apply well_kept_hand; [|done]. eapply Forall_impl; [exact HS|]. by intros ? [_ ?].
Qed.

Lemma HandleUploadMultiple_kept e r f today cancelled order w : good_sizes (imageProcessor e) ->
  well_kept e w -> well_kept e (HandleUploadMultiple e r f today cancelled order w).1.
Proof.
  intros HG HW. unfold HandleUploadMultiple. destruct (parseUploadForm _ _ _ _) as [parts|]; [|done].
  set (files := files_of "files" parts). destruct (_ =? 0)%nat; [done|]. destruct (maxFilesPerUpload <? _); [done|].
  destruct (take _ _ _ _) as [b [|]]; [|by apply well_kept_budget].
  destruct (0 <? length _)%nat; [by apply well_kept_budget|].
  rewrite finish_all. cbn zeta. set (outcomes := _ <$> files). set (done_ := omap (fun i => outcomes !! i) order).
  destruct (outcomes_sound e done_ HG) as (H1 & H2 & H3).
  { rewrite Forall_forall. intros o (i & _ & Hi)%list_elem_of_omap. unfold outcomes in Hi.
    apply list_lookup_fmap_Some in Hi as (p & -> & _). by exists cancelled, p. }
  assert (HK : well_kept e (mkWorld b (bundles w ++ oks done_)
    (replicated w ++ ((fun b => m_CID b.2) <$> oks done_)) (handed w ++ tries done_))) by (by apply well_kept_store).
  repeat case_match; simplify_eq/=; exact HK.
Qed.

(** ** Properties *)

(** C14. What is kept of an upload: an accepted file is the whole of the form's
    first file, of an allowed type, inside the size limits and the session's
    budget; its bundle holds it - or the JPEG a HEIF picture was turned into -
    without its metadata, a manifest that names exactly what the bundle holds, and
    for a picture both masks, drawn from the stored bytes; that one bundle is all
    that is handed to the cluster, which took it, and all that is recorded, replicated
    and answered.  A refused upload records, replicates and answers nothing; the
    cluster was handed nothing or, if that is what failed, one bundle, which it may
    have kept on the nodes that did take it, and which is as clean as any other. *)
Theorem upload_stores e r f today cancelled w :
  good_sizes (imageProcessor e) -> in_int64 (Config.MaxFileSize (cfg e) + 1) ->
  let w' := (HandleUpload e r f today cancelled w).1 in
  match (HandleUpload e r f today cancelled w).2 with
  | UploadError status _ _ _ =>
      bundles w' = bundles w /\ replicated w' = replicated w /\ 400 <= status <= 500 /\
      exists tried, handed w' = handed w ++ tried /\ (length tried <= 1)%nat /\
        Forall (fun entries => ClusterAddDir entries = None /\ sound_entries e entries) tried
  | Uploaded files =>
      exists p raw source contentType entries m parts,
        f_fields f = Some parts /\ head (files_of "file" parts) = Some p /\ data (p_file p) = raw /\
        validateFile (p_Filename p) (p_ContentType p) (cfg e) = true /\
        Z.of_nat (String.length raw) <= Config.MaxFileSize (cfg e) /\
        (0 < Config.MaxRequestSize (cfg e) -> f_total f <= Config.MaxRequestSize (cfg e)) /\
        take (uploadSessionKey r) (Z.of_nat (String.length raw)) today (uploads w) = (uploads w', true) /\
        source_of e raw source contentType /\
        entries !! OriginalFilename = Some (StripMetadata source) /\ consistent entries m /\
        masked_by (imageProcessor e) contentType entries m (StripMetadata source) /\
        handed w' = handed w ++ [entries] /\ ClusterAddDir entries = Some (m_CID m) /\
        bundles w' = bundles w ++ [(entries, m)] /\ replicated w' = replicated w ++ [m_CID m] /\
        files = [responseFromManifest m true]
  end.
Proof.
  intros HG HI w'. unfold w', HandleUpload.
  assert (HN : exists tried, handed w = handed w ++ tried /\ (length tried <= 1)%nat /\
    Forall (fun entries => ClusterAddDir entries = None /\ sound_entries e entries) tried).
  { exists []. split_and!; [by rewrite app_nil_r|cbn; lia|constructor]. }
  destruct (parseUploadForm _ _ _ _) as [parts|a] eqn:HPa.
  2:{ cbn [fst snd]. unfold parseUploadForm in HPa. by repeat (case_match; simplify_eq/=). }
  apply parse_bounded in HPa as (HFi & HMx & _).
  destruct (files_of "file" parts) as [|p rest] eqn:HFs; [done|].
  destruct (p_opens p); [|done]. cbn [negb].
  destruct (validateFile _ _ _) eqn:HVa; [|done]. cbn [negb].
  destruct (read_upload e p) as [raw|] eqn:HRd; [|done].
  destruct (Z.ltb_spec (Config.MaxFileSize (cfg e)) (Z.of_nat (String.length raw))) as [|Hsz]; [done|].
  unfold read_upload in HRd. rewrite int64_id in HRd by done.
  apply ReadAll_whole in HRd as [Hraw _]; [|lia].
  destruct (take _ _ _ _) as [b [|]] eqn:HT; [|done].
  pose proof (ingest_sound e cancelled (p_Filename p) raw HG) as HS.
  destruct (ingest e cancelled (p_Filename p) raw) as [[entries m]|[code tried]].
  - destruct HS as (HA & _ & source & ct & Hs & HO & HCn & HMk).
    exists p, raw, source, ct, entries, m, parts. cbn [fst snd] in *. rewrite HFs. by split_and!.
  - destruct HS as (_ & HL & HF'). cbn [fst snd]. case_bool_decide; (split_and!; [done..|by exists tried]).
Qed.

(** Files sent together: each is treated as if sent alone, whatever order the
    goroutines finish in.  All succeed and are answered in the form's order, or the
    batch is refused with the failed files named; the code depends only on whether
    one was too large, and the files that did succeed are stored either way. *)
Theorem uploads_independent e r f today cancelled order w parts :
  f_fields f = Some parts ->
  let files := files_of "files" parts in
  order ≡ₚ seq 0 (length files) ->
  let w' := (HandleUploadMultiple e r f today cancelled order w).1 in
  let outcomes := (fun p => (p_Filename p, upload_one e cancelled p)) <$> files in
  let failures := errs outcomes in
  match (HandleUploadMultiple e r f today cancelled order w).2 with
  | Uploaded rs =>
      failures = [] /\ (0 < length files <= 20)%nat /\ length rs = length files /\
      rs = (fun b => responseFromManifest b.2 true) <$> oks outcomes /\
      bundles w' ≡ₚ bundles w ++ oks outcomes
  | UploadError status code _ details =>
      (bundles w' = bundles w /\ replicated w' = replicated w) \/
      failures <> [] /\ bundles w' ≡ₚ bundles w ++ oks outcomes /\
      (exists names, details !! "failed_files" = Some (Strings names) /\ names ≡ₚ failures.*2) /\
      (code, status) = (if existsb (fun x => bool_decide (x.1 = "file_too_large")) failures
                        then ("file_too_large", 413) else ("upload_failed", 500))
  end.
Proof.
  intros HFi files HO w' outcomes failures. unfold w', HandleUploadMultiple.
  destruct (parseUploadForm _ _ _ _) as [ps|a] eqn:HPa.
  2:{ unfold parseUploadForm in HPa. repeat (case_match; simplify_eq/=); by left. }
  apply parse_bounded in HPa as (HFi' & _ & _). assert (ps = parts) as -> by congruence. fold files.
  destruct (Nat.eqb_spec (length files) 0) as [|Hn]; [by left|].
  unfold maxFilesPerUpload. destruct (Z.ltb_spec 20 (Z.of_nat (length files))) as [|H20]; [by left|].
  destruct (take _ _ _ _) as [b [|]]; [|by left]. destruct (0 <? length (_ <$> _))%nat; [by left|].
  fold outcomes. rewrite finish_all. cbn zeta.
  set (done_ := omap (fun i => outcomes !! i) order).
  assert (HD : done_ ≡ₚ outcomes).
  { apply done_perm. unfold outcomes. by rewrite length_fmap. }
  assert (HE : errs done_ ≡ₚ failures) by (unfold errs; by rewrite HD).
  assert (HK : oks done_ ≡ₚ oks outcomes) by (unfold oks; by rewrite HD).
  cbn [app fst snd uploads bundles replicated].
  assert (HL : (length (oks outcomes) + length failures)%nat = length files).
  { unfold failures, outcomes, oks, errs. clearbody files. clear. induction files as [|p l IH]; [done|].
    cbn. destruct (upload_one e cancelled p) as [|[? ?]]; cbn; lia. }
  destruct (Nat.ltb_spec 0 (length (errs done_))) as [Hf|Hf].
  - assert (Hne : failures <> []) by (intros E; rewrite E in HE; by apply Permutation_nil_r in HE; rewrite HE in Hf; simpl in Hf; lia).
    assert (Hb : forall P : string * string -> bool, existsb P (errs done_) = existsb P failures).
    { intros P. apply eq_true_iff_eq. rewrite !existsb_exists.
      split; intros (x & Hx & HPx); exists x; (split; [|done]); apply list_elem_of_In;
        apply list_elem_of_In in Hx; [by rewrite <- HE|by rewrite HE]. }
    rewrite Hb. destruct (existsb _ failures); right; cbn [fst snd bundles].
    all: split_and!; [done|by rewrite HK| |done]; exists (errs done_).*2; split; [|by rewrite HE].
    + by rewrite lookup_insert_ne, lookup_singleton_eq.
    + by rewrite lookup_singleton_eq.
  - assert (HN : failures = []).
    { apply length_zero_iff_nil. rewrite <- HE. lia. }
    rewrite HN in HL. cbn in HL.
    assert (HR : results_of outcomes = (fun b => responseFromManifest b.2 true) <$> oks outcomes).
    { unfold results_of, oks. clear. induction outcomes as [|[name [b|]] l IH]; [done| |done].
      cbn. by rewrite IH. }
    cbn [fst snd bundles]. split_and!; [done|lia|lia| |done|by rewrite HK].
    rewrite HR, length_fmap. lia.
Qed.

(** C15. The store of bundles is well-formed for good: however uploads come - alone or
    together, accepted, refused or failing half-way, their goroutines finishing in
    any order - every bundle ever recorded, and every one handed to the cluster in
    vain, has a manifest that describes exactly its files (what it names is there, and
    no file is there that it does not name), an original without metadata and, for a
    picture, both masks drawn from it; and the list of files handed on for
    replication is the bundles', in order. *)
Theorem store_well_formed e evs w : good_sizes (imageProcessor e) -> well_kept e w ->
  well_kept e (fold_left (handle e) evs w).
Proof.
  intros HG. revert w. induction evs as [|[r f today cancelled|r f today cancelled order] evs IH]; intros w HW;
    [done|apply IH; by apply HandleUpload_kept|apply IH; by apply HandleUploadMultiple_kept].
Qed.

(** C27. The budget is exact: for any sequence of uploads on any days it grants
    what its contract grants - everything within what the session was granted
    since the day changed, nothing beyond - and no session is ever granted more
    than the limit in a day. *)
Theorem upload_budget_exact limit_ ts : 0 < limit_ < 2 ^ 62 -> Forall (fun t => sane t.1.2) ts ->
  let b := newUploadBudget limit_ in
  (takes ts b).2 = (contract limit_ [] ts).2 /\
  forall key d, 0 <= granted key d (contract limit_ [] ts).1 <= limit_.
Proof.
  intros Hl HF b. unfold b, newUploadBudget. rewrite (proj2 (Z.leb_gt _ _)) by lia.
  assert (HT : tracks limit_ (mkBudget limit_ "" ∅) []).
  { split_and!; [done| |].
    - intros key d. unfold spent. cbn [used]. rewrite lookup_empty. by case_bool_decide.
    - intros key. unfold spent. cbn [used]. rewrite lookup_empty. cbn [default from_option]. lia. }
  destruct (takes_contract limit_ ts _ _ HT) as (b' & -> & (_ & HGr & HB)); [unfold sane; lia|done|].
  split; [done|]. intros key d. rewrite HGr. case_bool_decide; [apply HB|lia].
Qed.

(** A session that presents its token as the [access_token] query parameter,
    which authentication accepts like the others, uploads without limit: the budget
    looks for the token in the header, the cookie and the [token] parameter only. *)
Theorem access_token_unmetered r token apiKeys lua r' n today b :
  Header r "Authorization" = "" -> r_Cookies r !! Middleware.mediaTokenCookie = None ->
  Header r "X-Api-Key" = "" -> Url.Get (r_Query r) "token" = "" ->
  Url.Get (r_Query r) "access_token" = token -> token <> "" ->
  Middleware.AuthMiddleware apiKeys lua r = Ok r' ->
  Middleware.extractToken r' = token /\ take (uploadSessionKey r') n today b = (b, true).
Proof.
  intros HA1 HA2 HA3 HA4 HA5 HA6 HAu.
  assert (Hq : Middleware.with_cookie r = r)
    by (unfold Middleware.with_cookie; by rewrite HA1, HA2, bool_decide_eq_true_2).
  assert (Hsame : r_Headers r' = r_Headers r /\ r_Query r' = r_Query r /\ r_Cookies r' = r_Cookies r).
  { unfold Middleware.AuthMiddleware in HAu. rewrite Hq in HAu. by repeat (case_match; simplify_eq/=). }
  destruct Hsame as (H1 & H2 & H3).
  assert (HH : forall k, Header r' k = Header r k) by (intros k; unfold Header; by rewrite H1).
  split.
  - unfold Middleware.extractToken. rewrite !HH, HA1, HA3, H2, HA4. done.
  - unfold Middleware.mediaTokenCookie in HA2. unfold uploadSessionKey. rewrite HH, HA1, H3, HA2, H2, HA4.
    unfold take. destruct b; [|done]. done.
Qed.

End upload.

(** * Examples *)

Module Toy.
#[local] Existing Instance Grant.Toy.crypto.
#[local] Existing Instance Blur.Toy.fixed.
#[local] Existing Instance ImageProc.Toy.numbers.
#[local] Existing Instance ImageProc.Toy.codecs.
#[local] Instance fmt : Fmt := fun n => Itoa (Z.quot n 1024).
#[local] Instance library : Ingest := {|
  DetectContentType _ := "image/jpeg"; TypeByExtension _ := "image/jpeg";
  MarshalManifest m := Some ("manifest of " +:+ m_Name m);
  ClusterAddDir entries := (fun s => "root-" +:+ s) <$> entries !! OriginalFilename
|}.

Definition env : Env :=
  mkEnv (Config.mkUploadConfig 1000 5000 20 ["jpg"] ["image/jpeg"]) ImageProc.Toy.processor.
Definition part (name content : string) : Part :=
  mkPart name "image/jpeg" (Z.of_nat (String.length content)) true (mkReader content false).
Definition form (field : string) (ps : list Part) : Form :=
  mkForm (-1) 100 100 (Some (pair field <$> ps)) true.
Definition viewer : Request :=
  mkRequest "POST" "/upload" [] {[ "Authorization" := "Bearer s3ss10n" ]} ∅ "".
Definition world : World := mkWorld (newUploadBudget 20) [] [] [].

Lemma sizes_good : good_sizes (imageProcessor env).
Proof. repeat constructor. Qed.

Lemma upload_stores_witness :
  let result := HandleUpload env viewer (form "file" [part "me.jpg" "PIC 1"]) "2024-01-01" false world in
  replicated result.1 = ["root-PIC 1"] /\
  exists entries m, bundles result.1 = [(entries, m)] /\ consistent entries m /\
    entries !! "blur.jpg" = Some "jpeg 50".
Proof.
  intros result. split; [by_vm|].
  pose proof (upload_stores env viewer (form "file" [part "me.jpg" "PIC 1"]) "2024-01-01" false world
    sizes_good) as HU. fold result in HU.
  assert (HI : in_int64 (Config.MaxFileSize (cfg env) + 1)) by by_dec. specialize (HU HI). cbv zeta in HU.
  assert (HA : match result.2 with UploadError _ _ _ _ => False | Uploaded _ => True end) by (vm_compute; exact I).
  destruct result.2 as [|files]; [done|].
  destruct HU as (p & raw & source & ct & entries & m & parts & _ & _ & _ & _ & _ & _ & _ & _ & _ & HCn & _ & _ & _ & HB & _).
  exists entries, m. split; [exact HB|]. split; [exact HCn|].
  assert (HE : (fun b => b.1 !! "blur.jpg") <$> bundles result.1 = [Some "jpeg 50"]) by by_vm.
  rewrite HB in HE. by injection HE.
Defined.

Lemma store_well_formed_witness :
  let evs := [One viewer (form "file" [part "me.jpg" "PIC 1"]) "2024-01-01" false;
              Many viewer (form "files" [part "a.jpg" "PIC a"; part "b.jpg" "PIC b"]) "2024-01-01" false [1; 0]%nat] in
  replicated (fold_left (handle env) evs world) = ["root-PIC 1"; "root-PIC b"; "root-PIC a"] /\
  well_kept env (fold_left (handle env) evs world).
Proof.
  intros evs. split; [by_vm|]. apply (store_well_formed env evs world sizes_good). split_and!; [constructor|done|constructor|constructor].
Defined.

Lemma uploads_independent_witness :
  let files := [part "a.jpg" "PIC a"; part "b.jpg" "PIC b"] in
  let result order := HandleUploadMultiple env viewer (form "files" files) "2024-01-01" false order world in
  replicated (result [1; 0]%nat).1 = ["root-PIC b"; "root-PIC a"] /\
  (result [1; 0]%nat).2 = (result [0; 1]%nat).2 /\
  match (result [1; 0]%nat).2 with
  | Uploaded rs => length rs = 2%nat
  | UploadError _ _ _ _ => False
  end.
Proof.
  intros files result. split; [by_vm|]. split; [by_vm|].
  pose proof (uploads_independent env viewer (form "files" files) "2024-01-01" false [1; 0]%nat world
    (pair "files" <$> files) eq_refl (Permutation_swap _ _ _)) as HU. cbv zeta in HU.
  fold (result [1; 0]%nat) in HU.
  assert (HA : match (result [1; 0]%nat).2 with UploadError _ _ _ _ => False | Uploaded _ => True end)
    by (vm_compute; exact I).
  destruct (result [1; 0]%nat).2 as [|rs]; [done|]. destruct HU as (_ & _ & HL & _). exact HL.
Defined.

Lemma upload_budget_exact_witness :
  (takes [("s", 15, "mon"); ("s", 6, "mon"); ("t", 20, "mon"); ("s", 5, "mon"); ("s", 20, "tue")]
     (newUploadBudget 20)).2 = [true; false; true; true; true] /\
  (takes [("s", 15, "mon"); ("s", 6, "mon")] (newUploadBudget 20)).2 =
    (contract 20 [] [("s", 15, "mon"); ("s", 6, "mon")]).2.
Proof.
  split; [by_vm|]. refine (proj1 (upload_budget_exact 20 _ _ _)); [lia|].
  repeat (constructor; [unfold sane; cbn [fst snd]; lia|]). constructor.
Defined.

Lemma access_token_unmetered_witness :
  let r := mkRequest "POST" "/upload" [("access_token", ["s3ss10n"])] ∅ ∅ "" in
  Middleware.extractToken (Middleware.with_user "lua-auth" r) = "s3ss10n" /\
  take (uploadSessionKey (Middleware.with_user "lua-auth" r)) (2 ^ 40) "mon" (newUploadBudget 20) =
    (newUploadBudget 20, true).
Proof.
  intros r. apply (access_token_unmetered r "s3ss10n" [] (Some (fun _ => Ok true))); by_vm || done.
Defined.

End Toy.
End Upload.
