(* ===== verification/Lifecycle.v ===== *)
(** A file from upload to collection, across components: uploads ([Upload]), deletion
    and delivery ([Delivery]) and the collector ([Worker]).  Bundles are named by what
    they hold and the soft-delete list is a list of names, and both facts have
    consequences here. *)

From S2P Require Export Upload Delivery Worker.

Local Open Scope Z_scope.

Module Lifecycle.
Import Http Cid.

(** * Lemmas *)

Section upload.
Context `{HFl : Blur.Float64, HNu : Config.Numbers, HCo : !ImageProc.Codecs}.
Context `{HFm : Upload.Fmt, HIn : Upload.Ingest, HCr : Grant.Crypto}.

(** The file a form sends to [/upload]. *)
Definition sent (f : Upload.Form) : option Upload.Part :=
  parts ← Upload.f_fields f; head (Upload.files_of "file" parts).

Lemma form_fields maxRequest r f limit parts :
  Upload.parseUploadForm maxRequest r f limit = Ok parts -> Upload.f_fields f = Some parts.
Proof. unfold Upload.parseUploadForm. intros. repeat case_match; simplify_eq; done. Qed.

(** What an accepted upload is answered is a function of the file it sent. *)
Lemma uploaded_of e r f today cancelled w files :
  (Upload.HandleUpload e r f today cancelled w).2 = Upload.Uploaded files ->
  exists p raw bundle, sent f = Some p /\ Upload.read_upload e p = Some raw /\
    Upload.ingest e cancelled (Upload.p_Filename p) raw = Ok bundle /\
    files = [Upload.responseFromManifest bundle.2 true] /\
    Upload.bundles (Upload.HandleUpload e r f today cancelled w).1 = Upload.bundles w ++ [bundle].
Proof.
  unfold Upload.HandleUpload. destruct (Upload.parseUploadForm _ _ _ _) as [parts|a] eqn:HP.
  2:{ unfold Upload.parseUploadForm in HP. repeat case_match; simplify_eq; done. }
  apply form_fields in HP. unfold sent. rewrite HP. cbn [mbind option_bind].
  destruct (Upload.files_of "file" parts) as [|p ps]; [done|]. cbn [head].
  destruct (Upload.p_opens p); [|done]. destruct (Upload.validateFile _ _ _); [|done]. cbn [negb].
  destruct (Upload.read_upload e p) as [raw|] eqn:HR; [|done]. destruct (_ <? _); [done|].
  destruct (Upload.take _ _ _ _) as [b [|]]; [|done].
  destruct (Upload.ingest _ _ _ _) as [bundle|[code tried]] eqn:HI; [|by case_bool_decide].
  intros [= <-]. by exists p, raw, bundle.
Qed.

Lemma read_same e p1 p2 raw1 raw2 : data (Upload.p_file p1) = data (Upload.p_file p2) ->
  Upload.read_upload e p1 = Some raw1 -> Upload.read_upload e p2 = Some raw2 -> raw1 = raw2.
Proof.
  unfold Upload.read_upload, ReadAll. intros ->. destruct (rerr _ && _); [done|]. intros [= <-].
  destruct (rerr _ && _); [done|]. by intros [= <-].
Qed.

End upload.

Section delivery.
Context `{HC : MediaAccess.Crops, HN : Config.Numbers, HP : !Delivery.Content}.
Context `{HK : Grant.Crypto, HL : CidLib, HA : Url.Authority, HS : Storage}.
Context (policy : MediaAccess.policyRequest -> MediaAccess.policyReply).

Lemma HandleFile_deleted e srv r w cid parts : Delivery.path_parts "/file/" (r_Path r) = cid :: parts ->
  validateCID cid = true -> UnpinStore.Has cid (MediaAccess.unpinStore e) = true ->
  Delivery.HandleFile policy e srv r w = (w, Delivery.deleted Delivery.no_store).
Proof.
  intros HPa HV HH. unfold Delivery.HandleFile. rewrite HPa, HV, HH. cbn [negb].
  rewrite bool_decide_eq_false_2; [done|]. by intros ->.
Qed.

(** Revoking a file changes the grants' state and nothing the policy is asked with. *)
Lemma revoke_keeps e e1 cid rand : Delivery.revoke_file e cid rand = Ok e1 ->
  exists db, e1 = MediaAccess.mkEnv (MediaAccess.unpinStore e) (MediaAccess.mediaAccess e)
    (MediaAccess.allowUnmanaged e) (MediaAccess.mediaURL e) (MediaAccess.mediaLinkURL e)
    (MediaAccess.mediaGrants e) db (MediaAccess.now e).
Proof.
  destruct e as [st ma au mu ml mg db t]. unfold Delivery.revoke_file.
  cbn [MediaAccess.mediaGrants MediaAccess.redis].
  destruct mg as [v|]; [|intros [= <-]; by eexists]. destruct db as [d|]; [|done].
  case_match; [intros [= <-]; by eexists|done].
Qed.

Lemma unmanaged_unchanged e e1 cid0 rand s r cid d : Delivery.revoke_file e cid0 rand = Ok e1 ->
  MediaAccess.resolveMediaDelivery policy e r cid = Ok d -> MediaAccess.Managed d = false ->
  MediaAccess.resolveMediaDelivery policy (Delivery.with_store s e1) r cid = Ok d.
Proof.
  intros [db ->]%revoke_keeps. unfold MediaAccess.resolveMediaDelivery, Delivery.with_store. cbn.
  destruct (Url.Has _ _); [done|]. destruct (MediaAccess.mediaAccess e); [|done].
  destruct (MediaAccess.Resolve _ _ _ _) as [d'|]; [|done]. intros HR HM.
  destruct (MediaAccess.Managed d') eqn:HM'; [|exact HR].
  destruct (MediaAccess.validateMediaResource _ _ _ _) in HR; [discriminate HR|].
  injection HR as HR. rewrite HR in HM'. exfalso. rewrite HM in HM'. discriminate HM'.
Qed.

End delivery.

(** ** Properties *)

(** A deletion knows one spelling of an identifier: after a file was deleted under
    one, grants for it are refused under every other, and yet a file the policy does
    not manage is answered under every other exactly as before, since the
    soft-delete list is searched for the string. *)
Theorem deleted_by_spelling `{HC : MediaAccess.Crops, HN : Config.Numbers, HP : !Delivery.Content}
  `{HK : Grant.Crypto, HL : CidLib, HA : Url.Authority, HS : Storage} policy
  e rand now wo rd e' asked resp other parts srv r w d :
  Delivery.HandleDelete e rand now wo rd = (e', asked, resp) -> w_Status resp = 200 ->
  let cid := TrimPrefix (r_Path rd) "/file/" in
  sameMediaCID other cid = true -> other ∉ asked ->
  UnpinStore.Has other (MediaAccess.unpinStore e) = false ->
  Delivery.path_parts "/file/" (r_Path r) = other :: parts ->
  MediaAccess.resolveMediaDelivery policy e r other = Ok d -> MediaAccess.Managed d = false ->
  (forall r' link g, MediaAccess.grant_resolve e' r' link = Ok g -> MediaAccess.SourceCID g <> other) /\
  Delivery.HandleFile policy e' srv r w = Delivery.HandleFile policy e srv r w.
Proof.
  intros HD Hst cid Hsame Hout Hhas HPa HR HM.
  apply Delivery.HandleDelete_cases in HD as [(Hn & _)|(e1 & HRv & _ & _ & _ & -> & ->)]; [done|]. split.
  - intros r' link g Hg Heq. apply (Delivery.revoked_refused e e1 cid rand _ r' link g) in Hg; [|done].
    rewrite Heq in Hg. congruence.
  - unfold Delivery.HandleFile. rewrite HPa, HR. rewrite (unmanaged_unchanged policy e e1 cid rand _ r other d) by done.
    rewrite Hhas. cbn [Delivery.with_store MediaAccess.unpinStore].
    destruct (UnpinStore.Has other (Delivery.deleted_store _ _ _ _)) eqn:HH; [|done].
    apply Delivery.deleted_store_Has in HH as [?|?]; [done|congruence].
Qed.

(** C40. Who uploads a deleted file again is told it was stored and does not have it:
    the same name and bytes give the same identifier, whoever sends them; the answer
    to it remains that the file was deleted; and once the first deletion is old
    enough the collector asks the cluster to unpin it. *)
Theorem reupload_stays_deleted `{HFl : Blur.Float64, HNu : Config.Numbers, HCo : !ImageProc.Codecs}
  `{HFm : Upload.Fmt, HIn : Upload.Ingest, HC : MediaAccess.Crops, HP : !Delivery.Content}
  `{HK : Grant.Crypto, HL : CidLib, HA : Url.Authority, HS : Storage} policy
  ue cancelled r1 f1 day1 w1 s1 r2 f2 day2 w2 s2 p1 p2 e rand now wo rd e' asked resp :
  (Upload.HandleUpload ue r1 f1 day1 cancelled w1).2 = Upload.Uploaded [s1] ->
  (Upload.HandleUpload ue r2 f2 day2 cancelled w2).2 = Upload.Uploaded [s2] ->
  sent f1 = Some p1 -> sent f2 = Some p2 -> Upload.p_Filename p1 = Upload.p_Filename p2 ->
  data (Upload.p_file p1) = data (Upload.p_file p2) ->
  let cid := Upload.s_CID s1 in
  Delivery.HandleDelete e rand now wo rd = (e', asked, resp) -> w_Status resp = 200 ->
  TrimPrefix (r_Path rd) "/file/" = cid ->
  UnpinStore.GetGroup cid (MediaAccess.unpinStore e) = [] ->
  Upload.s_CID s2 = cid /\
  (forall srv r w parts, Delivery.path_parts "/file/" (r_Path r) = cid :: parts ->
     Delivery.HandleFile policy e' srv r w = (w, Delivery.deleted Delivery.no_store)) /\
  (forall later retention unpin wo', now < later - retention ->
     cid ∈ (UnpinStore.gc later retention unpin wo' (MediaAccess.unpinStore e')).2).
Proof.
  intros HU1 HU2 HS1 HS2 Hname Hdata cid HD Hst Hpath Hgroup.
  apply uploaded_of in HU1 as (q1 & raw1 & b1 & HQ1 & HR1 & HI1 & [= ->] & _).
  apply uploaded_of in HU2 as (q2 & raw2 & b2 & HQ2 & HR2 & HI2 & [= ->] & _).
  rewrite HS1 in HQ1. rewrite HS2 in HQ2. injection HQ1 as <-. injection HQ2 as <-.
  pose proof (read_same _ _ _ _ _ Hdata HR1 HR2) as <-.
  rewrite Hname, HI2 in HI1. injection HI1 as ->.
  apply Delivery.HandleDelete_cases in HD as [(Hn & _)|(e1 & _ & _ & HV & _ & -> & _)]; [done|].
  rewrite Hpath in HV |- *. split; [done|].
  assert (HH : UnpinStore.entries (Delivery.deleted_store cid now wo (MediaAccess.unpinStore e)) !! cid = Some now).
  { unfold Delivery.deleted_store. rewrite Hgroup. change (0 <? length [])%nat with false. cbn iota.
    unfold UnpinStore.Add. rewrite UnpinStore.put_entries. by rewrite lookup_insert_eq. }
  split.
  - intros srv r w parts HPa. eapply HandleFile_deleted; [done..|].
    apply bool_decide_eq_true. cbn [Delivery.with_store MediaAccess.unpinStore]. rewrite HH. by eexists.
  - intros later retention unpin wo' Hlt. cbn [Delivery.with_store MediaAccess.unpinStore].
    pose proof (proj2 (UnpinStore.Expired_elem (later - retention) _ cid) (ex_intro _ now (conj HH Hlt))) as HE.
    unfold UnpinStore.gc. destruct (_ =? 0)%nat eqn:E.
    + apply Nat.eqb_eq, nil_length_inv in E. rewrite E in HE. by apply not_elem_of_nil in HE.
    + by rewrite UnpinStore.gc_loop_asked.
Qed.

(** ** Witnesses *)

(** One file with two spellings. *)
Module Toy.
Definition v0 : string := "QmYwAPJzv5CZsnA625s3Xf2nemtYgPpHdWEz79ojWKPbdS".
Definition v1 : string := "bafybeigdyrzt5sfp7udm7hu76uh7y26nf3efuylqabf3oclgtqy55fbzdi".

#[local] Existing Instance Grant.Toy.crypto.
#[local] Existing Instance Playlist.Toy.authority.
#[local] Existing Instance MediaAccess.Toy.crops.
#[local] Instance cidlib : CidLib := {|
  Decode s := if bool_decide (s = v0) || bool_decide (s = v1) then Some (112, "hash") else None;
  V1String _ _ := v1 |}.

#[local] Instance storage : Storage := {|
  ClusterTryFetch _ := None;
  ClusterTryFetchPath _ p := Some (mkReader (if bool_decide (p = ManifestFilename) then "manifest" else "letter") false)
|}.

(** No policy, and none asked for. *)
Definition env : MediaAccess.Env :=
  MediaAccess.mkEnv (UnpinStore.mkStore ∅ ∅ UnpinStore.FMissing) None true "" "" None (Ok ∅) 0.
Definition no_policy (_ : MediaAccess.policyRequest) : MediaAccess.policyReply := MediaAccess.PTransport "down".
Definition deletion : Request := mkRequest "DELETE" ("/file/" +:+ v0) [] ∅ ∅ "api-key".
Definition view (cid : string) : Request := mkRequest "GET" ("/file/" +:+ cid) [] ∅ ∅ "user".

Module Spelling.
#[local] Existing Instance Delivery.Toy.numbers.
#[local] Existing Instance Delivery.Toy.content.

Lemma deleted_by_spelling_witness :
  let res := Delivery.HandleDelete env None 5 UnpinStore.Written deletion in
  let ask cid := Delivery.HandleFile no_policy res.1.1 Delivery.Toy.server (view cid) Delivery.Toy.world in
  w_Status res.2 = 200 /\ w_Status (ask v0).2 = 404 /\ w_Status (ask v1).2 = 200 /\
  w_Body (ask v1).2 = Bytes "letter" /\
  ask v1 = Delivery.HandleFile no_policy env Delivery.Toy.server (view v1) Delivery.Toy.world.
Proof.
  intros res ask. split; [by_vm|]. split; [by_vm|]. split; [by_vm|]. split; [by_vm|].
  refine (proj2 (deleted_by_spelling no_policy env None 5 UnpinStore.Written deletion res.1.1 [v0] res.2 v1 []
    Delivery.Toy.server (view v1) Delivery.Toy.world
    (MediaAccess.mkDecision "original" false "" false "" "") _ _ _ _ _ _ _ _)).
  - by_vm.
  - by_vm.
  - by_vm.
  - by_dec.
  - by_vm.
  - by_vm.
  - by_vm.
  - by_vm.
Defined.
End Spelling.

Module Again.
#[local] Existing Instance Blur.Toy.fixed.
#[local] Existing Instance ImageProc.Toy.numbers.
#[local] Existing Instance ImageProc.Toy.codecs.
#[local] Existing Instance Upload.Toy.fmt.
#[local] Instance library : Upload.Ingest := {|
  Upload.DetectContentType _ := "image/jpeg"; Upload.TypeByExtension _ := "image/jpeg";
  Upload.MarshalManifest m := Some ("manifest of " +:+ m_Name m);
  Upload.ClusterAddDir _ := Some v0
|}.
#[local] Instance content : Delivery.Content := {|
  Delivery.decode_manifest _ := None; Delivery.DetectContentType _ := "";
  Delivery.ConfiguredPreview _ _ := None; Delivery.CroppedPreview _ _ _ := None; Delivery.ClusterAdd _ _ := None |}.

Lemma reupload_stays_deleted_witness :
  let form := Upload.Toy.form "file" [Upload.Toy.part "me.jpg" "PIC 1"] in
  let up day := Upload.HandleUpload Upload.Toy.env Upload.Toy.viewer form day false Upload.Toy.world in
  let res := Delivery.HandleDelete env None 5 UnpinStore.Written deletion in
  (exists s, (up "tue").2 = Upload.Uploaded [s] /\ Upload.s_CID s = v0) /\
  v0 ∈ (UnpinStore.gc 200 100 (fun _ => true) (fun _ => UnpinStore.Written) (MediaAccess.unpinStore res.1.1)).2.
Proof.
  intros form up res.
  assert (HU : exists s, (up "tue").2 = Upload.Uploaded [s] /\ Upload.s_CID s = v0).
  { exists (Upload.responseFromManifest (match Upload.ingest Upload.Toy.env false "me.jpg" "PIC 1" with
      | Ok b => b.2 | Err _ => Delivery.Toy.manifest end) true). split; by_vm. }
  split; [exact HU|]. destruct HU as (s & HS & HSC).
  assert (HP : sent form = Some (Upload.Toy.part "me.jpg" "PIC 1")) by by_vm.
  assert (HD : Delivery.HandleDelete env None 5 UnpinStore.Written deletion = (res.1.1, [v0], res.2)) by by_vm.
  refine (eq_rect _ (fun c => c ∈ _) (proj2 (proj2 (reupload_stays_deleted no_policy Upload.Toy.env false
    Upload.Toy.viewer form "tue" Upload.Toy.world s Upload.Toy.viewer form "tue" Upload.Toy.world s _ _
    env None 5 UnpinStore.Written deletion res.1.1 [v0] res.2 HS HS HP HP eq_refl eq_refl HD _ _ _))
    200 100 (fun _ => true) (fun _ => UnpinStore.Written) _) _ HSC).
  - by_vm.
  - rewrite HSC. by_vm.
  - rewrite HSC. by_vm.
  - lia.
Defined.
End Again.
End Toy.

End Lifecycle.
