(* ===== verification/Caches.v ===== *)
(** The caches in front of the cluster: the manifest cache ([ManifestCache]) and the disk
    cache ([FileCacheContent]) as the service fills and reads them ([Handler.readManifest]
    and [Handler.readFile] in [internal/handler/handler.go]) while the cluster
    ([ClusterStorage]) goes on.  Nothing invalidates them; what they hold is right because
    what an identifier names does not change. *)

From S2P Require Export ClusterStorage Delivery FileCacheContent.

Local Open Scope Z_scope.

Module Caches.
Import Http Cid.

Section caches.
Context `{HKu : Cluster.Kubo, HC : MediaAccess.Crops, HP : !Delivery.Content, HK : Grant.Crypto}.
Context `{HRe : !ClusterStorage.KuboReads, HKe : !ClusterStorage.KuboKeeps}.

(** The parts of [Handler] that its readers share. *)
Record service := mkService {
  s_cluster : Cluster.ClusterManager;
  s_manifests : option ManifestCache.manifestCache;
  s_files : option FileCacheContent.cstate
}.
Definition set_cluster (cm : Cluster.ClusterManager) (s : service) : service := mkService cm (s_manifests s) (s_files s).

(** A file a handler asks for: [readFile]'s [cid] and [path]. *)
Definition ask : Type := string * string.
Definition file_name (a : ask) : string := a.1 +:+ "/" +:+ a.2.
(** The key [fileCache.open] makes of the name. *)
Definition file_key (name : string) : string := Base64.hex_encode (Grant.sha256 name).
Definition fetch_of (a : ask) : ClusterStorage.read :=
  if bool_decide (a.2 = "") then ClusterStorage.File a.1 else ClusterStorage.Path a.1 a.2.

(** What the disk cache has for a name; without a cache, nothing. *)
Definition cachedFile (fs : option FileCacheContent.cstate) (name : string) : option string :=
  x ← fs; FileCacheContent.cached (file_key name) x.

(** [newManifestCache] and [newFileCache]. *)
Definition startup (cm : Cluster.ClusterManager) (manifestLimit fileLimit : Z) : service :=
  mkService cm (ManifestCache.newManifestCache manifestLimit)
    (if fileLimit <=? 0 then None else Some (FileCacheContent.cinit fileLimit)).

Section asked.
(** The files that are ever asked for. *)
Context (asked : list ask).

(** What a fetch made for a key can give: the answer to one of the asks. *)
Definition answered (cm : Cluster.ClusterManager) (k d : string) : Prop :=
  exists a, a ∈ asked /\ k = file_key (file_name a) /\
    ClusterStorage.fetch (ClusterStorage.storage_of cm) (fetch_of a) = Some (mkReader d false).

Inductive slabel :=
| OnCluster (ev : ClusterStorage.event)
| GetManifest (cid : string)
| PutManifest (cid : string) (m : Manifest)
| OnFiles (l : FileCacheContent.clabel).

(** One step of any of the handlers or background tasks.  A fetch and what is done with its
    answer are steps of their own; as what is answered once is answered the same for good,
    that a put or a fill has its content from the cluster as it is now says that it has it
    from the cluster as it was then. *)
Inductive sstep : service -> slabel -> service -> Prop :=
| on_cluster ev s : sstep s (OnCluster ev) (set_cluster (ClusterStorage.do_event (s_cluster s) ev) s)
| get_manifest cid c cm fs :
    sstep (mkService cm (Some c) fs) (GetManifest cid) (mkService cm (Some (ManifestCache.get cid c).1) fs)
| put_manifest cid m c c' cm fs :
    Delivery.fetchManifest (HS := ClusterStorage.storage_of cm) cid = Ok m -> ManifestCache.put cid m c = Some c' ->
    sstep (mkService cm (Some c) fs) (PutManifest cid m) (mkService cm (Some c') fs)
| on_files l x x' cm mc : FileCacheContent.cstep (answered cm) x l x' ->
    sstep (mkService cm mc (Some x)) (OnFiles l) (mkService cm mc (Some x')).

Definition reached (s : service) : Prop := exists cm manifestLimit fileLimit ls,
  fileLimit < 2 ^ 62 /\ steps sstep (startup cm manifestLimit fileLimit) ls s.

(** Identifiers have no slash, and SHA-256 tells the names that are asked for apart. *)
Record told_apart : Prop := {
  ask_cids : Forall (fun a => chr 47 ∉ chars a.1) asked;
  ask_keys a b : a ∈ asked -> b ∈ asked -> Grant.sha256 (file_name a) = Grant.sha256 (file_name b) -> file_name a = file_name b
}.

(** * Specification *)

(** Every manifest and every file is what the cluster answers. *)
Record sinv (s : service) : Prop := {
  si_manifests c : s_manifests s = Some c -> ManifestCache.inv c /\
    forall k m, (k, m) ∈ ManifestCache.abs c ->
      Delivery.fetchManifest (HS := ClusterStorage.storage_of (s_cluster s)) k = Ok m;
  si_files x : s_files s = Some x -> FileCacheContent.cinv (answered (s_cluster s)) x
}.

End asked.

(** * Lemmas *)

Lemma file_name_inj a b : (chr 47 ∉ chars a.1) -> (chr 47 ∉ chars b.1) -> file_name a = file_name b -> a = b.
Proof.
  destruct a as [c p], b as [c' p']. unfold file_name. cbn [fst snd]. intros Ha Hb HE.
  assert (HCut : forall x y, chr 47 ∉ chars x -> Cut (x +:+ "/" +:+ y) "/" = Some (x, y)).
  { intros x y Hx. apply (Cut_first (chr 47) "" x y Hx). }
  pose proof (HCut c p Ha) as HC1. rewrite HE, HCut in HC1 by done. by injection HC1 as -> ->.
Qed.

(** ** What the cluster answered, it answers *)

Lemma fetchManifest_stays ev cm k m : Delivery.fetchManifest (HS := ClusterStorage.storage_of cm) k = Ok m ->
  Delivery.fetchManifest (HS := ClusterStorage.storage_of (ClusterStorage.do_event cm ev)) k = Ok m.
Proof.
  unfold Delivery.fetchManifest. destruct (@ClusterTryFetchPath (ClusterStorage.storage_of cm) k _) as [r|] eqn:HF; [|done].
  assert (@ClusterTryFetchPath (ClusterStorage.storage_of (ClusterStorage.do_event cm ev)) k ManifestFilename = Some r) as ->; [|done].
  exact (ClusterStorage.read_stays [ev] cm (ClusterStorage.Path k ManifestFilename) r HF).
Qed.

Lemma answered_stays asked ev cm k d : answered asked cm k d -> answered asked (ClusterStorage.do_event cm ev) k d.
Proof.
  intros (a & Ha & Hk & HF). exists a. do 2 (split; [done|]). by apply (ClusterStorage.read_stays [ev] cm).
Qed.

(** ** What a cache of manifests has *)

Lemma spec_get_sub k l p : p ∈ (ManifestCache.spec_get k l).1 -> p ∈ l.
Proof.
  unfold ManifestCache.spec_get. destruct (list_find _ l) as [[i [k' m]]|] eqn:Hf; [|done].
  apply list_find_Some in Hf as (Hi & Hk & _). cbn in Hk. subst k'. cbn [fst]. intros [->|Hp]%elem_of_cons.
  - by eapply list_elem_of_lookup_2.
  - by apply list_elem_of_filter in Hp as [_ ?].
Qed.

Lemma spec_get_hit k l m : (ManifestCache.spec_get k l).2 = Some m -> (k, m) ∈ l.
Proof.
  unfold ManifestCache.spec_get. destruct (list_find _ l) as [[i [k' m']]|] eqn:Hf; [|done].
  apply list_find_Some in Hf as (Hi & Hk & _). cbn in Hk. subst k'. intros [= <-]. by eapply list_elem_of_lookup_2.
Qed.

Lemma fit_sub b n l p : p ∈ ManifestCache.fit b n l -> p ∈ l.
Proof.
  revert b n. induction l as [|x l IH]; intros b [|n]; cbn [ManifestCache.fit];
    try by intros ?%not_elem_of_nil. case_bool_decide; [|by intros ?%not_elem_of_nil].
  intros [->|Hp]%elem_of_cons; [left|right]. by eapply IH.
Qed.

Lemma spec_put_sub lim k m l p : p ∈ ManifestCache.spec_put lim k m l -> p = (k, m) \/ p ∈ l.
Proof.
  unfold ManifestCache.spec_put. destruct (_ || _); [by right|]. destruct (bool_decide _); [by right|].
  intros [->|Hp]%elem_of_cons; [by left|right]. by eapply fit_sub.
Qed.

(** ** The invariant *)

Lemma sstep_sinv asked s l s' : sinv asked s -> sstep asked s l s' -> sinv asked s'.
Proof.
  intros HI HS. destruct HS as [ev s|k c cm fs|k m c c' cm fs HF HPu|l x x' cm mc HCs]; split; cbn [s_manifests s_files s_cluster].
  - intros c Hc. destruct (si_manifests _ _ HI c Hc) as [HIc Hm]. split; [done|]. intros k m Hkm.
    by apply fetchManifest_stays, Hm.
  - intros x Hx. eapply FileCacheContent.cinv_mono; [|by apply (si_files _ _ HI)]. apply answered_stays.
  - intros _ [= <-]. destruct (si_manifests _ _ HI c eq_refl) as [HIc Hm]. split; [by apply ManifestCache.get_inv|].
    intros k' m. rewrite (proj1 (ManifestCache.get_refines k c HIc)). intros Hkm%spec_get_sub. by apply Hm.
  - apply (si_files _ _ HI).
  - intros _ [= <-]. destruct (si_manifests _ _ HI c eq_refl) as [HIc Hm].
    split; [by apply (ManifestCache.step_inv c (ManifestCache.OpPut k m)); [|constructor]|].
    intros k' m'. rewrite (ManifestCache.put_refines k m c c' HIc HPu). intros [[= -> ->]|Hkm]%spec_put_sub; [done|by apply Hm].
  - apply (si_files _ _ HI).
  - apply (si_manifests _ _ HI).
  - intros _ [= <-]. eapply FileCacheContent.cstep_cinv; [by apply (si_files _ _ HI)|exact HCs].
Qed.

Lemma reached_sinv asked s : reached asked s -> sinv asked s.
Proof.
  intros (cm & ml & fl & ls & Hfl & HS). revert HS. apply steps_invariant; [apply sstep_sinv|]. split; cbn [startup s_manifests s_files].
  - intros c Hc. split; [by eapply ManifestCache.inv_new|]. unfold ManifestCache.newManifestCache in Hc.
    case_bool_decide; [done|]. injection Hc as <-. by intros k m ?%not_elem_of_nil.
  - intros x. destruct (Z.leb_spec fl 0); [done|]. intros [= <-]. apply FileCacheContent.cinit_cinv. lia.
Qed.

Lemma reached_step asked s l s' : reached asked s -> sstep asked s l s' -> reached asked s'.
Proof.
  intros (cm & ml & fl & ls & Hfl & HS) Hl. exists cm, ml, fl, (ls ++ [l]). split; [done|].
  eapply steps_app; [done|]. by eapply steps_cons; [|constructor].
Qed.

Lemma reached_steps asked ls s s' : reached asked s -> steps (sstep asked) s ls s' -> reached asked s'.
Proof. intros HR. apply steps_invariant; [apply reached_step|done]. Qed.

(** The cluster goes on by itself. *)
Lemma steps_cluster asked ls s s' : steps (sstep asked) s ls s' ->
  exists evs, s_cluster s' = ClusterStorage.do_events evs (s_cluster s).
Proof.
  induction 1 as [s|s l s1 ls s2 Hs _ [evs IH]]; [by exists []|]. rewrite IH.
  destruct Hs as [ev s|k c cm fs|k m c c' cm fs _ _|l x x' cm mc _]; [by exists (ev :: evs)|by exists evs..].
Qed.

Lemma steps_events asked evs s :
  steps (sstep asked) s (OnCluster <$> evs) (set_cluster (ClusterStorage.do_events evs (s_cluster s)) s).
Proof.
  revert s. induction evs as [|ev evs IH]; intros s; [destruct s; constructor|].
  rewrite fmap_cons. eapply steps_cons; [constructor|apply (IH (set_cluster (ClusterStorage.do_event (s_cluster s) ev) s))].
Qed.

(** A file in the cache is the file asked for. *)
Lemma cached_is_fetched asked s a content : reached asked s -> told_apart asked -> a ∈ asked ->
  cachedFile (s_files s) (file_name a) = Some content ->
  ClusterStorage.fetch (ClusterStorage.storage_of (s_cluster s)) (fetch_of a) = Some (mkReader content false).
Proof.
  intros HR [Hcids Hkeys] Ha HCa. apply reached_sinv in HR. unfold cachedFile in HCa.
  destruct (s_files s) as [x|] eqn:Hx; [|done]. cbn in HCa.
  apply (FileCacheContent.cached_source _ _ _ _ (si_files _ _ HR x Hx)) in HCa as (b & Hb & Hk & HF).
  apply Base64.hex_encode_inj, Hkeys in Hk; [|done..]. rewrite Forall_forall in Hcids.
  apply file_name_inj in Hk as <-; [done|by apply Hcids..].
Qed.

(** And so is a manifest. *)
Lemma manifest_is_fetched asked s c k m : reached asked s -> s_manifests s = Some c ->
  (ManifestCache.get k c).2 = Some m -> Delivery.fetchManifest (HS := ClusterStorage.storage_of (s_cluster s)) k = Ok m.
Proof.
  intros HR%reached_sinv Hc. destruct (si_manifests _ _ HR c Hc) as [HIc Hm].
  rewrite (proj2 (ManifestCache.get_refines k c HIc)). intros Hg%spec_get_hit. by apply Hm.
Qed.

End caches.
End Caches.
