(* ===== verification/EndToEnd.v ===== *)
(** A picture from the form to the reader: an upload ([Upload]) stored by the cluster
    ([Cluster]) and read back through it ([ClusterStorage]) and the caches in front of it
    ([Caches]) by the file handler ([Delivery]).  What joins them is what the upload
    hands to the cluster, the manifest's JSON, and caches that are honest. *)

From S2P Require Export Lifecycle Caches Stream.

Local Open Scope Z_scope.

Module EndToEnd.
Import Http Cid.

(** ** JSON

    Texts that survive [encoding/json]: it replaces what is not UTF-8. *)
Fixpoint utf8 (l : list Z) : bool :=
  let cont lo hi z := (lo <=? z) && (z <=? hi) in
  match l with
  | [] => true
  | a :: l1 =>
      if a <? 128 then utf8 l1 else
      match l1 with
      | [] => false
      | b :: l2 =>
          if (194 <=? a) && (a <=? 223) then cont 128 191 b && utf8 l2 else
          match l2 with
          | [] => false
          | c :: l3 =>
              if (224 <=? a) && (a <=? 239) then
                cont (if a =? 224 then 160 else 128) (if a =? 237 then 159 else 191) b &&
                cont 128 191 c && utf8 l3
              else
              match l3 with
              | [] => false
              | d :: l4 =>
                  (240 <=? a) && (a <=? 244) &&
                  cont (if a =? 240 then 144 else 128) (if a =? 244 then 143 else 191) b &&
                  cont 128 191 c && cont 128 191 d && utf8 l4
              end
          end
      end
  end.
Definition valid_text (s : string) : bool := utf8 (Upload.to_bytes s).

(** The texts of a manifest, less the identifier and the paths that [Finalize] writes. *)
Definition asset_texts (a : Asset) : list string := [a_CID a; a_BundlePath a; a_Format a; a_ContentType a].
Definition manifest_texts (m : Manifest) : list string :=
  [m_Name m; m_Type m] ++ asset_texts (m_Original m) ++
  (map_to_list (m_Variants m) ≫= fun ka => ka.1 :: asset_texts ka.2) ++
  (map_to_list (m_Metadata m) ≫= fun kv => [kv.1; kv.2]).
Definition valid_manifest (m : Manifest) : Prop := Forall (fun s => valid_text s = true) (manifest_texts m).

(** What [json.Unmarshal] makes of what [json.MarshalIndent] wrote: the manifest, up
    to what [Finalize] overwrites. *)
Class ManifestJSON `{HIn : Upload.Ingest, HC : MediaAccess.Crops, HP : !Delivery.Content} :=
  manifest_json m json cid : Upload.MarshalManifest m = Some json -> valid_manifest (Finalize cid m) ->
    exists m', Delivery.decode_manifest json = Some m' /\ Finalize cid m' = Finalize cid m.

(** ** The cluster under the uploads *)

Definition add_to `{Cluster.Kubo} (cm : Cluster.ClusterManager) (entries : gmap string string) : option string :=
  match (Cluster.ClusterAddDir entries cm).2 with Ok r => Some (Cluster.CID r) | Err _ => None end.

(** The handlers' libraries, with the cluster in the given state to add to. *)
Definition ingest_to `{Cluster.Kubo} (cm : Cluster.ClusterManager) (lib : Upload.Ingest) : Upload.Ingest := {|
  Upload.DetectContentType := @Upload.DetectContentType lib;
  Upload.TypeByExtension := @Upload.TypeByExtension lib;
  Upload.MarshalManifest := @Upload.MarshalManifest lib;
  Upload.ClusterAddDir := add_to cm
|}.

(** * Specification *)

Section served.
Context `{HC : MediaAccess.Crops, HN : Config.Numbers, HP : !Delivery.Content}.

(** Caches that hold what the storage holds: the whole of the files [asked] for,
    manifests, and no mask of the file replaced. *)
Record honest (asked : list Caches.ask) (st : Storage) (cid : string) (srv : Delivery.Server) (w : Delivery.World) : Prop := {
  honest_file path content : (cid, path) ∈ asked -> path <> "" ->
    Delivery.cachedFile srv (cid +:+ "/" +:+ path) = Some content ->
    @ClusterTryFetchPath st cid path = Some (mkReader content false);
  honest_manifest c : Delivery.manifests w = Some c -> ManifestCache.inv c /\
    forall m, (ManifestCache.get cid c).2 = Some m -> @Delivery.fetchManifest _ _ st cid = Ok m;
  honest_override mode : Delivery.override w (VariantOverrides.VariantOverrideKey cid mode) = ""
}.

(** The answer carries the file. *)
Definition served (r : Request) (resp : Response) (content : string) : Prop :=
  w_Status resp = 200 /\ w_Body resp = Delivery.body_of r content /\ inert (w_Headers resp).

(** * Lemmas *)

Lemma readManifest_honest asked st cid srv w m : honest asked st cid srv w -> @Delivery.fetchManifest _ _ st cid = Ok m ->
  exists w', @Delivery.readManifest _ _ st cid w = (w', Some m) /\ Delivery.overrides w' = Delivery.overrides w.
Proof.
  intros HH HF. unfold Delivery.readManifest. destruct (Delivery.manifests w) as [c|] eqn:HM; [|rewrite HF; by eexists].
  destruct (honest_manifest _ _ _ _ _ HH c HM) as [HI HG].
  pose proof (ManifestCache.get_inv cid c HI) as HI1.
  destruct (ManifestCache.get cid c) as [c1 [m'|]] eqn:HGt; cbn [fst snd] in *.
  { specialize (HG m' eq_refl). rewrite HF in HG. injection HG as <-. by eexists. }
  assert (c1 = c /\ ManifestCache.get cid c1 = (c1, None)) as [-> HG1].
  { assert (c1 = c) as ->; [|by rewrite HGt]. unfold ManifestCache.get in HGt.
    destruct (ManifestCache.entries c !! cid) as [el|]; [|by injection HGt].
    by destruct (GoList.Value el (ManifestCache.lru c)); [discriminate HGt|injection HGt]. }
  unfold ManifestCache.flight. rewrite HG1, HF.
  destruct (ManifestCache.put_ok cid m c HI) as (c2 & -> & _). by eexists.
Qed.

Lemma readFile_honest asked st cid srv w path v : honest asked st cid srv w -> (cid, path) ∈ asked -> path <> "" ->
  @ClusterTryFetchPath st cid path = Some (mkReader v false) ->
  exists hit, @Delivery.readFile _ st srv cid path = Some (Delivery.mkOpened (mkReader v false) hit).
Proof.
  intros HH Hask Hp HF. unfold Delivery.readFile. destruct (Delivery.cachedFile _ _) as [content|] eqn:Hc.
  - apply (honest_file _ _ _ _ _ HH _ _ Hask Hp) in Hc. rewrite HF in Hc. injection Hc as <-. by eexists.
  - rewrite bool_decide_eq_false_2, HF by done. by eexists.
Qed.

Lemma path_parts_cid cid : validateCID cid = true -> cid <> "" /\ Delivery.path_parts "/file/" ("/file/" +:+ cid) = [cid].
Proof.
  intros HV. assert (Hne : cid <> "") by (by intros ->). split; [done|].
  apply (Stream.path_parts_join "/file/" [cid]); [done| |done|done].
  apply Forall_cons. split; [|constructor]. intros Hs. by pose proof (validateCID_chars _ _ HV Hs).
Qed.

Section reading.
Context `{HK : Grant.Crypto, HL : CidLib, HA : Url.Authority}.
Context (policy : MediaAccess.policyRequest -> MediaAccess.policyReply).

(** The path a request for the whole file is answered from. *)
Definition answered_from (m : Manifest) (d : MediaAccess.mediaDeliveryDecision) (path : string) : Prop :=
  if Delivery.masked d
  then MediaAccess.Mode d <> "" /\ exists a, m_Variants m !! MediaAccess.Mode d = Some a /\ a_BundlePath a = path
  else a_BundlePath (m_Original m) = path.

Lemma HandleFile_honest asked st e srv r w cid m d path v :
  r_Path r = "/file/" +:+ cid -> validateCID cid = true -> UnpinStore.Has cid (MediaAccess.unpinStore e) = false ->
  MediaAccess.resolveMediaDelivery policy e r cid = Ok d ->
  MediaAccess.parseDeliveryCrop (MediaAccess.Crop d) = None -> Delivery.is_configured srv "" = false ->
  honest asked st cid srv w -> @Delivery.fetchManifest _ _ st cid = Ok m ->
  answered_from m d path -> (cid, path) ∈ asked -> path <> "" -> @ClusterTryFetchPath st cid path = Some (mkReader v false) ->
  served r (Delivery.HandleFile (HS := st) policy e srv r w).2 v.
Proof.
  intros HPa HV HHas HR HCr HCf HH HFe HFrom Hask Hp HFt.
  destruct (path_parts_cid cid HV) as [Hne HPP]. unfold Delivery.HandleFile. rewrite HPa, HPP.
  rewrite bool_decide_eq_false_2, HV, HHas, HR by done. cbn [negb].
  unfold Delivery.serveFile. destruct (readManifest_honest asked st cid srv w m HH HFe) as (w' & -> & HO).
  change (bool_decide ([] = ["bundle"])) with false. cbn iota. cbn [Delivery.parse_wanted].
  unfold Delivery.frame. cbn [Delivery.w_variant Delivery.w_mask]. rewrite HCr, HCf. cbn [andb snd].
  unfold Delivery.serve_stored.
  assert (HSend : forall ct hit, let o := Delivery.mkOpened (mkReader v false) hit in
    served r (match Delivery.sniff ct o with
              | None => jsonError Delivery.no_store 500 "Failed to read file"
              | Some ct => Delivery.send Delivery.no_store r d ct o end) v).
  { intros ct hit o. unfold Delivery.sniff. cbn [o Delivery.o_reader rerr andb].
    destruct (negb (bool_decide (ct = ""))); (split; [done|]; split; [done|]; apply Delivery.send_inert). }
  destruct (readFile_honest asked st cid srv w path v HH Hask Hp HFt) as [hit HF].
  unfold answered_from in HFrom. destruct (Delivery.masked d).
  - destruct HFrom as (Hm & a & Ha & HPth). rewrite (bool_decide_eq_false_2 _ Hm), Ha. cbn [negb].
    assert (HOv : Delivery.override w' (VariantOverrides.VariantOverrideKey cid (MediaAccess.Mode d)) = "").
    { unfold Delivery.override. rewrite HO. apply (honest_override _ _ _ _ _ HH). }
    rewrite HOv, HPth. cbn iota. change (bool_decide ("" = "")) with true. cbn iota. rewrite HF. apply HSend.
  - change (bool_decide ("" = "")) with true. cbn [negb length Nat.ltb Nat.leb]. cbn iota. rewrite HFrom.
    change (bool_decide ("" = "")) with true. cbn iota. rewrite HF. apply HSend.
Qed.

End reading.
End served.

(** A bundle the cluster took, read back through it. *)
Section stored.
Context `{HKu : Cluster.Kubo, HRe : !ClusterStorage.KuboReads, HKe : !ClusterStorage.KuboKeeps}.
Context `{HFl : Blur.Float64, HNu : Config.Numbers, HCo : !ImageProc.Codecs}.
Context `{HFm : Upload.Fmt, HIn : Upload.Ingest, HC : MediaAccess.Crops, HP : !Delivery.Content}.
Context `{HCr : Grant.Crypto, HL : CidLib, HA : Url.Authority, HJ : !ManifestJSON}.

Lemma add_to_Ok cm entries cid : add_to cm entries = Some cid ->
  exists cm' res, Cluster.ClusterAddDir entries cm = (cm', Ok res) /\ Cluster.CID res = cid /\
    forall evs name v, entries !! name = Some v -> ClusterStorage.plain_name name = true ->
      @ClusterTryFetchPath (ClusterStorage.storage_of (ClusterStorage.do_events evs cm')) cid name = Some (mkReader v false).
Proof.
  unfold add_to. destruct (Cluster.ClusterAddDir entries cm) as [cm' [res|]] eqn:HAd; [|done]. cbn [snd].
  intros [= <-]. exists cm', res. split; [done|]. split; [done|]. intros evs name v Hn Hpl.
  apply (ClusterStorage.read_stays evs cm' (ClusterStorage.Path (Cluster.CID res) name)).
  eapply (ClusterStorage.added_is_read entries cm cm' res name v); [|done..].
  intros E. unfold Cluster.ClusterAddDir, Cluster.add_all in HAd. by rewrite E in HAd.
Qed.

Lemma fetchManifest_of st cid json m0 : Upload.MarshalManifest m0 = Some json -> valid_manifest (Finalize cid m0) ->
  @ClusterTryFetchPath st cid ManifestFilename = Some (mkReader json false) ->
  @Delivery.fetchManifest _ _ st cid = Ok (Finalize cid m0).
Proof.
  intros HM HV HF. unfold Delivery.fetchManifest. rewrite HF. cbn [data].
  destruct (HJ m0 json cid HM HV) as (m' & -> & HFi). cbn [rerr]. by rewrite HFi.
Qed.

(** The caches the service filled itself are honest. *)
Lemma reached_honest asked sv cid srv w : Caches.reached asked sv -> Caches.told_apart asked ->
  (forall name, Delivery.cachedFile srv name = Caches.cachedFile (Caches.s_files sv) name) ->
  Delivery.manifests w = Caches.s_manifests sv ->
  (forall mode, Delivery.override w (VariantOverrides.VariantOverrideKey cid mode) = "") ->
  honest asked (ClusterStorage.storage_of (Caches.s_cluster sv)) cid srv w.
Proof.
  intros HR HT HF HM HO. split; [|intros c Hc; split|done].
  - intros path content Hask Hp Hc. rewrite HF in Hc.
    pose proof (Caches.cached_is_fetched asked sv (cid, path) content HR HT Hask Hc) as HFe.
    unfold Caches.fetch_of in HFe. cbn [fst snd] in HFe. by rewrite bool_decide_eq_false_2 in HFe.
  - apply Caches.reached_sinv in HR. eapply (Caches.si_manifests _ _ HR). by rewrite <- HM.
  - intros m. apply (Caches.manifest_is_fetched asked); [done|]. by rewrite <- HM.
Qed.

Lemma mask_path k path : k ∈ [Config.PrivacyBlurVariantKey; Config.PrivacyFaceBlurVariantKey] ->
  path ∈ [k +:+ ".jpg"; k +:+ ".webp"] -> k <> "" /\ path <> "" /\ ClusterStorage.plain_name path = true.
Proof.
  rewrite !elem_of_cons, !elem_of_nil. by intros [->|[->|[]]] [->|[->|[]]].
Qed.

(** ** Properties *)

(** C12. A picture reaches its readers: after an upload is accepted, whatever the
    cluster was asked to read, add, replicate and pin since, and whatever the manifest
    cache and the disk cache have been filled with since the service started, a request
    for the file is answered with the uploaded bytes less their metadata - or, where the
    decision asks for a mask, with that mask of those bytes, drawn from the faces found in
    them - and never as an active document. *)
Theorem uploaded_picture_is_served asked sv0 ue r f today cancelled uw uw' s entries m policy :
  let cm := Caches.s_cluster sv0 in
  let lib := ingest_to cm HIn in
  Caches.reached asked sv0 -> Caches.told_apart asked ->
  Upload.HandleUpload (HIn := lib) ue r f today cancelled uw = (uw', Upload.Uploaded [s]) ->
  last (Upload.bundles uw') = Some (entries, m) ->
  Upload.good_sizes (Upload.imageProcessor ue) -> valid_manifest m ->
  exists p raw source contentType cm' res,
    Lifecycle.sent f = Some p /\ Upload.read_upload ue p = Some raw /\
    Upload.source_of (HIn := lib) ue raw source contentType /\
    Cluster.ClusterAddDir entries cm = (cm', Ok res) /\ Upload.s_CID s = Cluster.CID res /\
    forall since sv e srv dr w d, let cid := Upload.s_CID s in
    let st := ClusterStorage.storage_of (Caches.s_cluster sv) in
    steps (Caches.sstep asked) (Caches.set_cluster cm' sv0) since sv ->
    (forall path, is_Some (entries !! path) -> (cid, path) ∈ asked) ->
    (forall name, Delivery.cachedFile srv name = Caches.cachedFile (Caches.s_files sv) name) ->
    Delivery.manifests w = Caches.s_manifests sv ->
    (forall mode, Delivery.override w (VariantOverrides.VariantOverrideKey cid mode) = "") ->
    r_Path dr = "/file/" +:+ cid -> validateCID cid = true ->
    UnpinStore.Has cid (MediaAccess.unpinStore e) = false ->
    MediaAccess.resolveMediaDelivery policy e dr cid = Ok d ->
    MediaAccess.parseDeliveryCrop (MediaAccess.Crop d) = None -> Delivery.is_configured srv "" = false ->
    let stripped := Upload.StripMetadata source in
    let resp := (Delivery.HandleFile (HS := st) policy e srv dr w).2 in
    (Delivery.masked d = false -> served dr resp stripped) /\
    (Delivery.masked d = true ->
     forall width height format src,
       ImageProc.DecodeConfig stripped = Some (width, height, format) -> ImageProc.Decode stripped = Some src ->
     exists faces, ImageProc.Detect (Upload.imageProcessor ue) (ImageProc.toNRGBA src) = Some faces /\
     forall img, (MediaAccess.Mode d, img) ∈
         [(Config.PrivacyBlurVariantKey, ImageProc.whole_blur (Upload.imageProcessor ue) src);
          (Config.PrivacyFaceBlurVariantKey, ImageProc.faces_blur (Upload.imageProcessor ue) src faces)] ->
     exists content, served dr resp content /\
       ImageProc.encode (Upload.imageProcessor ue) img
         (ImageProc.outputFormat (Upload.imageProcessor ue) (ImageProc.normalizeFormat format contentType)) = Ok content).
Proof.
  intros cm lib HSv HT HU HB HG HV. pose proof (Lifecycle.uploaded_of (HIn := lib) ue r f today cancelled uw [s]) as HO.
  rewrite HU in HO. destruct (HO eq_refl) as (p & raw & [en m'] & Hp & Hraw & HI & [= ->] & HB'). clear HO.
  cbn [fst] in HB'. rewrite HB', last_snoc in HB. injection HB as -> ->. cbn [snd].
  pose proof (Upload.ingest_added (HIn := lib) _ _ _ _ _ HI) as HAd. cbn [fst snd] in HAd.
  apply (Upload.ingest_Ok (HIn := lib)) in HI as (source & ct & Hs & HOr & HCn & HMk); [|done]. cbn [fst snd] in *.
  apply add_to_Ok in HAd as (cm' & res & HAd & Hres & HRd).
  exists p, raw, source, ct, cm', res. do 5 (split; [done|]).
  intros since sv e srv dr w d HSt HAsk HCa HMa HOv HPa HVC HHas HR HNf HCf. cbn [Upload.s_CID Upload.responseFromManifest] in *.
  set (cid := m_CID m) in *. set (st := ClusterStorage.storage_of (Caches.s_cluster sv)) in *.
  assert (HSv' : Caches.reached asked (Caches.set_cluster cm' sv0)).
  { replace cm' with (ClusterStorage.do_event cm (ClusterStorage.AddsDir entries)) by (cbn; by rewrite HAd).
    eapply Caches.reached_step; [exact HSv|constructor]. }
  assert (HH : honest asked st cid srv w).
  { apply reached_honest; [by eapply Caches.reached_steps|done..]. }
  assert (HRd' : forall name v, entries !! name = Some v -> ClusterStorage.plain_name name = true ->
      @ClusterTryFetchPath st cid name = Some (mkReader v false)).
  { destruct (Caches.steps_cluster _ _ _ _ HSt) as [evs HEv]. unfold st. rewrite HEv. by apply HRd. }
  set (resp := (Delivery.HandleFile _ _ _ _ _).2).
  destruct HCn as (HBP & _ & _ & _ & _ & _ & m0 & json & HM & HJs & HFin).
  assert (HFe : @Delivery.fetchManifest _ _ st cid = Ok m).
  { rewrite HFin. rewrite HFin in HV. eapply fetchManifest_of; [done..|]. by apply HRd'. }
  assert (HGo : forall path v, answered_from m d path -> path <> "" -> entries !! path = Some v ->
      ClusterStorage.plain_name path = true -> served dr resp v).
  { intros path v Hfrom Hne He Hpl. eapply HandleFile_honest; try done; [by apply HAsk; eexists|by apply HRd']. }
  split.
  - intros Hm. apply (HGo OriginalFilename); [unfold answered_from; by rewrite Hm|done..].
  - intros Hm width height fm src HDc HDe. destruct (HMk width height fm src HDc HDe) as (faces & HDt & HKs).
    exists faces. split; [done|]. intros img Hin. destruct (HKs _ _ Hin) as (a & content & Ha & He & Hext & Henc).
    exists content. split; [|exact Henc].
    assert (HMo : MediaAccess.Mode d ∈ [Config.PrivacyBlurVariantKey; Config.PrivacyFaceBlurVariantKey]).
    { apply elem_of_cons in Hin as [[= -> _]|Hin]; [left|]. apply list_elem_of_singleton in Hin as [= -> _]. right. left. }
    destruct (mask_path _ _ HMo Hext) as (Hne & Hpne & Hpl). apply (HGo (a_BundlePath a)); [|done..].
    unfold answered_from. rewrite Hm. split; [done|]. by exists a.
Qed.

End stored.

(** ** Witnesses

    The cluster whose identifiers spell their directories; a manifest is written as the
    file's name, when it is what the upload makes of a small picture of that name. *)
Module Toy.
#[local] Existing Instance Blur.Toy.fixed.
#[local] Existing Instance ImageProc.Toy.numbers.
#[local] Existing Instance ImageProc.Toy.codecs.
#[local] Existing Instance Upload.Toy.fmt.
(** A digest of the end of the text. *)
#[local] Instance crypto : Grant.Crypto := {|
  Grant.AEAD := @Grant.AEAD Grant.Toy.crypto; Grant.newGCM := @Grant.newGCM Grant.Toy.crypto;
  Grant.NonceSize := @Grant.NonceSize Grant.Toy.crypto; Grant.Overhead := @Grant.Overhead Grant.Toy.crypto;
  Grant.aead_seal := @Grant.aead_seal Grant.Toy.crypto; Grant.aead_open := @Grant.aead_open Grant.Toy.crypto;
  Grant.sha256 s := Grant.Toy.pad32 (String.string_of_list_ascii (rev (chars s)));
  Grant.json_marshal := @Grant.json_marshal Grant.Toy.crypto; Grant.json_unmarshal := @Grant.json_unmarshal Grant.Toy.crypto
|}.
#[local] Existing Instance Playlist.Toy.authority.
#[local] Existing Instance MediaAccess.Toy.crops.
#[local] Existing Instance ClusterStorage.Toy.kubo.
#[local] Existing Instance ClusterStorage.Toy.reads_ok.
#[local] Existing Instance ClusterStorage.Toy.keeps_ok.
#[local] Instance cidlib : CidLib := {| Decode s := Some (112, s); V1String _ h := h |}.

#[local] Instance asset_eq : EqDecision Asset.
Proof. solve_decision. Defined.
#[local] Instance manifest_eq : EqDecision Manifest.
Proof. solve_decision. Defined.
Definition asset (name : string) (size : Z) : Asset := mkAsset "" "" name "jpeg" "image/jpeg" 2 1 size.
Definition manifest_of (name : string) : Manifest :=
  mkManifest "" name "image" 1 5 (asset "original" 5)
    {[ "blur" := asset "blur.jpg" 7; "blur_faces" := asset "blur_faces.jpg" 7; "fit_480" := asset "fit_480.jpg" 8 ]} ∅.
#[local] Instance library : Upload.Ingest := {|
  Upload.DetectContentType _ := "image/jpeg"; Upload.TypeByExtension _ := "image/jpeg";
  Upload.MarshalManifest m := if bool_decide (m = manifest_of (m_Name m)) then Some (m_Name m) else None;
  Upload.ClusterAddDir _ := None
|}.
#[local] Instance content : Delivery.Content := {|
  Delivery.decode_manifest name := Some (manifest_of name); Delivery.DetectContentType _ := "";
  Delivery.ConfiguredPreview _ _ := None; Delivery.CroppedPreview _ _ _ := None; Delivery.ClusterAdd _ _ := None |}.
#[local] Instance json : ManifestJSON.
Proof.
  intros m text cid HM _. cbn in HM |- *. case_bool_decide as HE; [|done]. injection HM as <-.
  exists m. by rewrite <- HE.
Qed.

Definition cluster : Cluster.ClusterManager := ClusterStorage.Toy.cluster true true.
Definition form : Upload.Form := Upload.Toy.form "file" [Upload.Toy.part "me.jpg" "PIC 1"].
Definition upload : Upload.World * Upload.Answer :=
  Upload.HandleUpload (HIn := ingest_to cluster library) Upload.Toy.env Upload.Toy.viewer form "tue" false Upload.Toy.world.
Definition bundle : gmap string string * Manifest :=
  default (∅, Delivery.Toy.manifest) (last (Upload.bundles upload.1)).
Definition stored : Upload.stored := Upload.responseFromManifest bundle.2 true.
Definition cid : string := Upload.s_CID stored.
Definition since : list ClusterStorage.event :=
  [ClusterStorage.Replicates cid 3; ClusterStorage.AddsDir ClusterStorage.Toy.files;
   ClusterStorage.Reads (ClusterStorage.Path cid "original"); ClusterStorage.ChecksPins cid].
Definition cluster' : Cluster.ClusterManager := (Cluster.ClusterAddDir bundle.1 cluster).1.
Definition storage : Storage := ClusterStorage.storage_of (ClusterStorage.do_events since cluster').

(** The caches, once a reader has had the manifest and the original. *)
Definition asked : list Caches.ask := (fun kv => (cid, kv.1)) <$> map_to_list bundle.1.
Definition key : string := Caches.file_key (cid +:+ "/original").
Definition always (_ : nat) (_ : string) : bool := true.
Definition newCache : ManifestCache.manifestCache := ManifestCache.mkCache ∅ New 0 100000.
Definition manifestCache : ManifestCache.manifestCache := default newCache (ManifestCache.put cid bundle.2 newCache).
Definition newFiles : FileCacheContent.cstate := FileCacheContent.cinit 5000000.
Definition filling : FileCacheContent.cstate :=
  (default (newFiles, None) (FileCacheContent.open_reserve_c key always true "PIC 1" newFiles)).1.
Definition files : FileCacheContent.cstate :=
  FileCacheContent.fill_read_c 0 "PIC 1" FileCache.EOF (5, false) FileCache.ok_env filling.
Definition before : Caches.service := Caches.startup cluster 100000 5000000.
Definition after : Caches.service :=
  Caches.mkService (ClusterStorage.do_events since cluster') (Some manifestCache) (Some files).
Definition labels : list Caches.slabel :=
  (Caches.OnCluster <$> since) ++
  [Caches.PutManifest cid bundle.2; Caches.OnFiles (FileCacheContent.CReserve key always true "PIC 1");
   Caches.OnFiles (FileCacheContent.CRead 0 "PIC 1" FileCache.EOF (5, false) FileCache.ok_env)].

Definition env : MediaAccess.Env :=
  MediaAccess.mkEnv (UnpinStore.mkStore ∅ ∅ UnpinStore.FMissing) (Some MediaAccess.Toy.resolver) false
    "http://api/media" "" None (Ok ∅) 0.
Definition policy (mode : string) (_ : MediaAccess.policyRequest) : MediaAccess.policyReply :=
  MediaAccess.PRows [[("delivery_mode", MediaAccess.JString mode);
    ("storage_uri", MediaAccess.JString ("ipfs://" +:+ cid))]] None.
Definition view : Request := mkRequest "GET" ("/file/" +:+ cid) [] ∅ ∅ "user".
Definition server : Delivery.Server :=
  Delivery.mkServer _ (Some (Config.Image (Config.Load (fun _ => "")))) true (Caches.cachedFile (Some files)) VariantOverrides.SetOk.
Definition world : Delivery.World :=
  Delivery.mkWorld (Some manifestCache)
    (Some (VariantOverrides.mkOverrides (Some ∅) VariantOverrides.FEmpty)) [].

Lemma asked_bundle path : is_Some (bundle.1 !! path) -> (cid, path) ∈ asked.
Proof. intros [v Hv]. apply list_elem_of_fmap. exists (path, v). split; [done|]. by apply elem_of_map_to_list. Qed.

Lemma bundle_told_apart : Caches.told_apart asked.
Proof.
  split.
  - apply Forall_fmap, Forall_forall. intros kv _. change (chr 47 ∉ chars cid).
    apply (proj1 (bool_decide_eq_false (chr 47 ∈ chars cid))). by_vm.
  - assert (HD : forallb (fun a => forallb (fun b =>
        implb (bool_decide (Grant.sha256 (Caches.file_name a) = Grant.sha256 (Caches.file_name b)))
              (bool_decide (Caches.file_name a = Caches.file_name b))) asked) asked = true) by by_vm.
    intros a b Ha Hb HE. rewrite forallb_forall in HD. specialize (HD a (proj1 (list_elem_of_In _ _) Ha)).
    rewrite forallb_forall in HD. specialize (HD b (proj1 (list_elem_of_In _ _) Hb)).
    rewrite (bool_decide_eq_true_2 _ HE) in HD. by apply bool_decide_eq_true in HD.
Qed.

Lemma after_steps : steps (Caches.sstep asked) (Caches.set_cluster cluster' before) labels after.
Proof.
  eapply steps_app; [apply Caches.steps_events|].
  assert (HN : Caches.set_cluster (ClusterStorage.do_events since cluster') before =
    Caches.mkService (ClusterStorage.do_events since cluster') (Some newCache) (Some newFiles)) by by_vm.
  change (Caches.s_cluster _) with cluster'. unfold Caches.set_cluster in *. cbn [Caches.s_manifests Caches.s_files] in *.
  rewrite HN.
  apply (steps_cons _ _ _ (Caches.mkService (ClusterStorage.do_events since cluster') (Some manifestCache) (Some newFiles))).
  { apply Caches.put_manifest; by_vm. }
  apply (steps_cons _ _ _ (Caches.mkService (ClusterStorage.do_events since cluster') (Some manifestCache) (Some filling))).
  { apply Caches.on_files. eapply (FileCacheContent.cstep_reserve _ _ _ _ _ _ _ (Some 0%nat)); [|by_vm].
    exists (cid, "original"). split; [apply asked_bundle; exists "PIC 1"; by_vm|]. split; by_vm. }
  eapply steps_cons; [|constructor]. apply Caches.on_files.
  assert (HF : (FileCacheContent.fill_of 0 filling.2).2 = "PIC 1" +:+ "") by by_vm.
  refine (FileCacheContent.cstep_read _ 0 "PIC 1" FileCache.EOF (5, false) FileCache.ok_env filling "" _ _ HF (fun _ => eq_refl)).
  - clear. by vm_compute.
  - clear. by vm_compute.
Qed.

Lemma uploaded_picture_is_served_witness :
  let answer mode := (Delivery.HandleFile (HS := storage) (policy mode) env server view world).2 in
  w_Body (answer "original") = Bytes "PIC 1" /\ w_Headers (answer "original") !! "Content-Length" = Some "5" /\
  w_Body (answer "blur") = Bytes "jpeg 50" /\
  exists source, served view (answer "original") (Upload.StripMetadata source).
Proof.
  intros answer. split; [by_vm|]. split; [by_vm|]. split; [by_vm|].
  destruct (uploaded_picture_is_served asked before Upload.Toy.env Upload.Toy.viewer form "tue" false Upload.Toy.world
    upload.1 stored bundle.1 bundle.2 (policy "original")) as (p & raw & source & ct & cm' & res & _ & _ & _ & HAd & _ & HServe).
  - exists cluster, 100000, 5000000, []. split; [lia|constructor].
  - exact bundle_told_apart.
  - by_vm.
  - by_vm.
  - exact Upload.Toy.sizes_good.
  - assert (HF : forallb valid_text (manifest_texts bundle.2) = true) by by_vm.
    apply Forall_forall. intros x Hx. rewrite forallb_forall in HF. by apply HF, list_elem_of_In.
  - exists source. assert (HC' : cluster' = cm') by exact (f_equal fst HAd). subst cm'.
    apply (HServe labels after env server view world (MediaAccess.mkDecision "original" true cid false "" ""));
      [exact after_steps|exact asked_bundle|intros name; exact eq_refl|exact eq_refl| |by_vm..].
    intros mode. unfold Delivery.override, VariantOverrides.Get. cbn. by rewrite lookup_empty.
Defined.
End Toy.
End EndToEnd.
