(* ===== verification/Startup.v ===== *)
(** [NewHandler] of [internal/handler/handler.go], with the constructors of the policy's
    resolver ([media_access.go]) and of the grants' verifier ([media_grants.go]): what
    the service starts with, given its configuration and the machine it starts on. *)

From S2P Require Export Lifecycle FileCache Cluster Net.

Local Open Scope Z_scope.

Module Startup.
Import Http Cid.

(** ** [url.Parse] of an endpoint *)

(** [url.ParseQuery], which drops the pairs it cannot read. *)
Definition query_unescape (s : string) : option string :=
  Url.unescape (String.string_of_list_ascii
    ((fun c => if bool_decide (c = "+"%char) then " "%char else c) <$> chars s)).

Fixpoint add_value (k v : string) (q : Url.Values) : Url.Values :=
  match q with
  | [] => [(k, [v])]
  | (k', vs) :: q' => if bool_decide (k' = k) then (k', vs ++ [v]) :: q' else (k', vs) :: add_value k v q'
  end.

Definition ParseQuery (query : string) : Url.Values :=
  foldl (fun q piece =>
    if Contains piece ";" || bool_decide (piece = "") then q else
    let '(key, value) := match Cut piece "=" with Some kv => kv | None => (piece, "") end in
    match query_unescape key, query_unescape value with
    | Some k, Some v => add_value k v q
    | _, _ => q
    end) [] (Split query "&"%char).

(** The scheme, in lower case, the host, and the endpoint. *)
Definition parse_endpoint (s : string) : option (string * string * MediaAccess.endpoint) :=
  match @Url.Parse_Path Net.authority_ok s with
  | None => None
  | Some path =>
      let u := match Cut s "#" with Some (a, _) => a | None => s end in
      let '(scheme, rest) := match Url.getScheme u with Some sr => sr | None => ("", u) end in
      let query := match Cut rest "?" with Some (_, q) => q | None => "" end in
      let authority := Net.authority_of s in
      let scheme := ToLower scheme in
      Some (scheme, default "" (Net.parseAuthority authority),
            MediaAccess.mkEndpoint (scheme +:+ "://" +:+ authority) path (ParseQuery query))
  end.

(** An endpoint with a scheme and a host. *)
Definition endpoint_of (s : string) : option MediaAccess.endpoint :=
  match parse_endpoint s with
  | Some (scheme, host, e) =>
      if bool_decide (scheme = "") || bool_decide (host = "") then None else Some e
  | None => None
  end.

(** The resolver and its client's timeout in nanoseconds. *)
Definition newMediaAccessResolver (cfg : Config.MediaAccessConfig)
  : option (MediaAccess.mediaAccessResolver * Z) :=
  match endpoint_of (TrimSpace (Config.URL cfg)) with
  | None => None
  | Some cidEndpoint =>
      let configured := TrimSpace (Config.LinkURL cfg) in
      match (if bool_decide (configured = "") then Some cidEndpoint else endpoint_of configured) with
      | None => None
      | Some linkEndpoint =>
          let timeout := int64 (Config.TimeoutMs cfg * 1000000) in
          Some (MediaAccess.mkResolver cidEndpoint linkEndpoint,
                if timeout <=? 0 then 2500 * 1000000 else timeout)
      end
  end.

Section startup.
Context `{HK : Grant.Crypto, HL : CidLib, HKu : Cluster.Kubo, HF : Blur.Float64, HNu : Config.Numbers}.

(** The machine: the files of the stores, the directory of the disk cache with the outcomes
    of its clearing, the clients of the nodes, the error of the detector, the JSON
    of the grants' keys (in the order its map is ranged) and Redis. *)
Record Machine := mkMachine {
  unpin_file : string -> UnpinStore.file;
  overrides_file : string -> VariantOverrides.file;
  cache_mkdir : string -> bool;
  cache_readdir : string -> option (list (string * bool));
  cache_remove : string -> bool;
  node_client : string -> option Cluster.node;
  detector : option string;
  grant_keys : string -> option (list (string * string));
  redis_url : string -> bool;
  redis_db : result string GrantState.db
}.

(** ** [newMediaGrantVerifier] *)

(** The prefix of [NewState]. *)
Definition NewState (m : Machine) (redisURL namespace : string) : result string string :=
  if negb (GrantState.namespace_ok namespace) then Err "media grant state namespace is required"
  else if redis_url m redisURL then Ok (GrantState.prefix_of namespace)
  else Err "invalid media grant Redis URL".

Definition newMediaGrantVerifier (m : Machine) (cfg : Config.MediaGrantConfig)
  : result string (option MediaAccess.mediaGrantVerifier) :=
  if negb (Config.Enabled cfg) then Ok None else
  match grant_keys m (Config.Keys cfg) with
  | None => Err "invalid MEDIA_GRANT_KEYS JSON"
  | Some keys =>
      match Grant.New (Config.ActiveKey cfg) (Config.Audience cfg) keys with
      | Err err => Err err
      | Ok codec =>
          match NewState m (Config.RedisURL cfg) (Config.Namespace cfg) with
          | Err err => Err err
          | Ok prefix =>
              match redis_db m with
              | Err err => Err err
              | Ok db =>
                  match GrantState.TakeSnapshot prefix [] db with
                  | Err _ => Err "media grant state"
                  | Ok _ => Ok (Some (MediaAccess.mkVerifier codec prefix))
                  end
              end
          end
      end
  end.

(** ** [NewHandler] *)

Record Handler := mkHandler {
  cluster : Cluster.ClusterManager;
  unpinStore : option UnpinStore.UnpinStore;
  unpinWorker : option Worker.Worker;
  variantOverrides : option VariantOverrides.VariantOverrides;
  imageProcessor : ImageProc.Processor;
  mediaAccess : option (MediaAccess.mediaAccessResolver * Z);
  mediaGrants : option MediaAccess.mediaGrantVerifier;
  uploads : option Upload.uploadBudget;
  manifests : option ManifestCache.manifestCache;
  files : option FileCache.fileCache
}.

Definition ok {E A} (r : result E A) : option A := match r with Ok a => Some a | Err _ => None end.

(** The store at the configured path, or else at one under [/tmp], whose error is
    dropped. *)
Definition open_unpin (m : Machine) (path : string) : option UnpinStore.UnpinStore :=
  match UnpinStore.NewUnpinStore (unpin_file m path) with
  | Ok s => Some s
  | Err _ => ok (UnpinStore.NewUnpinStore (unpin_file m "/tmp/unpin-store.json"))
  end.

Definition open_files (m : Machine) (dir : string) (limit : Z) : option FileCache.fileCache :=
  match FileCache.newFileCache limit (cache_mkdir m dir) (cache_readdir m dir) (cache_remove m) with
  | Ok (Some (c, _)) => Some c
  | _ => None
  end.

(** [NewCluster] never answers nil, which is tested for. *)
Definition open_cluster (m : Machine) (cfg : Config.IPFSConfig) : Cluster.ClusterManager :=
  match Some (Cluster.NewCluster (Config.ClusterNodes cfg) (node_client m)) with
  | Some c => c
  | None => Cluster.NewCluster [Config.LocalURL cfg] (node_client m)
  end.

(** The error is the panic that ends the process. *)
Definition NewHandler (m : Machine) (cfg : Config.Config) : result string Handler :=
  match newMediaGrantVerifier m (Config.MediaGrants cfg) with
  | Err err => Err ("media grant initialization: " +:+ err)
  | Ok grants =>
      let dir := Dir (Config.StorePath (Config.Unpin cfg)) in
      let h worker := mkHandler
        (open_cluster m (Config.IPFS cfg))
        (open_unpin m (Config.StorePath (Config.Unpin cfg)))
        worker
        (ok (VariantOverrides.NewVariantOverrides (overrides_file m (PathJoin dir "variant-overrides.json"))))
        (ImageProc.NewProcessor (Config.Image cfg) (detector m))
        (newMediaAccessResolver (Config.MediaAccess cfg))
        grants
        (Upload.newUploadBudget (Config.DailyBytesPerSession (Config.Upload cfg)))
        (ManifestCache.newManifestCache (Config.ManifestCacheBytes (Config.IPFS cfg)))
        (open_files m (PathJoin dir "file-cache") (Config.FileCacheBytes (Config.IPFS cfg))) in
      let unpin := Config.Unpin cfg in
      if 0 <? Config.TTL unpin then
        match Worker.Start 0 (Worker.NewWorker (Config.TTL unpin) (Config.GCInterval unpin)) with
        | None => Err "non-positive interval for NewTicker"
        | Some worker => Ok (h (Some worker))
        end
      else Ok (h None)
  end.

(** What the access check of a request meets, at a time and with a database. *)
Definition env_of (cfg : Config.Config) (h : Handler) (store : UnpinStore.UnpinStore)
  (db : result string GrantState.db) (now : Z) : MediaAccess.Env :=
  let access := Config.MediaAccess cfg in
  MediaAccess.mkEnv store (fst <$> mediaAccess h) (Config.AllowUnmanaged access) (Config.URL access)
    (Config.LinkURL access) (mediaGrants h) db now.

(** * Lemmas *)

Lemma NewHandler_Ok m cfg h : NewHandler m cfg = Ok h ->
  newMediaGrantVerifier m (Config.MediaGrants cfg) = Ok (mediaGrants h) /\
  mediaAccess h = newMediaAccessResolver (Config.MediaAccess cfg) /\
  unpinStore h = open_unpin m (Config.StorePath (Config.Unpin cfg)) /\
  (0 < Config.TTL (Config.Unpin cfg) -> 0 < Config.GCInterval (Config.Unpin cfg) /\
     exists w, unpinWorker h = Some w /\ Worker.running w = true).
Proof.
  unfold NewHandler. destruct (newMediaGrantVerifier _ _) as [grants|]; [|done].
  destruct (0 <? Config.TTL _) eqn:HTTL.
  - unfold Worker.Start, Worker.NewWorker. cbn [Worker.running Worker.interval].
    destruct (Config.GCInterval _ <=? 0) eqn:HI; [done|]. intros [= <-]. cbn.
    apply Z.leb_gt in HI. split_and!; try done. intros _. split; [done|]. by eexists.
  - intros [= <-]. cbn. apply Z.ltb_ge in HTTL. split_and!; [done..|lia].
Qed.

Lemma torn_disk o s : UnpinStore.disk (UnpinStore.apply o UnpinStore.Torn s) = UnpinStore.FBad.
Proof. by destruct o. Qed.

(** [CLUSTER_NODES] and [IPFS_URL] are two variables; only the first is read. *)
Definition with_local_url (u : string) (c : Config.Config) : Config.Config :=
  let i := Config.IPFS c in
  Config.mkConfig (Config.ServerPort c)
    (Config.mkIPFS u (Config.ClusterNodes i) (Config.ManifestCacheBytes i) (Config.FileCacheBytes i))
    (Config.APIKeys c) (Config.Upload c) (Config.Image c) (Config.PinningRetries c)
    (Config.PinningRetryDelayMs c) (Config.Unpin c) (Config.CORSOrigins c) (Config.CORSHeaders c)
    (Config.Video c) (Config.Auth c) (Config.MediaAccess c) (Config.MediaGrants c) (Config.RateRPS c)
    (Config.RateBurst c).

End startup.

(** ** Properties *)

(** C11. A service that starts is closed where its configuration is wrong: with grants
    switched on it has a working verifier or does not start; with a retention time it
    has a running collector or does not start; and a file no policy governs is served
    only where that was asked for and no policy was named, so that an address that
    does not parse closes every file instead of opening it. *)
Theorem startup_fails_closed `{HK : Grant.Crypto, HL : CidLib, HKu : Cluster.Kubo, HF : Blur.Float64}
  `{HNu : Config.Numbers, HC : MediaAccess.Crops, HA : Url.Authority, HS : Storage}
  m cfg h store db now policy r cid d :
  NewHandler m cfg = Ok h ->
  (Config.Enabled (Config.MediaGrants cfg) = true -> is_Some (mediaGrants h)) /\
  (0 < Config.TTL (Config.Unpin cfg) -> exists w, unpinWorker h = Some w /\ Worker.running w = true) /\
  (MediaAccess.resolveMediaDelivery policy (env_of cfg h store db now) r cid = Ok d ->
     MediaAccess.Managed d = true \/
     Config.AllowUnmanaged (Config.MediaAccess cfg) = true /\ Config.URL (Config.MediaAccess cfg) = "" /\
     Config.LinkURL (Config.MediaAccess cfg) = "") /\
  (endpoint_of (TrimSpace (Config.URL (Config.MediaAccess cfg))) = None ->
     Config.URL (Config.MediaAccess cfg) <> "" ->
     MediaAccess.resolveMediaDelivery policy (env_of cfg h store db now) r cid <> Ok d).
Proof.
  intros (HG & HM & _ & HW)%NewHandler_Ok.
  assert (HU : MediaAccess.resolveMediaDelivery policy (env_of cfg h store db now) r cid = Ok d ->
    MediaAccess.Managed d = true /\ is_Some (newMediaAccessResolver (Config.MediaAccess cfg)) \/
     Config.AllowUnmanaged (Config.MediaAccess cfg) = true /\ Config.URL (Config.MediaAccess cfg) = "" /\
     Config.LinkURL (Config.MediaAccess cfg) = "").
  { unfold MediaAccess.resolveMediaDelivery, env_of.
    cbn [MediaAccess.mediaAccess MediaAccess.allowUnmanaged MediaAccess.mediaURL MediaAccess.mediaLinkURL].
    rewrite HM. destruct (Url.Has _ _); [done|].
    destruct (newMediaAccessResolver _) as [[res t]|]; cbn [fmap option_fmap option_map fst].
    - destruct (MediaAccess.Resolve _ _ _ _) as [d'|] eqn:HR; [|done].
      apply Delivery.Resolve_managed in HR. rewrite HR.
      destruct (MediaAccess.validateMediaResource _ _ _ _); [done|]. intros [= <-]. left. split; [done|by eexists].
    - destruct (_ && _) eqn:E; [|done]. intros _. go_bools. by right. }
  split_and!.
  - intros HE. unfold newMediaGrantVerifier in HG. rewrite HE in HG. cbn [negb] in HG.
    repeat (case_match; try done). injection HG as <-. by eexists.
  - by intros [_ ?]%HW.
  - intros [[? _]|?]%HU; [by left|by right].
  - intros HE HNe [[_ [x Hx]]|(_ & ? & _)]%HU; [|done].
    unfold newMediaAccessResolver in Hx. by rewrite HE in Hx.
Qed.

(** C39. A save that is cut short costs every deletion: the store's file is truncated
    before it is written, a file that does not parse is set aside at the next start for
    one under [/tmp], and so a file that was hidden when the service stopped is
    judged and served like any other after it. *)
Theorem torn_write_forgets `{HK : Grant.Crypto, HL : CidLib, HKu : Cluster.Kubo, HF : Blur.Float64}
  `{HNu : Config.Numbers, HC : MediaAccess.Crops, HA : Url.Authority, HS : Storage, HP : !Delivery.Content}
  m cfg h o s cid parts :
  NewHandler m cfg = Ok h ->
  unpin_file m (Config.StorePath (Config.Unpin cfg)) = UnpinStore.disk (UnpinStore.apply o UnpinStore.Torn s) ->
  unpin_file m "/tmp/unpin-store.json" = UnpinStore.FMissing ->
  UnpinStore.Has cid (UnpinStore.apply o UnpinStore.Torn s) = true -> validateCID cid = true ->
  exists st, unpinStore h = Some st /\ UnpinStore.Has cid st = false /\ UnpinStore.GetGroup cid st = [] /\
  forall policy db now srv r w d, Delivery.path_parts "/file/" (r_Path r) = cid :: parts ->
    MediaAccess.resolveMediaDelivery policy (env_of cfg h st db now) r cid = Ok d ->
    Delivery.HandleFile policy (env_of cfg h st db now) srv r w =
    Delivery.serveFile srv Delivery.no_store r cid parts d w.
Proof.
  intros (_ & _ & HU & _)%NewHandler_Ok Hfile Htmp _ HV.
  unfold open_unpin in HU. rewrite Hfile, torn_disk, Htmp in HU. cbn in HU.
  eexists. split; [exact HU|]. split; [done|]. split; [done|].
  intros policy db now srv r w d HPa HR. unfold Delivery.HandleFile. rewrite HPa, HV, HR. cbn [negb].
  rewrite bool_decide_eq_false_2 by (by intros ->). done.
Qed.

(** The address of the local node is never used: the service starts with the same
    cluster, and the same everything, whatever [IPFS_URL] holds, and with none at all
    where no address of [CLUSTER_NODES] gives a client. *)
Theorem local_url_unused `{HK : Grant.Crypto, HL : CidLib, HKu : Cluster.Kubo, HF : Blur.Float64}
  `{HNu : Config.Numbers} m cfg u :
  NewHandler m (with_local_url u cfg) = NewHandler m cfg /\
  (forall h, NewHandler m cfg = Ok h ->
     (forall url, url ∈ Config.ClusterNodes (Config.IPFS cfg) -> node_client m url = None) ->
     Cluster.nodes (cluster h) = []).
Proof.
  split; [done|]. intros h HN Hnone.
  assert (HCl : cluster h = open_cluster m (Config.IPFS cfg)).
  { unfold NewHandler in HN. destruct (newMediaGrantVerifier _ _); [|done].
    destruct (0 <? _); [destruct (Worker.Start _ _)|]; simplify_eq; done. }
  rewrite HCl. cbn. induction (Config.ClusterNodes (Config.IPFS cfg)) as [|url l IH]; [done|].
  cbn. rewrite (Hnone url) by apply list_elem_of_here. apply IH.
  intros v Hv. by apply Hnone, list_elem_of_further.
Qed.

(** A collector without a positive interval ends the process. *)
Lemma interval_panics `{HK : Grant.Crypto, HL : CidLib, HKu : Cluster.Kubo, HF : Blur.Float64}
  `{HNu : Config.Numbers} m cfg :
  Config.Enabled (Config.MediaGrants cfg) = false -> 0 < Config.TTL (Config.Unpin cfg) ->
  Config.GCInterval (Config.Unpin cfg) <= 0 -> NewHandler m cfg = Err "non-positive interval for NewTicker".
Proof.
  intros HG HT HI. unfold NewHandler, newMediaGrantVerifier. rewrite HG. cbn [negb].
  rewrite (proj2 (Z.ltb_lt _ _)) by done. unfold Worker.Start, Worker.NewWorker. cbn [Worker.running Worker.interval].
  by rewrite (proj2 (Z.leb_le _ _)).
Qed.

(** ** Witnesses *)

Module Toy.
#[local] Existing Instance Grant.Toy.crypto.
#[local] Existing Instance Cid.Toy.cidlib.
#[local] Existing Instance Playlist.Toy.authority.
#[local] Existing Instance MediaAccess.Toy.crops.
#[local] Existing Instance Blur.Toy.fixed.
#[local] Existing Instance Cluster.Toy.kubo.
#[local] Existing Instance Delivery.Toy.numbers.
#[local] Existing Instance Delivery.Toy.content.
#[local] Instance storage : Storage := Delivery.Toy.storage "a face".

(** A machine whose store was cut short, with no node that answers. *)
Definition before : UnpinStore.UnpinStore := UnpinStore.mkStore ∅ ∅ UnpinStore.FMissing.
Definition torn : UnpinStore.UnpinStore :=
  UnpinStore.apply (UnpinStore.OAdd Delivery.Toy.photo 5) UnpinStore.Torn before.
Definition machine : Machine :=
  mkMachine (fun path => if bool_decide (path = "/tmp/unpin-store.json") then UnpinStore.FMissing else UnpinStore.disk torn)
    (fun _ => VariantOverrides.FMissing) (fun _ => true) (fun _ => Some []) (fun _ => true) (fun _ => None)
    None (fun _ => None) (fun _ => false) (Err "down").

Definition config (url : string) : Config.Config :=
  Config.Load (fun key => if bool_decide (key = "MEDIA_ALLOW_UNMANAGED") then "true"
                          else if bool_decide (key = "MEDIA_ACCESS_URL") then url else "").

Definition handler (url : string) : Handler :=
  match NewHandler machine (config url) with Ok h => h | Err _ =>
    mkHandler (Cluster.NewCluster [] (fun _ => None)) None None None (ImageProc.NewProcessor (Config.Image (config "")) None)
      None None None None None end.
Definition down (_ : MediaAccess.policyRequest) : MediaAccess.policyReply := MediaAccess.PTransport "down".

Lemma startup_fails_closed_witness :
  NewHandler machine (config "api/media") = Ok (handler "api/media") /\
  (exists w, unpinWorker (handler "api/media") = Some w /\ Worker.running w = true) /\
  forall d, MediaAccess.resolveMediaDelivery down
    (env_of (config "api/media") (handler "api/media") torn (Err "down") 0) (Delivery.Toy.view "/") "Qm" <> Ok d.
Proof.
  assert (HN : NewHandler machine (config "api/media") = Ok (handler "api/media")) by by_vm.
  split; [exact HN|]. split.
  - refine (proj1 (proj2 (startup_fails_closed machine (config "api/media") (handler "api/media") torn (Err "down") 0
      down (Delivery.Toy.view "/") "Qm" (MediaAccess.noDecision) HN)) _). by_dec.
  - intros d. refine (proj2 (proj2 (proj2 (startup_fails_closed machine (config "api/media") (handler "api/media") torn
      (Err "down") 0 down (Delivery.Toy.view "/") "Qm" d HN))) _ _); [by_vm|by_dec].
Defined.

(** The file deleted before the cut is served after it. *)
Lemma torn_write_forgets_witness :
  UnpinStore.Has Delivery.Toy.photo torn = true /\
  exists st, unpinStore (handler "") = Some st /\ UnpinStore.Has Delivery.Toy.photo st = false /\
    w_Body (Delivery.HandleFile down
      (env_of (config "") (handler "") st (Err "down") 0) Delivery.Toy.server
      (Delivery.Toy.view ("/file/" +:+ Delivery.Toy.photo)) Delivery.Toy.world).2 = Bytes "a face".
Proof.
  split; [by_vm|]. assert (HN : NewHandler machine (config "") = Ok (handler "")) by by_vm.
  destruct (torn_write_forgets machine (config "") (handler "")
    (UnpinStore.OAdd Delivery.Toy.photo 5) before Delivery.Toy.photo [] HN) as (st & HSt & HH & _ & HF); [by_vm..|].
  exists st. split; [exact HSt|]. split; [exact HH|].
  assert (HE : unpinStore (handler "") = Some before) by by_vm. rewrite HE in HSt. injection HSt as <-.
  rewrite (HF down (Err "down") 0 Delivery.Toy.server (Delivery.Toy.view ("/file/" +:+ Delivery.Toy.photo))
    Delivery.Toy.world (MediaAccess.mkDecision "original" false "" false "" "")); by_vm.
Defined.

End Toy.

End Startup.
