(* ===== verification/Uploader.v ===== *)
(** [internal/video/uploader.go]: storing a transcoded video.  Every file of the
    output directory is added to the cluster, the playlists ffmpeg wrote are
    rewritten to name what was added, and a master playlist names the renditions
    and the posters. *)

From S2P Require Export Player.
From stdpp Require Import sorting.

Local Open Scope Z_scope.

Module Uploader.
Import Cid Playlist.

(** ** The adder, and what it has been given

    [IPFSAdder.Add]: its outcome may depend on everything added before, so it
    may fail at any moment. *)
Record addition := mkAddition { a_name : string; a_data : string; a_cid : string }.
Definition IPFSAdder : Type := list addition -> string -> string -> option string.

(** [None] is the nil interface. *)
Record Uploader := mkUploader { adder : option IPFSAdder }.
Definition NewUploader (adder : option IPFSAdder) : Uploader := mkUploader adder.

Record UploadResult := mkUploadResult {
  MasterCID : string;
  VariantCIDs : gmap string string;
  SegmentCIDs : gmap string string;
  PosterCIDs : gmap string string;
  PrivacyPosterCIDs : gmap string (gmap string string);
  AllCIDs : list string
}.

Inductive uploadError :=
| NotConfigured
| WalkFailed (relPath : string)
| AddFailed (relPath : string)
| NoFiles
| RewriteFailed (relPath : string)
| ReuploadFailed (relPath : string)
| MasterFailed.

(** Computations that add files: the additions so far are threaded through. *)
Definition M (A : Type) : Type := list addition -> result uploadError A * list addition.
#[export] Instance M_ret : MRet M := fun A a log => (Ok a, log).
#[export] Instance M_bind : MBind M := fun A B f m log =>
  match m log with
  | (Ok a, log') => f a log'
  | (Err e, log') => (Err e, log')
  end.
Definition throw {A} (e : uploadError) : M A := fun log => (Err e, log).

Definition addFile (add : IPFSAdder) (e : uploadError) (filename content : string) : M string :=
  fun log => match add log filename content with
             | Some cid => (Ok cid, log ++ [mkAddition filename content cid])
             | None => (Err e, log)
             end.

Definition reuploadContent (add : IPFSAdder) (e : uploadError) (content filename : string) : M string :=
  addFile add e filename content.

(** ** The output directory

    The files below it in the order [filepath.Walk] visits them, by their path
    relative to it; [None] is a file that cannot be visited, opened or read. *)
Abbreviation directory := (list (string * option string)).

Definition ReadFile (dir : directory) (relPath : string) : option string :=
  match (list_to_map dir : gmap string (option string)) !! relPath with
  | Some data => data
  | None => None
  end.

(** A [range] over a map visits its pairs in an order of the runtime's choice,
    another each time. *)
Class Ranges := range : nat -> gmap string string -> list (string * string).
Class RangesLaws `{Ranges} := range_perm k m : range k m ≡ₚ map_to_list m.

Fixpoint walk (add : IPFSAdder) (dir : directory) (fileCIDs : gmap string string) (all : list string)
  : M (gmap string string * list string) :=
  match dir with
  | [] => mret (fileCIDs, all)
  | (relPath, None) :: _ => throw (WalkFailed relPath)
  | (relPath, Some content) :: rest =>
      cid ← addFile add (AddFailed relPath) (Base relPath) content;
      walk add rest (<[relPath := cid]> fileCIDs) (all ++ [cid])
  end.

Fixpoint replaceInSlice (s : list string) (old new : string) : list string :=
  match s with
  | [] => []
  | v :: s' => if bool_decide (v = old) then new :: s' else v :: replaceInSlice s' old new
  end.

(** ** The playlists of the variants *)

Definition init_uri : string := marker +:+ "init.mp4" +:+ dquote.

(** One line of a variant's playlist, without the line feed. *)
Definition rewrite_line (variantDir : string) (fileCIDs : gmap string string) (line : string) : string :=
  let trimmed := TrimSpace line in
  let segment :=
    if HasPrefix trimmed "seg_" && HasSuffix trimmed ".m4s" then
      match fileCIDs !! PathJoin variantDir trimmed with
      | Some cid => cid +:+ ".m4s"
      | None => line
      end
    else line in
  if HasPrefix trimmed "#EXT-X-MAP:" then
    match fileCIDs !! PathJoin variantDir "init.mp4" with
    | Some cid => ReplaceFirst line init_uri (marker +:+ cid +:+ ".mp4" +:+ dquote)
    | None => segment
    end
  else segment.

(** The text of lines each followed by a line feed. *)
Fixpoint write_lines (lines : list string) : string :=
  match lines with
  | [] => ""
  | line :: rest => line +:+ String newline (write_lines rest)
  end.

Definition rewriteVariantPlaylist (dir : directory) (relPath : string) (fileCIDs : gmap string string)
  : option string :=
  match ReadFile dir relPath with
  | None => None
  | Some content => Some (write_lines (rewrite_line (Dir relPath) fileCIDs <$> lines_of content))
  end.

Fixpoint upload_playlists (add : IPFSAdder) (dir : directory) (fileCIDs : gmap string string)
  (files : list (string * string)) (variantCIDs : gmap string string) (all : list string)
  : M (gmap string string * list string) :=
  match files with
  | [] => mret (variantCIDs, all)
  | (relPath, cid) :: rest =>
      if HasSuffix relPath "playlist.m3u8" then
        match rewriteVariantPlaylist dir relPath fileCIDs with
        | None => throw (RewriteFailed relPath)
        | Some updated =>
            newCID ← reuploadContent add (ReuploadFailed relPath) updated (Base relPath);
            upload_playlists add dir fileCIDs rest (<[Dir relPath := newCID]> variantCIDs)
              (replaceInSlice all cid newCID)
        end
      else upload_playlists add dir fileCIDs rest variantCIDs all
  end.

(** ** Posters *)

Record posterPath := mkPosterPath { pp_variant : string; pp_size : string }.
Record posterEntry := mkPosterEntry { pe_variant : string; pe_size : string; pe_cid : string }.

Definition posterFromPath (relPath : string) : option posterPath :=
  if negb (HasPrefix relPath "posters/") || negb (HasSuffix (ToLower relPath) ".jpg") then None else
  let path := TrimPrefix relPath "posters/" in
  let parts := Split path (chr 47) in
  if negb ((length parts =? 1)%nat || (length parts =? 2)%nat) then None else
  let size := TrimSuffix (List.last parts "") (Ext path) in
  if bool_decide (size = "") then None else
  Some (mkPosterPath (if (length parts =? 2)%nat then List.hd "" parts else "") size).

Definition posterSizeFromPath (relPath : string) : option string :=
  pp_size <$> posterFromPath relPath.

(** [Sscanf(size, "%dx%d", ...)]. *)
Definition posterArea (size : string) : Z :=
  match scan_int size with
  | None => 0
  | Some (width, rest) =>
      match CutPrefix "x" rest with
      | None => 0
      | Some rest =>
          match scan_int rest with
          | None => 0
          | Some (height, _) => int64 (width * height)
          end
      end
  end.

Definition posterLess (p q : posterEntry) : bool :=
  if bool_decide (pe_variant p <> pe_variant q) then negb (Url.str_le (pe_variant q) (pe_variant p))
  else posterArea (pe_size p) <? posterArea (pe_size q).

(** [sort.Slice] puts no entry after a greater one; the order it leaves equal
    entries in is as open as the order the map is ranged over. *)
Definition posterLe (p q : posterEntry) : Prop := posterLess q p = false.
#[export] Instance posterLe_dec p q : Decision (posterLe p q) := decide (posterLess q p = false).

Definition collectPosters (files : list (string * string)) : list posterEntry :=
  merge_sort posterLe
    (omap (fun '(relPath, cid) =>
       (fun p => mkPosterEntry (pp_variant p) (pp_size p) cid) <$> posterFromPath relPath) files).

(** ** The master playlist *)

Definition poster_text (p : posterEntry) : string :=
  poster_prefix +:+
  (if bool_decide (pe_variant p = "") then "" else "VARIANT=" +:+ pe_variant p +:+ ",") +:+
  "SIZE=" +:+ pe_size p +:+ "," +:+ marker +:+ "../segment/" +:+ pe_cid p +:+ ".jpg" +:+ dquote.

(** The renditions a master lists: name, bandwidth and resolution. *)
Definition renditions : list (string * (Z * string)) :=
  [("low", (500000, "426x760")); ("medium", (1500000, "720x1280")); ("high", (4000000, "1080x1920"))].

Definition stream_inf (r : string * (Z * string)) : string :=
  let '(_, (bw, res)) := r in
  "#EXT-X-STREAM-INF:BANDWIDTH=" +:+ Itoa bw +:+ ",RESOLUTION=" +:+ res +:+ ",CODECS=" +:+
    dquote +:+ "avc1.42e01e" +:+ dquote.

Definition rendition_lines (variantCIDs : gmap string string) (r : string * (Z * string)) : list string :=
  match variantCIDs !! r.1 with
  | None => []
  | Some cid => [stream_inf r; "../segment/" +:+ cid +:+ ".m3u8"]
  end.

Definition buildMasterPlaylist (variantCIDs : gmap string string) (files : list (string * string))
  : string :=
  write_lines ("#EXTM3U" :: (poster_text <$> collectPosters files)
               ++ concat (rendition_lines variantCIDs <$> renditions)).

(** ** [UploadDir] *)

Definition fill (res : UploadResult) (file : string * string) : UploadResult :=
  let '(relPath, cid) := file in
  let segments := if HasSuffix relPath ".m4s" then <[relPath := cid]> (SegmentCIDs res)
                  else SegmentCIDs res in
  let '(posters, privacy) :=
    match posterFromPath relPath with
    | None => (PosterCIDs res, PrivacyPosterCIDs res)
    | Some p =>
        if bool_decide (pp_variant p = "") then (<[pp_size p := cid]> (PosterCIDs res), PrivacyPosterCIDs res)
        else (PosterCIDs res,
              <[pp_variant p := <[pp_size p := cid]> (default ∅ (PrivacyPosterCIDs res !! pp_variant p))]>
                (PrivacyPosterCIDs res))
    end in
  mkUploadResult (MasterCID res) (VariantCIDs res) segments posters privacy (AllCIDs res).

Definition UploadDir `{Ranges} (u : Uploader) (dir : directory) : M UploadResult :=
  match adder u with
  | None => throw NotConfigured
  | Some add =>
      '(fileCIDs, all) ← walk add dir ∅ [];
      if bool_decide (fileCIDs = ∅) then throw NoFiles else
      '(variantCIDs, all) ← upload_playlists add dir fileCIDs (range 0 fileCIDs) ∅ all;
      let masterContent := buildMasterPlaylist variantCIDs (range 1 fileCIDs) in
      masterCID ← reuploadContent add MasterFailed masterContent "master.m3u8";
      mret (foldl fill (mkUploadResult masterCID variantCIDs ∅ ∅ ∅ (all ++ [masterCID]))
              (range 2 fileCIDs))
  end.

(** * Lemmas *)

(** ** Reading back what is written *)

Lemma Split_write_lines lines : Forall (fun l => newline ∉ chars l) lines ->
  lines_of (write_lines lines) = lines ++ [""].
Proof.
  unfold lines_of. induction 1 as [|l lines Hl HF IH]; [done|]. cbn [write_lines].
  rewrite Split_app_sep by done. by rewrite IH.
Qed.

Lemma validateCID_plain cid : validateCID cid = true -> Url.plain cid.
Proof.
  intros HV. unfold Url.plain. apply Forall_forall. intros c Hc.
  apply (validateCID_chars cid c HV) in Hc. revert Hc.
  destruct c as [[] [] [] [] [] [] [] []]; vm_compute; intros ?; (done || discriminate).
Qed.

Lemma validateCID_no cid c : validateCID cid = true -> alnum c = false -> c ∉ chars cid.
Proof. intros HV Hc Hin. apply (validateCID_chars cid c HV) in Hin. congruence. Qed.

Lemma validateCID_ne cid : validateCID cid = true -> cid <> "".
Proof. by intros HV ->. Qed.

(** The extensions the uploader writes. *)
Definition asset_extensions : list string := [".m4s"; ".mp4"; ".m3u8"; ".jpg"].

Lemma asset_extension_ok ext : ext ∈ asset_extensions -> Url.plain ext /\ ext_like ext.
Proof.
  intros He. repeat (apply elem_of_cons in He as [->|He]); [..|by apply not_elem_of_nil in He];
    (split; [by apply (bool_decide_unpack _); vm_compute|right; eexists; split; [reflexivity|by_dec]]).
Qed.

Section read_back.
Context `{Url.Authority}.

Lemma asset_file cid ext : validateCID cid = true -> ext ∈ asset_extensions ->
  Url.plain (cid +:+ ext) /\ (cid +:+ ext <> "") /\ (chr 47 ∉ chars (cid +:+ ext)) /\ Ext (cid +:+ ext) = ext.
Proof.
  intros HV He. destruct (asset_extension_ok ext He) as [Hp Hl]. split_and!.
  - apply Url.plain_append. split; [by apply validateCID_plain|done].
  - destruct cid; [done|]. by rewrite append_String.
  - rewrite chars_append, elem_of_app. intros [Hin|Hin]; [by apply (validateCID_no cid (chr 47))|].
    by apply (ext_like_no_slash ext).
  - apply Ext_app; [by apply validateCID_no|by apply ext_like_no_slash|done].
Qed.

Lemma reference_asset cid ext : validateCID cid = true -> ext ∈ asset_extensions ->
  playlistReferenceCID (cid +:+ ext) = Some (cid, ext).
Proof.
  intros HV He. destruct (asset_file cid ext HV He) as (Hp & Hne & Hs & HE).
  unfold playlistReferenceCID. rewrite TrimSpace_solid by (by apply Url.plain_solid).
  rewrite Url.Parse_Path_plain; [|done|].
  - rewrite Base_file, HE, TrimSuffix_app, HV by done. done.
  - destruct (HasPrefix _ _) eqn:E; [|done]. apply HasPrefix_true in E as [r E]. exfalso. apply Hs.
    rewrite E. by left.
Qed.

Lemma reference_segment cid ext : validateCID cid = true -> ext ∈ asset_extensions ->
  playlistReferenceCID ("../segment/" +:+ cid +:+ ext) = Some (cid, ext).
Proof.
  intros HV He. destruct (asset_file cid ext HV He) as (Hp & Hne & Hs & HE).
  assert (HP : Url.plain ("../segment/" +:+ cid +:+ ext)).
  { apply Url.plain_append. split; [|done]. by apply (bool_decide_unpack _); vm_compute. }
  unfold playlistReferenceCID. rewrite TrimSpace_solid by (by apply Url.plain_solid).
  rewrite Url.Parse_Path_plain by done.
  change ("../segment/" +:+ cid +:+ ext) with ("../segment" +:+ String (chr 47) (cid +:+ ext)).
  rewrite Base_in, HE, TrimSuffix_app, HV by done. done.
Qed.
(** The file a line of ffmpeg's playlist names, with its extension: the
    initialisation segment, or a media segment. *)
Definition line_file (variantDir line : string) : option (string * string) :=
  let trimmed := TrimSpace line in
  if HasPrefix line "#EXT-X-MAP:" && bool_decide (playlistURI line = Some "init.mp4") then
    Some (PathJoin variantDir "init.mp4", ".mp4")
  else if HasPrefix trimmed "seg_" && HasSuffix trimmed ".m4s" then
    Some (PathJoin variantDir trimmed, ".m4s")
  else None.

(** A line without a reference. *)
Definition bare_line (line : string) : bool :=
  negb (Contains line marker) && bool_decide (line_reference line = None).

(** A playlist of ffmpeg's: every reference is a file beside it. *)
Definition ffmpeg_playlist (paths : list string) (variantDir content : string) : Prop :=
  forall line, line ∈ lines_of content -> bare_line line = true \/
    exists path ext, line_file variantDir line = Some (path, ext) /\ path ∈ paths.

(** The identifier and extension of a file that was added. *)
Definition asset_of (fileCIDs : gmap string string) (file : string * string) : option (string * string) :=
  (fun cid => (cid, file.2)) <$> fileCIDs !! file.1.
Definition line_asset (variantDir : string) (fileCIDs : gmap string string) (line : string)
  : option (string * string) :=
  match line_file variantDir line with Some file => asset_of fileCIDs file | None => None end.

Definition known_line (variantDir : string) (fileCIDs : gmap string string) (line : string) : bool :=
  bare_line line || bool_decide (is_Some (line_asset variantDir fileCIDs line)).

Lemma uri_parts_inv line b u a : uri_parts line = Some (b, u, a) ->
  Cut line marker = Some (b, u +:+ dquote +:+ a).
Proof.
  unfold uri_parts. destruct (Cut line marker) as [[x r]|]; [|done].
  destruct (Cut r dquote) as [[y z]|] eqn:E; [|done]. intros [= -> -> ->]. by apply Cut_sound in E as ->.
Qed.

Lemma uri_parts_intro line b u a : Cut line marker = Some (b, u +:+ dquote +:+ a) ->
  (chr 34 ∉ chars u) -> uri_parts line = Some (b, u, a).
Proof.
  intros HC Hu. unfold uri_parts. rewrite HC. change dquote with (String (chr 34) "").
  by rewrite (Cut_first (chr 34) "" u a Hu).
Qed.

Lemma rewrite_map_line dir files line cid :
  HasPrefix line "#EXT-X-MAP:" = true -> playlistURI line = Some "init.mp4" ->
  files !! PathJoin dir "init.mp4" = Some cid -> validateCID cid = true ->
  HasPrefix (rewrite_line dir files line) "#" = true /\
  line_reference (rewrite_line dir files line) = Some (cid +:+ ".mp4").
Proof.
  intros HP HU Hf HV.
  assert (HPt : HasPrefix (TrimSpace line) "#EXT-X-MAP:" = true)
    by (by apply (HasPrefix_TrimSpace _ _ "#"%char "EXT-X-MAP:" ":"%char "#EXT-X-MAP")).
  unfold rewrite_line. rewrite HPt, Hf. unfold playlistURI in HU.
  destruct (uri_parts line) as [[[b u] a]|] eqn:E; [|done]. injection HU as ->.
  apply uri_parts_inv in E. pose proof (Cut_sound _ _ _ _ E) as El.
  assert (Ei : Cut line init_uri = Some (b, a)).
  { unfold init_uri. apply (Cut_longer line marker ("init.mp4" +:+ dquote)).
    by rewrite append_assoc. }
  unfold ReplaceFirst. rewrite Ei. rewrite !append_assoc.
  set (line' := b +:+ marker +:+ cid +:+ ".mp4" +:+ dquote +:+ a).
  assert (HH : HasPrefix line' "#" = true).
  { apply HasPrefix_true in HP as [r HP]. rewrite HP in El. unfold line'.
    destruct b as [|x b]; [discriminate El|]. rewrite append_String in El. injection El as <- _.
    apply HasPrefix_true. eexists. by rewrite append_String. }
  assert (HHt : HasPrefix (TrimSpace line') "#" = true)
    by (by apply (HasPrefix_TrimSpace _ _ "#"%char "" "#"%char "")).
  split; [exact HH|]. unfold line_reference. rewrite HHt. rewrite bool_decide_eq_false_2 by (intros EB; by rewrite EB in HHt).
  unfold playlistURI. rewrite (uri_parts_intro line' b (cid +:+ ".mp4") a); [done| |].
  - unfold line'. rewrite !append_assoc. subst line. by apply (Cut_shift _ _ ("init.mp4" +:+ dquote +:+ a)).
  - destruct (asset_file cid ".mp4" HV ltac:(by_dec)) as (Hp & _). by apply Url.plain_no.
Qed.

Lemma rewrite_segment_line cid : validateCID cid = true ->
  line_reference (cid +:+ ".m4s") = Some (cid +:+ ".m4s").
Proof.
  intros HV. destruct (asset_file cid ".m4s" HV ltac:(by_dec)) as (Hp & Hne & _).
  unfold line_reference. rewrite TrimSpace_solid by (by apply Url.plain_solid).
  rewrite bool_decide_eq_false_2 by done. destruct (HasPrefix _ _) eqn:E; [|done].
  apply HasPrefix_true in E as [r E]. rewrite E in Hp. apply Forall_cons in Hp as [Hp _]. by vm_compute in Hp.
Qed.

Lemma prefix_clash s p q c d p' q' : p = String c p' -> q = String d q' -> c <> d ->
  HasPrefix s p = true -> HasPrefix s q = false.
Proof.
  intros -> -> Hcd [r ->]%HasPrefix_true. apply not_true_iff_false. intros [t E]%HasPrefix_true.
  rewrite !append_String in E. congruence.
Qed.

(** A line without assets keeps having none. *)
Lemma rewrite_plain_line dir files line :
  Contains line marker = false -> line_asset dir files line = None ->
  rewrite_line dir files line = line.
Proof.
  intros HM HA. unfold line_asset, line_file in HA. unfold rewrite_line.
  assert (HU : bool_decide (playlistURI line = Some "init.mp4") = false).
  { apply bool_decide_eq_false_2. unfold playlistURI, uri_parts. intros E.
    unfold Contains in HM. apply bool_decide_eq_false in HM. destruct (Cut line marker); [|done].
    by destruct HM. }
  rewrite HU, andb_false_r in HA.
  assert (HR : forall x, ReplaceFirst line init_uri x = line).
  { intros x. unfold ReplaceFirst. destruct (Cut line init_uri) as [[a b]|] eqn:E; [|done].
    exfalso. assert (Contains line marker = true); [|congruence].
    apply Contains_iff. apply Cut_sound in E. unfold init_uri in E. rewrite !append_assoc in E. eauto. }
  destruct (HasPrefix (TrimSpace line) "#EXT-X-MAP:") eqn:HP.
  - rewrite (prefix_clash _ "#EXT-X-MAP:" "seg_" "#"%char "s"%char "EXT-X-MAP:" "eg_") in * by done.
    cbn [andb] in *. destruct (files !! _); [by rewrite HR|done].
  - destruct (_ && _); [|done]. apply fmap_None in HA. cbn [fst] in HA. by rewrite HA.
Qed.

Lemma rewrite_line_reference dir files line :
  (forall p c, files !! p = Some c -> validateCID c = true) ->
  known_line dir files line = true ->
  option_Forall2 (fun r p => playlistReferenceCID r = Some p)
    (line_reference (rewrite_line dir files line)) (line_asset dir files line).
Proof.
  intros Hf HL. unfold known_line, bare_line in HL. destruct (line_asset dir files line) as [p|] eqn:HA.
  - unfold line_asset, line_file in HA. destruct (HasPrefix line "#EXT-X-MAP:" && _) eqn:HM.
    + apply andb_true_iff in HM as [HP HU%bool_decide_eq_true].
      apply fmap_Some in HA as (cid & Hc & ->). cbn [fst snd] in *. rewrite (proj2 (rewrite_map_line dir files line cid HP HU Hc (Hf _ _ Hc))).
      constructor. apply reference_asset; [eauto|by_dec].
    + destruct (HasPrefix (TrimSpace line) "seg_" && _) eqn:HS; [|done].
      apply fmap_Some in HA as (cid & Hc & ->). cbn [fst snd] in *. unfold rewrite_line. rewrite HS, Hc.
      apply andb_true_iff in HS as [HS _].
      rewrite (prefix_clash _ "seg_" "#EXT-X-MAP:" "s"%char "#"%char "eg_" "EXT-X-MAP:") by done.
      rewrite rewrite_segment_line by eauto. constructor. apply reference_asset; [eauto|by_dec].
  - rewrite (bool_decide_eq_false_2 (is_Some None)) in HL by (by intros [? ?]).
    rewrite orb_false_r in HL. go_bools. rewrite rewrite_plain_line by done.
    replace (line_reference line) with (@None string). constructor.
Qed.

Lemma rewrite_line_no_newline dir files line :
  (forall p c, files !! p = Some c -> validateCID c = true) ->
  (newline ∉ chars line) -> newline ∉ chars (rewrite_line dir files line).
Proof.
  intros Hf Hn. unfold rewrite_line.
  assert (Hc : forall p c e, files !! p = Some c -> e ∈ asset_extensions -> newline ∉ chars (c +:+ e)).
  { intros p c e Hp He. destruct (asset_file c e) as (HP & _); [eauto|done|]. by apply Url.plain_no. }
  set (seg := if _ && _ then _ else line).
  assert (Hseg : newline ∉ chars seg).
  { unfold seg. destruct (_ && _); [|done]. destruct (files !! _) eqn:E; [|done].
    eapply Hc; [exact E|by_dec]. }
  destruct (HasPrefix _ "#EXT-X-MAP:"); [|exact Hseg].
  destruct (files !! PathJoin dir "init.mp4") as [c|] eqn:E; [|exact Hseg].
  unfold ReplaceFirst. destruct (Cut line init_uri) as [[a b]|] eqn:EC; [|done].
  apply Cut_sound in EC. rewrite EC, !chars_append, !elem_of_app in Hn.
  specialize (Hc _ _ ".mp4" E ltac:(by_dec)). rewrite chars_append, elem_of_app in Hc.
  rewrite !chars_append, !elem_of_app. intros Hin.
  assert (Hm : newline ∉ chars marker) by by_dec. assert (Hd : newline ∉ chars dquote) by by_dec.
  naive_solver.
Qed.

(** And it can be rewritten again for a player. *)
Lemma rewrite_line_neat dir files line :
  (forall p c, files !! p = Some c -> validateCID c = true) -> (newline ∉ chars line) ->
  known_line dir files line = true -> Player.neat (rewrite_line dir files line).
Proof.
  intros Hf Hn HL. split; [by apply rewrite_line_no_newline|].
  pose proof (rewrite_line_reference dir files line Hf HL) as HR. destruct (line_asset dir files line) as [[c e]|] eqn:HA.
  - inversion HR as [r p Hr Hl1 Hl2|]; subst. split.
    + exists c, e. split; [done|]. unfold line_asset in HA. destruct (line_file dir line) as [[path e']|] eqn:HLf; [|done].
      apply fmap_Some in HA as (c' & _ & [= -> ->]). unfold line_file in HLf.
      destruct (_ && bool_decide _); [|destruct (_ && HasSuffix _ _); [|done]]; injection HLf as _ <-; by apply Player.address_const.
    + intros HT. unfold line_asset, line_file in HA. destruct (HasPrefix line "#EXT-X-MAP:" && _) eqn:HM.
      * apply andb_true_iff in HM as [HP HU%bool_decide_eq_true].
        apply fmap_Some in HA as (cid & Hc & [= -> ->]). exact (proj1 (rewrite_map_line dir files line cid HP HU Hc (Hf _ _ Hc))).
      * destruct (HasPrefix (TrimSpace line) "seg_" && _) eqn:HS; [|done].
        apply fmap_Some in HA as (cid & Hc & [= -> ->]). cbn [fst] in Hc. revert HT. unfold rewrite_line. rewrite HS, Hc.
        apply andb_true_iff in HS as [HS _].
        rewrite (prefix_clash _ "seg_" "#EXT-X-MAP:" "s"%char "#"%char "eg_" "EXT-X-MAP:") by done.
        destruct (asset_file cid ".m4s" (Hf _ _ Hc) ltac:(by_dec)) as (Hp & _).
        by rewrite TrimSpace_solid by by apply Url.plain_solid.
  - inversion HR; subst. assert (HB : bare_line line = true).
    { unfold known_line in HL. rewrite HA, (bool_decide_eq_false_2 (is_Some None)), orb_false_r in HL by (by intros [? ?]). done. }
    unfold bare_line in HB. apply andb_true_iff in HB as [HM%negb_true_iff _]. rewrite rewrite_plain_line by done.
    apply not_true_iff_false. intros HC. apply not_true_iff_false in HM. apply HM.
    apply Contains_iff in HC as (a & b & HE). destruct (TrimSpace_decomp line) as (w1 & w2 & E & _). apply Contains_iff.
    exists (w1 +:+ a), (b +:+ w2). rewrite E, HE, !append_assoc. done.
Qed.

(** The rewritten playlist of a variant is read back as the assets of ffmpeg's. *)
Lemma rewritten_assets dir relPath files content text :
  (forall p c, files !! p = Some c -> validateCID c = true) ->
  ReadFile dir relPath = Some content ->
  rewriteVariantPlaylist dir relPath files = Some text ->
  forallb (known_line (Dir relPath) files) (lines_of content) = true ->
  forall w, linkedVariantAssetCID text w =
    if 0 <=? w then omap (line_asset (Dir relPath) files) (lines_of content) !! Z.to_nat w else None.
Proof.
  intros Hf HR HW HL w. unfold rewriteVariantPlaylist in HW. rewrite HR in HW. injection HW as <-.
  rewrite forallb_forall in HL.
  assert (Hn : Forall (fun l => newline ∉ chars l) (rewrite_line (Dir relPath) files <$> lines_of content)).
  { apply Forall_fmap. eapply Forall_impl; [apply Split_no_sep|]. intros l Hl. by apply rewrite_line_no_newline. }
  unfold linkedVariantAssetCID. rewrite Split_write_lines by done.
  rewrite (assetCID_from_lookup _ (omap (line_asset (Dir relPath) files) (lines_of content))); [|..|lia].
  - by rewrite Z.sub_0_r.
  - rewrite omap_app. rewrite app_nil_r by done. clear Hn HR.
    induction (lines_of content) as [|l ls IH]; [constructor|].
    assert (HR : option_Forall2 (fun r p => playlistReferenceCID r = Some p)
      (line_reference (rewrite_line (Dir relPath) files l)) (line_asset (Dir relPath) files l)).
    { apply rewrite_line_reference; [done|]. apply HL. by left. }
    assert (IH' := IH (fun x Hx => HL x (or_intror Hx))). cbn.
    inversion HR; [constructor|]; done.
Qed.

(** Every reference of ffmpeg's is known once its files are stored. *)
Lemma ffmpeg_known paths variantDir content files : ffmpeg_playlist paths variantDir content ->
  (forall q, q ∈ paths -> is_Some (files !! q)) -> forallb (known_line variantDir files) (lines_of content) = true.
Proof.
  intros Hff Hsome. apply forallb_forall. intros l Hl%list_elem_of_In. unfold known_line, line_asset.
  destruct (Hff l Hl) as [->|(q & ext & Hlf & Hq)]; [done|]. apply orb_true_iff. right.
  apply bool_decide_eq_true. rewrite Hlf. unfold asset_of. cbn [fst]. destruct (Hsome q Hq) as [c ->]. by eexists.
Qed.

Lemma rewritten_neat dir relPath files content text :
  (forall p c, files !! p = Some c -> validateCID c = true) ->
  ReadFile dir relPath = Some content -> rewriteVariantPlaylist dir relPath files = Some text ->
  forallb (known_line (Dir relPath) files) (lines_of content) = true -> Forall Player.neat (lines_of text).
Proof.
  intros Hf HR HW HL. unfold rewriteVariantPlaylist in HW. rewrite HR in HW. injection HW as <-.
  rewrite forallb_forall in HL. pose proof (Split_no_sep content newline) as HS. rewrite Forall_forall in HS.
  rewrite Split_write_lines.
  - apply Forall_app. split; [|apply Forall_singleton; split; [by_dec|done]]. apply Forall_fmap, Forall_forall. intros l Hl.
    apply rewrite_line_neat; [done|by apply HS|by apply HL, list_elem_of_In].
  - apply Forall_fmap, Forall_forall. intros l Hl. apply rewrite_line_no_newline; [done|by apply HS].
Qed.

(** ** The master, read back *)

Definition to_poster (p : posterEntry) : poster := mkPoster (pe_cid p) (pe_size p) (pe_variant p).

(** A poster whose attributes hold no separator. *)
Definition poster_ok (p : posterEntry) : Prop :=
  validateCID (pe_cid p) = true /\ Url.plain (pe_variant p) /\ Url.plain (pe_size p) /\ pe_size p <> "".

Definition poster_attrs (p : posterEntry) : string :=
  (if bool_decide (pe_variant p = "") then "" else "VARIANT=" +:+ pe_variant p +:+ ",") +:+
  "SIZE=" +:+ pe_size p +:+ ",".
Definition poster_uri (p : posterEntry) : string := "../segment/" +:+ pe_cid p +:+ ".jpg".

Lemma poster_text_parts p :
  poster_text p = (poster_prefix +:+ poster_attrs p) +:+ marker +:+ poster_uri p +:+ dquote.
Proof. unfold poster_text, poster_attrs, poster_uri. case_bool_decide; by rewrite !append_assoc. Qed.

Lemma poster_attrs_chars p c : poster_ok p -> Url.plain_byte c = false -> c <> ","%char -> c <> "="%char ->
  c ∉ chars (poster_attrs p).
Proof.
  intros (_ & Hv & Hs & _) Hc H1 H2. unfold poster_attrs.
  pose proof (Url.plain_no _ c Hv Hc). pose proof (Url.plain_no _ c Hs Hc).
  assert (Hk : forall k, forallb (fun c => Url.plain_byte c || bool_decide (c ∈ [","; "="]%char)) (chars k) = true ->
    c ∉ chars k).
  { intros k Hk Hin%list_elem_of_In. rewrite forallb_forall in Hk. apply Hk in Hin. rewrite Hc in Hin.
    apply bool_decide_eq_true in Hin. repeat (apply elem_of_cons in Hin as [?|Hin]; [done|]). by apply not_elem_of_nil in Hin. }
  pose proof (Hk "VARIANT=" eq_refl). pose proof (Hk "SIZE=" eq_refl). pose proof (Hk "," eq_refl).
  case_bool_decide; rewrite !chars_append, !elem_of_app; [|tauto]. intros [Hin%not_elem_of_nil|?]; tauto.
Qed.

Lemma poster_uri_plain p : poster_ok p -> Url.plain (poster_uri p).
Proof.
  intros (HV & _). apply Url.plain_append. split; [by apply (bool_decide_unpack _); vm_compute|].
  by apply asset_file; [|by_dec].
Qed.

Lemma poster_text_byte p c : poster_ok p -> c ∈ chars (poster_text p) ->
  Url.plain_byte c = true \/ c ∈ [","; "="; "#"; ":"; chr 34]%char.
Proof.
  intros Hp Hc. destruct (Url.plain_byte c) eqn:E; [by left|right].
  destruct (decide (c = ","%char)) as [->|H1]; [by_dec|]. destruct (decide (c = "="%char)) as [->|H2]; [by_dec|].
  rewrite poster_text_parts, !chars_append, !elem_of_app in Hc.
  assert (Hconst : forall k, forallb (fun c => Url.plain_byte c || bool_decide (c ∈ [","; "="; "#"; ":"; chr 34]%char)) (chars k) = true ->
    c ∈ chars k -> c ∈ [","; "="; "#"; ":"; chr 34]%char).
  { intros k Hk Hin. rewrite forallb_forall in Hk. apply list_elem_of_In in Hin. apply Hk in Hin.
    rewrite E in Hin. by apply bool_decide_eq_true in Hin. }
  destruct Hc as [[Hc|Hc]|[Hc|[Hc|Hc]]].
  - by apply (Hconst poster_prefix).
  - by apply (poster_attrs_chars p c) in Hc.
  - by apply (Hconst marker).
  - exfalso. by apply (Url.plain_no (poster_uri p) c) in Hc; [|apply poster_uri_plain|].
  - by apply (Hconst dquote).
Qed.

Lemma poster_text_trim p : poster_ok p -> TrimSpace (poster_text p) = poster_text p.
Proof.
  intros Hp. apply TrimSpace_solid, solid_all. apply Forall_forall. intros c Hc.
  apply poster_text_byte in Hc as [Hc|Hc]; [by apply Url.plain_byte_spec|..|done].
  repeat (apply elem_of_cons in Hc as [->|Hc]; [done|]). by apply not_elem_of_nil in Hc.
Qed.

Lemma poster_text_no_newline p : poster_ok p -> newline ∉ chars (poster_text p).
Proof. intros Hp [Hc|Hc]%poster_text_byte; [by vm_compute in Hc|by revert Hc; by_dec|done]. Qed.

Lemma poster_line_text p : poster_ok p -> poster_line (poster_text p) = Ok (Some (to_poster p)).
Proof.
  intros Hp. pose proof Hp as (HV & Hv & Hs & Hne). unfold poster_line. rewrite poster_text_trim by done.
  assert (HP : HasPrefix (poster_text p) poster_prefix = true).
  { apply HasPrefix_true. rewrite poster_text_parts. eexists. by rewrite append_assoc. }
  rewrite HP. cbn [negb].
  assert (HU : playlistURI (poster_text p) = Some (poster_uri p)).
  { unfold playlistURI. rewrite (uri_parts_intro _ (poster_prefix +:+ poster_attrs p) (poster_uri p) ""); [done|..].
    - rewrite append_nil_r, poster_text_parts. unfold marker at 1 2. apply (Cut_last _ "URI=" (chr 34)); [|by_dec].
      rewrite chars_append, elem_of_app. intros [Hc|Hc]; [by revert Hc; by_dec|].
      by apply poster_attrs_chars in Hc.
    - apply Url.plain_no; [by apply poster_uri_plain|done]. }
  rewrite HU. unfold poster_uri. rewrite reference_segment by (done || by_dec). cbn iota beta.
  rewrite bool_decide_eq_false_2 by naive_solver.
  rewrite poster_text_parts, append_assoc, TrimPrefix_app. unfold poster_attrs.
  assert (HC : forall s, Url.plain s -> ","%char ∉ chars s) by (intros s ?; by apply Url.plain_no).
  assert (HURI : Split (marker +:+ poster_uri p +:+ dquote) ","%char = [marker +:+ poster_uri p +:+ dquote]).
  { apply Split_no. rewrite !chars_append, !elem_of_app. intros [Hc|[Hc|Hc]]; [by revert Hc; by_dec| |by revert Hc; by_dec].
    by apply (HC _ (poster_uri_plain p Hp)). }
  assert (HSZ : forall r, Split ("SIZE=" +:+ pe_size p +:+ "," +:+ r) ","%char =
    ("SIZE=" +:+ pe_size p) :: Split r ","%char).
  { intros r. rewrite <- (append_assoc "SIZE="). apply Split_app_sep. rewrite chars_append, elem_of_app.
    intros [Hc|Hc]; [by revert Hc; by_dec|by apply (HC _ Hs)]. }
  assert (HS : forall q, poster_attr q ("SIZE=" +:+ pe_size p) = mkPoster (p_cid q) (pe_size p) (p_variant q)).
  { intros q. unfold poster_attr. rewrite CutPrefix_app. by rewrite (CutPrefix_clash _ _ "V"%char "S"%char "ARIANT=" ("IZE=" +:+ pe_size p)). }
  assert (HUA : forall q, poster_attr q (marker +:+ poster_uri p +:+ dquote) = q).
  { intros q. unfold poster_attr. set (t := marker +:+ _).
    rewrite (CutPrefix_clash "SIZE=" t "S"%char "U"%char "IZE=" ("RI=" +:+ dquote +:+ poster_uri p +:+ dquote)) by done.
    by rewrite (CutPrefix_clash "VARIANT=" t "V"%char "U"%char "ARIANT=" ("RI=" +:+ dquote +:+ poster_uri p +:+ dquote)). }
  unfold to_poster. destruct (decide (pe_variant p = "")) as [Hv0|Hv0];
    [rewrite (bool_decide_eq_true_2 _ Hv0)|rewrite (bool_decide_eq_false_2 _ Hv0)].
  - rewrite append_nil_l, !append_assoc, HSZ, HURI. cbn [foldl]. rewrite HS, HUA. cbn [p_cid p_size p_variant].
    rewrite bool_decide_eq_false_2 by done. by rewrite Hv0.
  - rewrite !append_assoc. rewrite <- (append_assoc "VARIANT=").
    change ("," +:+ "SIZE=" +:+ ?x) with (String ","%char ("SIZE=" +:+ x)).
    rewrite Split_app_sep; [|rewrite chars_append, elem_of_app; intros [Hc|Hc]; [by revert Hc; by_dec|by apply (HC _ Hv)]].
    rewrite HSZ, HURI. cbn [foldl].
    assert (HVA : forall q, poster_attr q ("VARIANT=" +:+ pe_variant p) = mkPoster (p_cid q) (p_size q) (pe_variant p)).
    { intros q. unfold poster_attr. rewrite (CutPrefix_clash "SIZE=" _ "S"%char "V"%char "IZE=" ("ARIANT=" +:+ pe_variant p)) by done.
      by rewrite CutPrefix_app. }
    rewrite HVA, HS, HUA. cbn [p_cid p_size p_variant]. by rewrite bool_decide_eq_false_2.
Qed.

Lemma poster_text_tag p : poster_ok p -> HasPrefix (TrimSpace (poster_text p)) "#" = true.
Proof.
  intros Hp. rewrite poster_text_trim by done. apply HasPrefix_true. rewrite poster_text_parts.
  eexists. rewrite append_assoc. reflexivity.
Qed.

Lemma stream_inf_ok r : r ∈ renditions ->
  poster_line (stream_inf r) = Ok None /\ HasPrefix (TrimSpace (stream_inf r)) "#" = true /\
  newline ∉ chars (stream_inf r).
Proof.
  intros Hr. repeat (apply elem_of_cons in Hr as [->|Hr]); [..|by apply not_elem_of_nil in Hr];
    (split_and!; [vm_compute; reflexivity|vm_compute; reflexivity|by_dec]).
Qed.

Lemma segment_line cid : validateCID cid = true ->
  let line := "../segment/" +:+ cid +:+ ".m3u8" in
  TrimSpace line = line /\ HasPrefix line "#" = false /\ (newline ∉ chars line) /\
  poster_line line = Ok None.
Proof.
  intros HV line. assert (Hp : Url.plain line).
  { apply Url.plain_append. split; [by apply (bool_decide_unpack _); vm_compute|].
    by apply asset_file; [|by_dec]. }
  assert (HT : TrimSpace line = line) by (by apply TrimSpace_solid, Url.plain_solid).
  split_and!; [done| |by apply Url.plain_no|].
  - by apply (prefix_clash _ "." "#" "."%char "#"%char "" "").
  - unfold poster_line. rewrite HT.
    by rewrite (prefix_clash _ "." poster_prefix "."%char "#"%char "" "EXT-X-IAMFREE-POSTER:").
Qed.

(** The lines of a master of known posters and valid identifiers. *)
Definition master_lines (variantCIDs : gmap string string) (files : list (string * string)) : list string :=
  "#EXTM3U" :: (poster_text <$> collectPosters files) ++ concat (rendition_lines variantCIDs <$> renditions).

Section master.
Variables (v : gmap string string) (files : list (string * string)).
Hypothesis valid : forall p c, v !! p = Some c -> validateCID c = true.
Hypothesis ok : Forall poster_ok (collectPosters files).

Lemma rendition_lines_ok rs : rs ⊆ renditions ->
  Forall (fun l => newline ∉ chars l) (concat (rendition_lines v <$> rs)) /\
  posters_of (concat (rendition_lines v <$> rs) ++ [""]) = Ok [] /\
  forall w i, 0 <= i -> masterCID_from (concat (rendition_lines v <$> rs) ++ [""]) w i =
    if i <=? w then omap (fun r => v !! r.1) rs !! Z.to_nat (w - i) else None.
Proof.
  induction rs as [|r rs IH]; intros Hrs.
  - split_and!; [constructor|done|]. intros w i _. simpl. by case_match.
  - destruct (stream_inf_ok r) as (H1 & H2 & H3); [apply Hrs; by left|].
    destruct IH as (I1 & I2 & I3); [intros x Hx; apply Hrs; by right|].
    rewrite fmap_cons. cbn [concat]. unfold rendition_lines at 1 3 5. cbn [omap list_omap].
    destruct (v !! r.1) as [c|] eqn:E; [|done].
    destruct (segment_line c) as (S1 & S2 & S3 & S4); [by eapply valid|].
    split_and!; [by repeat constructor| |].
    + cbn [app posters_of]. by rewrite H1, S4.
    + intros w i Hi. cbn [app masterCID_from]. rewrite H2, orb_true_r.
      rewrite S1, S2, orb_false_r. rewrite bool_decide_eq_false_2 by (by destruct c).
      rewrite reference_segment; [|by eapply valid|by_dec]. cbn iota beta.
      rewrite bool_decide_eq_false_2 by naive_solver.
      destruct (i =? w) eqn:EW.
      * apply Z.eqb_eq in EW as ->. by rewrite Z.leb_refl, Z.sub_diag.
      * apply Z.eqb_neq in EW. rewrite I3 by lia. destruct (Z.leb_spec i w).
        -- rewrite (proj2 (Z.leb_le _ _)) by lia.
           by replace (Z.to_nat (w - i)) with (S (Z.to_nat (w - (i + 1)))) by lia.
        -- by rewrite (proj2 (Z.leb_gt _ _)) by lia.
Qed.

Lemma master_split : lines_of (buildMasterPlaylist v files) = master_lines v files ++ [""].
Proof.
  apply Split_write_lines. constructor; [by_dec|]. apply Forall_app. split; [|by apply rendition_lines_ok].
  apply Forall_fmap. eapply Forall_impl; [exact ok|]. intros p Hp. by apply poster_text_no_newline.
Qed.

(** The master names the renditions that were made, from low to high. *)
Lemma master_renditions w : linkedMasterPlaylistCID (buildMasterPlaylist v files) w =
  if 0 <=? w then omap (fun r => v !! r.1) renditions !! Z.to_nat w else None.
Proof.
  unfold linkedMasterPlaylistCID. rewrite master_split. unfold master_lines.
  destruct (rendition_lines_ok renditions) as (_ & _ & HM); [done|].
  rewrite <- app_comm_cons, <- app_assoc. cbn [masterCID_from].
  change (bool_decide (TrimSpace "#EXTM3U" = "") || HasPrefix (TrimSpace "#EXTM3U") "#") with true. cbn iota.
  specialize (HM w 0 ltac:(lia)). rewrite Z.sub_0_r in HM. rewrite <- HM.
  clear HM. generalize ok. generalize (collectPosters files).
  induction 1 as [|p ps Hp HF IH]; [done|]. cbn [fmap list_fmap app masterCID_from].
  by rewrite poster_text_tag, orb_true_r.
Qed.

(** It can be rewritten for a player. *)
Lemma master_neat : Forall Player.neat_master (lines_of (buildMasterPlaylist v files)).
Proof.
  assert (Htag : forall l, (newline ∉ chars l) -> HasPrefix (TrimSpace l) "#" = true ->
    (Contains (TrimSpace l) marker = true -> HasPrefix l "#" = true /\ is_Some (playlistURI l)) -> Player.neat_master l).
  { intros l Hn Ht Hm. split; [done|]. split; [|done]. unfold plain_line. by rewrite Ht, andb_false_r. }
  rewrite master_split. unfold master_lines. apply Forall_cons. split; [apply Htag; [by_dec|done|done]|].
  rewrite !Forall_app. split_and!; [| |].
  - apply Forall_fmap. eapply Forall_impl; [exact ok|]. intros p Hp.
    apply Htag; [by apply poster_text_no_newline|by apply poster_text_tag|]. intros _.
    split; [rewrite <- (poster_text_trim p Hp); by apply poster_text_tag|].
    pose proof (poster_line_text p Hp) as HL. unfold poster_line in HL. rewrite poster_text_trim in HL by done.
    destruct (negb _); [done|]. destruct (playlistURI _); [by eexists|done].
  - apply Forall_concat, Forall_fmap, Forall_forall. intros r Hr. cbn. unfold rendition_lines.
    destruct (v !! r.1) as [c|] eqn:E; [|constructor]. destruct (stream_inf_ok r Hr) as (_ & S1 & S2).
    apply Forall_cons. split; [|apply Forall_singleton].
    + apply Htag; [done|done|]. intros HC. exfalso. revert HC.
      repeat (apply elem_of_cons in Hr as [->|Hr]; [by vm_compute|]). by apply not_elem_of_nil in Hr.
    + destruct (segment_line c (valid _ _ E)) as (T1 & T2 & T3 & _). split; [done|]. rewrite T1. split.
      * intros _. exists c. apply reference_segment; [by eapply valid|by_dec].
      * by rewrite T2.
  - apply Forall_singleton. split; [by_dec|]. by split.
Qed.

(** Its posters are those that were collected. *)
Lemma master_posters : posters_of (lines_of (buildMasterPlaylist v files)) = Ok (to_poster <$> collectPosters files).
Proof.
  rewrite master_split. unfold master_lines. destruct (rendition_lines_ok renditions) as (_ & HM & _); [done|].
  rewrite <- app_comm_cons, <- app_assoc. cbn [posters_of].
  change (poster_line "#EXTM3U") with (Ok None : result unit (option poster)). cbn iota.
  generalize ok. generalize (collectPosters files). induction 1 as [|p ps Hp HF IH].
  { cbn [fmap list_fmap app]. by rewrite HM. }
  cbn [fmap list_fmap app posters_of].
  rewrite poster_line_text by done. by rewrite IH.
Qed.
End master.

End read_back.

(** ** Runs *)

(** What an adder makes of a log, one successful addition after the other. *)
Inductive grows (add : IPFSAdder) (log : list addition) : list addition -> Prop :=
| grows_none : grows add log log
| grows_add log1 name data cid : grows add log log1 -> add log1 name data = Some cid ->
    grows add log (log1 ++ [mkAddition name data cid]).

#[global] Instance grows_preorder add : PreOrder (grows add).
Proof.
  split; [constructor|]. intros a b c Hab Hbc. induction Hbc as [|log1 name data cid _ IH HA]; [done|].
  by constructor.
Qed.

Lemma grows_prefix add log log' : grows add log log' -> log `prefix_of` log'.
Proof. induction 1 as [|log1 name data cid _ IH _]; [done|]. by apply prefix_app_r. Qed.

(** A computation that only adds with this adder. *)
Definition growing (add : IPFSAdder) {A} (m : M A) : Prop :=
  forall log r log', m log = (r, log') -> grows add log log'.

Lemma growing_ret add {A} (a : A) : growing add (mret a : M A).
Proof. intros log r log' [= _ <-]. constructor. Qed.

Lemma growing_throw add {A} e : growing add (throw e : M A).
Proof. intros log r log' [= _ <-]. constructor. Qed.

Lemma growing_bind add {A B} (m : M A) (f : A -> M B) :
  growing add m -> (forall a, growing add (f a)) -> growing add (m ≫= f).
Proof.
  intros Hm Hf log r log' HB. cbv [mbind M_bind] in HB. destruct (m log) as [[a|e] log1] eqn:E.
  - etrans; [by eapply Hm|by eapply Hf].
  - injection HB as _ <-. by eapply Hm.
Qed.

Lemma growing_add add e name content : growing add (addFile add e name content).
Proof.
  intros log r log'. unfold addFile. destruct (add log name content) as [cid|] eqn:E; intros [= _ <-]; [|constructor].
  by constructor; [constructor|].
Qed.

Create HintDb growing.
#[export] Hint Resolve growing_ret growing_throw growing_bind growing_add : growing.

Lemma walk_growing add dir files all : growing add (walk add dir files all).
Proof.
  revert files all. induction dir as [|[path [c|]] dir IH]; intros files all; cbn [walk]; auto with growing.
Qed.

Lemma upload_playlists_growing add dir files fs v all : growing add (upload_playlists add dir files fs v all).
Proof.
  revert v all. induction fs as [|[path c] fs IH]; intros v all; cbn [upload_playlists]; [auto with growing|].
  destruct (HasSuffix _ _); [|apply IH]. destruct (rewriteVariantPlaylist _ _ _); unfold reuploadContent; auto with growing.
Qed.

#[export] Hint Resolve walk_growing upload_playlists_growing : growing.

(** Adding is all that storing does to the cluster, whether it succeeds or not. *)
Lemma UploadDir_grows `{Ranges} add dir : growing add (UploadDir (NewUploader (Some add)) dir).
Proof.
  unfold UploadDir. cbn [adder NewUploader]. apply growing_bind; [auto with growing|]. intros [files all].
  case_bool_decide; [auto with growing|]. apply growing_bind; [auto with growing|]. intros [v all'].
  unfold reuploadContent. auto with growing.
Qed.

Lemma UploadDir_prefix `{Ranges} u dir log r log' : UploadDir u dir log = (r, log') -> log `prefix_of` log'.
Proof.
  destruct u as [[add|]]; [|by intros [= _ <-]]. intros HU. by eapply grows_prefix, UploadDir_grows.
Qed.

(** [a] stores the file [f]. *)
Definition stores (f : string * option string) (a : addition) : Prop :=
  a_name a = Base f.1 /\ f.2 = Some (a_data a).

Definition is_playlist (path : string) : bool := HasSuffix path "playlist.m3u8".

Lemma walk_Ok add dir files all log files' all' log' :
  walk add dir files all log = (Ok (files', all'), log') ->
  NoDup dir.*1 -> (forall p, p ∈ dir.*1 -> files !! p = None) ->
  exists first, log' = log ++ first /\ all' = all ++ (a_cid <$> first) /\ Forall2 stores dir first /\
    map_to_list files' ≡ₚ map_to_list files ++ zip dir.*1 (a_cid <$> first).
Proof.
  revert files all log. induction dir as [|[p [content|]] dir IH]; intros files all log; cbn [walk].
  - intros [= <- <- <-] _ _. exists []. by rewrite !app_nil_r.
  - unfold mbind, M_bind, addFile. destruct (add log (Base p) content) as [cid|] eqn:EA; [|done].
    intros HW HN Hfr. apply NoDup_cons in HN as [Hp HN].
    assert (Hfp : files !! p = None) by (apply Hfr; by left).
    apply IH in HW as (first & -> & -> & HF & HM); [|done|].
    2:{ intros q Hq. rewrite lookup_insert_ne by (intros ->; done). apply Hfr. by right. }
    exists (mkAddition (Base p) content cid :: first). split_and!.
    + by rewrite <- app_assoc.
    + by rewrite <- app_assoc.
    + by constructor.
    + rewrite HM, map_to_list_insert by done. cbn. by rewrite <- Permutation_middle.
  - done.
Qed.

Lemma replaceInSlice_perm s old new rest : s ≡ₚ old :: rest -> replaceInSlice s old new ≡ₚ new :: rest.
Proof.
  revert rest. induction s as [|x s IH]; intros rest HP; [by apply Permutation_nil_cons in HP|].
  cbn [replaceInSlice]. case_bool_decide as E.
  - subst x. by apply (inj (cons old)) in HP as ->.
  - assert (Hin : x ∈ rest).
    { assert (Hx : x ∈ old :: rest) by (rewrite <- HP; by left). by apply elem_of_cons in Hx as [?|?]. }
    apply elem_of_Permutation in Hin as [rest' Hr]. rewrite Hr in HP |- *.
    rewrite (Permutation_swap x new), <- (IH rest'); [done|].
    rewrite (Permutation_swap x old) in HP. by apply (inj (cons x)) in HP.
Qed.

(** [a] stores the rewritten form of the playlist [f]. *)
Definition restores (dir : directory) (files : gmap string string) (f : string * string) (a : addition) : Prop :=
  a_name a = Base f.1 /\ rewriteVariantPlaylist dir f.1 files = Some (a_data a).

Lemma upload_playlists_Ok add dir files fs v all log v' all' log' rest :
  upload_playlists add dir files fs v all log = (Ok (v', all'), log') ->
  let playlists := filter (fun f => is_playlist f.1 = true) fs in
  all ≡ₚ playlists.*2 ++ rest ->
  exists second, log' = log ++ second /\ all' ≡ₚ (a_cid <$> second) ++ rest /\
    Forall2 (restores dir files) playlists second /\
    v' = foldl (fun m fa => <[Dir fa.1.1 := a_cid fa.2]> m) v (zip playlists second).
Proof.
  cbn zeta. revert v all log rest. induction fs as [|[p cid] fs IH]; intros v all log rest; cbn [upload_playlists].
  - intros [= <- <- <-] HP. exists []. rewrite !app_nil_r. split_and!; [done|by rewrite HP|constructor|done].
  - unfold is_playlist in *. destruct (HasSuffix p "playlist.m3u8") eqn:HS.
    + rewrite filter_cons_True by done. destruct (rewriteVariantPlaylist dir p files) as [text|] eqn:HR; [|done].
      unfold mbind, M_bind, reuploadContent, addFile. destruct (add log (Base p) text) as [new|]; [|done].
      intros HU HP. cbn in HP. apply replaceInSlice_perm with (new := new) in HP.
      rewrite Permutation_middle in HP. apply (IH _ _ _ (new :: rest)) in HU as (second & -> & HA & HF & ->); [|done].
      exists (mkAddition (Base p) text new :: second). split_and!.
      * by rewrite <- app_assoc.
      * rewrite HA. cbn. by rewrite <- Permutation_middle.
      * by constructor.
      * done.
    + rewrite filter_cons_False by (cbn; congruence). apply IH.
Qed.

Lemma fill_frame fs res : MasterCID (foldl fill res fs) = MasterCID res /\
  VariantCIDs (foldl fill res fs) = VariantCIDs res /\ AllCIDs (foldl fill res fs) = AllCIDs res.
Proof.
  revert res. induction fs as [|[p c] fs IH]; intros res; [done|]. cbn [foldl].
  destruct (IH (fill res (p, c))) as (-> & -> & ->). unfold fill.
  destruct (posterFromPath p) as [q|]; [|done]. by case_bool_decide.
Qed.

(** Everything a successful upload does. *)
Lemma UploadDir_Ok `{RangesLaws} u dir log res log' :
  UploadDir u dir log = (Ok res, log') -> NoDup dir.*1 ->
  exists files first second,
    let playlists := filter (fun f => is_playlist f.1 = true) (range 0 files) in
    let master := buildMasterPlaylist (VariantCIDs res) (range 1 files) in
    log' = log ++ first ++ second ++ [mkAddition "master.m3u8" master (MasterCID res)] /\
    Forall2 stores dir first /\ Forall2 (restores dir files) playlists second /\
    map_to_list files ≡ₚ zip dir.*1 (a_cid <$> first) /\
    VariantCIDs res = foldl (fun m fa => <[Dir fa.1.1 := a_cid fa.2]> m) ∅ (zip playlists second) /\
    (exists rest, a_cid <$> first ≡ₚ playlists.*2 ++ rest /\
       AllCIDs res ≡ₚ (a_cid <$> second) ++ rest ++ [MasterCID res]) /\
    res = foldl fill (mkUploadResult (MasterCID res) (VariantCIDs res) ∅ ∅ ∅ (AllCIDs res)) (range 2 files).
Proof.
  unfold UploadDir. destruct (adder u) as [add|]; [|done]. unfold mbind, M_bind at 1.
  destruct (walk add dir ∅ [] log) as [[[files all]|] log1] eqn:HW; [|done].
  case_bool_decide; [done|]. unfold M_bind at 1.
  destruct (upload_playlists add dir files (range 0 files) ∅ all log1) as [[[v all']|] log2] eqn:HU; [|done].
  unfold M_bind, reuploadContent, addFile.
  destruct (add log2 "master.m3u8" _) as [m|] eqn:HM; [|done]. intros [= <- <-] HN.
  apply walk_Ok in HW as (first & -> & -> & HF & HP); [|done|intros; apply lookup_empty].
  rewrite map_to_list_empty in HP. cbn [app] in HP.
  set (playlists := filter (fun f => is_playlist f.1 = true) (range 0 files)).
  assert (HR : a_cid <$> first ≡ₚ playlists.*2 ++ (filter (fun f => is_playlist f.1 <> true) (range 0 files)).*2).
  { assert (HL : length dir.*1 = length (a_cid <$> first)).
    { rewrite !length_fmap. by eapply Forall2_length. }
    rewrite <- (snd_zip dir.*1 (a_cid <$> first)) at 1 by lia. rewrite <- HP, <- (range_perm 0 files), <- fmap_app.
    apply fmap_Permutation. symmetry. apply filter_app_complement. }
  rewrite app_nil_l in HU. apply (upload_playlists_Ok _ _ _ _ _ _ _ _ _ _ _ HU) in HR as HX.
  destruct HX as (second & -> & HA & HF2 & ->).
  exists files, first, second. cbn zeta.
  match goal with |- context [foldl fill ?r ?fs] => destruct (fill_frame fs r) as (E1 & E2 & E3) end.
  rewrite E1, E2, E3. cbn [MasterCID VariantCIDs AllCIDs]. split_and!; [|done..| |done].
  - by rewrite <- !app_assoc.
  - eexists. split; [exact HR|]. by rewrite HA, <- app_assoc.
Qed.

(** A directory was stored only if all of it could be read. *)
Lemma UploadDir_read `{RangesLaws} u dir log res log' p o :
  UploadDir u dir log = (Ok res, log') -> NoDup dir.*1 -> (p, o) ∈ dir -> is_Some o.
Proof.
  intros HU HN Hin. destruct (UploadDir_Ok u dir log res log' HU HN) as (_ & first & _ & _ & HF & _). cbn zeta in HF.
  apply list_elem_of_lookup in Hin as [k Hk]. destruct (Forall2_lookup_l _ _ _ _ _ HF Hk) as (a & _ & _ & Ha).
  cbn in Ha. by rewrite Ha.
Qed.

(** ** Posters, as a map from variant and size *)

Definition poster_lookup (res : UploadResult) (p : posterPath) : option string :=
  if bool_decide (pp_variant p = "") then PosterCIDs res !! pp_size p
  else PrivacyPosterCIDs res !! pp_variant p ≫= (.!! pp_size p).

#[export] Instance posterPath_eq : EqDecision posterPath.
Proof. solve_decision. Defined.

Lemma poster_lookup_fill res p c pp :
  poster_lookup (fill res (p, c)) pp =
  if bool_decide (posterFromPath p = Some pp) then Some c else poster_lookup res pp.
Proof.
  unfold poster_lookup, fill. destruct (posterFromPath p) as [[v s]|]; [|done].
  destruct pp as [v' s']. cbn [pp_variant pp_size].
  destruct (decide (v = "")) as [->|Hv], (decide (v' = "")) as [->|Hv'];
    repeat first [rewrite (bool_decide_eq_true_2 ("" = "")) by done | rewrite (bool_decide_eq_false_2 _ Hv)
                 | rewrite (bool_decide_eq_false_2 _ Hv')]; cbn [PosterCIDs PrivacyPosterCIDs].
  - destruct (decide (s = s')) as [->|Hs]; [by rewrite lookup_insert_eq, bool_decide_eq_true_2|].
    rewrite lookup_insert_ne, bool_decide_eq_false_2 by congruence. done.
  - by rewrite bool_decide_eq_false_2 by congruence.
  - by rewrite bool_decide_eq_false_2 by congruence.
  - destruct (decide (v = v')) as [->|Hvv]; [rewrite lookup_insert_eq|].
    + cbn. destruct (decide (s = s')) as [->|Hs]; [by rewrite lookup_insert_eq, bool_decide_eq_true_2|].
      rewrite lookup_insert_ne, bool_decide_eq_false_2 by congruence. by destruct (_ !! v').
    + by rewrite lookup_insert_ne, bool_decide_eq_false_2 by congruence.
Qed.

Lemma poster_lookup_foldl fs res pp c : poster_lookup (foldl fill res fs) pp = Some c ->
  poster_lookup res pp = Some c \/ exists p, (p, c) ∈ fs /\ posterFromPath p = Some pp.
Proof.
  revert res. induction fs as [|[p d] fs IH]; intros res; [by left|]. cbn [foldl]. intros HL.
  apply IH in HL as [HL|(q & Hq & HP)]; [|right; exists q; split; [by right|done]].
  rewrite poster_lookup_fill in HL. case_bool_decide as HP; [|by left]. injection HL as ->.
  right. exists p. split; [by left|done].
Qed.

Lemma poster_lookup_some fs res pp p c : (p, c) ∈ fs -> posterFromPath p = Some pp ->
  is_Some (poster_lookup (foldl fill res fs) pp).
Proof.
  assert (Hmono : forall fs res, is_Some (poster_lookup res pp) -> is_Some (poster_lookup (foldl fill res fs) pp)).
  { clear. induction fs as [|[p d] fs IH]; intros res Hr; [done|]. cbn [foldl]. apply IH.
    rewrite poster_lookup_fill. by case_bool_decide. }
  intros Hin HP. revert res. induction fs as [|[q d] fs IH]; intros res; [by apply not_elem_of_nil in Hin|].
  cbn [foldl]. apply elem_of_cons in Hin as [[= <- <-]|Hin]; [|by apply IH].
  apply Hmono. rewrite poster_lookup_fill. by rewrite bool_decide_eq_true_2.
Qed.

Lemma collectPosters_elem fs e : e ∈ collectPosters fs <->
  exists p pp, (p, pe_cid e) ∈ fs /\ posterFromPath p = Some pp /\
    pe_variant e = pp_variant pp /\ pe_size e = pp_size pp.
Proof.
  unfold collectPosters. rewrite (merge_sort_Permutation posterLe), list_elem_of_omap. split.
  - intros ([p c] & Hin & (pp & HP & ->)%fmap_Some). exists p, pp. done.
  - destruct e as [v s c]. intros (p & pp & Hin & HP & Hv & Hs). cbn in *. subst.
    exists (p, c). split; [done|]. by rewrite HP.
Qed.

(** No two files of the directory are the same poster. *)
Definition posters_distinct (paths : list string) : Prop :=
  forall p q pp, p ∈ paths -> q ∈ paths -> posterFromPath p = Some pp -> posterFromPath q = Some pp -> p = q.

Lemma poster_lookup_collect `{RangesLaws} (files : gmap string string) k k' res0 v s c :
  posters_distinct (map_to_list files).*1 ->
  (forall pp, poster_lookup res0 pp = None) ->
  poster_lookup (foldl fill res0 (range k files)) (mkPosterPath v s) = Some c <->
  mkPosterEntry v s c ∈ collectPosters (range k' files).
Proof.
  intros HD He. rewrite collectPosters_elem. cbn [pe_cid pe_variant pe_size].
  assert (HR : forall j x, x ∈ range j files <-> x ∈ map_to_list files)
    by (intros j x; by rewrite (range_perm j files)).
  split.
  - intros [HL|(p & Hp & HP)]%poster_lookup_foldl; [by rewrite He in HL|].
    exists p, (mkPosterPath v s). rewrite HR in Hp |- *. done.
  - intros (p & [v' s'] & Hp & HP & Hv & Hs). cbn in Hv, Hs. subst v' s'. rewrite HR in Hp.
    destruct (poster_lookup_some (range k files) res0 (mkPosterPath v s) p c) as [c' Hc]; [by apply HR|done|].
    rewrite Hc. apply poster_lookup_foldl in Hc as [Hc|(q & Hq & HQ)]; [by rewrite He in Hc|].
    rewrite HR in Hq. assert (p = q) as ->.
    { apply (HD p q (mkPosterPath v s)); [..|done|done]; apply list_elem_of_fmap; [by exists (p, c)|by exists (q, c')]. }
    apply elem_of_map_to_list in Hp, Hq. congruence.
Qed.

(** The identifiers a master lists, in the order of the renditions. *)
Definition master_variants (v : gmap string string) : list string :=
  omap (v !!.) ["low"; "medium"; "high"].

(** ffmpeg's directory as the transcoder leaves it: posters with plain names, each
    under one path, and one playlist a variant. *)
Definition posters_plain (paths : list string) : Prop :=
  forall p pp, p ∈ paths -> posterFromPath p = Some pp -> Url.plain (pp_variant pp) /\ Url.plain (pp_size pp).
Definition transcoded (paths : list string) : Prop :=
  posters_plain paths /\ posters_distinct paths /\
  (forall p q, p ∈ paths -> q ∈ paths -> is_playlist p = true -> is_playlist q = true -> Dir p = Dir q -> p = q).

Lemma posterFromPath_size p pp : posterFromPath p = Some pp -> pp_size pp <> "".
Proof.
  unfold posterFromPath. destruct (_ || _); [done|]. destruct (negb _); [done|].
  case_bool_decide as Hs; [done|]. by intros [= <-].
Qed.

Lemma foldl_insert_lookup {A} (key : A -> string) (val : A -> string) l (m : gmap string string) :
  NoDup (key <$> l) -> forall x, x ∈ l -> foldl (fun m x => <[key x := val x]> m) m l !! key x = Some (val x).
Proof.
  intros HN. assert (Hskip : forall l (m : gmap string string) k, k ∉ key <$> l ->
    foldl (fun m x => <[key x := val x]> m) m l !! k = m !! k).
  { clear. induction l as [|y l IH]; intros m k Hk; [done|]. cbn in Hk. rewrite not_elem_of_cons in Hk.
    cbn [foldl]. rewrite IH by naive_solver. apply lookup_insert_ne. naive_solver. }
  revert m. induction l as [|y l IH]; intros m x Hx; [by apply not_elem_of_nil in Hx|].
  apply NoDup_cons in HN as [Hy HN]. cbn [foldl]. apply elem_of_cons in Hx as [->|Hx]; [|by apply IH].
  by rewrite Hskip, lookup_insert_eq.
Qed.

Lemma foldl_insert_values {A} (key : A -> string) (val : A -> string) l (m : gmap string string) k c :
  foldl (fun m x => <[key x := val x]> m) m l !! k = Some c ->
  m !! k = Some c \/ exists x, x ∈ l /\ val x = c.
Proof.
  revert m. induction l as [|y l IH]; intros m; [by left|]. cbn [foldl].
  intros [Hm|(x & Hx & <-)]%IH; [|right; exists x; split; [by right|done]].
  apply lookup_insert_Some in Hm as [[_ <-]|[_ Hm]]; [right; exists y; split; [by left|done]|by left].
Qed.

Lemma stored_files dir first (files : gmap string string) : Forall2 stores dir first -> NoDup dir.*1 ->
  map_to_list files ≡ₚ zip dir.*1 (a_cid <$> first) ->
  (forall p c, files !! p = Some c ->
     exists content, (p, Some content) ∈ dir /\ mkAddition (Base p) content c ∈ first) /\
  (map_to_list files).*1 ≡ₚ dir.*1.
Proof.
  intros HF HN HP. split.
  - intros p c Hc%elem_of_map_to_list. rewrite HP in Hc. clear HP HN.
    induction HF as [|[q o] [n d e] dir first [Hn Hd] HF IH]; [by apply not_elem_of_nil in Hc|].
    cbn in Hn, Hd. subst. apply elem_of_cons in Hc as [[= -> ->]|Hc].
    + exists d. split; by left.
    + destruct (IH Hc) as (content & H1 & H2). exists content. split; by right.
  - rewrite HP, fst_zip; [done|]. rewrite !length_fmap. apply Forall2_length in HF. lia.
Qed.

Lemma ReadFile_elem dir p data : NoDup dir.*1 -> (p, data) ∈ dir -> ReadFile dir p = data.
Proof. intros HN Hin. unfold ReadFile. by rewrite (elem_of_list_to_map_1 dir p data). Qed.

(** Everything a reader of the video asks for is listed for its deletion. *)
Definition tracked (files : gmap string string) (res : UploadResult) : Prop :=
  MasterCID res ∈ AllCIDs res /\
  (forall k c, VariantCIDs res !! k = Some c -> c ∈ AllCIDs res) /\
  (forall p c, files !! p = Some c -> is_playlist p = false -> c ∈ AllCIDs res).

Lemma tracked_files `{RangesLaws} files (dir : directory) first second rest res :
  let playlists := filter (fun f => is_playlist f.1 = true) (range 0 files) in
  Forall2 stores dir first -> map_to_list files ≡ₚ zip dir.*1 (a_cid <$> first) ->
  a_cid <$> first ≡ₚ playlists.*2 ++ rest -> AllCIDs res ≡ₚ (a_cid <$> second) ++ rest ++ [MasterCID res] ->
  (forall k c, VariantCIDs res !! k = Some c -> c ∈ a_cid <$> second) -> tracked files res.
Proof.
  intros playlists HF HP HR HA Hv. split_and!.
  - rewrite HA, !elem_of_app. right. right. by left.
  - intros k c Hc%Hv. rewrite HA, elem_of_app. by left.
  - intros p c Hc Hp. rewrite HA, !elem_of_app. right. left.
    assert (HL : length dir.*1 = length (a_cid <$> first)) by (rewrite !length_fmap; by eapply Forall2_length).
    rewrite <- (snd_zip dir.*1 (a_cid <$> first)), <- HP, <- (range_perm 0 files) in HR by lia.
    rewrite <- (filter_app_complement (fun f => is_playlist f.1 = true) (range 0 files)), fmap_app in HR.
    fold playlists in HR. apply Permutation_app_inv_l in HR. rewrite <- HR.
    apply list_elem_of_fmap. exists (p, c). split; [done|]. apply list_elem_of_filter. split; [cbn; congruence|].
    rewrite (range_perm 0 files). by apply elem_of_map_to_list.
Qed.

(** What an upload of a transcoded directory leaves in the hands of its readers. *)
Section uploaded.
Context `{RangesLaws} `{Url.Authority}.
Variables (u : Uploader) (dir : directory) (log log' : list addition) (res : UploadResult).
Hypothesis uploaded : UploadDir u dir log = (Ok res, log').
Hypothesis once : NoDup dir.*1.
Hypothesis valid : forall a, a ∈ log' -> validateCID (a_cid a) = true.
Hypothesis shape : posters_plain dir.*1.

Lemma uploaded_files : exists files first second,
  log' = log ++ first ++ second ++
    [mkAddition "master.m3u8" (buildMasterPlaylist (VariantCIDs res) (range 1 files)) (MasterCID res)] /\
  Forall2 (restores dir files) (filter (fun f => is_playlist f.1 = true) (range 0 files)) second /\
  VariantCIDs res = foldl (fun m fa => <[Dir fa.1.1 := a_cid fa.2]> m) ∅
    (zip (filter (fun f => is_playlist f.1 = true) (range 0 files)) second) /\
  res = foldl fill (mkUploadResult (MasterCID res) (VariantCIDs res) ∅ ∅ ∅ (AllCIDs res)) (range 2 files) /\
  (forall p c, files !! p = Some c ->
     validateCID c = true /\ exists content, (p, Some content) ∈ dir /\ mkAddition (Base p) content c ∈ log') /\
  (map_to_list files).*1 ≡ₚ dir.*1 /\
  (forall k c, VariantCIDs res !! k = Some c -> validateCID c = true) /\
  Forall poster_ok (collectPosters (range 1 files)) /\ tracked files res.
Proof.
  destruct (UploadDir_Ok u dir log res log' uploaded once)
    as (files & first & second & HL & HF & HR & HP & HV & (rest & HR1 & HA) & HX). cbn zeta in *.
  destruct (stored_files dir first files HF once HP) as [Hf Hd].
  assert (Hf' : forall p c, files !! p = Some c ->
     validateCID c = true /\ exists content, (p, Some content) ∈ dir /\ mkAddition (Base p) content c ∈ log').
  { intros p c Hc. destruct (Hf p c Hc) as (content & Hc1 & Hc2).
    assert (Hin : mkAddition (Base p) content c ∈ log') by (rewrite HL, !elem_of_app; tauto).
    split; [apply (valid _ Hin)|eauto]. }
  assert (Hvs : forall k c, VariantCIDs res !! k = Some c -> c ∈ a_cid <$> second).
  { intros k c. rewrite HV. intros [Hk|([f a] & Hin & <-)]%foldl_insert_values; [done|].
    apply list_elem_of_fmap_2. by apply elem_of_zip_r in Hin. }
  exists files, first, second. split_and!; [done..| | |].
  - intros k c (a & -> & Ha)%Hvs%list_elem_of_fmap. apply valid. rewrite HL, !elem_of_app. tauto.
  - apply Forall_forall. intros e He. apply collectPosters_elem in He as (p & pp & Hin & HPP & Hv & Hs).
    rewrite (range_perm 1 files) in Hin. apply elem_of_map_to_list in Hin as Hc. apply Hf' in Hc as [Hc _].
    assert (Hp : p ∈ dir.*1) by (rewrite <- Hd; apply list_elem_of_fmap; by eexists (_, _)).
    destruct (shape p pp Hp HPP) as [P1 P2].
    unfold poster_ok. rewrite Hv, Hs. split_and!; [done..|]. by apply (posterFromPath_size p).
  - by apply (tracked_files _ dir first second rest).
Qed.
End uploaded.

(** The variants' directories tell their playlists apart. *)
Lemma uploaded_dirs_nodup (files : gmap string string) (dir : directory) playlists (second : list addition) :
  (forall p q, p ∈ dir.*1 -> q ∈ dir.*1 -> is_playlist p = true -> is_playlist q = true -> Dir p = Dir q -> p = q) ->
  (map_to_list files).*1 ≡ₚ dir.*1 ->
  (exists l, l ≡ₚ map_to_list files /\ playlists = filter (fun f => is_playlist f.1 = true) l) ->
  NoDup ((fun fa : string * string * addition => Dir fa.1.1) <$> zip playlists second).
Proof.
  intros Hinj Hd (l & Hl & ->).
  assert (HN : NoDup (filter (fun f => is_playlist f.1 = true) l).*1).
  { apply (sublist_NoDup _ l.*1); [|apply fmap_sublist, sublist_filter].
    rewrite Hl. apply NoDup_fst_map_to_list. }
  assert (HD : forall f, f ∈ filter (fun f => is_playlist f.1 = true) l -> f.1 ∈ dir.*1 /\ is_playlist f.1 = true).
  { intros f [Hp Hf]%list_elem_of_filter. split; [|done]. rewrite <- Hd, <- Hl. by apply list_elem_of_fmap_2. }
  revert second. induction (filter _ l) as [|f fs IH]; intros [|a second]; [constructor..|]. cbn [zip zip_with fmap list_fmap].
  cbn in HN. apply NoDup_cons in HN as [Hf HN]. constructor.
  - intros Hin. apply list_elem_of_fmap in Hin as ([g b] & HE & Hg). apply elem_of_zip_l in Hg. cbn in HE.
    apply Hf. destruct (HD f) as [F1 F2]; [by left|]. destruct (HD g) as [G1 G2]; [by right|].
    rewrite (Hinj f.1 g.1) by done. by apply list_elem_of_fmap_2.
  - apply IH; [done|]. intros g Hg. apply HD. by right.
Qed.

Lemma bare_no_file variantDir l file : bare_line l = true -> line_file variantDir l = Some file -> False.
Proof.
  unfold bare_line, line_file. intros HB HL. apply andb_true_iff in HB as [HM HR]. go_bools.
  assert (HU : bool_decide (playlistURI l = Some "init.mp4") = false).
  { apply bool_decide_eq_false_2. unfold playlistURI, uri_parts. intros E.
    unfold Contains in HM. apply bool_decide_eq_false in HM. destruct (Cut l marker); [|done]. by destruct HM. }
  rewrite HU, andb_false_r in HL. destruct (HasPrefix (TrimSpace l) "seg_") eqn:HP; [|done].
  unfold line_reference in HR.
  rewrite (prefix_clash _ "seg_" "#" "s"%char "#"%char "eg_" "") in HR by done.
  destruct (decide (TrimSpace l = "")) as [HE|HE]; [by rewrite HE in HP|].
  by rewrite bool_decide_eq_false_2 in HR.
Qed.

Lemma assets_Forall2 variantDir files lines :
  (forall l, l ∈ lines -> bare_line l = true \/
     is_Some (match line_file variantDir l with Some file => asset_of files file | None => None end)) ->
  Forall2 (fun file r => asset_of files file = Some r)
    (omap (line_file variantDir) lines) (omap (line_asset variantDir files) lines).
Proof.
  induction lines as [|l lines IH]; intros Hl; [constructor|].
  assert (IH' := IH (fun x Hx => Hl x (list_elem_of_further _ _ _ Hx))). cbn. unfold line_asset at 1.
  destruct (line_file variantDir l) as [file|] eqn:E; [|done].
  destruct (Hl l) as [Hb|[r Hr]]; [by left| |].
  - exfalso. eapply bare_no_file; eauto.
  - rewrite E in Hr. rewrite Hr. by constructor.
Qed.

(** The masked posters of an uploaded video are found by the player's side: for
    each poster size whose original is one file and whose mask was made, asking
    the stored master for the poster in a masked mode gives the mask of that size
    and mode, never the original, and asking for the original gives it. *)
Lemma uploaded_posters_masked `{RangesLaws} `{Url.Authority} `{CidLib} u dir log res log' size c mode m :
  UploadDir u dir log = (Ok res, log') -> NoDup dir.*1 ->
  (forall a, a ∈ log' -> validateCID (a_cid a) = true) -> posters_plain dir.*1 -> posters_distinct dir.*1 ->
  PosterCIDs res !! size = Some c ->
  (forall size' c', PosterCIDs res !! size' = Some c' -> sameMediaCID c' c = true -> size' = size) ->
  mode <> "" -> mode <> "original" ->
  PrivacyPosterCIDs res !! mode ≫= (.!! size) = Some m ->
  exists master, mkAddition "master.m3u8" master (MasterCID res) ∈ log' /\
    videoPosterCID master c mode = Some m /\ videoPosterCID master c "original" = Some c.
Proof.
  intros HU HN Hvalid Hshape Hdist Hc Honly Hm0 Hmo Hm.
  destruct (uploaded_files u dir log log' res HU HN Hvalid Hshape)
    as (files & first & second & HL & _ & _ & HX & Hf & Hd & Hvv & Hok & _).
  exists (buildMasterPlaylist (VariantCIDs res) (range 1 files)).
  split; [rewrite HL, !elem_of_app; right; right; right; by left|].
  set (ps := to_poster <$> collectPosters (range 1 files)).
  assert (HE : forall v s d, poster_lookup res (mkPosterPath v s) = Some d <-> mkPoster d s v ∈ ps).
  { intros v s d. rewrite HX, (poster_lookup_collect files 2 1); [| |intros pp; by unfold poster_lookup; case_bool_decide].
    - unfold ps. rewrite list_elem_of_fmap. split; [by exists (mkPosterEntry v s d)|].
      intros ([v' s' d'] & [= -> -> ->] & Hin). done.
    - intros p q pp Hp Hq. apply Hdist; by rewrite <- Hd. }
  assert (Hor : mkPoster c size "" ∈ ps) by (by apply HE).
  assert (Hmk : mkPoster m size mode ∈ ps).
  { apply HE. unfold poster_lookup. by rewrite bool_decide_eq_false_2. }
  assert (Hcne : c <> "").
  { assert (Hv : poster_ok (mkPosterEntry "" size c)).
    { rewrite Forall_forall in Hok. apply Hok. unfold ps in Hor. apply list_elem_of_fmap in Hor as ([? ? ?] & [= -> -> ->] & ?). done. }
    intros ->. by destruct Hv as [Hv _]. }
  unfold videoPosterCID. rewrite master_posters by done. fold ps.
  assert (Hmask : protected_poster ps size mode = Some (mkPoster m size mode)).
  { unfold protected_poster. destruct (list_find _ ps) as [[k p]|] eqn:E.
    - apply list_find_Some in E as (Hk & [Hps Hpv] & _). f_equal. destruct p as [d s v]. cbn in Hps, Hpv. subst s v.
      apply list_elem_of_lookup_2, HE in Hk. apply HE in Hmk. congruence.
    - apply list_find_None in E. rewrite Forall_forall in E. by destruct (E _ Hmk). }
  assert (HS : forall cands, mkPoster c size "" ∈ cands -> (forall p, p ∈ cands -> p ∈ ps) ->
    select_poster cands ps c mode = Some m /\ select_poster cands ps c "original" = Some c).
  { induction cands as [|o cands IH]; intros Hin Hsub; [by apply not_elem_of_nil in Hin|]. cbn [select_poster].
    destruct (negb _ || _) eqn:Eo.
    - apply elem_of_cons in Hin as [<-|Hin]; [|apply IH; [done|intros p Hp; apply Hsub; by right]].
      cbn in Eo. rewrite sameMediaCID_refl, andb_false_r in Eo. done.
    - assert (Ho : o ∈ ps) by (apply Hsub; by left). destruct o as [d s v]. cbn [p_cid p_size p_variant] in *.
      apply orb_false_iff in Eo as [Ev Es]. go_bools. subst v.
      rewrite (bool_decide_eq_false_2 _ Hcne) in Es. cbn in Es. apply negb_false_iff in Es.
      apply HE in Ho. change (PosterCIDs res !! s = Some d) in Ho. specialize (Honly s d Ho Es) as ->.
      rewrite bool_decide_eq_false_2, Hmask by done. split; [done|].
      rewrite bool_decide_eq_true_2 by done. congruence. }
  by apply HS.
Qed.

(** The map from posters to identifiers is that of the directory. *)
Lemma uploaded_poster_files `{RangesLaws} u dir log res log' :
  UploadDir u dir log = (Ok res, log') -> NoDup dir.*1 -> posters_distinct dir.*1 ->
  exists files : gmap string string,
    (forall p c, files !! p = Some c ->
       exists content, (p, Some content) ∈ dir /\ mkAddition (Base p) content c ∈ log') /\
    (forall p, p ∈ dir.*1 -> is_Some (files !! p)) /\
    (forall pp c, poster_lookup res pp = Some c <->
       exists p, files !! p = Some c /\ posterFromPath p = Some pp).
Proof.
  intros HU HN Hdist. destruct (UploadDir_Ok u dir log res log' HU HN)
    as (files & first & second & HL & HF & _ & HP & _ & _ & HX). cbn zeta in *.
  destruct (stored_files dir first files HF HN HP) as [Hf Hd]. exists files. split_and!.
  - intros p c Hc. destruct (Hf p c Hc) as (content & H1 & H2). exists content. split; [done|].
    rewrite HL, !elem_of_app. tauto.
  - intros p Hp. rewrite <- Hd in Hp. apply list_elem_of_fmap in Hp as ([q c] & -> & Hq).
    apply elem_of_map_to_list in Hq. by eexists.
  - intros [v s] c. rewrite HX, (poster_lookup_collect files 2 2); [| |intros pp; by unfold poster_lookup; case_bool_decide].
    + rewrite collectPosters_elem. cbn [pe_cid pe_variant pe_size]. split.
      * intros (p & [v' s'] & Hin & HPP & Hv & Hs). cbn in Hv, Hs. subst v' s'. rewrite (range_perm 2 files) in Hin.
        apply elem_of_map_to_list in Hin. eauto.
      * intros (p & Hc & HPP). exists p, (mkPosterPath v s). rewrite (range_perm 2 files). split_and!; try done.
        by apply elem_of_map_to_list.
    + intros p q pp Hp Hq. apply Hdist; by rewrite <- Hd.
Qed.

(** * Properties *)

(** An upload accounts for what it stores: every file of the directory is added
    once, and what a successful upload has added is, counted with multiplicity,
    exactly what its result lists for later deletion, plus the playlists as
    ffmpeg wrote them.  Those were added before their rewritten form took their
    place in the list, so they stay pinned with nothing left that names them. *)
Theorem upload_accounts `{RangesLaws} u dir log res log' :
  UploadDir u dir log = (Ok res, log') -> NoDup dir.*1 ->
  exists first rewritten master,
    log' = log ++ first ++ rewritten ++ [mkAddition "master.m3u8" master (MasterCID res)] /\
    Forall2 stores dir first /\
    a_cid <$> (first ++ rewritten ++ [mkAddition "master.m3u8" master (MasterCID res)]) ≡ₚ
      AllCIDs res ++ (filter (fun f => is_playlist f.1 = true) (zip dir.*1 (a_cid <$> first))).*2.
Proof.
  intros HU HN. destruct (UploadDir_Ok u dir log res log' HU HN)
    as (files & first & second & HL & HF & _ & HP & _ & (rest & HR & HA) & _).
  exists first, second, (buildMasterPlaylist (VariantCIDs res) (range 1 files)). split_and!; [done..|].
  assert (HQ : (filter (fun f => is_playlist f.1 = true) (zip dir.*1 (a_cid <$> first))).*2 ≡ₚ
    (filter (fun f => is_playlist f.1 = true) (range 0 files)).*2)
    by (by rewrite <- HP, <- (range_perm 0 files)).
  rewrite HQ, !fmap_app, HA, HR. cbn. solve_Permutation.
Qed.

(** What the uploader writes, the streaming handlers read: the master it stores
    lists the variants that were made, from low to high, under the indexes the
    handlers look playlists up by; and for every playlist of ffmpeg's whose
    references are files of the directory, the variant stored in its place gives
    each of them, under the index of its position, the identifier its content was
    stored under and its extension; both texts can be rewritten for a player, and what
    is found through them is listed for deletion. *)
Theorem uploaded_video_reads_back `{RangesLaws} `{Url.Authority} u dir log res log' :
  UploadDir u dir log = (Ok res, log') -> NoDup dir.*1 ->
  (forall a, a ∈ log' -> validateCID (a_cid a) = true) -> transcoded dir.*1 ->
  exists master files,
    mkAddition "master.m3u8" master (MasterCID res) ∈ log' /\
    Forall Player.neat_master (lines_of master) /\
    (forall w, linkedMasterPlaylistCID master w =
       if 0 <=? w then master_variants (VariantCIDs res) !! Z.to_nat w else None) /\
    (forall p c, files !! p = Some c ->
       exists content, (p, Some content) ∈ dir /\ mkAddition (Base p) content c ∈ log') /\
    (forall p content, (p, Some content) ∈ dir -> is_playlist p = true ->
       ffmpeg_playlist dir.*1 (Dir p) content ->
       exists text c references,
         VariantCIDs res !! Dir p = Some c /\ mkAddition (Base p) text c ∈ log' /\
         Forall Player.neat (lines_of text) /\
         Forall2 (fun file r => asset_of files file = Some r)
           (omap (line_file (Dir p)) (lines_of content)) references /\
         forall w, linkedVariantAssetCID text w = if 0 <=? w then references !! Z.to_nat w else None) /\
    tracked files res.
Proof.
  intros HU HN Hvalid Hshape.
  destruct (uploaded_files u dir log log' res HU HN Hvalid (proj1 Hshape))
    as (files & first & second & HL & HR & HV & _ & Hf & Hd & Hvv & Hok & HTr).
  exists (buildMasterPlaylist (VariantCIDs res) (range 1 files)), files. split_and!.
  - rewrite HL, !elem_of_app. right. right. right. by left.
  - by apply master_neat.
  - intros w. rewrite master_renditions by done. done.
  - intros p c Hc. by apply Hf.
  - intros p content Hin Hp Hff. set (playlists := filter (fun f => is_playlist f.1 = true) (range 0 files)) in *.
    assert (Hsome : forall q, q ∈ dir.*1 -> is_Some (files !! q)).
    { intros q Hq. rewrite <- Hd in Hq. apply list_elem_of_fmap in Hq as ([q' c] & -> & Hq).
      apply elem_of_map_to_list in Hq. by eexists. }
    pose proof (ffmpeg_known _ _ _ files Hff Hsome) as Hkn.
    assert (Hpd : p ∈ dir.*1) by (apply list_elem_of_fmap; by exists (p, Some content)).
    destruct (Hsome p Hpd) as [raw Hraw].
    assert (Hpl : (p, raw) ∈ playlists).
    { apply list_elem_of_filter. split; [done|]. rewrite (range_perm 0 files). by apply elem_of_map_to_list. }
    apply list_elem_of_lookup in Hpl as [k Hk]. destruct (Forall2_lookup_l _ _ _ _ _ HR Hk) as (a & Ha & Hn & Ht).
    exists (a_data a), (a_cid a), (omap (line_asset (Dir p) files) (lines_of content)). split_and!.
    + rewrite HV. assert (Hx : ((p, raw), a) ∈ zip playlists second)
        by (apply list_elem_of_lookup; exists k; apply lookup_zip_with_Some; eauto).
      apply (foldl_insert_lookup (fun fa => Dir fa.1.1) (fun fa => a_cid fa.2) _ ∅) in Hx; [done|].
      destruct Hshape as (_ & _ & Hdirs). apply (uploaded_dirs_nodup files dir); [done..|].
      exists (range 0 files). split; [apply range_perm|done].
    + rewrite HL, !elem_of_app. right. right. left. cbn in Hn. rewrite <- Hn. destruct a. by apply list_elem_of_lookup_2 in Ha.
    + eapply rewritten_neat; [|by apply ReadFile_elem|done|done]. intros q c Hc. by apply Hf in Hc as [? _].
    + apply assets_Forall2. intros l Hl. destruct (Hff l Hl) as [Hb|(q & ext & Hlf & Hq)]; [by left|right].
      rewrite Hlf. unfold asset_of. cbn [fst snd]. destruct (Hsome q Hq) as [c ->]. by eexists.
    + eapply rewritten_assets; [|by apply ReadFile_elem|done|done]. intros q c Hc. by apply Hf in Hc as [? _].
  - exact HTr.
Qed.

(** ** Witnesses *)
Module Toy.
#[local] Existing Instance Playlist.Toy.authority.
#[local] Existing Instance Cid.Toy.cidlib.
#[local] Instance ranges : Ranges := fun _ m => map_to_list m.
#[local] Instance ranges_laws : RangesLaws.
Proof. by intros k m. Qed.

(** The n-th addition gets the n-th of these names. *)
Definition name (n : nat) : string :=
  "QmYwAPJzv5CZsnA625s3Xf2nemtYgPpHdWEz79ojWKPbd" +:+ String (chr (65 + n)) "".
Definition add : IPFSAdder := fun log _ _ => Some (name (length log)).

Definition playlist : string :=
  unlines ["#EXTM3U"; "#EXT-X-MAP:URI=" +:+ dquote +:+ "init.mp4" +:+ dquote;
           "#EXTINF:4.000,"; "seg_0.m4s"; "#EXT-X-ENDLIST"; ""].
Definition dir : directory :=
  [("low/init.mp4", Some "init"); ("low/playlist.m3u8", Some playlist); ("low/seg_0.m4s", Some "segment");
   ("posters/180x320.jpg", Some "poster"); ("posters/blur/180x320.jpg", Some "mask")].

Definition run := UploadDir (NewUploader (Some add)) dir [].
Definition stored : list addition := run.2.
Definition uploaded : UploadResult :=
  match run.1 with Ok res => res | Err _ => mkUploadResult "" ∅ ∅ ∅ ∅ [] end.

Lemma dir_transcoded : transcoded dir.*1.
Proof.
  assert (HP : forall p pp, p ∈ dir.*1 -> posterFromPath p = Some pp ->
    p ∈ ["posters/180x320.jpg"; "posters/blur/180x320.jpg"]).
  { intros p pp Hp Hpp. cbn in Hp. repeat (apply elem_of_cons in Hp as [->|Hp]); [..|by apply not_elem_of_nil in Hp];
      first [by_dec|by vm_compute in Hpp]. }
  split_and!.
  - intros p pp Hin Hpp. specialize (HP p pp Hin Hpp). clear Hin.
    repeat (apply elem_of_cons in HP as [->|HP]); [..|by apply not_elem_of_nil in HP];
      vm_compute in Hpp; injection Hpp as <-; split; by apply (bool_decide_unpack _); vm_compute.
  - intros p q pp Hp Hq Hpp Hqq. apply (HP p pp) in Hp; [|done]. apply (HP q pp) in Hq; [|done].
    repeat (apply elem_of_cons in Hp as [->|Hp]); [..|by apply not_elem_of_nil in Hp];
      repeat (apply elem_of_cons in Hq as [->|Hq]); try (by apply not_elem_of_nil in Hq); try done;
      vm_compute in Hpp, Hqq; congruence.
  - assert (HD : forall p, p ∈ dir.*1 -> is_playlist p = true -> p = "low/playlist.m3u8").
    { intros p Hp. cbn in Hp. repeat (apply elem_of_cons in Hp as [->|Hp]); [..|by apply not_elem_of_nil in Hp]; by vm_compute. }
    intros p q Hp Hq Pp Pq _. by rewrite (HD p Hp Pp), (HD q Hq Pq).
Qed.

Lemma stored_valid a : a ∈ stored -> validateCID (a_cid a) = true.
Proof.
  intros Ha. assert (HV : forallb (fun a => validateCID (a_cid a)) stored = true) by by_vm.
  rewrite forallb_forall in HV. by apply HV, list_elem_of_In.
Qed.

Lemma run_ok : UploadDir (NewUploader (Some add)) dir [] = (Ok uploaded, stored).
Proof. by_vm. Qed.

Lemma upload_accounts_witness :
  length (AllCIDs uploaded) = 6%nat /\ length stored = 7%nat /\
  exists raw, a_cid <$> stored ≡ₚ AllCIDs uploaded ++ [raw].
Proof.
  split_and!; [by_vm..|].
  destruct (upload_accounts _ dir [] uploaded stored run_ok ltac:(by_dec)) as (first & rw & master & HL & HF & HP).
  exists (name 1). rewrite app_nil_l in HL. rewrite HL at 1. rewrite HP. apply Permutation_app_head.
  assert (HT : take 5 stored = first).
  { rewrite HL. apply Forall2_length in HF. change (length dir) with 5%nat in HF. by rewrite HF, take_app_length. }
  rewrite <- HT. match goal with |- ?a ≡ₚ ?b => assert (E : a = b) by by_vm; by rewrite E end.
Defined.

Lemma uploaded_video_reads_back_witness :
  exists master files, mkAddition "master.m3u8" master (MasterCID uploaded) ∈ stored /\
    linkedMasterPlaylistCID master 0 = Some (name 5) /\
    exists text c references, VariantCIDs uploaded !! "low" = Some c /\
      mkAddition "playlist.m3u8" text c ∈ stored /\
      Forall Player.neat (lines_of text) /\
      Forall2 (fun file r => asset_of files file = Some r)
        [("low/init.mp4", ".mp4"); ("low/seg_0.m4s", ".m4s")] references /\
      forall w, linkedVariantAssetCID text w = if 0 <=? w then references !! Z.to_nat w else None.
Proof.
  destruct (uploaded_video_reads_back _ dir [] uploaded stored run_ok ltac:(by_dec) stored_valid dir_transcoded)
    as (master & files & HM & _ & HR & _ & HV & _).
  exists master, files. split_and!; [done| |].
  - rewrite HR. by_vm.
  - apply (HV "low/playlist.m3u8" playlist); [by_dec|by_vm|].
    intros line Hl. vm_compute in Hl.
    repeat (apply elem_of_cons in Hl as [->|Hl]); [..|by apply not_elem_of_nil in Hl];
      first [left; vm_compute; reflexivity
            |right; eexists _, _; split; [vm_compute; reflexivity|by_dec]].
Defined.

End Toy.

End Uploader.
