(* ===== verification/VideoUpload.v ===== *)
(** [HandleUploadVideo] of [internal/handler/video_handler.go] and
    [video_privacy.go]: from the form of an upload to a stored video, with the masked
    copies of its posters.  How many run at once is [TranscodeSlots]'. *)

From S2P Require Export Upload Uploader Transcode UnpinStore.
From stdpp Require Import sorting.

Local Open Scope Z_scope.

Module VideoUpload.
Import Http Upload.

(** ** [video_privacy.go] *)

Definition isPosterImage (name : string) : bool :=
  bool_decide (ToLower (Ext name) ∈ [".jpg"; ".jpeg"; ".png"; ".webp"]).

Definition extensionForFormat (format : string) : string :=
  if bool_decide (format = "jpeg") then "jpg" else format.

(** The files below a directory, by their path relative to it. *)
Definition below (dir : string) (disk : gmap string string) : list (string * string) :=
  omap (fun '(path, content) => (fun rel => (rel, content)) <$> CutPrefix (dir +:+ "/") path)
    (map_to_list disk).

(** [os.ReadDir], the entries that are files, sorted by name. *)
Definition str_ord (s t : string) : Prop := Url.str_le s t = true.
#[export] Instance str_ord_dec s t : Decision (str_ord s t) := decide (Url.str_le s t = true).
Definition ReadDir (dir : string) (disk : gmap string string) : list string :=
  merge_sort str_ord (filter (fun name => chr 47 ∉ chars name) (below dir disk).*1).

Inductive privacyError :=
| ReadDirFailed
| Cancelled
| ReadFailed (name : string)
| ProcessFailed (name err : string)
| MkdirFailed (key : string)
| WriteFailed (key name : string).

Section video_upload.
Context `{HFl : Blur.Float64, HNu : Config.Numbers, HCo : !ImageProc.Codecs}.
Context `{HFm : Fmt, HCr : Grant.Crypto, HTf : !Transcode.Floats, HSy : !Transcode.System}.
Context `{HRa : Uploader.Ranges}.

(** What else the disk may do: refuse to list or to read. *)
Class Disk := {
  readdir_ok : string -> gmap string string -> bool;
  read_ok : string -> gmap string string -> bool;
  Walk : string -> gmap string string -> Uploader.directory
}.
Context `{HDi : Disk}.

Definition poster_copy_name (name format : string) : string :=
  TrimSuffix name (Ext name) +:+ "." +:+ extensionForFormat format.

Fixpoint write_posters (postersDir name : string) (vs : list ImageProc.Variant) (disk : gmap string string)
  : result privacyError (gmap string string) :=
  match vs with
  | [] => Ok disk
  | v :: vs' =>
      let dir := PathJoin postersDir (ImageProc.v_Key v) in
      if negb (Transcode.mkdir_ok dir disk) then Err (MkdirFailed (ImageProc.v_Key v)) else
      let path := PathJoin dir (poster_copy_name name (ImageProc.v_Format v)) in
      if negb (Transcode.write_ok path disk) then Err (WriteFailed (ImageProc.v_Key v) name) else
      write_posters postersDir name vs' (<[path := ImageProc.v_Data v]> disk)
  end.

(** [ctx name] is whether the request is cancelled when the poster [name] is
    reached, and when it is processed. *)
Fixpoint privacy_posters (p : ImageProc.Processor) (ctx : string -> bool * bool) (postersDir : string)
  (names : list string) (disk : gmap string string) : result privacyError (gmap string string) :=
  match names with
  | [] => Ok disk
  | name :: rest =>
      if negb (isPosterImage name) then privacy_posters p ctx postersDir rest disk
      else if (ctx name).1 then Err Cancelled
      else
        let posterPath := PathJoin postersDir name in
        match (if read_ok posterPath disk then disk !! posterPath else None) with
        | None => Err (ReadFailed name)
        | Some data =>
            match ImageProc.ProcessPrivacy p (ctx name).2 data "image/jpeg" with
            | Err err => Err (ProcessFailed name err)
            | Ok variants =>
                match write_posters postersDir name variants disk with
                | Err e => Err e
                | Ok disk => privacy_posters p ctx postersDir rest disk
                end
            end
        end
  end.

(** A missing directory has no files. *)
Definition buildVideoPrivacyPosters (p : ImageProc.Processor) (ctx : string -> bool * bool)
  (outputDir : string) (disk : gmap string string) : result privacyError (gmap string string) :=
  let postersDir := PathJoin outputDir "posters" in
  if negb (readdir_ok postersDir disk) then Err ReadDirFailed
  else privacy_posters p ctx postersDir (ReadDir postersDir disk) disk.

(** ** [HandleUploadVideo] *)

Record Env := mkEnv {
  upload : Upload.Env;
  video : Config.VideoConfig
}.

(** What the handler leaves behind: the budget, the additions to the cluster and
    the list of groups. *)
Record World := mkWorld {
  w_uploads : option uploadBudget;
  w_added : list Uploader.addition;
  w_store : UnpinStore.UnpinStore
}.

(** What the surroundings do during one upload. *)
Record Run := mkRun {
  temp_ok : bool;                        (* [MkdirAll] of the temporary directory *)
  free : option (Z * Z);                 (* [Statfs]: free blocks and their size *)
  tmpInput : option string;              (* [CreateTemp] *)
  copied : bool;                         (* the copy to it can be written *)
  outputDir : option string;             (* [MkdirTemp] *)
  slot : bool;                           (* [acquireTranscodeSlot] got one *)
  context : string -> bool * bool;
  saved : UnpinStore.write_outcome;
  today : string
}.

Definition checkDiskSpace (free : option (Z * Z)) (requiredBytes : Z) : bool :=
  match free with
  | None => true
  | Some (bavail, bsize) => negb (int64 (bavail * bsize) <? requiredBytes)
  end.

Record VideoResponse := mkVideoResponse {
  v_MasterCID : string;
  v_VariantCIDs : gmap string string;
  v_PosterCIDs : gmap string string;
  v_PrivacyPosterCIDs : gmap string (gmap string string);
  v_StreamCIDs : list string;
  v_PosterAliases : gmap string (gmap string string);
  v_DurationSec : Config.float64;
  v_Status : string
}.

Inductive VideoAnswer :=
| VideoError (a : Answer)
| VideoUploaded (v : VideoResponse).

Definition videoExts : list string := ["mp4"; "mov"; "webm"; "avi"; "mkv"].

Definition validation_details (e : Transcode.ValidationError) : gmap string detail :=
  let d : gmap string detail :=
    if 0 <? Transcode.e_MaxSizeBytes e then {[ "max_bytes" := Number (Transcode.e_MaxSizeBytes e) ]} else ∅ in
  if 0 <? Transcode.e_MaxDurationSec e
  then <["max_duration_sec" := Number (Transcode.e_MaxDurationSec e)]> d else d.

(** From the accepted file to the stored video: the transcoding slot, ffmpeg, the
    masked posters and the cluster.  Errors are status and public code. *)
Definition store_video (e : Env) (run : Run) (add : option Uploader.IPFSAdder) (input : string)
  (disk : gmap string string) (log : list Uploader.addition)
  : result (Z * string) (Transcode.TranscodeResult * Uploader.UploadResult) * list Uploader.addition :=
  match outputDir run with
  | None => (Err (500, "upload_storage_unavailable"), log)
  | Some out =>
      if negb (slot run) then (Err (503, "upload_busy"), log) else
      match Transcode.Transcode (video e) input out disk with
      | Err _ => (Err (500, "upload_failed"), log)
      | Ok (transcoded, disk) =>
          match buildVideoPrivacyPosters (imageProcessor (upload e)) (context run) out disk with
          | Err _ => (Err (500, "upload_failed"), log)
          | Ok disk =>
              match Uploader.UploadDir (Uploader.NewUploader add) (Walk out disk) log with
              | (Err _, log) => (Err (503, "upload_storage_unavailable"), log)
              | (Ok res, log) => (Ok (transcoded, res), log)
              end
          end
      end
  end.

Definition video_response (transcoded : Transcode.TranscodeResult) (res : Uploader.UploadResult) : VideoResponse :=
  mkVideoResponse (Uploader.MasterCID res) (Uploader.VariantCIDs res) (Uploader.PosterCIDs res)
    (Uploader.PrivacyPosterCIDs res) (Uploader.AllCIDs res)
    (Playlist.videoPosterAliases (Uploader.PosterCIDs res) (Uploader.PrivacyPosterCIDs res))
    (Transcode.t_Duration transcoded) "processing_done".

(** The checks before the work: the temporary file with the bytes read. *)
Definition accept_video (e : Env) (r : Request) (f : Form) (run : Run)
  : result Answer (string * string) :=
  let fail status code details := Err (writeUploadError r status code details) in
  let unavailable status := fail status "upload_storage_unavailable" ∅ in
  match parseUploadForm (Config.MaxRequestSize (cfg (upload e))) r f 0 with
  | Err a => Err a
  | Ok parts =>
      match files_of "file" parts with
      | [] => fail 400 "upload_missing_file" ∅
      | p :: _ =>
          if negb (p_opens p) then fail 400 "upload_missing_file" ∅ else
          if negb (bool_decide (ToLower (TrimPrefix (Ext (p_Filename p)) ".") ∈ videoExts))
          then fail 400 "unsupported_video_format" {[ "allowed_extensions" := Strings videoExts ]} else
          if negb (temp_ok run) then unavailable 500 else
          if negb (checkDiskSpace (free run) (int64 (Config.MaxSizeBytes (video e) * 3)))
          then unavailable 507 else
          match tmpInput run with
          | None => unavailable 500
          | Some path =>
              match ReadAll (int64 (Config.MaxSizeBytes (video e) + 1)) (p_file p) with
              | None => fail 500 "upload_failed" ∅
              | Some data =>
                  if negb (copied run) then fail 500 "upload_failed" ∅ else
                  if Config.MaxSizeBytes (video e) <? Z.of_nat (String.length data)
                  then fail 413 "video_file_too_large"
                         {[ "max_bytes" := Number (Config.MaxSizeBytes (video e)) ]}
                  else Ok (path, data)
              end
          end
      end
  end.

Definition HandleUploadVideo (e : Env) (r : Request) (f : Form) (run : Run)
  (add : option Uploader.IPFSAdder) (disk : gmap string string) (w : World) : World * VideoAnswer :=
  match accept_video e r f run with
  | Err a => (w, VideoError a)
  | Ok (path, data) =>
      let bytesRead := Z.of_nat (String.length data) in
      let disk := <[path := data]> disk in
      let '(budget, granted) := take (uploadSessionKey r) bytesRead (today run) (w_uploads w) in
      let w := mkWorld budget (w_added w) (w_store w) in
      if negb granted then (w, VideoError (writeUploadError r 429 "upload_quota_exceeded" ∅)) else
      match Transcode.Validate (video e) bytesRead
              (Transcode.probeVideoInfo (Transcode.ffprobe (Config.FFprobePath (video e)) path disk)) with
      | Some err =>
          (w, VideoError (writeUploadError r 400 (Transcode.Code err) (validation_details err)))
      | None =>
          match store_video e run add path disk (w_added w) with
          | (Err (status, code), log) =>
              (mkWorld (w_uploads w) log (w_store w), VideoError (writeUploadError r status code ∅))
          | (Ok (transcoded, res), log) =>
              (mkWorld (w_uploads w) log
                 (UnpinStore.TrackGroup (Uploader.MasterCID res) (Uploader.AllCIDs res) (saved run) (w_store w)),
               VideoUploaded (video_response transcoded res))
          end
      end
  end.

(** * Specification *)

(** The masked copy of the poster [stem.jpg]. *)
Definition mask_path (postersDir key stem : string) : string :=
  postersDir +:+ "/" +:+ key +:+ "/" +:+ stem +:+ ".jpg".
Definition poster_path (postersDir stem : string) : string := postersDir +:+ "/" +:+ stem +:+ ".jpg".

Definition mask_keys : list string := [Config.PrivacyBlurVariantKey; Config.PrivacyFaceBlurVariantKey].

(** The name of a poster, without its extension. *)
Definition stem_ok (stem : string) : Prop := Url.plain stem /\ stem <> "" /\ chr 47 ∉ chars stem.

(** The mask of a picture in a mode: what its bytes must be. *)
Definition mask_of (p : ImageProc.Processor) (source mode content : string) : Prop :=
  exists src faces, ImageProc.Decode source = Some src /\ ImageProc.Detect p (ImageProc.toNRGBA src) = Some faces /\
    (mode = Config.PrivacyBlurVariantKey /\ ImageProc.encode p (ImageProc.whole_blur p src) "jpeg" = Ok content \/
     mode = Config.PrivacyFaceBlurVariantKey /\
       ImageProc.encode p (ImageProc.faces_blur p src faces) "jpeg" = Ok content).

(** What ffmpeg leaves in the directory of posters: JPEG files with plain names
    and nothing below it. *)
Definition tidy (out : string) (disk : gmap string string) : Prop :=
  (forall rel content, (rel, content) ∈ below out disk -> HasPrefix rel "posters/" = true ->
     exists stem, rel = "posters/" +:+ stem +:+ ".jpg" /\ stem_ok stem /\
       forall w h f, ImageProc.DecodeConfig content = Some (w, h, f) -> f = "jpeg").

(** And one playlist a variant. *)
Definition one_playlist (out : string) (disk : gmap string string) : Prop :=
  forall p q, p ∈ (below out disk).*1 -> q ∈ (below out disk).*1 ->
    Uploader.is_playlist p = true -> Uploader.is_playlist q = true -> Dir p = Dir q -> p = q.

(** * Lemmas *)

Lemma below_elem dir disk rel c : (rel, c) ∈ below dir disk <-> disk !! (dir +:+ "/" +:+ rel) = Some c.
Proof.
  unfold below. rewrite list_elem_of_omap. split.
  - intros ([path c'] & Hin & (r & Hr & [= -> ->])%fmap_Some). apply CutPrefix_Some in Hr as ->.
    apply elem_of_map_to_list in Hin. by rewrite <- append_assoc.
  - intros Hd. exists (dir +:+ "/" +:+ rel, c). split; [by apply elem_of_map_to_list|].
    by rewrite <- append_assoc, CutPrefix_app.
Qed.

Lemma below_NoDup dir disk : NoDup (below dir disk).*1.
Proof.
  unfold below. pose proof (NoDup_fst_map_to_list disk) as HN. revert HN.
  induction (map_to_list disk) as [|[path c] l IH]; intros HN; [constructor|]. cbn in HN |- *.
  apply NoDup_cons in HN as [Hp HN]. destruct (CutPrefix (dir +:+ "/") path) as [r|] eqn:E; [|by apply IH].
  cbn. constructor; [|by apply IH]. intros Hin. apply Hp. apply list_elem_of_fmap in Hin as ([r' c'] & Hr & Hin).
  cbn in Hr. subst r'. apply list_elem_of_omap in Hin as ([path' c2] & Hin & (r2 & Hr & [= <- <-])%fmap_Some).
  apply CutPrefix_Some in E, Hr. apply list_elem_of_fmap. exists (path', c'). split; [by subst|done].
Qed.

Lemma ReadDir_elem dir disk name : name ∈ ReadDir dir disk <->
  (chr 47 ∉ chars name) /\ exists c, disk !! (dir +:+ "/" +:+ name) = Some c.
Proof.
  unfold ReadDir. rewrite (merge_sort_Permutation str_ord), list_elem_of_filter. split.
  - intros [Hs Hin]. split; [done|]. apply list_elem_of_fmap in Hin as ([r c] & -> & Hin).
    exists c. by apply below_elem.
  - intros [Hs [c Hc]]. split; [done|]. apply list_elem_of_fmap. exists (name, c). split; [done|]. by apply below_elem.
Qed.

Lemma ReadDir_NoDup dir disk : NoDup (ReadDir dir disk).
Proof.
  unfold ReadDir. rewrite (merge_sort_Permutation str_ord). apply NoDup_filter, below_NoDup.
Qed.

Lemma stem_component stem : stem_ok stem -> component (stem +:+ ".jpg").
Proof.
  intros (Hp & Hne & Hs). unfold component. split_and!.
  - by destruct stem.
  - intros E. apply (f_equal String.length) in E. rewrite length_append in E. simpl in E. lia.
  - intros E. apply (f_equal String.length) in E. rewrite length_append in E. simpl in E. lia.
  - rewrite chars_append, elem_of_app. intros [?|Hin]; [done|]. by revert Hin; by_dec.
Qed.

Lemma stem_name stem : stem_ok stem ->
  isPosterImage (stem +:+ ".jpg") = true /\
  poster_copy_name (stem +:+ ".jpg") "jpeg" = stem +:+ ".jpg".
Proof.
  intros (Hp & Hne & Hs). assert (HE : Ext (stem +:+ ".jpg") = ".jpg") by (by apply (Ext_last stem "jpg"); [|by_dec..]).
  unfold isPosterImage, poster_copy_name. rewrite HE, TrimSuffix_app. done.
Qed.

Lemma mask_key_component key : key ∈ mask_keys -> component key.
Proof.
  intros Hk. repeat (apply elem_of_cons in Hk as [->|Hk]); [..|by apply not_elem_of_nil in Hk];
    (split_and!; try done; by_dec).
Qed.

Lemma mask_path_inj dir key stem key' stem' : key ∈ mask_keys -> key' ∈ mask_keys ->
  mask_path dir key stem = mask_path dir key' stem' -> key = key' /\ stem = stem'.
Proof.
  unfold mask_path. intros Hk Hk' E. apply append_inj_l, append_inj_l in E.
  repeat (apply elem_of_cons in Hk as [->|Hk]); [..|by apply not_elem_of_nil in Hk];
    repeat (apply elem_of_cons in Hk' as [->|Hk']); try (by apply not_elem_of_nil in Hk');
    unfold Config.PrivacyBlurVariantKey, Config.PrivacyFaceBlurVariantKey in *; try discriminate E;
    repeat (apply append_inj_l in E); by apply append_inj_r in E.
Qed.

Lemma mask_not_poster dir key stem stem' : key ∈ mask_keys -> (chr 47 ∉ chars stem') ->
  mask_path dir key stem <> poster_path dir stem'.
Proof.
  unfold mask_path, poster_path. intros Hk Hs E. apply append_inj_l, append_inj_l in E.
  assert (Hin : chr 47 ∈ chars (stem' +:+ ".jpg")).
  { rewrite <- E, !chars_append, !elem_of_app. right. left. by left. }
  rewrite chars_append, elem_of_app in Hin. destruct Hin as [?|Hin]; [done|]. by revert Hin; by_dec.
Qed.

Section masks.
Variables (p : ImageProc.Processor) (ctx : string -> bool * bool) (postersDir : string).
Hypothesis clean : clean_dir postersDir.
Hypothesis jpeg : Config.OutputFormat (ImageProc.cfg p) <> "webp".

Lemma jpeg_out : ImageProc.outputFormat p (ImageProc.normalizeFormat "jpeg" "image/jpeg") = "jpeg".
Proof.
  unfold ImageProc.outputFormat. case_bool_decide as Hf; [|done].
  apply elem_of_cons in Hf as [->|Hf]; [done|]. by apply list_elem_of_singleton in Hf.
Qed.

(** The copies of one poster. *)
Lemma write_masks stem whole masked img disk disk' : stem_ok stem ->
  write_posters postersDir (stem +:+ ".jpg")
    [ImageProc.privacy_variant Config.PrivacyBlurVariantKey "jpeg" whole img;
     ImageProc.privacy_variant Config.PrivacyFaceBlurVariantKey "jpeg" masked img] disk = Ok disk' ->
  disk' = <[mask_path postersDir Config.PrivacyFaceBlurVariantKey stem := masked]>
            (<[mask_path postersDir Config.PrivacyBlurVariantKey stem := whole]> disk).
Proof.
  intros Hs. cbn [write_posters ImageProc.privacy_variant ImageProc.v_Key ImageProc.v_Format ImageProc.v_Data].
  destruct (stem_name stem Hs) as [_ ->].
  assert (HP : forall key, key ∈ mask_keys ->
    PathJoin (PathJoin postersDir key) (stem +:+ ".jpg") = mask_path postersDir key stem).
  { intros key Hk. destruct (PathJoin_clean postersDir key clean (mask_key_component key Hk)) as [-> Hc].
    destruct (PathJoin_clean _ (stem +:+ ".jpg") Hc (stem_component stem Hs)) as [-> _].
    unfold mask_path. by rewrite !append_assoc. }
  rewrite !HP by by_dec.
  repeat (destruct (negb _); [done|]). by intros [= <-].
Qed.

(** What one round leaves: nothing changed when the poster does not decode, or its two
    masks are written. *)
Definition masked_once (stem data : string) (disk disk1 : gmap string string) : Prop :=
  (disk1 = disk /\ (ImageProc.DecodeConfig data = None \/ ImageProc.Decode data = None)) \/
  exists whole masked, disk1 = <[mask_path postersDir Config.PrivacyFaceBlurVariantKey stem := masked]>
          (<[mask_path postersDir Config.PrivacyBlurVariantKey stem := whole]> disk) /\
    mask_of p data Config.PrivacyBlurVariantKey whole /\ mask_of p data Config.PrivacyFaceBlurVariantKey masked.

Lemma one_poster stem data cancelled vs disk disk1 : stem_ok stem ->
  (forall w h f, ImageProc.DecodeConfig data = Some (w, h, f) -> f = "jpeg") ->
  ImageProc.ProcessPrivacy p cancelled data "image/jpeg" = Ok vs ->
  write_posters postersDir (stem +:+ ".jpg") vs disk = Ok disk1 -> masked_once stem data disk disk1.
Proof.
  intros Hs Hj HP HW. unfold ImageProc.ProcessPrivacy in HP. destruct (ImageProc.DecodeConfig data) as [[[w h] f]|] eqn:EC.
  2:{ injection HP as <-. injection HW as <-. left. auto. }
  destruct (ImageProc.Decode data) as [src|] eqn:ED; [|injection HP as <-; injection HW as <-; left; auto]. right.
  rewrite (Hj w h f eq_refl), jpeg_out in HP.
  apply ImageProc.privacyVariants_Ok in HP as (_ & _ & faces & whole & masked & HDt & Hw & Hm & ->).
  apply write_masks in HW; [|done]. exists whole, masked. split; [done|]. split; exists src, faces; auto.
Qed.

Lemma masked_once_frame stem data disk disk1 : masked_once stem data disk disk1 ->
  forall path, disk1 !! path = disk !! path \/ exists key, path = mask_path postersDir key stem /\ key ∈ mask_keys.
Proof.
  intros HX path. destruct HX as [[-> _]|(whole & masked & -> & _)]; [by left|].
  destruct (decide (path = mask_path postersDir Config.PrivacyFaceBlurVariantKey stem)) as [->|H1];
    [right; eexists; split; [done|by_dec]|].
  destruct (decide (path = mask_path postersDir Config.PrivacyBlurVariantKey stem)) as [->|H2];
    [right; eexists; split; [done|by_dec]|]. left. by rewrite !lookup_insert_ne.
Qed.

Lemma masked_once_masks stem data mode disk disk1 : masked_once stem data disk disk1 -> mode ∈ mask_keys ->
  is_Some (ImageProc.DecodeConfig data) -> is_Some (ImageProc.Decode data) ->
  exists content, disk1 !! mask_path postersDir mode stem = Some content /\ mask_of p data mode content.
Proof.
  intros HX Hm [? Hc] [? Hd]. destruct HX as [[_ [HX|HX]]|(whole & masked & -> & Hw & Hmk)]; [congruence..|].
  apply elem_of_cons in Hm as [->|Hm]; [|apply list_elem_of_singleton in Hm as ->].
  - exists whole. split; [|done]. rewrite lookup_insert_ne, lookup_insert_eq; [done|].
    intros E. apply mask_path_inj in E as [E _]; [discriminate E|by_dec..].
  - exists masked. split; [|done]. apply lookup_insert_eq.
Qed.

(** The loop: nothing but masks changes, and every poster that decodes has its
    masks afterwards. *)
Lemma privacy_posters_Ok stems disk disk' :
  Forall stem_ok stems -> NoDup stems ->
  (forall stem data, stem ∈ stems -> disk !! poster_path postersDir stem = Some data ->
     forall w h f, ImageProc.DecodeConfig data = Some (w, h, f) -> f = "jpeg") ->
  privacy_posters p ctx postersDir ((fun stem => stem +:+ ".jpg") <$> stems) disk = Ok disk' ->
  (forall path, disk' !! path = disk !! path \/
     exists key stem, path = mask_path postersDir key stem /\ key ∈ mask_keys /\ stem ∈ stems) /\
  (forall stem data mode, stem ∈ stems -> disk !! poster_path postersDir stem = Some data -> mode ∈ mask_keys ->
     is_Some (ImageProc.DecodeConfig data) -> is_Some (ImageProc.Decode data) ->
     exists content, disk' !! mask_path postersDir mode stem = Some content /\ mask_of p data mode content).
Proof.
  intros HF HN. revert disk. induction HF as [|stem stems Hs HF IH]; intros disk Hj.
  { intros [= <-]. split; [by left|]. by intros ? ? ? ?%not_elem_of_nil. }
  apply NoDup_cons in HN as [Hn HN]. specialize (IH HN). cbn [fmap list_fmap privacy_posters].
  destruct (stem_name stem Hs) as [-> _]. cbn [negb]. destruct (ctx _).1; [done|].
  destruct (PathJoin_clean postersDir (stem +:+ ".jpg") clean (stem_component stem Hs)) as [-> _].
  fold (poster_path postersDir stem).
  destruct (if read_ok _ _ then _ else _) as [data|] eqn:HR; [|done].
  assert (HD : disk !! poster_path postersDir stem = Some data) by (by destruct (read_ok _ _)).
  destruct (ImageProc.ProcessPrivacy _ _ _ _) as [vs|] eqn:HP; [|done].
  destruct (write_posters _ _ _ _) as [disk1|] eqn:HW; [|done]. intros HL.
  pose proof (one_poster stem data _ vs disk disk1 Hs (Hj stem data (list_elem_of_here _ _) HD) HP HW) as HX.
  pose proof (masked_once_frame _ _ _ _ HX) as Hfr.
  assert (Hst : forall stem', stem' ∈ stems -> disk1 !! poster_path postersDir stem' = disk !! poster_path postersDir stem').
  { intros stem' Hs'. rewrite Forall_forall in HF. destruct (HF stem' Hs') as (_ & _ & Hsl).
    destruct (Hfr (poster_path postersDir stem')) as [?|(key & E & Hk)]; [done|]. symmetry in E.
    by apply mask_not_poster in E. }
  apply IH in HL as [HA HB].
  2:{ intros stem' d Hs' Hd. apply (Hj stem' d); [by right|]. by rewrite <- Hst. }
  split.
  - intros path. destruct (HA path) as [->|(key & stem' & -> & Hk & Hs')]; [|right; exists key, stem'; split_and!; [done..|by right]].
    destruct (Hfr path) as [->|(key & -> & Hk)]; [by left|]. right. exists key, stem. split_and!; [done..|by left].
  - intros stem' d mode Hs' Hd Hm Hc Hdec. apply elem_of_cons in Hs' as [->|Hs'].
    + assert (d = data) as -> by congruence.
      destruct (masked_once_masks _ _ mode _ _ HX Hm Hc Hdec) as (content & Hk & Hmk). exists content. split; [|done].
      destruct (HA (mask_path postersDir mode stem)) as [->|(key' & stem' & E & Hk' & Hs')]; [done|].
      apply mask_path_inj in E as [_ ->]; done.
    + apply (HB stem' d mode); try done. by rewrite Hst.
Qed.
End masks.

(** ** The directory that is uploaded *)

Lemma lower_jpg s : Url.plain s -> HasSuffix (ToLower (s +:+ ".jpg")) ".jpg" = true.
Proof.
  intros HP. destruct (ToLower_ends s ".jpg") as [s' E].
  - eapply Forall_impl; [exact HP|]. intros c Hc. split; intros ->; by vm_compute in Hc.
  - rewrite E. apply HasSuffix_true. by exists s'.
Qed.

Lemma stem_file stem : stem_ok stem ->
  (chr 47 ∉ chars (stem +:+ ".jpg")) /\ Ext (stem +:+ ".jpg") = ".jpg".
Proof.
  intros Hst. pose proof Hst as (_ & _ & Hs). split; [by apply (stem_component stem Hst)|].
  by apply (Ext_last stem "jpg"); [|by_dec..].
Qed.

Lemma poster_of_mask key stem : key ∈ mask_keys -> stem_ok stem ->
  Uploader.posterFromPath ("posters/" +:+ key +:+ "/" +:+ stem +:+ ".jpg") = Some (Uploader.mkPosterPath key stem).
Proof.
  intros Hk Hst. pose proof Hst as (Hp & Hne & Hs). destruct (stem_file stem Hst) as [Hfs HE].
  destruct (mask_key_component key Hk) as (_ & _ & _ & Hks).
  assert (HL : HasSuffix (ToLower ("posters/" +:+ key +:+ "/" +:+ stem +:+ ".jpg")) ".jpg" = true).
  { assert (HP : Url.plain ("posters/" +:+ key +:+ "/" +:+ stem)).
    { rewrite !Url.plain_append. repeat (apply elem_of_cons in Hk as [->|Hk]); [..|by apply not_elem_of_nil in Hk];
        split_and!; try done; by apply (bool_decide_unpack _); vm_compute. }
    apply lower_jpg in HP. by rewrite !append_assoc in HP. }
  unfold Uploader.posterFromPath. rewrite (proj2 (HasPrefix_true _ _)), HL by eauto. cbn [negb orb].
  rewrite TrimPrefix_app. set (file := stem +:+ ".jpg") in *.
  change ("/" +:+ file) with (String (chr 47) file). rewrite Split_app_sep, Split_no by done.
  cbn [length Nat.eqb orb negb List.last List.hd]. rewrite Ext_slash, HE by done.
  unfold file. rewrite TrimSuffix_app. by rewrite (bool_decide_eq_false_2 _ Hne).
Qed.

Lemma poster_of_stem stem : stem_ok stem ->
  Uploader.posterFromPath ("posters/" +:+ stem +:+ ".jpg") = Some (Uploader.mkPosterPath "" stem).
Proof.
  intros Hst. pose proof Hst as (Hp & Hne & Hs). destruct (stem_file stem Hst) as [Hfs HE].
  unfold Uploader.posterFromPath. rewrite (proj2 (HasPrefix_true _ _)) by eauto.
  rewrite <- append_assoc, lower_jpg.
  2:{ apply Url.plain_append. split; [by apply (bool_decide_unpack _); vm_compute|done]. }
  cbn [negb orb]. rewrite append_assoc, TrimPrefix_app, Split_no by done.
  cbn [length Nat.eqb orb negb List.last]. rewrite HE, TrimSuffix_app. by rewrite (bool_decide_eq_false_2 _ Hne).
Qed.

Lemma poster_has_prefix path pp : Uploader.posterFromPath path = Some pp -> HasPrefix path "posters/" = true.
Proof. unfold Uploader.posterFromPath. by destruct (HasPrefix path "posters/"). Qed.

(** [filepath.Walk] visits every file below once, with its contents if it can
    be read. *)
Class DiskLaws := walk_lists dir disk :
  (Walk dir disk).*1 ≡ₚ (below dir disk).*1 /\
  forall rel c, (rel, Some c) ∈ Walk dir disk -> (rel, c) ∈ below dir disk.
Context `{HDl : DiskLaws, HRl : !Uploader.RangesLaws}.

Lemma Walk_NoDup dir disk : NoDup (Walk dir disk).*1.
Proof. destruct (walk_lists dir disk) as [-> _]. apply below_NoDup. Qed.

(** The path a poster has when it has one. *)
Definition path_of (pp : Uploader.posterPath) : string :=
  if bool_decide (Uploader.pp_variant pp = "") then poster_path "posters" (Uploader.pp_size pp)
  else mask_path "posters" (Uploader.pp_variant pp) (Uploader.pp_size pp).

Section masked_dir.
Variables (p : ImageProc.Processor) (ctx : string -> bool * bool) (out : string) (disk disk' : gmap string string).
Hypothesis clean : clean_dir out.
Hypothesis jpeg : Config.OutputFormat (ImageProc.cfg p) <> "webp".
Hypothesis tidied : tidy out disk.
Hypothesis built : buildVideoPrivacyPosters p ctx out disk = Ok disk'.

Lemma posters_dir : PathJoin out "posters" = out +:+ "/posters" /\ clean_dir (out +:+ "/posters").
Proof. apply PathJoin_clean; [done|]. split_and!; try done. by_dec. Qed.

Lemma poster_stem name c : disk !! (out +:+ "/posters/" +:+ name) = Some c ->
  exists stem, name = stem +:+ ".jpg" /\ stem_ok stem /\
    forall w h f, ImageProc.DecodeConfig c = Some (w, h, f) -> f = "jpeg".
Proof.
  intros Hc. change (out +:+ "/posters/" +:+ name) with (out +:+ "/" +:+ ("posters/" +:+ name)) in Hc.
  apply below_elem in Hc. destruct (tidied _ _ Hc) as (stem & E & Hs & Hf); [apply HasPrefix_true; eauto|].
  apply append_inj_l in E. by exists stem.
Qed.

Lemma built_posters :
  (forall path, disk' !! path = disk !! path \/
     exists key stem, path = mask_path (out +:+ "/posters") key stem /\ key ∈ mask_keys /\ stem_ok stem) /\
  (forall stem data mode, stem_ok stem -> disk !! poster_path (out +:+ "/posters") stem = Some data ->
     mode ∈ mask_keys -> is_Some (ImageProc.DecodeConfig data) -> is_Some (ImageProc.Decode data) ->
     exists content, disk' !! mask_path (out +:+ "/posters") mode stem = Some content /\ mask_of p data mode content).
Proof.
  destruct posters_dir as [HP Hpc]. pose proof built as HB. unfold buildVideoPrivacyPosters in HB.
  rewrite HP in HB. destruct (negb _); [done|].
  set (names := ReadDir (out +:+ "/posters") disk) in *.
  assert (Hn : forall name, name ∈ names -> exists stem, name = stem +:+ ".jpg" /\ stem_ok stem).
  { intros name [_ [c Hc]]%ReadDir_elem. rewrite append_assoc in Hc.
    destruct (poster_stem name c Hc) as (stem & ? & ? & _). eauto. }
  assert (exists stems, names = (fun stem => stem +:+ ".jpg") <$> stems /\ Forall stem_ok stems /\ NoDup stems)
    as (stems & HE & HF & HN).
  { exists ((fun n => TrimSuffix n ".jpg") <$> names).
    assert (HE : (fun stem => stem +:+ ".jpg") <$> ((fun n => TrimSuffix n ".jpg") <$> names) = names).
    { rewrite <- list_fmap_compose. transitivity (id <$> names); [|apply list_fmap_id].
      apply list_fmap_ext. intros k name Hk. cbn. apply list_elem_of_lookup_2, Hn in Hk as (stem & -> & _).
      by rewrite TrimSuffix_app. }
    split_and!; [done| |].
    - apply Forall_fmap, Forall_forall. intros name Hin. destruct (Hn name Hin) as (stem & -> & Hs).
      cbn. by rewrite TrimSuffix_app.
    - apply (NoDup_fmap_1 (fun stem => stem +:+ ".jpg")). rewrite HE. apply ReadDir_NoDup. }
  rewrite HE in HB. apply privacy_posters_Ok in HB as [HA HM]; try done.
  2:{ intros stem data _ Hd. unfold poster_path in Hd. rewrite append_assoc in Hd.
      by destruct (poster_stem _ _ Hd) as (? & _ & _ & ?). }
  split.
  - intros path. destruct (HA path) as [?|(key & stem & -> & Hk & Hs)]; [by left|right].
    exists key, stem. rewrite Forall_forall in HF. auto.
  - intros stem data mode Hs Hd. apply HM; [|done].
    assert (Hin : stem +:+ ".jpg" ∈ names).
    { apply ReadDir_elem. split; [by apply (stem_component stem Hs)|by exists data]. }
    rewrite HE in Hin. apply list_elem_of_fmap in Hin as (stem' & Heq & Hin). by apply append_inj_r in Heq as ->.
Qed.

(** Every poster of the directory has the path its size and variant say. *)
Lemma built_paths rel c pp : (rel, c) ∈ below out disk' -> Uploader.posterFromPath rel = Some pp ->
  rel = path_of pp /\ stem_ok (Uploader.pp_size pp) /\
  (Uploader.pp_variant pp = "" \/ Uploader.pp_variant pp ∈ mask_keys).
Proof.
  intros Hin HPP. pose proof (poster_has_prefix rel pp HPP) as HP. apply below_elem in Hin.
  destruct built_posters as [HA _]. destruct (HA (out +:+ "/" +:+ rel)) as [HD|(key & stem & E & Hk & Hs)].
  - rewrite HD in Hin. apply below_elem in Hin. destruct (tidied _ _ Hin HP) as (stem & -> & Hs & _).
    rewrite poster_of_stem in HPP by done. injection HPP as <-. split_and!; [|done|by left].
    unfold path_of. by rewrite bool_decide_eq_true_2.
  - unfold mask_path in E. rewrite append_assoc in E. apply append_inj_l in E.
    assert (E' : rel = "posters/" +:+ key +:+ "/" +:+ stem +:+ ".jpg").
    { apply (append_inj_l "/"). rewrite E. reflexivity. }
    subst rel. rewrite poster_of_mask in HPP by done. injection HPP as <-. cbn [Uploader.pp_variant Uploader.pp_size].
    split_and!; [|done|by right]. unfold path_of. cbn [Uploader.pp_variant Uploader.pp_size].
    rewrite bool_decide_eq_false_2; [done|]. by destruct (mask_key_component key Hk).
Qed.

Lemma built_plain : Uploader.posters_plain (Walk out disk').*1.
Proof.
  intros rel pp Hin HPP. destruct (walk_lists out disk') as [HW _]. rewrite HW in Hin.
  apply list_elem_of_fmap in Hin as ([r c] & -> & Hin). destruct (built_paths r c pp Hin HPP) as (_ & (Hs & _) & Hv).
  split; [|done]. destruct Hv as [->|Hv]; [constructor|].
  repeat (apply elem_of_cons in Hv as [->|Hv]); [..|by apply not_elem_of_nil in Hv];
    by apply (bool_decide_unpack _); vm_compute.
Qed.

Lemma built_distinct : Uploader.posters_distinct (Walk out disk').*1.
Proof.
  destruct (walk_lists out disk') as [HW _]. intros r1 r2 pp H1 H2 HP1 HP2. rewrite HW in H1, H2.
  apply list_elem_of_fmap in H1 as ([q1 c1] & -> & H1). apply list_elem_of_fmap in H2 as ([q2 c2] & -> & H2).
  destruct (built_paths q1 c1 pp H1 HP1) as [-> _]. by destruct (built_paths q2 c2 pp H2 HP2) as [-> _].
Qed.

(** What ffmpeg made stays as it is, *)
Lemma built_keeps rel c : (rel, c) ∈ below out disk -> (rel, c) ∈ below out disk'.
Proof.
  rewrite !below_elem. intros Hc. destruct (proj1 built_posters (out +:+ "/" +:+ rel)) as [->|(key & stem & E & Hk & _)]; [done|].
  exfalso. assert (E' : rel = mask_path "posters" key stem).
  { unfold mask_path in *. rewrite append_assoc in E. apply append_inj_l in E. apply (append_inj_l "/"). by rewrite E. }
  subst rel. apply below_elem in Hc. destruct (tidied _ _ Hc) as (stem' & E' & (_ & _ & Hs) & _).
  { apply HasPrefix_true. by eexists. }
  by apply (mask_not_poster "posters" key stem stem' Hk Hs).
Qed.

(** and nothing but masks is added to it. *)
Lemma built_adds rel c : (rel, c) ∈ below out disk' -> (rel, c) ∈ below out disk \/ HasSuffix rel ".jpg" = true.
Proof.
  rewrite !below_elem. intros Hc. destruct (proj1 built_posters (out +:+ "/" +:+ rel)) as [HD|(key & stem & E & _)].
  { left. by rewrite <- HD. }
  right. apply HasSuffix_true. exists ("posters/" +:+ key +:+ "/" +:+ stem). unfold mask_path in E.
  rewrite append_assoc in E. apply append_inj_l in E. apply (append_inj_l "/"). rewrite E. by rewrite !append_assoc.
Qed.

Lemma built_transcoded : one_playlist out disk -> Uploader.transcoded (Walk out disk').*1.
Proof.
  intros HO. split; [apply built_plain|]. split; [apply built_distinct|]. destruct (walk_lists out disk') as [HW _].
  assert (HB : forall rel, rel ∈ (Walk out disk').*1 -> Uploader.is_playlist rel = true -> rel ∈ (below out disk).*1).
  { intros rel Hin HPl. rewrite HW in Hin. apply list_elem_of_fmap in Hin as ([r c] & -> & Hin).
    apply built_adds in Hin as [Hin|Hj]; [by apply list_elem_of_fmap_2 with (f := fst) in Hin|exfalso].
    by pose proof (suffix_clash r ".jpg" "playlist.m3u8" "g"%char "8"%char Hj HPl eq_refl eq_refl). }
  intros q1 q2 H1 H2 HP1 HP2. by apply HO; [apply HB|apply HB|..].
Qed.

(** What is stored of a listed poster: its file, and under its name and a mask's key
    that mask of it. *)
Lemma posters_uploaded u log res log' size c :
  Uploader.UploadDir u (Walk out disk') log = (Ok res, log') -> Uploader.PosterCIDs res !! size = Some c ->
  exists source, Uploader.mkAddition (size +:+ ".jpg") source c ∈ log' /\
    forall mode, mode ∈ mask_keys -> is_Some (ImageProc.DecodeConfig source) -> is_Some (ImageProc.Decode source) ->
    exists content m, Uploader.PrivacyPosterCIDs res !! mode ≫= (.!! size) = Some m /\
      Uploader.mkAddition (size +:+ ".jpg") content m ∈ log' /\ mask_of p source mode content.
Proof.
  intros HU Hc. destruct built_posters as [HA HM]. destruct (walk_lists out disk') as [HW1 HW2].
  destruct (Uploader.uploaded_poster_files _ _ _ _ _ HU (Walk_NoDup out disk') built_distinct) as (files & Hf & Hsome & Hlook).
  assert (Hfile : forall rel c', files !! rel = Some c' -> exists content,
    disk' !! (out +:+ "/" +:+ rel) = Some content /\ Uploader.mkAddition (Base rel) content c' ∈ log').
  { intros rel c' Hr. destruct (Hf rel c' Hr) as (content & Hin & Hadd). exists content. split; [|done].
    apply below_elem. by apply HW2. }
  assert (HLk : Uploader.poster_lookup res (Uploader.mkPosterPath "" size) = Some c) by done.
  apply Hlook in HLk as (rel & Hrel & HPP). destruct (Hfile rel c Hrel) as (source & Hsource & Hadd).
  destruct (built_paths rel source _ ltac:(by apply below_elem) HPP) as (-> & Hs & _). cbn [Uploader.pp_size] in Hs.
  assert (Hbase : forall d, Base (d +:+ "/" +:+ size +:+ ".jpg") = size +:+ ".jpg").
  { intros d. change ("/" +:+ size +:+ ".jpg") with (String (chr 47) (size +:+ ".jpg")).
    apply Base_in; [by apply (stem_component size Hs)|by destruct (stem_file size Hs)]. }
  change (path_of (Uploader.mkPosterPath "" size)) with ("posters" +:+ "/" +:+ size +:+ ".jpg") in *.
  rewrite Hbase in Hadd. exists source. split; [done|]. intros mode Hm HDC HD.
  assert (Hsource1 : disk !! poster_path (out +:+ "/posters") size = Some source).
  { unfold poster_path. destruct (HA (poster_path (out +:+ "/posters") size)) as [HE|(key & stem & E & Hk & _)].
    - unfold poster_path in HE. rewrite <- HE. by rewrite append_assoc.
    - symmetry in E. destruct Hs as (_ & _ & Hs). by apply mask_not_poster in E. }
  destruct (HM size source mode Hs Hsource1 Hm HDC HD) as (content & Hcontent & Hmask).
  unfold mask_path in Hcontent. rewrite append_assoc in Hcontent.
  set (mfile := "posters/" +:+ mode +:+ "/" +:+ size +:+ ".jpg").
  change (out +:+ "/posters" +:+ "/" +:+ mode +:+ "/" +:+ size +:+ ".jpg") with (out +:+ "/" +:+ mfile) in Hcontent.
  assert (Hmfile : is_Some (files !! mfile)).
  { apply Hsome. rewrite HW1. apply list_elem_of_fmap. exists (mfile, content). split; [done|]. by apply below_elem. }
  destruct Hmfile as [m Hmfile]. destruct (Hfile _ m Hmfile) as (content' & Hcontent' & Hadd').
  assert (content' = content) as -> by congruence. exists content, m. split_and!; [| |done].
  - assert (Hmlook : Uploader.poster_lookup res (Uploader.mkPosterPath mode size) = Some m).
    { apply Hlook. exists mfile. split; [done|]. by apply poster_of_mask. }
    destruct (mask_key_component mode Hm) as (Hm0 & _). unfold Uploader.poster_lookup in Hmlook.
    cbn [Uploader.pp_variant Uploader.pp_size] in Hmlook. by rewrite (bool_decide_eq_false_2 _ Hm0) in Hmlook.
  - change mfile with (("posters/" +:+ mode) +:+ "/" +:+ size +:+ ".jpg") in Hadd'. by rewrite Hbase in Hadd'.
Qed.
End masked_dir.

(** *** Masks written as WebP *)

Lemma webp_component stem : stem_ok stem -> component (stem +:+ ".webp").
Proof.
  intros (Hp & Hne & Hs). unfold component. split_and!.
  - by destruct stem.
  - intros E. apply (f_equal String.length) in E. rewrite length_append in E. simpl in E. lia.
  - intros E. apply (f_equal String.length) in E. rewrite length_append in E. simpl in E. lia.
  - rewrite chars_append, elem_of_app. intros [?|Hin]; [done|]. by revert Hin; by_dec.
Qed.

Definition webp_path (dir key stem : string) : string := dir +:+ "/" +:+ key +:+ "/" +:+ stem +:+ ".webp".

Lemma webp_no_poster rel : Url.plain rel -> Uploader.posterFromPath (rel +:+ ".webp") = None.
Proof.
  intros HP. unfold Uploader.posterFromPath.
  assert (HL : HasSuffix (ToLower (rel +:+ ".webp")) ".jpg" = false); [|by rewrite HL, orb_true_r].
  destruct (ToLower_ends rel ".webp") as [s' ->].
  - eapply Forall_impl; [exact HP|]. intros c Hc. split; intros ->; by vm_compute in Hc.
  - apply not_true_iff_false. intros [x E]%HasSuffix_true. apply (f_equal (fun s => last (chars s))) in E.
    rewrite !chars_append, !last_app in E. by vm_compute in E.
Qed.

Section webp.
Variables (p : ImageProc.Processor) (ctx : string -> bool * bool) (out : string) (disk disk' : gmap string string).
Hypothesis clean : clean_dir out.
Hypothesis webp : Config.OutputFormat (ImageProc.cfg p) = "webp".
Hypothesis tidied : tidy out disk.
Hypothesis built : buildVideoPrivacyPosters p ctx out disk = Ok disk'.

Lemma write_webp dir stem whole masked img d d' : clean_dir dir -> stem_ok stem ->
  write_posters dir (stem +:+ ".jpg")
    [ImageProc.privacy_variant Config.PrivacyBlurVariantKey "webp" whole img;
     ImageProc.privacy_variant Config.PrivacyFaceBlurVariantKey "webp" masked img] d = Ok d' ->
  d' = <[webp_path dir Config.PrivacyFaceBlurVariantKey stem := masked]>
         (<[webp_path dir Config.PrivacyBlurVariantKey stem := whole]> d).
Proof.
  intros Hd Hs. cbn [write_posters ImageProc.privacy_variant ImageProc.v_Key ImageProc.v_Format ImageProc.v_Data].
  assert (HN : poster_copy_name (stem +:+ ".jpg") "webp" = stem +:+ ".webp").
  { unfold poster_copy_name. destruct (stem_file stem Hs) as [_ ->]. by rewrite TrimSuffix_app. }
  rewrite HN.
  assert (HP : forall key, key ∈ mask_keys -> PathJoin (PathJoin dir key) (stem +:+ ".webp") = webp_path dir key stem).
  { intros key Hk. destruct (PathJoin_clean dir key Hd (mask_key_component key Hk)) as [-> Hc].
    destruct (PathJoin_clean _ (stem +:+ ".webp") Hc (webp_component stem Hs)) as [-> _].
    unfold webp_path. by rewrite !append_assoc. }
  rewrite !HP by by_dec. repeat (destruct (negb _); [done|]). by intros [= <-].
Qed.

Lemma webp_posters_frame dir names d d' : clean_dir dir ->
  (forall name, name ∈ names -> exists stem, name = stem +:+ ".jpg" /\ stem_ok stem) ->
  privacy_posters p ctx dir names d = Ok d' ->
  forall path, d' !! path = d !! path \/
    exists key stem, path = webp_path dir key stem /\ key ∈ mask_keys /\ stem_ok stem.
Proof.
  intros Hd. revert d. induction names as [|name names IH]; intros d Hn; [intros [= <-]; by left|].
  destruct (Hn name (list_elem_of_here _ _)) as (stem & -> & Hs). cbn [privacy_posters].
  destruct (stem_name stem Hs) as [-> _]. cbn [negb]. destruct (ctx _).1; [done|].
  destruct (if read_ok _ _ then _ else _) as [data|]; [|done].
  destruct (ImageProc.ProcessPrivacy _ _ _ _) as [vs|] eqn:HP; [|done].
  destruct (write_posters _ _ _ _) as [d1|] eqn:HW; [|done]. intros HL path.
  apply (IH d1) with (path := path) in HL; [|intros n Hin; apply Hn; by right].
  destruct HL as [->|HL]; [|by right]. clear IH Hn.
  unfold ImageProc.ProcessPrivacy in HP.
  destruct (ImageProc.DecodeConfig data) as [[[w h] f]|]; [|injection HP as <-; injection HW as <-; by left].
  destruct (ImageProc.Decode data) as [src|]; [|injection HP as <-; injection HW as <-; by left].
  assert (HO : ImageProc.outputFormat p (ImageProc.normalizeFormat f "image/jpeg") = "webp")
    by (unfold ImageProc.outputFormat; rewrite webp; done).
  rewrite HO in HP. apply ImageProc.privacyVariants_Ok in HP as (_ & _ & faces & whole & masked & _ & _ & _ & ->).
  apply write_webp in HW as ->; [|done..].
  destruct (decide (path = webp_path dir Config.PrivacyFaceBlurVariantKey stem)) as [->|H1];
    [right; eexists _, _; split; [done|split; [by_dec|done]]|].
  destruct (decide (path = webp_path dir Config.PrivacyBlurVariantKey stem)) as [->|H2];
    [right; eexists _, _; split; [done|split; [by_dec|done]]|]. left. by rewrite !lookup_insert_ne.
Qed.

(** No path of the directory is a masked poster. *)
Lemma webp_paths rel c pp : (rel, c) ∈ below out disk' -> Uploader.posterFromPath rel = Some pp ->
  rel = path_of pp /\ Uploader.pp_variant pp = "" /\ Url.plain (Uploader.pp_size pp).
Proof.
  intros Hin HPP. pose proof (poster_has_prefix rel pp HPP) as HP. apply below_elem in Hin.
  destruct (posters_dir out clean) as [HD Hdc]. pose proof built as HB. unfold buildVideoPrivacyPosters in HB.
  rewrite HD in HB. destruct (negb _); [done|].
  assert (Hn : forall name, name ∈ ReadDir (out +:+ "/posters") disk -> exists stem, name = stem +:+ ".jpg" /\ stem_ok stem).
  { intros name [_ [d Hd]]%ReadDir_elem. rewrite append_assoc in Hd.
    destruct (poster_stem out disk tidied name d Hd) as (stem & ? & ? & _). eauto. }
  destruct (webp_posters_frame _ _ _ _ Hdc Hn HB (out +:+ "/" +:+ rel)) as [HE|(key & stem & E & Hk & Hs)].
  - rewrite HE in Hin. apply below_elem in Hin. destruct (tidied _ _ Hin HP) as (stem & -> & Hs & _).
    rewrite poster_of_stem in HPP by done. injection HPP as <-. destruct Hs as (Hs & _). split_and!; [|done..].
    unfold path_of. by rewrite bool_decide_eq_true_2.
  - exfalso. unfold webp_path in E. rewrite append_assoc in E. apply append_inj_l in E.
    assert (E' : rel = ("posters/" +:+ key +:+ "/" +:+ stem) +:+ ".webp").
    { apply (append_inj_l "/"). rewrite E. by rewrite !append_assoc. }
    subst rel. rewrite webp_no_poster in HPP; [done|]. destruct Hs as (Hs & _).
    rewrite !Url.plain_append. repeat (apply elem_of_cons in Hk as [->|Hk]); [..|by apply not_elem_of_nil in Hk];
      split_and!; try done; by apply (bool_decide_unpack _); vm_compute.
Qed.
End webp.

(** What a successful [HandleUploadVideo] went through. *)
Lemma HandleUploadVideo_Ok e r f run add disk w w' v :
  HandleUploadVideo e r f run add disk w = (w', VideoUploaded v) ->
  exists path data out t disk1 disk2 res,
    accept_video e r f run = Ok (path, data) /\ outputDir run = Some out /\ slot run = true /\
    Transcode.Validate (video e) (Z.of_nat (String.length data))
      (Transcode.probeVideoInfo (Transcode.ffprobe (Config.FFprobePath (video e)) path (<[path := data]> disk))) = None /\
    (take (uploadSessionKey r) (Z.of_nat (String.length data)) (today run) (w_uploads w) = (w_uploads w', true)) /\
    Transcode.Transcode (video e) path out (<[path := data]> disk) = Ok (t, disk1) /\
    buildVideoPrivacyPosters (imageProcessor (upload e)) (context run) out disk1 = Ok disk2 /\
    Uploader.UploadDir (Uploader.NewUploader add) (Walk out disk2) (w_added w) = (Ok res, w_added w') /\
    w_store w' = UnpinStore.TrackGroup (Uploader.MasterCID res) (Uploader.AllCIDs res) (saved run) (w_store w) /\
    v = video_response t res.
Proof.
  unfold HandleUploadVideo. destruct (accept_video e r f run) as [[path data]|] eqn:HA; [|done].
  destruct (take _ _ _ _) as [budget granted] eqn:HT. destruct granted; [|done]. cbn [negb].
  destruct (Transcode.Validate _ _ _) eqn:HV; [done|]. unfold store_video. cbn [w_added w_uploads w_store].
  destruct (outputDir run) as [out|]; [|done]. destruct (slot run) eqn:Hslot; [|done]. cbn [negb].
  destruct (Transcode.Transcode _ _ _ _) as [[t disk1]|] eqn:HTr; [|done].
  destruct (buildVideoPrivacyPosters _ _ _ _) as [disk2|] eqn:HB; [|done].
  destruct (Uploader.UploadDir _ _ _) as [[res|] log] eqn:HU; [|done]. intros [= <- <-].
  exists path, data, out, t, disk1, disk2, res. done.
Qed.

(** Every refusal is an error with a public code. *)
Lemma accept_error e r f run a : accept_video e r f run = Err a ->
  exists status code msg details, a = UploadError status code msg details /\ 400 <= status.
Proof.
  assert (HE : forall status code details, 400 <= status ->
    exists status' code' msg details', writeUploadError r status code details = UploadError status' code' msg details' /\ 400 <= status')
    by (intros; by eexists _, _, _, _).
  unfold accept_video, parseUploadForm.
  repeat case_match; intros HX; simplify_eq; apply HE; lia.
Qed.

Lemma store_error e run add input disk log status code log' :
  store_video e run add input disk log = (Err (status, code), log') ->
  log `prefix_of` log' /\ 400 <= status.
Proof.
  unfold store_video. destruct (outputDir run); [|by intros [= <- _ <-]].
  destruct (negb _); [by intros [= <- _ <-]|]. destruct (Transcode.Transcode _ _ _ _) as [[t disk1]|]; [|by intros [= <- _ <-]].
  destruct (buildVideoPrivacyPosters _ _ _ _); [|by intros [= <- _ <-]].
  destruct (Uploader.UploadDir _ _ _) as [[res|] log1] eqn:E; [done|]. intros [= <- _ <-]. by apply Uploader.UploadDir_prefix in E.
Qed.

(** * Properties *)

(** C1. The poster of a hidden video is a mask of its own poster, from upload to
    playback: when an upload is answered with the poster of some size and ffmpeg
    left a tidy directory, then for each masked mode the stored master gives, to
    a viewer in that mode asking for that poster, a file whose bytes are the blur
    of that poster (over the faces found in it, in the faces mode), drawn from the
    poster as it was stored. *)
Theorem hidden_poster_is_its_mask `{Url.Authority} `{Cid.CidLib} e r f run add disk w w' v path data out t disk1 size c mode :
  HandleUploadVideo e r f run add disk w = (w', VideoUploaded v) ->
  accept_video e r f run = Ok (path, data) -> outputDir run = Some out -> clean_dir out ->
  Transcode.Transcode (video e) path out (<[path := data]> disk) = Ok (t, disk1) -> tidy out disk1 ->
  Config.OutputFormat (ImageProc.cfg (imageProcessor (upload e))) <> "webp" ->
  (forall a, a ∈ w_added w' -> Cid.validateCID (Uploader.a_cid a) = true) ->
  v_PosterCIDs v !! size = Some c ->
  (forall size' c', v_PosterCIDs v !! size' = Some c' -> Cid.sameMediaCID c' c = true -> size' = size) ->
  mode ∈ mask_keys ->
  exists source, Uploader.mkAddition (size +:+ ".jpg") source c ∈ w_added w' /\
    (is_Some (ImageProc.DecodeConfig source) -> is_Some (ImageProc.Decode source) ->
     exists master m content,
       Uploader.mkAddition "master.m3u8" master (v_MasterCID v) ∈ w_added w' /\
       Playlist.videoPosterCID master c mode = Some m /\
       Uploader.mkAddition (size +:+ ".jpg") content m ∈ w_added w' /\
       mask_of (imageProcessor (upload e)) source mode content).
Proof.
  intros HH HAcc HO Hclean HTr Htidy Hjpeg Hvalid Hc Honly Hm.
  apply HandleUploadVideo_Ok in HH as (path' & data' & out' & t' & disk1' & disk2 & res & EA & EO & _ & _ & _ & ET & HB & HU & _ & ->).
  rewrite HAcc in EA. injection EA as <- <-. rewrite HO in EO. injection EO as <-. rewrite HTr in ET. injection ET as <- <-.
  cbn [v_PosterCIDs v_MasterCID video_response] in *.
  set (p := imageProcessor (upload e)) in *.
  pose proof (built_plain p (context run) out disk1 disk2 Hclean Hjpeg Htidy HB) as Hpl.
  pose proof (built_distinct p (context run) out disk1 disk2 Hclean Hjpeg Htidy HB) as Hdi.
  destruct (posters_uploaded p (context run) out disk1 disk2 Hclean Hjpeg Htidy HB _ _ res _ size c HU Hc)
    as (source & Hadd & HMasks).
  exists source. split; [done|]. intros HDC HD. destruct (HMasks mode Hm HDC HD) as (content & m & Hmlook & Hadd' & Hmask).
  destruct (mask_key_component mode Hm) as (Hm0 & _).
  destruct (Uploader.uploaded_posters_masked _ (Walk out disk2) _ res _ size c mode m HU (Walk_NoDup out disk2) Hvalid Hpl Hdi Hc Honly Hm0)
    as (master & Hmaster & Hvp & _); [by intros ->; revert Hm; by_dec|done|].
  exists master, m, content. by split_and!.
Qed.

(** With WebP chosen as the output format, a value the configuration accepts,
    hidden videos have no poster at all: the masks are drawn and stored, but as
    [.webp], and only [.jpg] files are taken for posters, so neither the answer nor
    the master names any, and a viewer in a masked mode is refused the poster. *)
Theorem webp_masks_lost `{Url.Authority} `{Cid.CidLib} e r f run add disk w w' v path data out t disk1 :
  HandleUploadVideo e r f run add disk w = (w', VideoUploaded v) ->
  accept_video e r f run = Ok (path, data) -> outputDir run = Some out -> clean_dir out ->
  Transcode.Transcode (video e) path out (<[path := data]> disk) = Ok (t, disk1) -> tidy out disk1 ->
  Config.OutputFormat (ImageProc.cfg (imageProcessor (upload e))) = "webp" ->
  (forall a, a ∈ w_added w' -> Cid.validateCID (Uploader.a_cid a) = true) ->
  (forall mode size, mode <> "" -> v_PrivacyPosterCIDs v !! mode ≫= (.!! size) = None) /\
  exists master, Uploader.mkAddition "master.m3u8" master (v_MasterCID v) ∈ w_added w' /\
    forall requested mode, mode <> "" -> mode <> "original" -> Playlist.videoPosterCID master requested mode = None.
Proof.
  intros HH HAcc HO Hclean HTr Htidy Hwebp Hvalid.
  apply HandleUploadVideo_Ok in HH as (path' & data' & out' & t' & disk1' & disk2 & res & EA & EO & _ & _ & _ & ET & HB & HU & _ & ->).
  rewrite HAcc in EA. injection EA as <- <-. rewrite HO in EO. injection EO as <-. rewrite HTr in ET. injection ET as <- <-.
  cbn [v_PrivacyPosterCIDs v_MasterCID video_response] in *. set (p := imageProcessor (upload e)) in *.
  destruct (walk_lists out disk2) as [HW1 HW2].
  assert (HPth : forall rel pp, rel ∈ (Walk out disk2).*1 -> Uploader.posterFromPath rel = Some pp ->
    rel = path_of pp /\ Uploader.pp_variant pp = "" /\ Url.plain (Uploader.pp_size pp)).
  { intros rel pp Hin HPP. rewrite HW1 in Hin. apply list_elem_of_fmap in Hin as ([r' c'] & -> & Hin).
    by apply (webp_paths p (context run) out disk1 disk2 Hclean Hwebp Htidy HB r' c'). }
  assert (Hdi : Uploader.posters_distinct (Walk out disk2).*1).
  { intros r1 r2 pp H1 H2 HP1 HP2. destruct (HPth r1 pp H1 HP1) as [-> _]. by destruct (HPth r2 pp H2 HP2) as [-> _]. }
  assert (Hpl : Uploader.posters_plain (Walk out disk2).*1).
  { intros rel pp Hin HPP. destruct (HPth rel pp Hin HPP) as (_ & -> & Hs). by split; [constructor|]. }
  split.
  - intros mode size Hm. destruct (_ ≫= _) as [m|] eqn:E; [|done]. exfalso.
    destruct (Uploader.uploaded_poster_files _ (Walk out disk2) _ res _ HU (Walk_NoDup out disk2) Hdi)
      as (files & Hf & _ & Hlook).
    assert (HL : Uploader.poster_lookup res (Uploader.mkPosterPath mode size) = Some m)
      by (unfold Uploader.poster_lookup; cbn; by rewrite bool_decide_eq_false_2).
    apply Hlook in HL as (rel & Hrel & HPP). destruct (Hf rel m Hrel) as (content & Hin & _).
    assert (Hin' : rel ∈ (Walk out disk2).*1) by (apply list_elem_of_fmap; by exists (rel, Some content)).
    by destruct (HPth rel _ Hin' HPP) as (_ & ? & _).
  - destruct (Uploader.uploaded_files _ (Walk out disk2) _ _ res HU (Walk_NoDup out disk2) Hvalid Hpl)
      as (files & first & second & HL & _ & _ & _ & Hf & Hd & Hvv & Hok & _).
    exists (Uploader.buildMasterPlaylist (Uploader.VariantCIDs res) (Uploader.range 1 files)).
    split; [rewrite HL, !elem_of_app; right; right; right; by left|].
    intros requested mode Hm Ho. unfold Playlist.videoPosterCID. rewrite Uploader.master_posters by done.
    set (ps := Uploader.to_poster <$> _).
    assert (Hv : forall q, q ∈ ps -> Playlist.p_variant q = "").
    { intros q Hq. unfold ps in Hq. apply list_elem_of_fmap in Hq as (q' & -> & Hq).
      apply Uploader.collectPosters_elem in Hq as (rel & pp & Hin & HPP & Hvq & _). cbn. rewrite Hvq.
      rewrite (Uploader.range_perm 1 files) in Hin.
      assert (Hin' : rel ∈ (Walk out disk2).*1) by (rewrite <- Hd; apply list_elem_of_fmap; by eexists (_, _)).
      by destruct (HPth rel pp Hin' HPP) as (_ & ? & _). }
    assert (HS : forall cands, Playlist.select_poster cands ps requested mode = None); [|apply HS].
    induction cands as [|q cands IH]; [done|]. cbn [Playlist.select_poster]. destruct (_ || _); [done|].
    rewrite bool_decide_eq_false_2 by done.
    destruct (Playlist.protected_poster ps _ mode) as [x|] eqn:E; [|done]. exfalso.
    unfold Playlist.protected_poster in E. destruct (list_find _ ps) as [[k y]|] eqn:EF; [|done].
    apply list_find_Some in EF as (Hk & [_ Hy] & _). apply list_elem_of_lookup_2, Hv in Hk. congruence.
Qed.

(** C28. A video is stored only within every limit, and a failed upload leaves no
    group: success means the file fits the configured size, what ffprobe says of
    it is within the configured duration, 4096 pixels and 120 frames a second, the
    day's budget granted its bytes and a transcoding slot was held; then its
    master names, for later deletion, exactly the files the answer lists.  On
    failure the answer is an error with a public code, and the list of groups is
    untouched. *)
Theorem video_within_limits e r f run add disk w w' a :
  HandleUploadVideo e r f run add disk w = (w', a) ->
  match a with
  | VideoError answer => w_store w' = w_store w /\ w_added w `prefix_of` w_added w' /\
      exists status code msg details, answer = UploadError status code msg details /\ 400 <= status
  | VideoUploaded v =>
      exists path data info, accept_video e r f run = Ok (path, data) /\
        Z.of_nat (String.length data) <= Config.MaxSizeBytes (video e) /\
        Transcode.probeVideoInfo (Transcode.ffprobe (Config.FFprobePath (video e)) path (<[path := data]> disk)) = Some info /\
        Config.float_lt (Transcode.of_int (Config.MaxDurationSec (video e))) (Transcode.Duration info) = false /\
        Transcode.i_Width info <= 4096 /\ Transcode.i_Height info <= 4096 /\
        Config.float_lt (Transcode.of_int 120) (Transcode.FrameRate info) = false /\
        slot run = true /\
        take (uploadSessionKey r) (Z.of_nat (String.length data)) (today run) (w_uploads w) = (w_uploads w', true) /\
        UnpinStore.GetGroup (v_MasterCID v) (w_store w') = v_StreamCIDs v /\
        UnpinStore.entries (w_store w') = UnpinStore.entries (w_store w)
  end.
Proof.
  intros HH. destruct a as [answer|v].
  - revert HH. unfold HandleUploadVideo. destruct (accept_video e r f run) as [[path data]|a] eqn:HA.
    2:{ intros [= <- <-]. split_and!; [done..|]. revert HA. apply accept_error. }
    destruct (take _ _ _ _) as [budget granted]. destruct granted; cbn [negb].
    2:{ intros [= <- <-]. split_and!; [done..|]. by eexists _, _, _, _. }
    destruct (Transcode.Validate _ _ _) as [err|]; [intros [= <- <-]; split_and!; [done..|]; by eexists _, _, _, _|].
    cbn [w_added w_uploads w_store]. destruct (store_video _ _ _ _ _ _) as [[[t res]|[status code]] log] eqn:HS; [done|].
    intros [= <- <-]. apply store_error in HS as [Hp Hst]. split_and!; [done..|]. by eexists _, _, _, _.
  - apply HandleUploadVideo_Ok in HH as (path & data & out & t & disk1 & disk2 & res & HA & _ & Hslot & HV & HT & _ & _ & _ & HSt & ->).
    unfold Transcode.Validate in HV. destruct (Z.ltb_spec (Config.MaxSizeBytes (video e)) (Z.of_nat (String.length data))); [done|].
    destruct (Transcode.probeVideoInfo _) as [info|] eqn:HP; [|done].
    destruct (Config.float_lt _ (Transcode.Duration info)) eqn:HDur; [done|].
    destruct (_ || _) eqn:HB; [done|]. go_bools. unfold Transcode.maxVideoSide, Transcode.maxVideoFrameRate in *.
    exists path, data, info. rewrite HSt. split_and!; try done.
    + unfold UnpinStore.GetGroup, UnpinStore.TrackGroup, UnpinStore.put, UnpinStore.saveUnsafe.
      destruct (saved run); cbn; by rewrite lookup_insert_eq.
    + unfold UnpinStore.TrackGroup, UnpinStore.put, UnpinStore.saveUnsafe. by destruct (saved run).
Qed.

End video_upload.

(** ** Witnesses *)
Module Toy.
#[local] Existing Instance Grant.Toy.crypto.
#[local] Existing Instance Cid.Toy.cidlib.
#[local] Existing Instance Playlist.Toy.authority.
#[local] Existing Instance Blur.Toy.fixed.
#[local] Existing Instance ImageProc.Toy.codecs.
#[local] Existing Instance Upload.Toy.fmt.
#[local] Existing Instance Uploader.Toy.ranges.
#[local] Existing Instance Uploader.Toy.ranges_laws.

(** Whole numbers stand for floats. *)
#[local] Instance numbers : Config.Numbers := {|
  Config.float64 := Z; Config.float_lit s := default 1 (Atoi s); Config.float_lt := Z.ltb;
  Config.float_le := Z.leb; Config.ParseFloat := Atoi; Config.ParseDuration := Atoi |}.
#[local] Instance floats : Transcode.Floats := {|
  Transcode.of_int z := z; Transcode.fmul := Z.mul; Transcode.fdiv := Z.quot; Transcode.to_int z := z;
  Transcode.round_int z := z; Transcode.fixed3 := Itoa |}.

(** An ffmpeg that makes one poster or one playlist with a segment, and a video of
    twelve seconds. *)
#[local] Instance system : Transcode.System := {|
  Transcode.mkdir_ok _ _ := true;
  Transcode.write_ok _ _ := true;
  Transcode.ffmpeg _ args disk :=
    match last args with
    | None => None
    | Some out =>
        if bool_decide (head args = Some "-ss") then Some (<[out := "PIC poster"]> disk)
        else Some (<[out := Playlist.unlines ["#EXTM3U"; "seg_0.m4s"; ""]]>
                    (<[PathJoin (Dir out) "seg_0.m4s" := "segment"]> disk))
    end;
  Transcode.ffprobe _ _ _ :=
    Some (Transcode.mkProbeOutput "12" "900000"
            [Transcode.mkStream "" 720 1280 "h264" "30/1" "" []])
|}.
#[local] Instance disk_ops : Disk := {|
  readdir_ok _ _ := true; read_ok _ _ := true;
  Walk dir disk := (fun f => (f.1, Some f.2)) <$> below dir disk
|}.
#[local] Instance disk_laws : DiskLaws.
Proof.
  intros dir disk. cbn [Walk disk_ops]. split.
  - by rewrite <- list_fmap_compose.
  - intros rel c Hin. apply list_elem_of_fmap in Hin as ([r d] & [= -> ->] & Hin). done.
Qed.

Definition processor (format : string) : ImageProc.Processor :=
  ImageProc.NewProcessor (Config.mkImageConfig true [] format false 85 80 "fit"
    (Config.mkPrivacy 1 1 1280 0 0)) None.
Definition env (format : string) : Env :=
  mkEnv (Upload.mkEnv (Config.mkUploadConfig 1000 5000 20 ["jpg"] ["image/jpeg"]) (processor format))
    (Config.mkVideoConfig 60 1000 4 ["500k"] "ffmpeg" "ffprobe" "/tmp/v" [Config.mkVariant "180x320" 180 320 ""] 1 3).
Definition run : Run :=
  mkRun true None (Some "/tmp/v/in.mp4") true (Some "/tmp/v/out") true (fun _ => (false, false))
    UnpinStore.Written "2024-01-01".
Definition form : Form := Upload.Toy.form "file" [Upload.Toy.part "clip.mp4" "MP4 data"].
Definition world : World :=
  mkWorld (newUploadBudget 20) [] (UnpinStore.mkStore ∅ ∅ UnpinStore.FMissing).
Definition result (format : string) : World * VideoAnswer :=
  HandleUploadVideo (env format) Upload.Toy.viewer form run (Some Uploader.Toy.add) ∅ world.
Definition answer (format : string) : VideoResponse :=
  match (result format).2 with
  | VideoUploaded v => v
  | VideoError _ => mkVideoResponse "" ∅ ∅ ∅ [] ∅ 0 ""
  end.
Definition input : gmap string string := {[ "/tmp/v/in.mp4" := "MP4 data" ]}.
Definition transcoded (format : string) : gmap string string :=
  match Transcode.Transcode (video (env format)) "/tmp/v/in.mp4" "/tmp/v/out" input with
  | Ok (_, d) => d | Err _ => ∅ end.
Definition transcode_result : Transcode.TranscodeResult :=
  Transcode.mkTranscodeResult "/tmp/v/out" {[ "low" := "/tmp/v/out/low" ]} 12.

Lemma tidied format : tidy "/tmp/v/out" (transcoded format).
Proof.
  intros rel content Hin HP.
  assert (HB : below "/tmp/v/out" (transcoded format) ≡ₚ
    [("posters/180x320.jpg", "PIC poster"); ("low/seg_0.m4s", "segment");
     ("low/playlist.m3u8", Playlist.unlines ["#EXTM3U"; "seg_0.m4s"; ""])]) by by_dec.
  rewrite HB in Hin. repeat (apply elem_of_cons in Hin as [[= -> ->]|Hin]); [|done..|by apply not_elem_of_nil in Hin].
  exists "180x320". split; [done|]. split.
  - split_and!; [by apply (bool_decide_unpack _); vm_compute|done|by_dec].
  - intros w h f. vm_compute. congruence.
Qed.

Lemma added_valid format : format ∈ ["jpeg"; "webp"] ->
  forall a, a ∈ w_added (result format).1 -> Cid.validateCID (Uploader.a_cid a) = true.
Proof.
  intros Hf a Ha.
  assert (HV : forallb (fun a => Cid.validateCID (Uploader.a_cid a)) (w_added (result format).1) = true).
  { repeat (apply elem_of_cons in Hf as [->|Hf]); [by_vm..|by apply not_elem_of_nil in Hf]. }
  rewrite forallb_forall in HV. apply list_elem_of_In in Ha. exact (HV a Ha).
Qed.

Lemma hidden_poster_is_its_mask_witness :
  exists master m content,
    Uploader.mkAddition "master.m3u8" master (v_MasterCID (answer "jpeg")) ∈ w_added (result "jpeg").1 /\
    Playlist.videoPosterCID master (default "" (v_PosterCIDs (answer "jpeg") !! "180x320")) "blur" = Some m /\
    Uploader.mkAddition "180x320.jpg" content m ∈ w_added (result "jpeg").1 /\
    mask_of (processor "jpeg") "PIC poster" "blur" content.
Proof.
  destruct (hidden_poster_is_its_mask (env "jpeg") Upload.Toy.viewer form run (Some Uploader.Toy.add) ∅ world
    (result "jpeg").1 (answer "jpeg") "/tmp/v/in.mp4" "MP4 data" "/tmp/v/out" transcode_result (transcoded "jpeg")
    "180x320" (default "" (v_PosterCIDs (answer "jpeg") !! "180x320")) "blur") as (source & Hs & HM);
    [by_vm|by_vm|by_vm|split_and!; [by_vm|done|done]|by_vm|apply tidied|done|apply added_valid; by_dec|by_vm| |by_dec|].
  - intros size c HP _. assert (HE : v_PosterCIDs (answer "jpeg") = {["180x320" :=
      default "" (v_PosterCIDs (answer "jpeg") !! "180x320")]}) by by_vm.
    rewrite HE in HP. by apply lookup_singleton_Some in HP as [-> _].
  - assert (source = "PIC poster") as ->.
    { assert (HA : forallb (fun a => negb (bool_decide (Uploader.a_cid a = default "" (v_PosterCIDs (answer "jpeg") !! "180x320")))
        || bool_decide (Uploader.a_data a = "PIC poster")) (w_added (result "jpeg").1) = true) by by_vm.
      rewrite forallb_forall in HA. apply list_elem_of_In, HA in Hs. cbn [Uploader.a_cid Uploader.a_data] in Hs.
      rewrite bool_decide_eq_true_2 in Hs by done. by apply bool_decide_eq_true in Hs. }
    destruct HM as (master & m & content & H1 & H2 & H3 & H4); [by eexists; vm_compute|by eexists; vm_compute|].
    by exists master, m, content.
Defined.

Lemma webp_masks_lost_witness :
  v_PrivacyPosterCIDs (answer "webp") !! "blur" ≫= (.!! "180x320") = None /\
  exists master, Uploader.mkAddition "master.m3u8" master (v_MasterCID (answer "webp")) ∈ w_added (result "webp").1 /\
    Playlist.videoPosterCID master "" "blur" = None.
Proof.
  destruct (webp_masks_lost (env "webp") Upload.Toy.viewer form run (Some Uploader.Toy.add) ∅ world
    (result "webp").1 (answer "webp") "/tmp/v/in.mp4" "MP4 data" "/tmp/v/out" transcode_result (transcoded "webp"))
    as [H1 (master & H2 & H3)];
    [by_vm|by_vm|by_vm|split_and!; [by_vm|done|done]|by_vm|apply tidied|done|apply added_valid; by_dec|].
  split; [by apply H1|]. exists master. split; [done|]. by apply H3.
Defined.

Lemma video_within_limits_witness :
  UnpinStore.GetGroup (v_MasterCID (answer "jpeg")) (w_store (result "jpeg").1) = v_StreamCIDs (answer "jpeg") /\
  length (v_StreamCIDs (answer "jpeg")) = 6%nat.
Proof.
  split; [|by_vm].
  destruct (video_within_limits (env "jpeg") Upload.Toy.viewer form run (Some Uploader.Toy.add) ∅ world
    (result "jpeg").1 (VideoUploaded (answer "jpeg")) ltac:(by_vm)) as (path & data & info & _ & _ & _ & _ & _ & _ & _ & _ & _ & HG & _).
  exact HG.
Defined.
End Toy.

End VideoUpload.
