(* ===== verification/TranscodeSlots.v ===== *)
(** The transcoding slots of [internal/handler/upload_budget.go] and the part of
    [HandleUploadVideo] ([internal/handler/video_handler.go]) that runs under one:
    the handlers of many uploads as goroutines, each with the statements it has still
    to execute and the functions it has deferred.  What a statement does to an
    upload is what [VideoUpload] says. *)

From S2P Require Export VideoUpload.

Local Open Scope Z_scope.

Module TranscodeSlots.
Import VideoUpload.

(** [transcodeSlots] is a channel with room for this many tokens. *)
Definition capacity : nat := 2.

(** The statements of the handler from the slot on. *)
Inductive instr := IAcquire | IDefer | ITranscode | IPosters | IUpload.
#[global] Instance instr_eq_dec : EqDecision instr.
Proof. solve_decision. Defined.

Definition is_work (i : instr) : bool := match i with IAcquire | IDefer => false | _ => true end.

(** [defer release()] is the only deferred function that blocks or wakes another. *)
Inductive deferred_call := Release.
#[global] Instance deferred_eq_dec : EqDecision deferred_call.
Proof. solve_decision. Defined.

Definition handler_code : list instr := [IAcquire; IDefer; ITranscode; IPosters; IUpload].

Section slots.
Context `{HFl : Blur.Float64, HNu : Config.Numbers, HCo : !ImageProc.Codecs}.
Context `{HFm : Upload.Fmt, HCr : Grant.Crypto, HTf : !Transcode.Floats, HSy : !Transcode.System}.
Context `{HRa : Uploader.Ranges, HDi : !Disk}.

(** An upload that was accepted and has its directories. *)
Record Job := mkJob {
  j_env : Env; j_run : Run; j_out : string; j_add : option Uploader.IPFSAdder;
  j_input : string; j_disk : gmap string string; j_log : list Uploader.addition
}.

Definition Reply : Type :=
  result (Z * string) (Transcode.TranscodeResult * Uploader.UploadResult) * list Uploader.addition.

(** The disk, and the variable [result], nil before it is assigned. *)
Record Work := mkWork { w_disk : gmap string string; w_result : option Transcode.TranscodeResult }.

(** A statement goes on, makes the handler return, or panics. *)
Inductive effect := Continue (w : Work) | Return (a : Reply) | Crash.

Definition exec (i : instr) (j : Job) (w : Work) : effect :=
  match i with
  | IAcquire | IDefer => Continue w
  | ITranscode =>
      match Transcode.Transcode (video (j_env j)) (j_input j) (j_out j) (w_disk w) with
      | Err _ => Return (Err (500, "upload_failed"), j_log j)
      | Ok (transcoded, disk) => Continue (mkWork disk (Some transcoded))
      end
  | IPosters =>
      match buildVideoPrivacyPosters (Upload.imageProcessor (upload (j_env j))) (context (j_run j)) (j_out j) (w_disk w) with
      | Err _ => Return (Err (500, "upload_failed"), j_log j)
      | Ok disk => Continue (mkWork disk (w_result w))
      end
  | IUpload =>
      match Uploader.UploadDir (Uploader.NewUploader (j_add j)) (Walk (j_out j) (w_disk w)) (j_log j) with
      | (Err _, log) => Return (Err (503, "upload_storage_unavailable"), log)
      | (Ok res, log) => match w_result w with
                         | Some transcoded => Return (Ok (transcoded, res), log)
                         | None => Crash
                         end
      end
  end.

Inductive outcome := Answered (a : Reply) | Panicked.

(** A goroutine: what is left of its code, its deferred calls, the last deferred
    first, and how its body ended. *)
Record thread := mkThread {
  job : Job; code : list instr; deferred : list deferred_call; work : Work; ended : option outcome
}.

Definition start (j : Job) : thread := mkThread j handler_code [] (mkWork (j_disk j) None) None.

(** The body is over: what is left of the code is skipped, the deferred calls are not. *)
Definition leave (o : outcome) (t : thread) : thread := mkThread (job t) [] (deferred t) (work t) (Some o).

Inductive action := Acquire | GiveUp | Defer | Run_ | Panic | Release_.

(** One step of a goroutine, beside the tokens in the channel.  Sending to a full
    channel and receiving from an empty one block; a goroutine that waits to send may
    instead find its request over or its time up; a panic ends a handler, not the
    process, and also runs what was deferred. *)
Inductive tstep : nat -> thread -> action -> nat -> thread -> Prop :=
| t_acquire n j c d w : (n < capacity)%nat ->
    tstep n (mkThread j (IAcquire :: c) d w None) Acquire (S n) (mkThread j c d w None)
| t_give_up n j c d w :
    tstep n (mkThread j (IAcquire :: c) d w None) GiveUp n
      (leave (Answered (Err (503, "upload_busy"), j_log j)) (mkThread j (IAcquire :: c) d w None))
| t_defer n j c d w :
    tstep n (mkThread j (IDefer :: c) d w None) Defer n (mkThread j c (Release :: d) w None)
| t_continue n j i c d w w' : is_work i = true -> exec i j w = Continue w' ->
    tstep n (mkThread j (i :: c) d w None) Run_ n (mkThread j c d w' None)
| t_return n j i c d w a : is_work i = true -> exec i j w = Return a ->
    tstep n (mkThread j (i :: c) d w None) Run_ n (leave (Answered a) (mkThread j (i :: c) d w None))
| t_crash n j i c d w : is_work i = true -> exec i j w = Crash ->
    tstep n (mkThread j (i :: c) d w None) Run_ n (leave Panicked (mkThread j (i :: c) d w None))
| t_panic n j i c d w : is_work i = true ->
    tstep n (mkThread j (i :: c) d w None) Panic n (leave Panicked (mkThread j (i :: c) d w None))
| t_release n j d w o :
    tstep (S n) (mkThread j [] (Release :: d) w (Some o)) Release_ n (mkThread j [] d w (Some o)).

Record system := mkSystem { tokens : nat; threads : gmap nat thread }.

Inductive event := Arrive (i : nat) (j : Job) | Step (i : nat) (a : action).

Inductive sstep : system -> event -> system -> Prop :=
| s_arrive s i j : threads s !! i = None -> outputDir (j_run j) = Some (j_out j) ->
    sstep s (Arrive i j) (mkSystem (tokens s) (<[i := start j]> (threads s)))
| s_step s i t a n t' : threads s !! i = Some t -> tstep (tokens s) t a n t' ->
    sstep s (Step i a) (mkSystem n (<[i := t']> (threads s))).

Definition idle : system := mkSystem 0 ∅.

(** * Specification *)

(** Waiting for a slot; transcoding; over, with everything deferred done. *)
Definition queued (t : thread) : Prop := head (code t) = Some IAcquire.
Definition transcoding (t : thread) : Prop := head (code t) = Some ITranscode.
(** At a statement of the work: transcoding, drawing the posters or uploading. *)
Definition working (t : thread) : Prop := exists x c, code t = x :: c /\ is_work x = true.
Definition over (t : thread) : Prop := code t = [] /\ deferred t = [].
#[global] Instance transcoding_dec t : Decision (transcoding t) := decide_rel eq _ _.

(** Between the slot and its release. *)
Definition holds (t : thread) : Prop := head (code t) = Some IDefer \/ Release ∈ deferred t.
#[global] Instance holds_dec t : Decision (holds t) := or_dec _ _.

(** The upload as [VideoUpload.store_video] takes it, with or without a slot. *)
Definition with_slot (got : bool) (r : Run) : Run :=
  mkRun (temp_ok r) (free r) (tmpInput r) (copied r) (outputDir r) got (context r) (saved r) (today r).
Definition alone (j : Job) (got : bool) : Reply :=
  store_video (j_env j) (with_slot got (j_run j)) (j_add j) (j_input j) (j_disk j) (j_log j).

(** Steps that need nobody to give up, fail or arrive. *)
Definition natural (e : event) : Prop :=
  match e with Step _ (Acquire | Defer | Run_ | Release_) => True | _ => False end.

(** * Lemmas *)

Definition answered_alone (j : Job) (o : outcome) : Prop :=
  match o with Panicked => True | Answered a => exists got, a = alone j got end.

(** Where a goroutine can be. *)
Inductive stage : thread -> Prop :=
| st_queued j : outputDir (j_run j) = Some (j_out j) -> stage (start j)
| st_got j : outputDir (j_run j) = Some (j_out j) ->
    stage (mkThread j (tail handler_code) [] (mkWork (j_disk j) None) None)
| st_transcode j : outputDir (j_run j) = Some (j_out j) ->
    stage (mkThread j [ITranscode; IPosters; IUpload] [Release] (mkWork (j_disk j) None) None)
| st_posters j r d : outputDir (j_run j) = Some (j_out j) ->
    Transcode.Transcode (video (j_env j)) (j_input j) (j_out j) (j_disk j) = Ok (r, d) ->
    stage (mkThread j [IPosters; IUpload] [Release] (mkWork d (Some r)) None)
| st_upload j r d d' : outputDir (j_run j) = Some (j_out j) ->
    Transcode.Transcode (video (j_env j)) (j_input j) (j_out j) (j_disk j) = Ok (r, d) ->
    buildVideoPrivacyPosters (Upload.imageProcessor (upload (j_env j))) (context (j_run j)) (j_out j) d = Ok d' ->
    stage (mkThread j [IUpload] [Release] (mkWork d' (Some r)) None)
| st_leaving j w o : answered_alone j o -> stage (mkThread j [] [Release] w (Some o))
| st_left j w o : answered_alone j o -> stage (mkThread j [] [] w (Some o)).

Lemma alone_busy j : outputDir (j_run j) = Some (j_out j) -> alone j false = (Err (503, "upload_busy"), j_log j).
Proof. intros HO. unfold alone, store_video. cbn [outputDir with_slot]. by rewrite HO. Qed.

Lemma alone_runs j : outputDir (j_run j) = Some (j_out j) -> alone j true =
  match Transcode.Transcode (video (j_env j)) (j_input j) (j_out j) (j_disk j) with
  | Err _ => (Err (500, "upload_failed"), j_log j)
  | Ok (r, d) =>
      match buildVideoPrivacyPosters (Upload.imageProcessor (upload (j_env j))) (context (j_run j)) (j_out j) d with
      | Err _ => (Err (500, "upload_failed"), j_log j)
      | Ok d =>
          match Uploader.UploadDir (Uploader.NewUploader (j_add j)) (Walk (j_out j) d) (j_log j) with
          | (Err _, log) => (Err (503, "upload_storage_unavailable"), log)
          | (Ok res, log) => (Ok (r, res), log)
          end
      end
  end.
Proof. intros HO. unfold alone, store_video. cbn [outputDir with_slot slot context]. by rewrite HO. Qed.

(** What running a statement leads to. *)
Lemma exec_stage j i c w : stage (mkThread j (i :: c) [Release] w None) -> is_work i = true ->
  match exec i j w with
  | Continue w' => stage (mkThread j c [Release] w' None)
  | Return a => answered_alone j (Answered a)
  | Crash => False
  end.
Proof.
  intros HS Hi. inversion HS as [|j' HO|j' HO|j' r d HO HT|j' r d d' HO HT HB|j' w' o Ho|j' w' o Ho]; subst;
    cbn [exec w_disk w_result].
  - destruct (Transcode.Transcode _ _ _ _) as [[r d]|] eqn:HT; [by apply st_posters|].
    exists true. by rewrite alone_runs, HT.
  - destruct (buildVideoPrivacyPosters _ _ _ _) as [d'|] eqn:HB; [by eapply st_upload|].
    exists true. by rewrite alone_runs, HT, HB.
  - destruct (Uploader.UploadDir _ _ _) as [[res|] log] eqn:HU; exists true; by rewrite alone_runs, HT, HB, HU.
Qed.

(** Statements of the work run with the release deferred. *)
Lemma work_holds j i c d w : stage (mkThread j (i :: c) d w None) -> is_work i = true -> d = [Release].
Proof. intros HS Hi. by inversion HS; subst. Qed.

Definition slot_of (t : thread) : nat := if decide (holds t) then 1 else 0.

(** What a step does to the stage of its goroutine, and to the slot. *)
Lemma tstep_stage n t a n' t' : stage t -> tstep n t a n' t' ->
  stage t' /\ (n <= capacity -> n' <= capacity)%nat /\ (n + slot_of t' = n' + slot_of t)%nat.
Proof.
  intros HS HT. destruct HT as [n j c d w Hn|n j c d w|n j c d w|n j i c d w w' Hi He|n j i c d w x Hi He
    |n j i c d w Hi He|n j i c d w Hi|n j d w o].
  - inversion HS; subst. split; [by apply st_got|]. unfold slot_of.
    rewrite decide_True by by left. rewrite decide_False; [lia|]. by intros [Hx|Hx%not_elem_of_nil].
  - inversion HS; subst. split; [|split; [done|]].
    + apply st_left. exists false. by rewrite alone_busy.
    + unfold slot_of, leave. cbn. rewrite !decide_False; [lia|..]; by intros [Hx|Hx%not_elem_of_nil].
  - inversion HS; subst. split; [by apply st_transcode|]. split; [done|]. unfold slot_of.
    rewrite !decide_True; [lia|by left|right; left].
  - pose proof (work_holds _ _ _ _ _ HS Hi) as ->. pose proof (exec_stage _ _ _ _ HS Hi) as HE. rewrite He in HE.
    split; [done|]. split; [done|]. unfold slot_of. rewrite !decide_True; [lia|right; left..].
  - pose proof (work_holds _ _ _ _ _ HS Hi) as ->. pose proof (exec_stage _ _ _ _ HS Hi) as HE. rewrite He in HE.
    split; [by apply st_leaving|]. split; [done|]. unfold slot_of. rewrite !decide_True; [lia|right; left..].
  - pose proof (work_holds _ _ _ _ _ HS Hi) as ->. pose proof (exec_stage _ _ _ _ HS Hi) as HE. by rewrite He in HE.
  - pose proof (work_holds _ _ _ _ _ HS Hi) as ->. split; [by apply st_leaving|]. split; [done|].
    unfold slot_of. rewrite !decide_True; [lia|right; left..].
  - inversion HS; subst. split; [by apply st_left|]. split; [unfold capacity; lia|]. unfold slot_of.
    rewrite decide_False by by intros [Hx|Hx%not_elem_of_nil]. rewrite decide_True by (right; left). lia.
Qed.

(** ** Counting *)

Definition holders (ts : gmap nat thread) : gmap nat thread := filter (fun p => holds p.2) ts.

Lemma holders_insert_None ts i t : ts !! i = None ->
  size (holders (<[i := t]> ts)) = (size (holders ts) + slot_of t)%nat.
Proof.
  intros Hi. unfold holders, slot_of. case_decide as Hh.
  - rewrite map_filter_insert_True by done. rewrite map_size_insert_None; [lia|]. apply map_lookup_filter_None. by left.
  - rewrite map_filter_insert_False by done. rewrite delete_id by done. lia.
Qed.

Lemma holders_insert ts i t t' : ts !! i = Some t ->
  (size (holders (<[i := t']> ts)) + slot_of t = size (holders ts) + slot_of t')%nat.
Proof.
  intros Hi. rewrite <- (insert_delete_id ts i t Hi) at 2. rewrite <- insert_delete_eq.
  rewrite !holders_insert_None by apply lookup_delete_eq. lia.
Qed.

Record ok (s : system) : Prop := mkOk {
  ok_stage i t : threads s !! i = Some t -> stage t;
  ok_tokens : tokens s = size (holders (threads s));
  ok_bound : (tokens s <= capacity)%nat
}.

Lemma sstep_ok s e s' : ok s -> sstep s e s' -> ok s'.
Proof.
  intros [HS HT HB] HStep. destruct HStep as [s i j Hi Ho|s i t a n t' Hi Ht].
  - assert (H0 : slot_of (start j) = 0%nat).
    { unfold slot_of. rewrite decide_False; [done|]. by intros [Hx|Hx%not_elem_of_nil]. }
    split; cbn [threads tokens]; [|by rewrite holders_insert_None, H0 by done; lia|done].
    intros k t [[<- <-]|[Hne Hk]]%lookup_insert_Some; [by constructor|by eapply HS].
  - destruct (tstep_stage _ _ _ _ _ (HS i t Hi) Ht) as (Hst & Hb & Hc).
    split; cbn [threads tokens]; [|pose proof (holders_insert _ _ _ t' Hi); lia|by apply Hb].
    intros k u [[<- <-]|[Hne Hk]]%lookup_insert_Some; [done|by eapply HS].
Qed.

Lemma slots_run_ok ls s : steps sstep idle ls s -> ok s.
Proof.
  apply steps_invariant; [apply sstep_ok|]. split; cbn; [by intros i t Hi; rewrite lookup_empty in Hi| |unfold capacity; lia].
  unfold holders. by rewrite map_filter_empty, map_size_empty.
Qed.

(** ** A slot comes free *)

(** The [i]-th goroutine can run on until it has given its slot back. *)
Definition frees (s : system) (i : nat) : Prop :=
  exists ls s' t', steps sstep s ls s' /\ Forall natural ls /\ ok s' /\
    threads s' = <[i := t']> (threads s) /\ tokens s = S (tokens s').

Definition with_thread (s : system) (i : nat) (t : thread) : system :=
  mkSystem (tokens s) (<[i := t]> (threads s)).

Lemma frees_step s i t a t' : ok s -> threads s !! i = Some t -> natural (Step i a) ->
  tstep (tokens s) t a (tokens s) t' ->
  (ok (with_thread s i t') -> frees (with_thread s i t') i) -> frees s i.
Proof.
  intros Hok Hi Ha Ht HN. assert (HS : sstep s (Step i a) (with_thread s i t')) by by eapply s_step.
  destruct (HN (sstep_ok _ _ _ Hok HS)) as (ls & s2 & t2 & HR & HF & Hok2 & Hts & Htk).
  exists (Step i a :: ls), s2, t2. split; [eapply steps_cons; [exact HS|exact HR]|].
  split; [by constructor|]. split; [done|]. cbn in Hts, Htk. by rewrite Hts, insert_insert_eq.
Qed.

Lemma frees_leaving s i j w o : ok s -> threads s !! i = Some (mkThread j [] [Release] w (Some o)) -> frees s i.
Proof.
  intros Hok Hi. destruct (tokens s) as [|n] eqn:Htk.
  { exfalso. pose proof (ok_tokens s Hok) as HT. rewrite Htk in HT. symmetry in HT. apply map_size_empty_inv in HT.
    assert (HL : holders (threads s) !! i = Some (mkThread j [] [Release] w (Some o)))
      by (apply map_lookup_filter_Some; split; [done|right; left]). by rewrite HT, lookup_empty in HL. }
  assert (HS : sstep s (Step i Release_) (mkSystem n (<[i := mkThread j [] [] w (Some o)]> (threads s)))).
  { eapply s_step; [exact Hi|]. rewrite Htk. constructor. }
  do 3 eexists. split; [eapply steps_cons; [exact HS|apply steps_nil]|].
  split; [by repeat constructor|]. split; [by eapply sstep_ok|done].
Qed.

Lemma frees_work c s i j w : ok s -> threads s !! i = Some (mkThread j c [Release] w None) ->
  Forall (fun x => is_work x = true) c -> frees s i.
Proof.
  revert s w. induction c as [|x c IH]; intros s w Hok Hi Hc.
  - pose proof (ok_stage s Hok i _ Hi) as HE. by inversion HE.
  - apply Forall_cons in Hc as [Hx Hc]. pose proof (exec_stage j x c w (ok_stage s Hok i _ Hi) Hx) as HE.
    destruct (exec x j w) as [w'|a|] eqn:He; [| |done].
    + eapply frees_step; [done|exact Hi| |by apply t_continue|]; [done|]. intros Hok'.
      apply (IH _ w' Hok'); [by apply lookup_insert_eq|done].
    + eapply frees_step; [done|exact Hi| |by apply t_return|]; [done|]. intros Hok'.
      by eapply frees_leaving; [done|apply lookup_insert_eq].
Qed.

Lemma holder_frees s i t : ok s -> threads s !! i = Some t -> holds t -> frees s i.
Proof.
  intros Hok Hi Hh. pose proof (ok_stage s Hok i t Hi) as HSt. destruct HSt.
  all: try by (exfalso; destruct Hh as [Hx|Hx%not_elem_of_nil]).
  2-4: by eapply frees_work; [done|exact Hi|repeat constructor].
  2: by eapply frees_leaving.
  eapply frees_step; [done|exact Hi| |apply t_defer|]; [done|]. intros Hok'.
  eapply frees_work; [done|apply lookup_insert_eq|by repeat constructor].
Qed.

(** * Properties *)

(** C36. At most two videos are transcoded at once, and a slot taken is a slot given back:
    however uploads arrive, wait, give up, are answered and panic, a goroutine that
    transcodes, draws posters or uploads has one of the two slots, the tokens in the
    channel are as many as the goroutines between their slot and its release, and a
    goroutine that is over has none, so a service whose uploads are over has both slots
    free; whoever waits for a slot can get one by the others' merely running
    on; and an upload that was answered was answered what [store_video] answers for
    it alone. *)
Theorem transcodes_bounded ls s : steps sstep idle ls s ->
  (size (filter (fun p => transcoding p.2) (threads s)) <= 2)%nat /\
  (forall i t, threads s !! i = Some t -> working t -> holds t) /\
  tokens s = size (holders (threads s)) /\ (tokens s <= 2)%nat /\
  (forall i t, threads s !! i = Some t -> over t -> ~ holds t) /\
  ((forall i t, threads s !! i = Some t -> over t) -> tokens s = 0%nat) /\
  (forall i t, threads s !! i = Some t -> queued t -> exists ls' s' t', steps sstep s ls' s' /\
     Forall natural ls' /\ threads s' !! i = Some t' /\ holds t') /\
  (forall i t a, threads s !! i = Some t -> ended t = Some (Answered a) -> exists got, a = alone (job t) got).
Proof.
  intros HS. pose proof (slots_run_ok _ _ HS) as Hok. clear HS. pose proof Hok as [HSt HT HB]. unfold capacity in HB.
  assert (HW : forall i t, threads s !! i = Some t ->
    working t -> holds t).
  { intros i t Hi. destruct (HSt i t Hi); intros (x & c & Hc & Hx); try done; try (by right; left);
      injection Hc as <- <-; done. }
  assert (HO : forall i t, threads s !! i = Some t -> over t -> ~ holds t).
  { intros i t Hi [Hc Hd] [Hx|Hx]; [by rewrite Hc in Hx|by rewrite Hd in Hx; apply not_elem_of_nil in Hx]. }
  split_and!; [|done|done|done|done| | |].
  - etrans; [|exact HB]. rewrite HT. apply map_subseteq_size, map_subseteq_spec. intros i t Hi.
    apply map_lookup_filter_Some in Hi as [Hi Htr]. apply map_lookup_filter_Some. split; [done|].
    apply (HW i t Hi). destruct t as [j [|x c] d w o]; [done|]. injection Htr as ->. by exists ITranscode, c.
  - intros Hall. rewrite HT. apply map_size_empty_iff, map_empty. intros i. apply map_lookup_filter_None. right.
    intros t Hi. cbn. apply (HO i t Hi), (Hall i t Hi).
  - intros i t Hi Hq.
    assert (HG : forall s0, ok s0 -> threads s0 !! i = Some t -> (tokens s0 < capacity)%nat -> exists s' t',
      sstep s0 (Step i Acquire) s' /\ threads s' !! i = Some t' /\ holds t').
    { intros s0 Hok0 Hi0 Hlt. destruct (ok_stage s0 Hok0 i t Hi0); try done.
      do 2 eexists. split; [eapply s_step; [exact Hi0|by apply t_acquire]|]. cbn. rewrite lookup_insert_eq. split; [done|by left]. }
    destruct (decide (tokens s < capacity)%nat) as [Hlt|Hge].
    { destruct (HG s Hok Hi Hlt) as (s' & t' & Hs & Hi' & Hh). exists [Step i Acquire], s', t'.
      split; [eapply steps_cons; [exact Hs|constructor]|]. split; [by repeat constructor|done]. }
    destruct (map_choose (holders (threads s))) as (k & u & Hk).
    { intros E. rewrite E, map_size_empty in HT. unfold capacity in Hge. lia. }
    apply map_lookup_filter_Some in Hk as [Hk Hku].
    destruct (holder_frees s k u Hok Hk Hku) as (ls' & s1 & u' & HR & HF & Hok1 & Hth & Htk).
    assert (Hne : k <> i).
    { intros ->. assert (u = t) as -> by congruence. destruct (HSt i t Hi); try done.
      destruct Hku as [Hx|Hx]; [done|by apply not_elem_of_nil in Hx]. }
    destruct (HG s1 Hok1) as (s' & t' & Hs & Hi' & Hh); [by rewrite Hth, lookup_insert_ne|unfold capacity in *; lia|].
    exists (ls' ++ [Step i Acquire]), s', t'. split; [by eapply steps_snoc|]. split; [|done].
    apply Forall_app. split; [done|by repeat constructor].
  - intros i t a Hi He. destruct (HSt i t Hi); try done; injection He as ->; done.
Qed.

End slots.

(** ** Witness *)
Module Toy.
#[local] Existing Instance Grant.Toy.crypto.
#[local] Existing Instance Blur.Toy.fixed.
#[local] Existing Instance ImageProc.Toy.codecs.
#[local] Existing Instance Upload.Toy.fmt.
#[local] Existing Instance Uploader.Toy.ranges.
#[local] Existing Instance VideoUpload.Toy.numbers.
#[local] Existing Instance VideoUpload.Toy.floats.
#[local] Existing Instance VideoUpload.Toy.system.
#[local] Existing Instance VideoUpload.Toy.disk_ops.

Definition job : Job :=
  mkJob (VideoUpload.Toy.env "jpeg") VideoUpload.Toy.run "/tmp/v/out" (Some Uploader.Toy.add) "/tmp/v/in.mp4"
    VideoUpload.Toy.input [].

(** Three uploads: the first panics while it transcodes, and so lets the third in. *)
Definition trace : list event :=
  [Arrive 1 job; Arrive 2 job; Arrive 3 job; Step 1 Acquire; Step 2 Acquire; Step 1 Defer; Step 1 Panic;
   Step 1 Release_; Step 3 Acquire].

Lemma transcodes_bounded_witness :
  exists s, steps sstep idle trace s /\ tokens s = 2%nat /\
    (size (filter (fun p => transcoding p.2) (threads s)) <= 2)%nat.
Proof.
  assert (HR : exists s, steps sstep idle trace s /\ tokens s = 2%nat).
  { eexists. split; [unfold trace|].
    - do 3 (eapply steps_cons; [by apply s_arrive|]).
      do 2 (eapply steps_cons; [eapply s_step; [reflexivity|apply t_acquire; cbn; unfold capacity; lia]|]).
      eapply steps_cons; [eapply s_step; [reflexivity|apply t_defer]|].
      eapply steps_cons; [eapply s_step; [reflexivity|by apply t_panic]|].
      eapply steps_cons; [eapply s_step; [reflexivity|apply t_release]|].
      eapply steps_cons; [eapply s_step; [reflexivity|apply t_acquire; cbn; unfold capacity; lia]|]. apply steps_nil.
    - reflexivity. }
  destruct HR as (s & HR & HT). exists s. split; [exact HR|]. split; [exact HT|].
  apply (transcodes_bounded _ _ HR).
Defined.
End Toy.
End TranscodeSlots.
