(* ===== verification/EndToEndVideo.v ===== *)
(** A video from the form to the player: an upload ([VideoUpload], [Uploader]) whose
    files the cluster stores ([Cluster], [ClusterStorage]), and the addresses below
    a media link ([Stream]) that give each of them back. *)

From S2P Require Export VideoUpload ClusterStorage Stream.

Local Open Scope Z_scope.

Module EndToEndVideo.
Import Http Cid VideoUpload.

(** ** The cluster under the uploader *)

Section adder.
Context `{HKu : Cluster.Kubo}.

(** [clusterAdder.Add]: what it makes of a cluster. *)
Definition Add (name data : string) (cm : Cluster.ClusterManager) :=
  Cluster.ClusterAdd name (Some data) cm.

(** The cluster after some additions; [others n] is what the rest of the service asked
    of it before the addition [n]. *)
Context (others : nat -> list ClusterStorage.event).
Fixpoint replay (n : nat) (cm : Cluster.ClusterManager) (log : list Uploader.addition) : Cluster.ClusterManager :=
  match log with
  | [] => cm
  | a :: log' =>
      replay (S n) (Add (Uploader.a_name a) (Uploader.a_data a) (ClusterStorage.do_events (others n) cm)).1 log'
  end.

(** The cluster as the uploader's interface. *)
Definition clusterAdder (cm : Cluster.ClusterManager) : Uploader.IPFSAdder := fun log name data =>
  match (Add name data (ClusterStorage.do_events (others (length log)) (replay 0 cm log))).2 with
  | Ok r => Some (Cluster.CID r)
  | Err _ => None
  end.

Lemma replay_snoc n cm log a : replay n cm (log ++ [a]) =
  (Add (Uploader.a_name a) (Uploader.a_data a)
     (ClusterStorage.do_events (others (n + length log)%nat) (replay n cm log))).1.
Proof.
  revert n cm. induction log as [|b log IH]; intros n cm; cbn [app replay length]; [by rewrite Nat.add_0_r|].
  by rewrite IH, Nat.add_succ_r.
Qed.

Context `{HRe : !ClusterStorage.KuboReads, HKe : !ClusterStorage.KuboKeeps}.

(** What was added is read under its identifier, whatever the cluster was asked since. *)
Lemma added_reads cm log a evs : Uploader.grows (clusterAdder cm) [] log -> a ∈ log ->
  @ClusterTryFetch (ClusterStorage.storage_of (ClusterStorage.do_events evs (replay 0 cm log))) (Uploader.a_cid a) =
    Some (mkReader (Uploader.a_data a) false).
Proof.
  intros HG. revert evs. induction HG as [|log1 name data cid _ IH HA]; intros evs Hin; [by apply not_elem_of_nil in Hin|].
  rewrite replay_snoc. cbn [Uploader.a_name Uploader.a_data Nat.add]. unfold clusterAdder, Add in HA |- *.
  set (before := ClusterStorage.do_events _ _) in *.
  apply elem_of_app in Hin as [Hin| ->%list_elem_of_singleton].
  - specialize (IH (others (length log1) ++ ClusterStorage.Adds name (Some data) :: evs) Hin).
    unfold ClusterStorage.do_events in IH. by rewrite fold_left_app in IH.
  - cbn [Uploader.a_cid Uploader.a_data]. destruct (Cluster.ClusterAdd name (Some data) before) as [after [res|]] eqn:E; [|done].
    injection HA as <-. apply (ClusterStorage.read_stays evs after (ClusterStorage.File (Cluster.CID res))).
    by apply (ClusterStorage.added_file_is_read name data before).
Qed.
End adder.

(** ** Lines of ffmpeg's playlists *)

Lemma line_file_media dir line file ext : dir <> "" -> Uploader.line_file dir line = Some (file, ext) ->
  Uploader.is_playlist file = false /\ Playlist.streamSegmentContentType ("asset" +:+ ext) = "video/mp4".
Proof.
  intros Hd. unfold Uploader.line_file. assert (HN : forall e c, HasSuffix file e = true -> last (chars e) = Some c ->
    c <> "8"%char -> Uploader.is_playlist file = false).
  { intros e c He Hc Hne. apply not_true_iff_false. intros HP. apply Hne.
    exact (GoStrings.suffix_clash file e "playlist.m3u8" c "8"%char He HP Hc eq_refl). }
  destruct (_ && bool_decide _); [|destruct (HasPrefix _ "seg_" && _) eqn:HS; [|done]]; intros [= <- <-].
  - split; [|by_vm]. apply (HN ".mp4" "4"%char); [|done..]. by apply PathJoin_ext; [|by_dec|simpl; lia|].
  - go_bools. split; [|by_vm]. apply (HN ".m4s" "s"%char); [|done..]. by apply PathJoin_ext; [|by_dec|simpl; lia|].
Qed.

Lemma Dir_ne p : Dir p <> "".
Proof.
  unfold Dir, Clean. set (body := Join _ _). destruct (HasPrefix _ "/"); [by rewrite append_String|].
  by case_bool_decide.
Qed.

(** ** From the disk to the cluster *)

Section playing.
Context `{HKu : Cluster.Kubo, HRe : !ClusterStorage.KuboReads, HKe : !ClusterStorage.KuboKeeps}.
Context `{HFl : Blur.Float64, HNu : Config.Numbers, HCo : !ImageProc.Codecs}.
Context `{HFm : Upload.Fmt, HCr : Grant.Crypto, HTf : !Transcode.Floats, HSy : !Transcode.System}.
Context `{HRa : Uploader.Ranges, HRl : !Uploader.RangesLaws, HDi : Disk, HDl : !DiskLaws}.
Context `{HC : MediaAccess.Crops, HP : !Delivery.Content, HL : CidLib, HA : Url.Authority}.

Lemma readVideoAsset_whole (st : Storage) cid v : @ClusterTryFetch st cid = Some (mkReader v false) ->
  Z.of_nat (String.length v) <= maxPlaylistBytes -> @readVideoAsset st cid = Some v.
Proof.
  intros HF Hv. unfold readVideoAsset, fetchVideoAsset. rewrite HF. unfold ReadAll. cbn [rerr data andb].
  destruct (Z.ltb_spec (maxPlaylistBytes + 1) (Z.of_nat (String.length v))); [lia|].
  by destruct (Z.ltb_spec maxPlaylistBytes (Z.of_nat (String.length v))); [lia|].
Qed.

(** The name a playlist was added under. *)
Lemma playlist_name p : Uploader.is_playlist p = true -> HasSuffix (Base p) ".m3u8" = true.
Proof.
  intros [s ->]%HasSuffix_true. apply Base_suffix; [done|by_dec|]. apply HasSuffix_true.
  exists (s +:+ "playlist"). by rewrite append_assoc.
Qed.

(** The answer carries a text. *)
Definition answers (resp : Response) (body : string) : Prop := w_Status resp = 200 /\ w_Body resp = Bytes body.

(** Where an upload put what ffmpeg made: the chain from the master over a playlist to a
    file, each link under an identifier that is listed for deletion. *)
Lemma uploaded_chain e r f run add disk w w' v path data out t disk1 i j p content file ext bytes :
  HandleUploadVideo e r f run add disk w = (w', VideoUploaded v) ->
  accept_video e r f run = Ok (path, data) -> outputDir run = Some out -> clean_dir out ->
  Transcode.Transcode (video e) path out (<[path := data]> disk) = Ok (t, disk1) ->
  tidy out disk1 -> one_playlist out disk1 ->
  Config.OutputFormat (ImageProc.cfg (Upload.imageProcessor (upload e))) <> "webp" ->
  (forall a, a ∈ w_added w' -> validateCID (Uploader.a_cid a) = true) -> 0 <= i -> 0 <= j ->
  (p, content) ∈ below out disk1 -> Uploader.is_playlist p = true ->
  Uploader.ffmpeg_playlist (below out disk1).*1 (Dir p) content ->
  Uploader.master_variants (v_VariantCIDs v) !! Z.to_nat i = v_VariantCIDs v !! Dir p ->
  omap (Uploader.line_file (Dir p)) (Playlist.lines_of content) !! Z.to_nat j = Some (file, ext) ->
  (file, bytes) ∈ below out disk1 ->
  exists master text pc c,
    (Uploader.mkAddition "master.m3u8" master (v_MasterCID v) ∈ w_added w' /\ v_MasterCID v ∈ v_StreamCIDs v) /\
    (Forall Player.neat_master (Playlist.lines_of master) /\ Forall Player.neat (Playlist.lines_of text)) /\
    (Playlist.linkedMasterPlaylistCID master i = Some pc /\
     Uploader.mkAddition (Base p) text pc ∈ w_added w' /\ pc ∈ v_StreamCIDs v) /\
    (Playlist.linkedVariantAssetCID text j = Some (c, ext) /\
     Uploader.mkAddition (Base file) bytes c ∈ w_added w' /\ c ∈ v_StreamCIDs v).
Proof.
  intros HH HAcc HO Hclean HTr Htidy Hone Hjpeg Hvalid Hi Hj Hp HPl Hff Hix Hjx Hfile.
  apply HandleUploadVideo_Ok in HH as (path' & data' & out' & t' & disk1' & disk2 & res & EA & EO & _ & _ & _ & ET & HB & HU & _ & ->).
  rewrite HAcc in EA. injection EA as <- <-. rewrite HO in EO. injection EO as <-. rewrite HTr in ET. injection ET as <- <-.
  cbn [v_VariantCIDs v_MasterCID v_StreamCIDs video_response] in *. set (q := Upload.imageProcessor (upload e)) in *.
  destruct (walk_lists out disk2) as [HW1 HW2].
  assert (Hkept : forall rel c, (rel, c) ∈ below out disk1 -> (rel, c) ∈ below out disk2)
    by (intros rel c; by apply (built_keeps q (context run) out disk1)).
  assert (Hwalk : forall rel c, (rel, c) ∈ below out disk1 -> (rel, Some c) ∈ Walk out disk2).
  { intros rel c Hin%Hkept. assert (Hin' : rel ∈ (Walk out disk2).*1) by (rewrite HW1; by apply (list_elem_of_fmap_2 fst) in Hin).
    apply list_elem_of_fmap in Hin' as ([rel' o] & Heq & Hin'). cbn in Heq. subst rel'.
    destruct (Uploader.UploadDir_read _ _ _ _ _ _ _ HU (Walk_NoDup out disk2) Hin') as [c' ->].
    pose proof (HW2 _ _ Hin') as Hc2. apply below_elem in Hin, Hc2. by assert (c' = c) as -> by congruence. }
  assert (Hpaths : (below out disk1).*1 ⊆ (Walk out disk2).*1).
  { intros rel Hin. apply list_elem_of_fmap in Hin as ([rel' c] & -> & Hin%Hwalk). by apply (list_elem_of_fmap_2 fst) in Hin. }
  destruct (Uploader.uploaded_video_reads_back _ _ _ _ _ HU (Walk_NoDup out disk2) Hvalid
    (built_transcoded q (context run) out disk1 disk2 Hclean Hjpeg Htidy HB Hone))
    as (master & files & HM & HMn & HMi & HFs & HV & HT1 & HT2 & HT3).
  destruct (HV p content) as (text & pc & refs & Hpc & Htext & Htn & Hrefs & Hlook); [by apply Hwalk|done| |].
  { intros l Hl. destruct (Hff l Hl) as [?|(f' & e' & ? & Hf')]; [by left|right]. exists f', e'. split; [done|by apply Hpaths]. }
  destruct (Forall2_lookup_l _ _ _ _ _ Hrefs Hjx) as ([c0 ext0] & Hr & (c & Hc & [= -> ->])%fmap_Some).
  cbn [fst] in Hc. destruct (HFs file c Hc) as (bytes' & Hbytes & Hadd).
  assert (bytes' = bytes) as ->.
  { apply HW2, below_elem in Hbytes. apply Hkept, below_elem in Hfile. congruence. }
  exists master, text, pc, c. rewrite HMi, Hlook, Hix, Hr, !(proj2 (Z.leb_le 0 _)) by done.
  split; [done|]. split; [done|]. split; [split; [done|split; [done|by eapply HT2]]|]. split; [done|]. split; [done|].
  apply (HT3 file); [done|]. apply list_elem_of_lookup_2, list_elem_of_omap in Hjx as (line & _ & Hlf).
  by apply line_file_media in Hlf as [? _]; [|apply Dir_ne].
Qed.

(** ** Properties *)

(** C13. A video reaches its players: after an upload is answered, whatever the cluster
    was asked to read, add, replicate and pin since and in between, a player that is
    let in is led from the master of a media link to every file ffmpeg made for the
    video.  The master it is answered shows the address of each playlist; the playlist
    at that address shows, for each reference of ffmpeg's own playlist, a segment
    address; and that address is answered with the bytes of the file ffmpeg's playlist
    names at that place. *)
Theorem uploaded_video_plays others cm e r f run disk w w' v path data out t disk1 :
  HandleUploadVideo e r f run (Some (clusterAdder others cm)) disk w = (w', VideoUploaded v) ->
  Uploader.grows (clusterAdder others cm) [] (w_added w) ->
  accept_video e r f run = Ok (path, data) -> outputDir run = Some out -> clean_dir out ->
  Transcode.Transcode (video e) path out (<[path := data]> disk) = Ok (t, disk1) ->
  tidy out disk1 -> one_playlist out disk1 ->
  Config.OutputFormat (ImageProc.cfg (Upload.imageProcessor (upload e))) <> "webp" ->
  (forall a, a ∈ w_added w' -> validateCID (Uploader.a_cid a) = true) ->
  (forall a, a ∈ w_added w' -> HasSuffix (Uploader.a_name a) ".m3u8" = true ->
     Z.of_nat (String.length (Uploader.a_data a)) <= maxPlaylistBytes) ->
  forall evs, let st := ClusterStorage.storage_of (ClusterStorage.do_events evs (replay others 0 cm (w_added w'))) in
  forall policy pe link dr dw d i j p content file ext bytes,
    link <> "" -> (chr 47 ∉ chars link) -> 0 <= i < 2 ^ 63 -> 0 <= j < 2 ^ 63 ->
    MediaAccess.resolveMediaDeliveryLink policy pe dr link = Ok d ->
    Stream.mediaDeliveryHidesStream (MediaAccess.Mode d) = false -> MediaAccess.SourceCID d = v_MasterCID v ->
    (forall c, c ∈ v_StreamCIDs v -> UnpinStore.Has c (MediaAccess.unpinStore pe) = false) ->
    (p, content) ∈ below out disk1 -> Uploader.is_playlist p = true ->
    Uploader.ffmpeg_playlist (below out disk1).*1 (Dir p) content ->
    Uploader.master_variants (v_VariantCIDs v) !! Z.to_nat i = v_VariantCIDs v !! Dir p ->
    omap (Uploader.line_file (Dir p)) (Playlist.lines_of content) !! Z.to_nat j = Some (file, ext) ->
    (file, bytes) ∈ below out disk1 ->
    let address parts := "/stream/link/" +:+ Join (link :: parts) "/" in
    let auth := Playlist.playlistAuthSuffix (r_Query dr) in
    let resp := Stream.HandleStreamLink (HS := st) policy pe dr dw in
    (r_Path dr = address ["master.m3u8"] -> exists body, answers resp body /\
       Player.variants body !! Z.to_nat i = Some (Player.playlist_url i auth)) /\
    (r_Path dr = address ["playlist"; Itoa i +:+ ".m3u8"] -> exists body, answers resp body /\
       Player.references body !! Z.to_nat j = Some (Playlist.segment_url i j ext auth)) /\
    (r_Path dr = address ["segment"; Itoa i; Itoa j +:+ ext] ->
       answers resp bytes /\ inert (w_Headers resp)).
Proof.
  intros HH HG0 HAcc HO Hclean HTr Htidy Hone Hjpeg Hvalid Hsmall evs st policy pe link dr dw d i j p content file ext bytes
    Hl Hls Hi Hj HR Hhid Hsrc Hdel Hp HPl Hff Hix Hjx Hfile address auth resp.
  destruct (uploaded_chain e r f run _ disk w w' v path data out t disk1 i j p content file ext bytes HH HAcc HO Hclean
    HTr Htidy Hone Hjpeg Hvalid (proj1 Hi) (proj1 Hj) Hp HPl Hff Hix Hjx Hfile)
    as (master & text & pc & c & (Hm & Hmd) & (Hmn & Htn) & (Hpi & Hpa & Hpd) & (Hci & Hca & Hcd)).
  assert (HRd : forall a, a ∈ w_added w' -> @ClusterTryFetch st (Uploader.a_cid a) = Some (mkReader (Uploader.a_data a) false)).
  { intros a Ha. apply (added_reads others cm _ _ evs); [|done].
    apply HandleUploadVideo_Ok in HH as (? & ? & ? & ? & ? & ? & ? & _ & _ & _ & _ & _ & _ & _ & HU & _).
    etrans; [exact HG0|]. by apply (Uploader.UploadDir_grows _ _ _ _ _ HU). }
  assert (HRv : forall a, a ∈ w_added w' -> HasSuffix (Uploader.a_name a) ".m3u8" = true ->
    @readVideoAsset st (Uploader.a_cid a) = Some (Uploader.a_data a))
    by (intros a Ha Hs; apply readVideoAsset_whole; [by apply HRd|by apply Hsmall]).
  assert (Hmaster : MediaAccess.readLinkedMaster (H3 := st) pe d = Some master).
  { unfold MediaAccess.readLinkedMaster. pose proof (Hvalid _ Hm) as HV. cbn in HV. rewrite Hsrc, (Hdel _ Hmd), HV. cbn [negb orb].
    by apply (HRv _ Hm). }
  pose proof (HRv _ Hpa (playlist_name p HPl)) as Htext.
  destruct (Stream.linked_addresses_resolve (HS := st) policy pe dr dw d link i j master pc text Hl Hls Hi Hj HR Hhid
    Hmaster Hpi (Hdel _ Hpd) Htext) as [Hplay Hseg].
  split; [|split].
  - intros HPa. destruct (Player.master_shown master auth Hmn (Player.auth_address _)) as (body & HB & Hsh).
    exists body. split; [|exact (Hsh i pc (proj1 Hi) Hpi)]. unfold resp.
    by rewrite (Stream.linked_master_address (HS := st) policy pe dr dw d link master body).
  - intros HPa. destruct (Player.variant_shown text i auth Htn (proj1 Hi) (Player.auth_address _)) as (body & HB & Hsh).
    exists body. split; [|exact (Hsh j c ext (proj1 Hj) Hci)]. unfold resp. by rewrite (Hplay body HPa HB).
  - intros HPa. unfold resp. rewrite (Hseg c ext HPa Hci (Hdel _ Hcd)). unfold Stream.serveStreamAsset, fetchVideoAsset.
    pose proof (HRd _ Hca : @ClusterTryFetch st c = Some (mkReader bytes false)) as Hread. rewrite (Hdel _ Hcd), Hread.
    assert (Hct : Playlist.streamSegmentContentType ("asset" +:+ ext) = "video/mp4").
    { apply list_elem_of_lookup_2, list_elem_of_omap in Hjx as (line & _ & Hlf).
      by apply line_file_media in Hlf as [_ ?]; [|apply Dir_ne]. }
    cbn zeta. rewrite Hct. split; [done|]. apply Stream.inert_cached.
Qed.

End playing.

(** ** Witnesses

    A cluster for one video: an identifier for each file of its upload, the same for
    the same content; a node holds what was added to it. *)
Module Toy.
#[local] Existing Instance Grant.Toy.crypto.
#[local] Existing Instance Cid.Toy.cidlib.
#[local] Existing Instance Playlist.Toy.authority.
#[local] Existing Instance MediaAccess.Toy.crops.
#[local] Existing Instance Blur.Toy.fixed.
#[local] Existing Instance ImageProc.Toy.codecs.
#[local] Existing Instance Upload.Toy.fmt.
#[local] Existing Instance Uploader.Toy.ranges.
#[local] Existing Instance Uploader.Toy.ranges_laws.
#[local] Existing Instance VideoUpload.Toy.numbers.
#[local] Existing Instance VideoUpload.Toy.floats.
#[local] Existing Instance VideoUpload.Toy.system.
#[local] Existing Instance VideoUpload.Toy.disk_ops.
#[local] Existing Instance VideoUpload.Toy.disk_laws.

Definition upload (add : Uploader.IPFSAdder) : World * VideoAnswer :=
  HandleUploadVideo (VideoUpload.Toy.env "jpeg") Upload.Toy.viewer VideoUpload.Toy.form VideoUpload.Toy.run (Some add) ∅
    VideoUpload.Toy.world.

(** The contents of the upload, numbered as they first appear. *)
Definition number : Uploader.IPFSAdder := fun log _ data =>
  match list_find (fun a => Uploader.a_data a = data) log with
  | Some (_, a) => Some (Uploader.a_cid a)
  | None => Some (Uploader.Toy.name (length log))
  end.
Definition table : list Uploader.addition := Eval vm_compute in w_added (upload number).1.

Definition cid_of (data : string) : option string :=
  Uploader.a_cid ∘ snd <$> list_find (fun a => Uploader.a_data a = data) table.
Definition data_of (cid : string) : option string :=
  Uploader.a_data ∘ snd <$> list_find (fun a => Uploader.a_cid a = cid) table.

Lemma data_of_cid data cid : cid_of data = Some cid -> data_of cid = Some data.
Proof.
  unfold cid_of. intros ([i a] & (Hi & Ha & _)%list_find_Some & ->)%fmap_Some. cbn in Ha |- *. subst data.
  assert (HT : forallb (fun a => bool_decide (data_of (Uploader.a_cid a) = Some (Uploader.a_data a))) table = true) by by_vm.
  rewrite forallb_forall in HT. by apply list_elem_of_lookup_2, list_elem_of_In, HT, bool_decide_eq_true in Hi.
Qed.

#[local] Arguments cid_of : simpl never.
#[local] Arguments data_of : simpl never.
#[local] Arguments CutPrefix : simpl never.

Definition read (held : list string) (q : string) : result string string :=
  match CutPrefix "/ipfs/" q with
  | Some cid => if bool_decide (cid ∈ held) then of_option "not found" (data_of cid) else Err "not found"
  | None => Err "not a path"
  end.

#[local] Instance kubo : Cluster.Kubo := {|
  Cluster.node := list string;
  Cluster.new_path s := Some s;
  Cluster.add_file n p := match cid_of p with Some c => (c :: n, Ok c) | None => (n, Err "full") end;
  Cluster.add_dir n files := (n, Err "full");
  Cluster.pin_is n q := (n, Err "down"); Cluster.pin_add n q := (n, Some "down"); Cluster.pin_rm n q := (n, Some "down");
  Cluster.send_cat n q := (n, read n q);
  Cluster.unixfs_get n q := (n, Err "down"); Cluster.cid_parse s := Some s; Cluster.dag_get n q := (n, Err "down");
  Cluster.root_pin n q := False; Cluster.held n q := False
|}.

#[local] Instance reads_ok : ClusterStorage.KuboReads.
Proof.
  refine {| ClusterStorage.content q := default "" (CutPrefix "/ipfs/" q ≫= data_of) |}.
  - intros n q n' v. cbn. unfold read. destruct (CutPrefix "/ipfs/" q) as [cid|]; [|done]. case_bool_decide; [|done].
    cbn. destruct (data_of cid) as [x|]; [|done]. by intros [= _ <-].
  - done.
  - intros n p n' c. cbn. destruct (cid_of p) as [cid|] eqn:E; [|done]. intros [= <- <-].
    exists ("/ipfs/" +:+ cid). split; [done|]. unfold read. rewrite CutPrefix_app, bool_decide_eq_true_2 by apply list_elem_of_here.
    by rewrite (data_of_cid p cid E).
  - done.
Defined.

#[local] Instance keeps_ok : ClusterStorage.KuboKeeps.
Proof.
  split; [|by intros ? ? ? ?..]. intros n p q. cbn. destruct (cid_of p) as [cid|]; [|done]. cbn. unfold read.
  destruct (CutPrefix "/ipfs/" q) as [c|]; [|done]. case_bool_decide as HI; [|done].
  by rewrite bool_decide_eq_true_2 by by right.
Qed.

Definition cluster : Cluster.ClusterManager :=
  Cluster.mkManager [@Cluster.mkNode kubo [] "n0"; @Cluster.mkNode kubo [] "n1"] (2 ^ 64 - 1).
(** Between two additions somebody reads. *)
Definition others (n : nat) : list ClusterStorage.event := [ClusterStorage.Reads (ClusterStorage.File (Uploader.Toy.name n))].
Definition uploaded : World * VideoAnswer := upload (clusterAdder others cluster).
Definition answer : VideoResponse :=
  match uploaded.2 with
  | VideoUploaded v => v
  | VideoError _ => mkVideoResponse "" ∅ ∅ ∅ [] ∅ 0 ""
  end.
Definition since : list ClusterStorage.event :=
  [ClusterStorage.Replicates (v_MasterCID answer) 3; ClusterStorage.Adds "x" (Some "more"); ClusterStorage.ChecksPins "x"].
Definition storage : Storage :=
  ClusterStorage.storage_of (ClusterStorage.do_events since (replay others 0 cluster (w_added uploaded.1))).

Definition policy (q : MediaAccess.policyRequest) : MediaAccess.policyReply :=
  MediaAccess.PRows [] (Some (MediaAccess.Toy.video_row "original" (v_MasterCID answer))).
Definition request (parts : list string) : Request :=
  MediaAccess.Toy.request ("/stream/link/" +:+ Join ("7" :: parts) "/") [("token", ["t k"])].
Definition ffmpegs : gmap string string := VideoUpload.Toy.transcoded "jpeg".
Definition playlist : string := Playlist.unlines ["#EXTM3U"; "seg_0.m4s"; ""].

Lemma one_playlist_made : one_playlist "/tmp/v/out" ffmpegs.
Proof.
  assert (HB : forall p, p ∈ (below "/tmp/v/out" ffmpegs).*1 -> Uploader.is_playlist p = true -> p = "low/playlist.m3u8").
  { assert (HF : forallb (fun p => negb (Uploader.is_playlist p) || bool_decide (p = "low/playlist.m3u8"))
      (below "/tmp/v/out" ffmpegs).*1 = true) by by_vm.
    intros p Hp%list_elem_of_In Hpl. rewrite forallb_forall in HF. apply HF in Hp. rewrite Hpl in Hp.
    by apply bool_decide_eq_true in Hp. }
  intros p q Hp Hq HP HQ _. by rewrite (HB p Hp HP), (HB q Hq HQ).
Qed.

Lemma playlist_plain : Uploader.ffmpeg_playlist (below "/tmp/v/out" ffmpegs).*1 "low" playlist.
Proof.
  intros line Hl. vm_compute in Hl. repeat (apply elem_of_cons in Hl as [->|Hl]); [..|by apply not_elem_of_nil in Hl].
  1, 3: left; by vm_compute.
  right. exists "low/seg_0.m4s", ".m4s". split; [by_vm|by_dec].
Qed.

(** A player lets itself be led from the master to the segment. *)
Lemma uploaded_video_plays_witness :
  let resp parts := Stream.HandleStreamLink (HS := storage) policy MediaAccess.Toy.env (request parts) Delivery.Toy.world in
  (exists body, answers (resp ["master.m3u8"]) body /\
     Player.variants body !! 0%nat = Some "playlist/0.m3u8?token=t+k") /\
  (exists body, answers (resp ["playlist"; "0.m3u8"]) body /\
     Player.references body !! 0%nat = Some "../segment/0/0.m4s?token=t+k") /\
  (answers (resp ["segment"; "0"; "0.m4s"]) "segment" /\ inert (w_Headers (resp ["segment"; "0"; "0.m4s"]))).
Proof.
  assert (HA : forallb (fun a => validateCID (Uploader.a_cid a) && (Z.of_nat (String.length (Uploader.a_data a)) <=? maxPlaylistBytes))
    (w_added uploaded.1) = true) by by_vm. rewrite forallb_forall in HA.
  assert (Hj : Config.OutputFormat (ImageProc.cfg (Upload.imageProcessor (VideoUpload.upload (VideoUpload.Toy.env "jpeg")))) <> "webp") by done.
  assert (Hl : "7" <> "") by done. assert (Hs : chr 47 ∉ chars "7") by by_dec.
  assert (Hcl : clean_dir "/tmp/v/out") by (split_and!; [by_vm|done|done]).
  assert (HT : forall parts, parts ∈ [["master.m3u8"]; ["playlist"; "0.m3u8"]; ["segment"; "0"; "0.m4s"]] ->
    MediaAccess.resolveMediaDeliveryLink policy MediaAccess.Toy.env (request parts) "7" =
      Ok (MediaAccess.mkDecision "original" true (v_MasterCID answer) true "" "")).
  { intros parts Hin. repeat (apply elem_of_cons in Hin as [->|Hin]; [by_vm|]). by apply not_elem_of_nil in Hin. }
  pose proof (fun parts Hin => uploaded_video_plays others cluster (VideoUpload.Toy.env "jpeg") Upload.Toy.viewer VideoUpload.Toy.form
    VideoUpload.Toy.run ∅ VideoUpload.Toy.world uploaded.1 answer "/tmp/v/in.mp4" "MP4 data" "/tmp/v/out"
    VideoUpload.Toy.transcode_result ffmpegs ltac:(by_vm) (Uploader.grows_none _ _) ltac:(by_vm) ltac:(by_vm)
    Hcl ltac:(by_vm) (VideoUpload.Toy.tidied "jpeg") one_playlist_made Hj
    (fun a Ha => proj1 (proj1 (andb_true_iff _ _) (HA a (proj1 (list_elem_of_In _ _) Ha))))
    (fun a Ha _ => proj1 (Z.leb_le _ _) (proj2 (proj1 (andb_true_iff _ _) (HA a (proj1 (list_elem_of_In _ _) Ha)))))
    since policy MediaAccess.Toy.env "7" (request parts) Delivery.Toy.world
    (MediaAccess.mkDecision "original" true (v_MasterCID answer) true "" "") 0 0 "low/playlist.m3u8" playlist "low/seg_0.m4s" ".m4s"
    "segment" Hl Hs ltac:(lia) ltac:(lia) (HT parts Hin) eq_refl eq_refl (fun _ _ => eq_refl)
    ltac:(by_dec) ltac:(by_vm) playlist_plain ltac:(by_vm) ltac:(by_vm) ltac:(by_dec)) as HP.
  intros resp. split; [|split].
  - exact (proj1 (HP ["master.m3u8"] ltac:(by_dec)) eq_refl).
  - exact (proj1 (proj2 (HP ["playlist"; "0.m3u8"] ltac:(by_dec))) eq_refl).
  - exact (proj2 (proj2 (HP ["segment"; "0"; "0.m4s"] ltac:(by_dec))) eq_refl).
Defined.
End Toy.
End EndToEndVideo.
