(* ===== verification/PublicConfig.v ===== *)
(** [internal/handler/config_handler.go]: what [GET /config] tells a client about
    the pictures and videos it may upload. *)

From S2P Require Export VideoUpload.
From stdpp Require Import sorting.

Local Open Scope Z_scope.

Module PublicConfig.
Import Http Upload.

#[local] Existing Instance VideoUpload.str_ord_dec.

Section public_config.
Context `{HNu : Config.Numbers} `{HFm : Fmt}.

Record privacyVariantConfig := mkPrivacyVariant { Key : string; Purpose : string; Fallback : string }.

Record imagePublicConfig := mkImagePublic {
  Enabled : bool;
  Variants : list Config.ImageVariant;
  PrivacyVariants : list privacyVariantConfig;
  OutputFormat : string;
  JPEGProgressive : bool;
  ResizePolicy : string;
  URLTemplate : string;
  BundleTemplate : string
}.

Record mediaUploadPolicy := mkPolicy {
  Accept : string;
  MimeTypes : list string;
  MaxBytes : Z;
  MaxSizeLabel : string;
  Description : string;
  TooLargeMessage : string
}.

Record videoUploadPolicy := mkVideoPolicy { policy : mediaUploadPolicy; MaxDurationSec : Z }.

Record uploadPublicConfig := mkUploadPublic {
  MaxRequestBytes : Z;
  ImagePolicy : mediaUploadPolicy;
  VideoPolicy : videoUploadPolicy
}.

Record publicConfigResponse := mkPublic { Image : imagePublicConfig; UploadPublic : uploadPublicConfig }.

(** [humanDuration] of [upload_errors.go]. *)
Definition humanDuration (seconds : Z) (locale : string) : string :=
  if (120 <=? seconds) && (Z.rem seconds 60 =? 0)
  then Itoa (Z.quot seconds 60) +:+ (if bool_decide (locale = "ru") then " мин." else " min")
  else Itoa seconds +:+ (if bool_decide (locale = "ru") then " сек." else " sec").

(** The picture types, which the map is ranged over in some order. *)
Definition picture_types : list string :=
  ["image/jpeg"; "image/png"; "image/webp"; "image/heic"; "image/heif"].

Definition mediaImageMimeTypes (order : list string) (all : list string) : list string :=
  merge_sort VideoUpload.str_ord (filter (fun mimeType => mimeType ∈ all) order).

Definition videoTypes : list string :=
  ["video/mp4"; "video/quicktime"; "video/webm"; "video/x-msvideo"; "video/x-matroska"].

Definition HandleConfig (image : Config.ImageConfig) (upload : Config.UploadConfig) (video : Config.VideoConfig)
  (order : list string) (r : Request) : publicConfigResponse :=
  let locale := uploadLocale r in
  let ru := bool_decide (locale = "ru") in
  let imageTypes := mediaImageMimeTypes order (Config.AllowedMimeTypes upload) in
  let imageMax := humanFileSize (Config.MaxFileSize upload) locale in
  let videoMax := humanFileSize (Config.MaxSizeBytes video) locale in
  let videoDuration := humanDuration (Config.MaxDurationSec video) locale in
  let imageDescription :=
    if ru then "JPEG, PNG, WebP, HEIC до " +:+ imageMax else "JPEG, PNG, WebP, HEIC up to " +:+ imageMax in
  let videoDescription :=
    if ru then "MP4, MOV, WebM, AVI, MKV до " +:+ videoMax +:+ ", до " +:+ videoDuration
    else "MP4, MOV, WebM, AVI, MKV up to " +:+ videoMax +:+ ", up to " +:+ videoDuration in
  let tooLarge max :=
    if ru then "Размер файла превышает допустимые " +:+ max +:+ "."
    else "The file exceeds the " +:+ max +:+ " limit." in
  mkPublic
    (mkImagePublic (Config.ProcessingEnabled image) (Config.Variants image)
       [ mkPrivacyVariant Config.PrivacyBlurVariantKey "full_image_blur" "";
         mkPrivacyVariant Config.PrivacyFaceBlurVariantKey "detected_faces_blur" Config.PrivacyBlurVariantKey ]
       (Config.OutputFormat image) (Config.JPEGProgressive image) (Config.ResizePolicy image)
       "/file/{cid}/{size}" "/file/{cid}/bundle")
    (mkUploadPublic (Config.MaxRequestSize upload)
       (mkPolicy (GoStrings.Join (imageTypes ++ [".heic"; ".heif"]) ",") imageTypes (Config.MaxFileSize upload)
          imageMax imageDescription (tooLarge imageMax))
       (mkVideoPolicy
          (mkPolicy (GoStrings.Join (videoTypes ++ [".mp4"; ".mov"; ".webm"; ".avi"; ".mkv"]) ",") videoTypes
             (Config.MaxSizeBytes video) videoMax videoDescription (tooLarge videoMax))
          (Config.MaxDurationSec video))).

(** * Lemmas *)

Lemma ascii_inj c d : nat_of_ascii c = nat_of_ascii d -> c = d.
Proof. intros HE. rewrite <- (ascii_nat_embedding c), <- (ascii_nat_embedding d). by f_equal. Qed.

Lemma str_ord_cons c s d t : VideoUpload.str_ord (String c s) (String d t) <->
  (nat_of_ascii c < nat_of_ascii d)%nat \/ (c = d /\ VideoUpload.str_ord s t).
Proof.
  unfold VideoUpload.str_ord. change (Url.str_le (String c s) (String d t)) with
    (if (nat_of_ascii c =? nat_of_ascii d)%nat then Url.str_le s t else (nat_of_ascii c <? nat_of_ascii d)%nat).
  destruct (Nat.eqb_spec (nat_of_ascii c) (nat_of_ascii d)) as [HE|HE].
  - apply ascii_inj in HE as ->. split; [by right|]. intros [?|[_ ?]]; [lia|done].
  - rewrite Nat.ltb_lt. split; [by left|]. intros [?|[-> _]]; [done|congruence].
Qed.

#[local] Instance str_ord_antisym : AntiSymm (=) VideoUpload.str_ord.
Proof.
  intros s. induction s as [|c s IH]; intros [|d t]; [done..|].
  rewrite !str_ord_cons. intros [?|[-> H1]] [?|[? H2]]; subst; [lia..|]. f_equal. by apply IH.
Qed.
#[local] Instance str_ord_trans : Transitive VideoUpload.str_ord.
Proof.
  intros s. induction s as [|c s IH]; intros [|d t] [|e u]; try done.
  rewrite !str_ord_cons. intros [?|[-> H1]] [?|[-> H2]]; [left; lia|by left|by left|].
  right. split; [done|]. by eapply IH.
Qed.
#[local] Instance str_ord_total : Total VideoUpload.str_ord.
Proof.
  intros s. induction s as [|c s IH]; intros [|d t]; [by left..|by right|].
  rewrite !str_ord_cons. destruct (lt_eq_lt_dec (nat_of_ascii c) (nat_of_ascii d)) as [[?|HE%ascii_inj]|?]; auto.
  subst. destruct (IH t); auto.
Qed.

(** The order of the range does not show. *)
Lemma mediaImageMimeTypes_order o1 o2 all : o1 ≡ₚ o2 -> mediaImageMimeTypes o1 all = mediaImageMimeTypes o2 all.
Proof.
  intros HO. unfold mediaImageMimeTypes.
  apply (StronglySorted_unique VideoUpload.str_ord).
  - apply StronglySorted_merge_sort; apply _.
  - apply StronglySorted_merge_sort; apply _.
  - by rewrite !merge_sort_Permutation, HO.
Qed.

Lemma mediaImageMimeTypes_elem order all t : order ≡ₚ picture_types ->
  t ∈ mediaImageMimeTypes order all <-> t ∈ picture_types /\ t ∈ all.
Proof.
  intros HO. unfold mediaImageMimeTypes. rewrite merge_sort_Permutation, list_elem_of_filter, HO. tauto.
Qed.

End public_config.

(** ** Properties *)

(** The public configuration keeps its word about pictures: it is the same
    however the map of types is walked; a picture of an advertised type and an
    accepted extension passes the type check of an upload; and of the picture types
    exactly those an upload may declare are advertised. *)
Theorem advertised_is_accepted `{HNu : Config.Numbers} `{HFm : Fmt} `{HIn : Ingest} image upload video order order' r :
  order ≡ₚ picture_types ->
  let config := HandleConfig image upload video order r in
  let pictures := ImagePolicy (UploadPublic config) in
  (order' ≡ₚ picture_types -> HandleConfig image upload video order' r = config) /\
  (forall filename contentType, ToLower (TrimPrefix (Ext filename) ".") ∈ Config.AllowedExtensions upload ->
     contentType ∈ MimeTypes pictures -> validateFile filename contentType upload = true) /\
  (forall t, t ∈ picture_types -> t ∈ Config.AllowedMimeTypes upload <-> t ∈ MimeTypes pictures).
Proof.
  intros HO config pictures. split_and!.
  - intros HO'. unfold config, HandleConfig.
    by rewrite (mediaImageMimeTypes_order order' order) by (by rewrite HO', HO).
  - intros filename contentType HE HT. apply mediaImageMimeTypes_elem in HT as [HP HA]; [|done].
    unfold validateFile. rewrite bool_decide_eq_true_2 by done. cbn [negb].
    replace (bool_decide (contentType = "") || bool_decide (contentType = "application/octet-stream")) with false.
    { by rewrite bool_decide_eq_true_2. }
    symmetry. apply not_true_iff_false. intros [->%bool_decide_eq_true| ->%bool_decide_eq_true]%orb_true_iff;
      revert HP; by_dec.
  - intros t HP. unfold pictures, config. cbn. rewrite mediaImageMimeTypes_elem by done. tauto.
Qed.

(** * Examples *)

Module Toy.

#[local] Existing Instance VideoUpload.Toy.numbers.
#[local] Existing Instance Upload.Toy.fmt.
#[local] Existing Instance Upload.Toy.library.

Definition upload : Config.UploadConfig :=
  Config.mkUploadConfig 1000 5000 20 ["jpg"; "heic"] ["video/mp4"; "image/png"; "image/jpeg"].
Definition config (order : list string) : publicConfigResponse :=
  HandleConfig (ImageProc.cfg (VideoUpload.Toy.processor "jpeg")) upload
    (VideoUpload.video (VideoUpload.Toy.env "jpeg")) order Upload.Toy.viewer.

Lemma advertised_is_accepted_witness :
  MimeTypes (ImagePolicy (UploadPublic (config picture_types))) = ["image/jpeg"; "image/png"] /\
  config (rev picture_types) = config picture_types /\
  validateFile "IMG.HEIC" "image/png" upload = true.
Proof.
  split; [by_vm|].
  pose proof (advertised_is_accepted (ImageProc.cfg (VideoUpload.Toy.processor "jpeg")) upload
    (VideoUpload.video (VideoUpload.Toy.env "jpeg")) picture_types (rev picture_types) Upload.Toy.viewer
    (reflexivity _)) as (H1 & H2 & _).
  split; [apply H1; apply Permutation_sym, Permutation_rev|]. apply H2; by_dec.
Defined.

End Toy.

End PublicConfig.
