(* ===== verification/Server.v ===== *)
(** [cmd/server/main.go]: the routes and the chain of middlewares in front of
    them, and the patterns of [http.ServeMux] as far as the routes use them. *)

From S2P Require Export LuaAuth Delivery FaceMasks Upload.

Local Open Scope Z_scope.

Module Server.
Import Http.

(** ** The requests that arrive *)

(** A request as [net/http] hands it over: every value of its headers, its path as
    it was escaped, and the peer. *)
Record Incoming := mkIncoming {
  i_Method : string;
  i_Path : string;
  i_EscapedPath : string;
  i_Query : Url.Values;
  i_Header : list (string * list string);
  i_Cookies : gmap string string;
  i_RemoteAddr : string
}.

Definition first_values (h : list (string * list string)) : gmap string string :=
  list_to_map (omap (fun kv => pair kv.1 <$> head kv.2) h).

(** What the handlers read of it: the first value of each header. *)
Definition request_of (i : Incoming) : Request :=
  mkRequest (i_Method i) (i_Path i) (i_Query i) (first_values (i_Header i)) (i_Cookies i) "".

(** ** [http.ServeMux] *)

Inductive Handler :=
| HandleUpload | HandleUploadMultiple | HandleFileLink | HandleFile | HandleDelete
| HandleRefreshFaceMasks | HandleConfig | HandleUploadVideo | HandleStreamLink | HandleStreamMaster
| HandleStreamSegment | NotFound.

#[export] Instance Handler_eq : EqDecision Handler.
Proof. solve_decision. Defined.

(** A pattern: its method, empty for any, its segments, and whether it ends in a
    slash. *)
Record pattern := mkPattern {
  pt_method : string;
  pt_segments : list string;
  pt_multi : bool;
  pt_handler : Handler
}.

Definition routes : list pattern := [
  mkPattern "POST" ["upload"] false HandleUpload;
  mkPattern "POST" ["upload-multiple"] false HandleUploadMultiple;
  mkPattern "GET" ["file"; "link"] true HandleFileLink;
  mkPattern "GET" ["file"] true HandleFile;
  mkPattern "DELETE" ["file"] true HandleDelete;
  mkPattern "POST" ["admin"; "face-masks"; "refresh"] false HandleRefreshFaceMasks;
  mkPattern "GET" ["config"] false HandleConfig;
  mkPattern "POST" ["upload-video"] false HandleUploadVideo;
  mkPattern "GET" ["stream"; "link"] true HandleStreamLink;
  mkPattern "GET" ["stream"] true HandleStreamMaster;
  mkPattern "GET" ["stream"; "segment"] true HandleStreamSegment;
  mkPattern "" [] true NotFound
].

(** The segments of a path that starts with a slash, each unescaped. *)
Definition segments (path : string) : list string :=
  (fun s => default s (Url.unescape s)) <$> Split (TrimPrefix path "/") "/"%char.

Definition path_matches (p : pattern) (segs : list string) : bool :=
  if pt_multi p
  then bool_decide (take (length (pt_segments p)) segs = pt_segments p) &&
       (length (pt_segments p) <? length segs)%nat
  else bool_decide (segs = pt_segments p).

(** The most specific pattern: here the one with most segments. *)
Definition longer (p q : option pattern) : option pattern :=
  match p, q with
  | Some p, Some q => if (length (pt_segments p) <? length (pt_segments q))%nat then Some q else Some p
  | Some p, None => Some p
  | None, q => q
  end.
Definition best (method : string) (segs : list string) : option pattern :=
  fold_right longer None
    (Some <$> filter (fun p => pt_method p = method /\ path_matches p segs = true) routes).

(** The patterns of the method, those of GET for a HEAD, and those of any method. *)
Definition match_path (method path : string) : option pattern :=
  let segs := segments path in
  match best method segs with
  | Some p => Some p
  | None =>
      match (if bool_decide (method = "HEAD") then best "GET" segs else None) with
      | Some p => Some p
      | None => best "" segs
      end
  end.

Definition exactMatch (p : option pattern) (path : string) : bool :=
  match p with
  | None => false
  | Some p =>
      negb (pt_multi p) ||
      HasSuffix path "/" &&
      (length (pt_segments p) + 1 =? length (filter (fun c => c = "/"%char) (chars path)))%nat
  end.

Definition cleanPath (p : string) : string :=
  if bool_decide (p = "") then "/" else
  let p := if HasPrefix p "/" then p else "/" +:+ p in
  let np := Clean p in
  if HasSuffix p "/" && negb (bool_decide (np = "/")) then np +:+ "/" else np.

(** A handler, or a redirect to the path as it should be written. *)
Definition mux (method escapedPath : string) : option Handler :=
  let path := cleanPath escapedPath in
  let p := match_path method path in
  if negb (exactMatch p path) && negb (HasSuffix path "/") &&
     exactMatch (match_path method (path +:+ "/")) (path +:+ "/") then None
  else if negb (bool_decide (path = escapedPath)) then None
  else pt_handler <$> p.

(** ** The chain *)

(** What becomes of a request in front of the handlers: an answer there, with its
    status, or the handler it reaches and the request that one sees. *)
Inductive Outcome :=
| Answer (status : Z)
| Reach (h : Handler) (r : Request).

Section chain.
Context `{LuaAuth.LuaVM} `{LuaAuth.Outside} `{Middleware.Limiter}.
Context (EqualFold : string -> string -> bool).

Record Config := mkServerConfig {
  AllowedOrigins : list string;
  AllowedHeaders : list string;
  Keys : list string;
  luaProvider : option LuaAuth.Provider
}.

(** The state in front of the handlers: the visitors of the rate limit and what
    scripts did outside. *)
Record State := mkState {
  visitors : gmap string Middleware.visitor;
  past : list LuaAuth.event
}.

(** A handler: headers so far and request, to headers and outcome. *)
Definition Serve : Type := gmap string string -> Request -> State -> State * (gmap string string * Outcome).

(** The headers a script sees: when the session cookie was put in the place of the
    Authorization header, that one has no other value. *)
Definition header_values (i : Incoming) (r : Request) : list (string * list string) :=
  if bool_decide (Header r "Authorization" = Header (request_of i) "Authorization") then i_Header i
  else ("Authorization", [Header r "Authorization"]) ::
         filter (fun kv => kv.1 <> "Authorization") (i_Header i).

Definition script_of (i : Incoming) (p : LuaAuth.Provider) (s : State) (r : Request)
  : result string bool * list LuaAuth.event :=
  LuaAuth.Authorize p (LuaAuth.buildReqTable r (header_values i r) (i_RemoteAddr i)) (past s).

(** The provider, when it is there and has a script. *)
Definition script (c : Config) : option LuaAuth.Provider :=
  p ← luaProvider c; if LuaAuth.Enabled p then Some p else None.

(** Whether authentication runs the script: there is one, the request is not for
    the public configuration, and no key settled it. *)
Definition runs_script (c : Config) (r : Request) : bool :=
  negb (bool_decide (r_Method r = "GET") && bool_decide (r_Path r = "/config")) &&
  negb (bool_decide (Middleware.extractToken (Middleware.with_cookie r) <> "") &&
        bool_decide (Middleware.extractToken (Middleware.with_cookie r) ∈ Middleware.validKeys (Keys c))).

Definition Auth (c : Config) (i : Incoming) (next : Serve) : Serve := fun h r s =>
  let s' := match script c with
            | Some p => if runs_script c r
                        then mkState (visitors s) (script_of i p s (Middleware.with_cookie r)).2 else s
            | None => s
            end in
  let verdict := (fun p r => (script_of i p s r).1) <$> script c in
  match Middleware.AuthMiddleware (Keys c) verdict r with
  | Ok r => next h r s'
  | Err resp => (s', (<["Content-Type" := "application/json"]> h, Answer (w_Status resp)))
  end.

Definition Limit (i : Incoming) (now : Z) (next : Serve) : Serve := fun h r s =>
  let '(vs, ok) := Middleware.RateLimit (Middleware.extractIP r (i_RemoteAddr i)) now (visitors s) in
  let s := mkState vs (past s) in
  if ok then next h r s else (s, (<["Content-Type" := "application/json"]> h, Answer 429)).

Definition Security (next : Serve) : Serve := fun h r s => next (Middleware.SecurityHeaders h) r s.

(** [PanicRecovery] only acts on a panic, and what is in front of the handlers has
    none. *)
Definition PanicRecovery (next : Serve) : Serve := next.

Definition Cors (c : Config) (next : Serve) : Serve := fun h r s =>
  let '(h, answered) := Middleware.CORS EqualFold (AllowedOrigins c) (AllowedHeaders c) r h in
  if answered then (s, (h, Answer 204)) else next h r s.

Definition Mux (i : Incoming) : Serve := fun h r s =>
  match mux (r_Method r) (i_EscapedPath i) with
  | Some handler => (s, (h, Reach handler r))
  | None => (s, (h, Answer 301))
  end.

Definition wrapped (c : Config) (i : Incoming) (now : Z) : Serve :=
  Middleware.Chain (Mux i) [Cors c; PanicRecovery; Security; Limit i now; Auth c i].

Definition serve (c : Config) (i : Incoming) (now : Z) (s : State) : State * (gmap string string * Outcome) :=
  wrapped c i now ∅ (request_of i) s.

(** * Specification *)

(** How [net/http] makes the two paths of a request. *)
Definition well_parsed (i : Incoming) : Prop :=
  HasPrefix (i_EscapedPath i) "/" = true /\ Url.unescape (i_EscapedPath i) = Some (i_Path i).

(** The session was accepted by the script. *)
Definition accepted (c : Config) (i : Incoming) (s : State) : Prop :=
  exists p, script c = Some p /\ (script_of i p s (Middleware.with_cookie (request_of i))).1 = Ok true.

Definition platform (c : Config) (i : Incoming) : Prop :=
  Middleware.has_key (Keys c) (Middleware.with_cookie (request_of i)).
Definition reached (c : Config) (i : Incoming) (now : Z) (s : State) (h : Handler) (r : Request) : Prop :=
  (serve c i now s).2.2 = Reach h r.

(** * Lemmas *)

(** What a reached handler went through. *)
Lemma reach_inv c i now s h r : reached c i now s h r ->
  mux (r_Method r) (i_EscapedPath i) = Some h /\
  exists vs, Middleware.AuthMiddleware (Keys c)
    ((fun p r => (script_of i p (mkState vs (past s)) r).1) <$> script c) (request_of i) = Ok r.
Proof.
  unfold reached, serve, wrapped. cbn [Middleware.Chain fold_right]. unfold Cors, PanicRecovery, Security, Limit, Auth, Mux.
  destruct (Middleware.CORS _ _ _ _ _) as [hs []]; [done|].
  destruct (Middleware.RateLimit _ _ _) as [vs []]; [|done]. cbn [past].
  destruct (Middleware.AuthMiddleware _ _ _) as [r'|] eqn:EA; [|done].
  destruct (mux _ _) eqn:EM; [|done]. intros [= -> ->]. split; [done|by exists vs].
Qed.

End chain.

(** The public configuration is the only thing behind its path. *)
Lemma unescape_slash s t : Url.unescape s = Some t -> "/"%char ∈ chars s -> "/"%char ∈ chars t.
Proof.
  remember (String.length s) as n eqn:Hn. revert s t Hn.
  induction (lt_wf n) as [n _ IH]. intros [|c s] t Hn HU Hin; [by apply not_elem_of_nil in Hin|].
  cbn [Url.unescape] in HU. cbn [chars] in Hin. case_bool_decide as Hc.
  - destruct s as [|a [|b r]]; [done..|].
    destruct (Url.unhex a) as [x|] eqn:Ha; [|done]. destruct (Url.unhex b) as [y|] eqn:Hb; [|done].
    destruct (Url.unescape r) as [t'|] eqn:Hr; [|done]. injection HU as <-.
    apply list_elem_of_In in Hin. destruct Hin as [?|[->|[->|Hin]]];
      [congruence|by vm_compute in Ha|by vm_compute in Hb|]. apply list_elem_of_In in Hin.
    cbn [chars]. right. eapply (IH (String.length r)); [cbn in Hn; lia|done|exact Hr|exact Hin].
  - destruct (Url.unescape s) as [t'|] eqn:Hs; [|done]. injection HU as <-.
    cbn [chars]. apply elem_of_cons in Hin as [->|Hin]; [left|]. right.
    eapply (IH (String.length s)); [cbn in Hn; lia|done|exact Hs|exact Hin].
Qed.

Lemma mux_public i h : well_parsed i -> i_Path i = "/config" -> mux "GET" (i_EscapedPath i) = Some h ->
  h = HandleConfig.
Proof.
  intros [[x Hx]%HasPrefix_true HU] HP HM. rewrite HP, Hx in HU. change ("/" +:+ x) with (String "/" x) in HU.
  cbn [Url.unescape] in HU. rewrite bool_decide_eq_false_2 in HU by done.
  destruct (Url.unescape x) as [t|] eqn:Ht; [|done]. injection HU as ->.
  assert (HS : segments (i_EscapedPath i) = ["config"]).
  { unfold segments. unfold TrimPrefix. rewrite Hx, CutPrefix_app. cbn [default].
    rewrite Split_no; [cbn; by rewrite Ht|]. intros Hin.
    apply (unescape_slash _ _ Ht) in Hin. revert Hin. by_dec. }
  unfold mux in HM. repeat case_match; [done..|].
  match goal with Hb : negb (bool_decide (cleanPath _ = _)) = false |- _ =>
    apply negb_false_iff, bool_decide_eq_true in Hb; rewrite Hb in HM end.
  unfold match_path in HM. rewrite HS in HM. by vm_compute in HM; simplify_eq.
Qed.

(** ** Properties *)

(** C5. Through the whole chain, from the socket to the handlers: a request reaches a
    handler only with a configured key, or with the script's consent, or by asking
    for the public configuration, which is then all it reaches; and whatever it
    asks for, files are deleted and face masks redrawn only for a key. *)
Theorem credentials_needed `{LuaAuth.LuaVM} `{LuaAuth.Outside} `{Middleware.Limiter}
  `{HK : Grant.Crypto, HL : Cid.CidLib} `{HF : Blur.Float64, HNu : Config.Numbers, HCo : !ImageProc.Codecs}
  `{HCr : MediaAccess.Crops, HCn : !Delivery.Content, HSt : Http.Storage} EqualFold c i now s h r :
  well_parsed i -> reached EqualFold c i now s h r ->
  (platform c i \/ accepted c i s \/ (i_Method i = "GET" /\ i_Path i = "/config" /\ h = HandleConfig)) /\
  (forall e rand t wo, (Delivery.HandleDelete e rand t wo r).1.1 <> e -> platform c i) /\
  (forall srv request w, (FaceMasks.HandleRefreshFaceMasks srv r request w).1 <> w -> platform c i).
Proof.
  intros HW HR. apply reach_inv in HR as (HM & vs & HAu).
  apply Middleware.AuthMiddleware_Ok in HAu; [|done].
  assert (HU : r_UserID r = "api-key" -> platform c i).
  { intros HU. destruct HAu as [[_ ->]|[(_ & HK' & _)|(_ & _ & _ & ->)]]; [done..|exact HK'|done]. }
  split_and!.
  - destruct HAu as [[[HG HP] ->]|[(_ & HK' & _)|(_ & _ & (a & HS & HX) & _)]].
    + right; right. cbn in HG, HP, HM. rewrite HG in HM. split_and!; [done..|]. by eapply mux_public.
    + left. exact HK'.
    + right; left. apply fmap_Some in HS as (p & HS & ->). by exists p.
  - intros e rand t wo HE. apply HU. destruct (decide (r_UserID r = "api-key")) as [|Hn]; [done|].
    destruct HE. unfold Delivery.HandleDelete. by rewrite bool_decide_eq_true_2.
  - intros srv request w HE. apply HU. destruct (decide (r_UserID r = "api-key")) as [|Hn]; [done|].
    destruct HE. unfold FaceMasks.HandleRefreshFaceMasks. by rewrite bool_decide_eq_false_2.
Qed.

(** The budget's key for a token. *)
Definition token_key `{Grant.Crypto} (token : string) : string :=
  Base64.hex_encode (String.substring 0 16 (Grant.sha256 token)).

(** A session chooses the budget it is charged to: of two Authorization headers
    the script is shown the last, while the key check and the upload budget read
    the first, so with a new first header for every upload a session the script
    accepts by its last one is never charged twice under one key. *)
Theorem second_header_unmetered `{LuaAuth.LuaVM} `{LuaAuth.Outside} `{Middleware.Limiter} `{HK : Grant.Crypto}
  EqualFold c i other real rest now s h r :
  i_Header i = ("Authorization", ["Bearer " +:+ other; "Bearer " +:+ real]) :: rest -> other <> "" ->
  reached EqualFold c i now s h r ->
  LuaAuth.t_headers (LuaAuth.buildReqTable r (header_values i r) (i_RemoteAddr i)) !! "Authorization"
    = Some ("Bearer " +:+ real) /\
  Middleware.extractToken r = other /\ Upload.uploadSessionKey r = token_key other.
Proof.
  intros HI HO HR. apply reach_inv in HR as (_ & vs & HAu).
  assert (Hh : Header (request_of i) "Authorization" = "Bearer " +:+ other).
  { unfold Header, request_of, first_values. cbn [r_Headers]. rewrite HI. cbn. by rewrite lookup_insert_eq. }
  assert (Hq : Middleware.with_cookie (request_of i) = request_of i).
  { unfold Middleware.with_cookie. by rewrite Hh, bool_decide_eq_false_2. }
  apply Middleware.AuthMiddleware_Ok in HAu; [|done]. rewrite Hq in HAu.
  assert (Hr : r_Headers r = r_Headers (request_of i)).
  { by destruct HAu as [[_ ->]|[(_ & _ & ->)|(_ & _ & _ & ->)]]. }
  assert (Hr' : Header r "Authorization" = "Bearer " +:+ other) by (unfold Header; rewrite Hr; exact Hh).
  assert (HB : HasPrefix ("Bearer " +:+ other) "Bearer " = true) by (apply HasPrefix_true; eauto).
  assert (HT : TrimPrefix ("Bearer " +:+ other) "Bearer " = other) by (unfold TrimPrefix; by rewrite CutPrefix_app).
  split_and!.
  - unfold header_values. rewrite Hr', Hh, bool_decide_eq_true_2, HI by done. cbn. by rewrite lookup_insert_eq.
  - unfold Middleware.extractToken. by rewrite Hr', HB, HT.
  - unfold Upload.uploadSessionKey, token_key. rewrite Hr', HB, HT. by rewrite bool_decide_eq_false_2.
Qed.

(** * Examples *)

Module Toy.

#[local] Existing Instance Grant.Toy.crypto.
#[local] Existing Instance Cid.Toy.cidlib.
#[local] Existing Instance MediaAccess.Toy.crops.
#[local] Existing Instance MediaAccess.Toy.storage.
#[local] Existing Instance Blur.Toy.fixed.
#[local] Existing Instance ImageProc.Toy.numbers.
#[local] Existing Instance ImageProc.Toy.codecs.
#[local] Existing Instance FaceMasks.Toy.content.

(** A script that knows one session, a network it does not use, and a bucket that
    is never empty. *)
#[local] Instance vm : LuaAuth.LuaVM := {
  LuaAuth.proto := unit;
  LuaAuth.Compile _ := Some tt;
  LuaAuth.Run _ t := LuaAuth.Finished (LuaAuth.Returned
    (Some (bool_decide (LuaAuth.t_headers t !! "Authorization" = Some "Bearer s3ss10n"))))
}.
#[local] Instance outside : LuaAuth.Outside := LuaAuth.Toy.outside false.
#[local] Instance limiter : Middleware.Limiter := {|
  Middleware.bucket := unit; Middleware.NewLimiter := tt; Middleware.Allow _ b := (b, true) |}.

Definition EqualFold (s t : string) : bool := bool_decide (s = t).
Definition server : Config :=
  mkServerConfig ["https://app.example"] ["Authorization"] ["key"] (Some (LuaAuth.NewProvider "script" 0 [])).
Definition idle : State := mkState ∅ [].

Definition request (method path : string) (headers : list (string * list string)) : Incoming :=
  mkIncoming method path path [] headers ∅ "203.0.113.7:999".

Definition upload (first : string) : Incoming :=
  request "POST" "/upload" [("Authorization", ["Bearer " +:+ first; "Bearer s3ss10n"])].

(** Where requests end up. *)
Example routed :
  (fun i => (serve EqualFold server i 0 idle).2.2) <$>
    [ request "OPTIONS" "/file/x" [];
      request "GET" "/file/x" [];
      request "GET" "/file//x" [("X-Api-Key", ["key"])];
      request "DELETE" "/nothing" [("X-Api-Key", ["key"])] ] =
  [ Answer 204; Answer 401; Answer 301;
    Reach NotFound (Middleware.with_user "api-key" (request_of (request "DELETE" "/nothing" [("X-Api-Key", ["key"])]))) ].
Proof. by_vm. Qed.

Definition config_request : Incoming := request "GET" "/config" [].

Lemma credentials_needed_witness :
  reached EqualFold server config_request 0 idle HandleConfig (request_of config_request) /\
  (platform server config_request \/ accepted server config_request idle \/
   (i_Method config_request = "GET" /\ i_Path config_request = "/config" /\ HandleConfig = HandleConfig)).
Proof.
  assert (HR : reached EqualFold server config_request 0 idle HandleConfig (request_of config_request))
    by (unfold reached; by_vm).
  split; [exact HR|]. refine (proj1 (credentials_needed EqualFold server config_request 0 idle _ _ _ HR)).
  split; by_vm.
Defined.

Lemma second_header_unmetered_witness :
  Upload.uploadSessionKey (Middleware.with_user "lua-auth" (request_of (upload "a"))) = token_key "a" /\
  Upload.uploadSessionKey (Middleware.with_user "lua-auth" (request_of (upload "b"))) = token_key "b" /\
  token_key "a" <> token_key "b".
Proof.
  assert (HR : forall n, reached EqualFold server (upload n) 0 idle HandleUpload
            (Middleware.with_user "lua-auth" (request_of (upload n))) -> n <> "" ->
          Upload.uploadSessionKey (Middleware.with_user "lua-auth" (request_of (upload n))) = token_key n).
  { intros n Hn Hne. refine (proj2 (proj2 (second_header_unmetered EqualFold server (upload n) n "s3ss10n" []
      0 idle _ _ eq_refl Hne Hn))). }
  split; [apply HR; [unfold reached; by_vm|done]|].
  split; [apply HR; [unfold reached; by_vm|done]|]. by_dec.
Defined.

End Toy.

End Server.
