(* ===== verification/Main.v ===== *)
(** [main] of [cmd/server/main.go]: from the environment and the machine ([Startup]) to
    the chain in front of the handlers ([Server]), and what the service lets in given
    how it was started. *)

From S2P Require Export Startup Server.

Local Open Scope Z_scope.

Module Main.
Import Http Server.

Section main.
Context `{HK : Grant.Crypto, HL : Cid.CidLib, HKu : Cluster.Kubo, HF : Blur.Float64, HNu : Config.Numbers}.
Context `{HVM : LuaAuth.LuaVM}.

(** What the process is given besides the machine of [NewHandler]: its environment,
    whether the diagnostic address can be listened on, and the files it can read. *)
Record Process := mkProcess {
  getenv : string -> string;
  listens : bool;
  readFile : string -> option string
}.

(** The script's provider; [Err] is the fatal end of the process. *)
Definition lua_provider (ps : Process) (auth : Config.AuthConfig) : result string (option LuaAuth.Provider) :=
  if bool_decide (Config.LuaScript auth = "") then Ok None else
  match readFile ps (Config.LuaScript auth) with
  | None => Err "failed to read Lua script"
  | Some script =>
      Ok (Some (LuaAuth.NewProvider script (Config.LuaTimeoutMs auth)
        [LuaAuth.ArgInt (Config.LuaMaxMemoryMB auth);
         LuaAuth.ArgMap (LuaAuth.env_whitelist (getenv ps) (Config.LuaEnvWhitelist auth))]))
  end.

(** What is listening when [main] has come to it: the handlers, the chain in front of
    them, the port, and whether the diagnostic listener is up. *)
Record Service := mkService {
  handlers : Startup.Handler;
  chain : Server.Config;
  port : string;
  diagnostics : bool
}.

Definition main (m : Startup.Machine) (ps : Process) : result string Service :=
  let diagnostics := bool_decide (getenv ps "IAMFREE_DIAGNOSTICS" = "1") in
  if diagnostics && negb (listens ps) then Err "listen" else
  let cfg := Config.Load (getenv ps) in
  match Startup.NewHandler m cfg with
  | Err err => Err err
  | Ok handlers =>
      match lua_provider ps (Config.Auth cfg) with
      | Err err => Err err
      | Ok provider =>
          let port := getenv ps "SERVER_PORT" in
          Ok (mkService handlers
            (mkServerConfig (Config.CORSOrigins cfg) (Config.CORSHeaders cfg) (Config.APIKeys cfg) provider)
            (if bool_decide (port = "") then Config.ServerPort cfg else port) diagnostics)
      end
  end.

(** * Lemmas *)

Lemma main_Ok m ps sv : main m ps = Ok sv ->
  let cfg := Config.Load (getenv ps) in
  Startup.NewHandler m cfg = Ok (handlers sv) /\ Keys (chain sv) = Config.APIKeys cfg /\
  lua_provider ps (Config.Auth cfg) = Ok (luaProvider (chain sv)) /\
  (diagnostics sv = true -> listens ps = true).
Proof.
  unfold main. destruct (_ && _) eqn:HD; [done|].
  destruct (Startup.NewHandler _ _) as [h|]; [|done].
  destruct (lua_provider _ _) as [provider|] eqn:HP; [|done]. intros [= <-]. cbn. split_and!; [done..|].
  intros Hd. rewrite Hd in HD. by destruct (listens ps).
Qed.

Lemma lua_provider_script ps auth sc : lua_provider ps auth = Ok sc ->
  (Config.LuaScript auth = "" -> sc = None) /\
  forall p, sc = Some p -> readFile ps (Config.LuaScript auth) = Some (LuaAuth.p_script p) /\
    forall key, is_Some (default ∅ (LuaAuth.envWhitelist p) !! key) ->
      key ∈ Config.nonempty_parts (Config.LuaEnvWhitelist auth).
Proof.
  unfold lua_provider. case_bool_decide as HE; [intros [= <-]; done|].
  destruct (readFile _ _) as [script|]; [|done]. intros [= <-]. split; [done|]. intros p [= <-]. split; [done|].
  cbn. unfold LuaAuth.env_whitelist, Config.nonempty_parts. generalize (Split (Config.LuaEnvWhitelist auth) ","%char).
  intros l key. rewrite list_elem_of_filter, list_elem_of_fmap.
  assert (HG : forall w : gmap string string, is_Some (foldl (fun w key => let k := TrimSpace key in
      if bool_decide (k = "") then w else <[k := getenv ps k]> w) w l !! key) ->
    is_Some (w !! key) \/ key <> "" /\ exists y, key = TrimSpace y /\ y ∈ l).
  { induction l as [|x l IH]; intros w; cbn [foldl]; [by left|]. intros [Hw|(Hne & y & -> & Hy)]%IH.
    - revert Hw. cbn zeta. case_bool_decide as Hx; [by left|]. destruct (decide (TrimSpace x = key)) as [<-|Hne].
      + intros _. right. split; [done|]. exists x. split; [done|]. left.
      + rewrite lookup_insert_ne by done. by left.
    - right. split; [done|]. exists y. split; [done|]. by right. }
  intros [Hw|HX]%HG; [|done]. rewrite lookup_empty in Hw. by destruct Hw.
Qed.

End main.

(** ** Properties *)

(** C6. A service that came up lets in what its environment says: a script that is
    configured was read, or the process ended; a request reaches a handler only with
    one of the keys of [API_KEYS], or with the consent of that script - which can read
    no variable that [AUTH_LUA_ENV_WHITELIST] does not list - or as a request for the
    public configuration; and where neither is set, that is all anyone reaches. *)
Theorem environment_lets_in `{HK : Grant.Crypto, HL : Cid.CidLib, HKu : Cluster.Kubo, HF : Blur.Float64, HNu : Config.Numbers}
  `{HVM : LuaAuth.LuaVM, HOu : LuaAuth.Outside, HLi : Middleware.Limiter} EqualFold m ps sv i now s h r :
  main m ps = Ok sv -> well_parsed i -> reached EqualFold (chain sv) i now s h r ->
  let public := i_Method i = "GET" /\ i_Path i = "/config" /\ h = HandleConfig in
  let presented := Middleware.extractToken (Middleware.with_cookie (request_of i)) in
  (public \/
   (presented <> "" /\ exists k, k ∈ Config.nonempty_parts (getenv ps "API_KEYS") /\ TrimSpace k = presented) \/
   (exists p, luaProvider (chain sv) = Some p /\ LuaAuth.p_script p <> "" /\
      readFile ps (getenv ps "AUTH_LUA_SCRIPT") = Some (LuaAuth.p_script p) /\
      (forall key, is_Some (LuaAuth.env_get p key) -> key ∈ Config.nonempty_parts
         (Config.getEnv (getenv ps) "AUTH_LUA_ENV_WHITELIST" "AUTH_SERVICE_URL")) /\
      accepted (chain sv) i s)) /\
  (getenv ps "API_KEYS" = "" -> getenv ps "AUTH_LUA_SCRIPT" = "" -> public).
Proof.
  intros (_ & HKs & HP & _)%main_Ok HW (HM & vs & HAu)%reach_inv public presented.
  apply lua_provider_script in HP as [HNo HYes].
  assert (HCases : public \/ platform (chain sv) i \/ accepted (chain sv) i s).
  { apply Middleware.AuthMiddleware_Ok in HAu; [|done].
    destruct HAu as [[[HG HPa] ->]|[(_ & HK' & _)|(_ & _ & (a & HS & HX) & _)]].
    - left. cbn in HG, HPa, HM. rewrite HG in HM. split_and!; [done..|]. by eapply mux_public.
    - right; left. exact HK'.
    - right; right. apply fmap_Some in HS as (p & HS & ->). by exists p. }
  assert (HKeys : platform (chain sv) i -> getenv ps "API_KEYS" <> "" /\ presented <> "" /\
    exists k, k ∈ Config.nonempty_parts (getenv ps "API_KEYS") /\ TrimSpace k = presented).
  { intros [Hne HE]. rewrite HKs in HE. cbn [Config.APIKeys Config.Load] in HE. unfold Config.getEnvSlice in HE.
    case_bool_decide; [by apply Exists_nil in HE|]. apply Exists_exists in HE. done. }
  assert (HScript : accepted (chain sv) i s -> exists p, luaProvider (chain sv) = Some p /\ LuaAuth.p_script p <> "").
  { intros (p & HS & _). unfold script in HS. destruct (luaProvider (chain sv)) as [p'|]; [|done].
    cbn in HS. destruct (LuaAuth.Enabled p') eqn:HEn; [|done]. injection HS as ->.
    exists p. split; [done|]. unfold LuaAuth.Enabled in HEn. by apply negb_true_iff, bool_decide_eq_false in HEn. }
  split.
  - destruct HCases as [?|[HC%HKeys|HC]]; [by left|right; left; apply HC|right; right].
    destruct (HScript HC) as (p & Hp & Hne). destruct (HYes p Hp) as [HRd HEnv]. exists p. split_and!; try done.
    + cbn [Config.Auth Config.Load Config.LuaScript] in HRd. unfold Config.getEnv in HRd.
      by case_bool_decide as HE; [rewrite HE|].
    + intros key Hk. apply HEnv. unfold LuaAuth.env_get in Hk. by destruct (_ !! key).
  - intros HAK HLS. destruct HCases as [?|[HC%HKeys|HC]]; [done|by destruct HC|].
    destruct (HScript HC) as (p & Hp & _). rewrite HNo in Hp; [done|].
    cbn [Config.Auth Config.Load Config.LuaScript]. unfold Config.getEnv. by rewrite HLS, bool_decide_eq_true_2.
Qed.

(** ** Witnesses *)
Module Toy.
#[local] Existing Instance Grant.Toy.crypto.
#[local] Existing Instance Cid.Toy.cidlib.
#[local] Existing Instance Cluster.Toy.kubo.
#[local] Existing Instance Blur.Toy.fixed.
#[local] Existing Instance Delivery.Toy.numbers.
#[local] Existing Instance Server.Toy.vm.
#[local] Existing Instance Server.Toy.outside.
#[local] Existing Instance Server.Toy.limiter.

(** A script on disk, and no other credential. *)
Definition process (script : string) : Process :=
  mkProcess (fun key => if bool_decide (key = "AUTH_LUA_SCRIPT") then script else "") true
    (fun path => if bool_decide (path = "/auth.lua") then Some "script" else None).
Definition service (script : string) : Service :=
  match main Startup.Toy.machine (process script) with Ok sv => sv | Err _ =>
    mkService (Startup.Toy.handler "") (mkServerConfig [] [] [] None) "" false end.
Definition session : Incoming := Server.Toy.upload "s3ss10n".

Lemma environment_lets_in_witness :
  main Startup.Toy.machine (process "/none.lua") = Err "failed to read Lua script" /\
  reached Server.Toy.EqualFold (chain (service "/auth.lua")) session 0 Server.Toy.idle HandleUpload
    (Middleware.with_user "lua-auth" (request_of session)) /\
  (exists p, luaProvider (chain (service "/auth.lua")) = Some p /\
     readFile (process "/auth.lua") "/auth.lua" = Some (LuaAuth.p_script p)) /\
  ~ reached Server.Toy.EqualFold (chain (service "")) session 0 Server.Toy.idle HandleUpload
      (Middleware.with_user "lua-auth" (request_of session)).
Proof.
  split; [by_vm|].
  assert (HM : forall script, script = "" \/ script = "/auth.lua" ->
    main Startup.Toy.machine (process script) = Ok (service script)) by (intros script [->| ->]; by_vm).
  assert (HW : well_parsed session) by (split; by_vm).
  assert (HR : reached Server.Toy.EqualFold (chain (service "/auth.lua")) session 0 Server.Toy.idle HandleUpload
    (Middleware.with_user "lua-auth" (request_of session))) by (unfold reached; by_vm).
  split; [exact HR|]. split.
  - destruct (proj1 (environment_lets_in Server.Toy.EqualFold _ _ _ _ _ _ _ _ (HM "/auth.lua" (or_intror eq_refl)) HW HR))
      as [(HG & _)|[(_ & k & Hk & _)|(p & Hp & _ & HRd & _)]].
    + discriminate HG.
    + vm_compute in Hk. by apply not_elem_of_nil in Hk.
    + exists p. split; [exact Hp|exact HRd].
  - intros HR'. destruct (proj2 (environment_lets_in Server.Toy.EqualFold _ _ _ _ _ _ _ _ (HM "" (or_introl eq_refl)) HW HR')
      eq_refl eq_refl) as (HG & _). discriminate HG.
Defined.
End Toy.

End Main.
